(* ===== verification/_CoqProject ===== *)
-Q . S2P
Prelude.v
Externals.v
Utf8.v
Core.v
Frame.v
Payloads.v
Message.v
MemoryStore.v
StoreSpec.v
ServerState.v
Handler.v
Session.v
SessionFacts.v
SessionTalk.v
SessionProps.v
SessionWitness.v
Tracker.v
Client.v
Verbs.v
ClientFacts.v
ClientProps.v
ClientSafety.v
Negotiation.v
NegotiationProps.v
Cli.v
CliProps.v
Replies.v
EndToEnd.v
EndToEndWitness.v
Registration.v
Service.v
Credits.v
ServiceFacts.v
Link.v
LinkPairs.v
LinkProps.v
Programs.v
ProgramFacts.v
ProgramProps.v
ProgramWitness.v
Kv.v
KvTable.v
KvProps.v
KvLink.v
KvWitness.v
Cancel.v
Display.v
Api.v
ApiProps.v
ApiWitness.v
ApiTasks.v
ApiTasksProps.v
ApiTasksWitness.v
Mains.v
MainProps.v
MainWitness.v
