(* ===== verification/Prelude.v ===== *)
(** * RDoWS: a verification of RDMA over WebSockets

    RDoWS carries RDMA verbs over WebSocket connections.  The repository has four
    crates: [rdows-core] (the wire format), [rdows-server] (sessions that hold
    registered memory and serve remote reads, writes, atomics and sends),
    [rdows-client] (the verbs) and [rdows-kv] (a key-value store kept in remote
    memory).  This library models their logic as executable functions and proves
    what they promise to each other.

    ** How the code is modelled

    A Rust function is a function of the same name ([Type_method] for a method whose
    name is not unique).  A function that mutates its [&mut] arguments, returns
    [Result] or may panic lives in the monad [M S E A] below: [Ok], [Err] or [Panic]
    with the new state.  Integers are [Z] with their width written out: [wrap] for
    casts and [wrapping_*], [add_ovf] and [sub_ovf] for the plain operators, which
    panic or wrap according to the class [Profile] (debug or release build).  Bytes
    are [Strings.Byte.byte], strings the list of their UTF-8 bytes, slices and
    copies are [slice] and [slice_copy] with [None] for the panic, and a [HashMap]
    is a [gmap].  Logging is omitted.

    Code outside the repository is a parameter ([Externals.v]): the buffer readers
    and writers of [bytes] ([BytesCrate] with its documented laws), the random source
    ([OsRng]), the outcome of WebSocket sends ([WsSinkEnv]), the clock ([Clock]), with
    the documented default limit of 16 MiB on a WebSocket frame ([over_ws]); and, where they are used, the header map of [http] with the outcomes of the
    network ([Negotiation.v]), the file system with the TLS library ([Cli.v]), and
    the listening sockets and the certificate generator of a machine ([Host] in
    [Mains.v], whose laws [LoopbackLaws] say that a connection to a loopback address
    reaches the program that listens there).  [Concrete] instantiates the first four;
    the witnesses of the theorems run on it.

    ** The files, bottom up

    - [Prelude.v]: the monad and its rules ([post], [steps], the [rdows_steps] hint
      database), machine integers, slices, big-endian integers, decimal printing.
    - [Externals.v]: the interfaces above; the codec automation ([put_laws],
      [decode_step]).  [Utf8.v]: [String::from_utf8_lossy] of the standard library.
    - [Core.v]: constants, [opcode.rs], [error.rs], [memory.rs].  [Frame.v]:
      [frame.rs] and [queue.rs].  [Payloads.v] and [Message.v]: [message.rs].
    - [MemoryStore.v]: [memory_store.rs] and its invariant [store_ok].  [StoreSpec.v]:
      the abstract store (a map from remote keys to byte arrays, with the set of
      keys ever issued) and the refinement.
    - [ServerState.v], [Handler.v], [Session.v]: [session.rs] and [handler.rs]; a
      session is a fold over the items its WebSocket stream yields, and [World] is
      the session, the frames submitted to the sink, and the draws and clock
      readings made so far.  [SessionFacts.v]: what handling one message does.
      [SessionTalk.v]: the conversation of a session, each message with the store
      operation it asks for and the replies that report the result.
      [SessionProps.v]: the theorems; [SessionWitness.v]: concrete sessions.
    - [Tracker.v]: [handle_connection] and the per-address session table of
      [rdows-server/src/lib.rs], as a step relation over interleaved tasks.
    - [Client.v], [Verbs.v]: [completion.rs], [connection.rs], [lib.rs] and [verbs.rs]
      of the client, against any peer that implements the class [Peer].
      [ClientFacts.v], [ClientProps.v], [ClientSafety.v]: what holds against every
      peer.
    - [Negotiation.v]: the steps of [connect] before the protocol starts and
      [check_subprotocol] of the server; [NegotiationProps.v]: that they agree.
    - [Cli.v]: the command lines of the three binaries and the functions that build
      their TLS configurations; [CliProps.v]: their theorems.
    - [Replies.v]: how a session answers each message, refusals included.
    - [EndToEnd.v]: the server session as an instance of [Peer], behind a WebSocket
      that refuses frames over the limit, and the verbs over an established connection
      ([linked]).  [Registration.v]: memory registration over it.
      [EndToEndWitness.v]: a concrete connection.
    - [Service.v]: the specification of a connection as an application sees it
      ([serve], one rule per outcome of a call) and applications that choose their
      calls from earlier results.  [Credits.v]: a CREDIT_UPDATE that waits in the inbox
      changes nothing that a call returns.  [Link.v] and [LinkPairs.v]: each verb over
      a connection simulates its rule; [LinkProps.v]: whole runs.  [ServiceFacts.v]:
      what a program can conclude from the specification.
    - [Programs.v]: the demonstration client ([rdows-client/src/main.rs]) and the
      programs of [rdows-client/examples/].  [ProgramFacts.v]: triples for calls that
      must succeed; [ProgramProps.v] and [ProgramWitness.v]: the programs succeed.
    - [Kv.v]: [kv.rs] and the registrations of [main.rs].  [KvTable.v]: the slot
      format and linear probing on a table.  [KvProps.v]: the store against the
      class [SlotMemory], what it needs of remote memory.  [KvLink.v]: the server's
      memory behind a connection is such a [SlotMemory]; the program's start-up.
      [KvWitness.v]: the store on the concrete instances.  [Cancel.v]: a request
      whose task is dropped while it waits for the server.
    - [Display.v]: the texts of the errors.  [Api.v]: the HTTP handlers of [api.rs].
      [ApiProps.v]: the interface against the table and against a map;
      [ApiWitness.v]: a sequence of requests.
    - [ApiTasks.v]: the handlers as tasks that share the store behind its mutex, as
      a step relation; [ApiTasksProps.v]: they are linearizable and finish;
      [ApiTasksWitness.v]: two tasks in an interleaving.
    - [Mains.v]: the [main] functions of the server, the client, its examples and the
      store, on a machine where they start listeners and connect to them.
      [MainProps.v]: the programs work together; [MainWitness.v]: a concrete machine.

    ** What the theorems show

    - The codec: messages survive encoding and decoding, whatever is accepted is
      well formed, and the inputs on which [decode] panics are exactly known.
    - The memory store refines the abstract store; remote keys are never reissued
      and are dead after deregistration; writes are read back, atomics accumulate;
      the one request that panics is known, with its three causes.
    - Sessions: the frames they send, the store operations that their replies report,
      the SENDs they complete and the causes of a panic, for every stream of input
      (the first three for fewer than 2^32 - 2 MR_REGs, beyond which the counter of
      local keys overflows); the checks on
      sequence numbers and sizes; each kind of request on its success path and on
      the refusals that matter; the behaviours that differ from the RFC.
    - Connections: the session table counts what it should under every interleaving,
      and leaks the slot of a task that panics.
    - The client: completions, credits, the causes of a panic, and the receive loop as
      one pass over what has arrived, against any peer.
    - Opening a connection: the server accepts exactly the upgrades that offer the
      subprotocol, the two sides agree, and the client sends nothing before TLS and
      the echo; certificates go unverified only with [--insecure].
    - Client and server together: every run of an application whose calls satisfy
      [request_ok] (types, address ranges below 2^64, messages within the negotiated
      size and one frame) is a run of the service specification up to the first Write
      refused for its key, every call returns, and credits are granted back before
      they run out.  After a Write refused for its key the two sides are out of step,
      and a message of the full negotiated size does not fit a frame and ends the
      session.  The demonstration programs succeed.
    - The key-value store: it implements linear probing over any slot memory, and
      the whole stack from the handshake up provides that slot memory.  The HTTP
      interface answers any sequence of requests as the table does; it is a map of
      64 keys as long as nothing is deleted, and loses keys when something is.
    - Concurrent requests: under every interleaving of the HTTP tasks, the responses
      are those of the table for the order in which the tasks got the mutex, and every
      task that runs ends, as long as no client goes away while its task works under
      the mutex.  A task dropped then, while it waits for a reply, leaves the reply
      behind, and the next request takes it for its own ([Cancel.v]).
    - Whole programs: server and client, each example, and the store in its embedded
      and its remote mode start, connect over TLS and do what they are for.

    ** Bounds and fuel

    [generate_rkey] draws at most 1000 keys, as the code does.  [recv_app_message]
    gets the length of the inbox plus one as fuel, which is enough because every
    turn consumes an item ([recv_app_turn_shrinks]); a receive with nothing left to
    read is the stop [Waiting].  [dec_display] produces up to 20 digits and
    [hex_digits] up to 16, enough for 64 bits; [lossy] and [chunks] get the length
    of their input, since every step consumes at least one byte.  The loops of the
    key-value store run 64 turns, as in the code.  The theorems on the store count
    work requests, because [next_wrid] is a 64-bit counter that must not overflow.
    [parse_args] gets the number of arguments as fuel ([parse_args_terminates]).
    [settled] counts the calls a connection is good for, because local keys are a
    32-bit counter.  [running] counts registrations, for the limits of the server.
    The theorems on HTTP requests are for fewer than 2^57 of them, each of which
    makes at most 64 + 1 work requests.  The interleavings of HTTP tasks are of any
    length; [sn] (strong normalisation) says that the tasks end.

    ** What is not modelled

    Sockets, TLS and the HTTP upgrade themselves, the routing and JSON of the HTTP
    framework, the user interface of [rdows-kv], console output, logging and tests:
    they are calls of third-party libraries, or output only.  Client and server are
    coupled by messages in order without loss, as a WebSocket connection is; a
    connection that breaks is modelled on each side on its own ([Session.v] for every
    stream of input, [Client.v] for every peer).  The tasks of [ApiTasks.v] may be
    dropped at any time; of one dropped at its work nothing is said there of the store
    it leaves, so the theorems assume there is none.  What it leaves is modelled in
    [Cancel.v] for a lookup that waits for its RDMA Read.  Applications of [Link.v]
    stop after a write that was refused for its key, since the two sides are out of
    step from there on, and do not call [set_send_credits], which only tests use.  The
    accept loop of [run_server] is in [Tracker.v]; the programs of [Mains.v] reach a
    server through the laws of [Host]. *)

From stdpp Require Export base tactics numbers list gmap strings.
From Stdlib Require Export ZArith Lia.
From Stdlib Require Export Strings.Byte.

#[global] Open Scope Z_scope.

(** ** Outcomes and the effect monad *)

(** What a call of a Rust function can do: return [Ok] or [Err] with the new
    value of the state it mutates, or panic (the unwinding then drops the
    state). *)
Inductive outcome (S E A : Type) : Type :=
| Ok (a : A) (s : S)
| Err (e : E) (s : S)
| Panic.
Arguments Ok {S E A} a s.
Arguments Err {S E A} e s.
Arguments Panic {S E A}.

(** A function with an [&mut S] argument, error type [E] and value type [A]. *)
Definition M (S E A : Type) : Type := S → outcome S E A.

#[export] Instance M_ret {S E} : MRet (M S E) := λ A a s, Ok a s.
#[export] Instance M_bind {S E} : MBind (M S E) := λ A B f m s,
  match m s with
  | Ok a s' => f a s'
  | Err e s' => Err e s'
  | Panic => Panic
  end.

Definition throw {S E A} (e : E) : M S E A := λ s, Err e s.
Definition panic {S E A} : M S E A := λ _, Panic.
Definition getS {S E} : M S E S := λ s, Ok s s.
Definition modifyS {S E} (f : S → S) : M S E unit := λ s, Ok tt (f s).

(** [opt.ok_or(e)?], and an [Option] whose [None] is a panic. *)
Definition ok_or {S E A} (o : option A) (e : E) : M S E A :=
  match o with Some a => mret a | None => throw e end.
Definition or_panic {S E A} (o : option A) : M S E A :=
  match o with Some a => mret a | None => panic end.

(** A call on one field of the state: [get] reads the field, [set] stores its
    new value back. *)
Definition zoom {S T E A} (get : S → T) (set : T → S → S) (m : M T E A) : M S E A :=
  λ s, match m (get s) with
       | Ok a t => Ok a (set t s)
       | Err e t => Err e (set t s)
       | Panic => Panic
       end.

(** [match call() { Ok(..) => .., Err(..) => .. }]: the error becomes a value. *)
Definition attempt {S E E' A} (m : M S E A) : M S E' (E + A) :=
  λ s, match m s with
       | Ok a s' => Ok (inr a) s'
       | Err e s' => Ok (inl e) s'
       | Panic => Panic
       end.

(** The value of a call that is not interested in the final state. *)
Definition value_of {S E A} (o : outcome S E A) : option (E + A) :=
  match o with Ok a _ => Some (inr a) | Err e _ => Some (inl e) | Panic => None end.

(** *** Reasoning about effects *)

(** [post m Q s]: if [m] returns from [s], its result and final state satisfy [Q]. *)
Definition post {S E A} (m : M S E A) (Q : E + A → S → Prop) (s : S) : Prop :=
  match m s with
  | Ok a s' => Q (inr a) s'
  | Err e s' => Q (inl e) s'
  | Panic => True
  end.

(** [steps R m]: whatever [m] returns, the final state is [R]-related to the
    initial one.  With a preorder [R] this composes along binds, which is how
    frame conditions are proved. *)
Definition steps {S E A} (R : S → S → Prop) (m : M S E A) : Prop :=
  ∀ s, post m (λ _ s', R s s') s.

Lemma post_mono {S E A} (m : M S E A) (Q Q' : E + A → S → Prop) s :
  post m Q s → (∀ r s', Q r s' → Q' r s') → post m Q' s.
Proof. unfold post. intros Hm HQ. destruct (m s); auto. Qed.

Section post.
Context {S E A : Type}.
Implicit Types (m : M S E A) (Q : E + A → S → Prop).

Lemma post_bind {B} (m : M S E B) (k : B → M S E A) Q s :
  post m (λ r s', match r with inl e => Q (inl e) s' | inr b => post (k b) Q s' end) s →
  post (m ≫= k) Q s.
Proof. unfold post, mbind, M_bind. by destruct (m s). Qed.
Lemma post_ret (a : A) Q s : Q (inr a) s → post (mret a) Q s.
Proof. done. Qed.
Lemma post_throw (e : E) Q s : Q (inl e) s → post (throw e) Q s.
Proof. done. Qed.
(** A call framed by [R], then the rest. *)
Lemma post_steps_bind {B} (R : S → S → Prop) (m : M S E B) (k : B → M S E A) Q s :
  steps R m → (∀ e s', R s s' → Q (inl e) s') → (∀ b s', R s s' → post (k b) Q s') →
  post (m ≫= k) Q s.
Proof.
  intros Hm He Hk. apply post_bind. eapply post_mono; [apply Hm|]. intros [e|b] s'; auto.
Qed.
End post.

Section steps.
Context {S E : Type} (R : S → S → Prop) `{!PreOrder R}.

Lemma steps_ret {A} (a : A) : steps R (mret a : M S E A).
Proof using Type*. intros s. cbn. reflexivity. Qed.
Lemma steps_throw {A} (e : E) : steps R (throw e : M S E A).
Proof using Type*. intros s. cbn. reflexivity. Qed.
Lemma steps_panic {A} : steps R (panic : M S E A).
Proof using Type. intros s. exact I. Qed.
Lemma steps_getS : steps R (getS : M S E S).
Proof using Type*. intros s. cbn. reflexivity. Qed.
Lemma steps_modifyS (f : S → S) : (∀ s, R s (f s)) → steps R (modifyS f : M S E unit).
Proof using Type. intros H s. apply H. Qed.
Lemma steps_bind {A B} (m : M S E A) (k : A → M S E B) :
  steps R m → (∀ a, steps R (k a)) → steps R (m ≫= k).
Proof using Type*.
  intros Hm Hk s. eapply post_steps_bind; [apply Hm|done|]. intros a s' Hs.
  eapply post_mono; [apply Hk|]. intros r s'' Hs'. by etransitivity.
Qed.
Lemma steps_ok_or {A} (o : option A) (e : E) : steps R (ok_or o e : M S E A).
Proof using Type*. destruct o; [apply steps_ret|apply steps_throw]. Qed.
Lemma steps_or_panic {A} (o : option A) : steps R (or_panic o : M S E A).
Proof using Type*. destruct o; [apply steps_ret|apply steps_panic]. Qed.
End steps.

Create HintDb rdows_steps.
#[export] Hint Resolve steps_ret steps_throw steps_panic steps_getS steps_bind
  steps_ok_or steps_or_panic : rdows_steps.

(** Executing one bind whose first call is known. *)
Lemma bind_Ok {S E A B} (m : M S E A) (k : A → M S E B) s a s' :
  m s = Ok a s' → (m ≫= k) s = k a s'.
Proof. intros Hm. unfold mbind, M_bind. by rewrite Hm. Qed.
Lemma bind_Err {S E A B} (m : M S E A) (k : A → M S E B) s e s' :
  m s = Err e s' → (m ≫= k) s = Err e s'.
Proof. intros Hm. unfold mbind, M_bind. by rewrite Hm. Qed.
Lemma bind_Panic {S E A B} (m : M S E A) (k : A → M S E B) s :
  m s = Panic → (m ≫= k) s = Panic.
Proof. intros Hm. unfold mbind, M_bind. by rewrite Hm. Qed.
Lemma bind_Ok_inv {S E A B} (m : M S E A) (k : A → M S E B) s b s'' :
  (m ≫= k) s = Ok b s'' → ∃ a s', m s = Ok a s' ∧ k a s' = Ok b s''.
Proof. unfold mbind, M_bind. destruct (m s); naive_solver. Qed.
Lemma ret_bind {S E A B} (a : A) (k : A → M S E B) s : (mret a ≫= k) s = k a s.
Proof. done. Qed.
Lemma ok_or_bind {S E A B} (a : A) (e : E) (k : A → M S E B) s :
  (ok_or (Some a) e ≫= k) s = k a s.
Proof. done. Qed.
Lemma or_panic_bind {S E A B} (a : A) (k : A → M S E B) s :
  (or_panic (Some a) ≫= k) s = k a s.
Proof. done. Qed.
Lemma attempt_bind {S E E' A B} (m : M S E A) (k : E + A → M S E' B) s :
  (attempt m ≫= k) s = match m s with
                       | Ok a s' => k (inr a) s'
                       | Err e s' => k (inl e) s'
                       | Panic => Panic
                       end.
Proof. unfold mbind, M_bind, attempt. by destruct (m s). Qed.
Lemma bind_assoc {S E A B C} (m : M S E A) (k : A → M S E B) (k' : B → M S E C) s :
  ((m ≫= k) ≫= k') s = (m ≫= λ a, k a ≫= k') s.
Proof. unfold mbind, M_bind. by destruct (m s). Qed.
Lemma bind_ret_r {S E A} (m : M S E A) s : (m ≫= mret) s = m s.
Proof. unfold mbind, M_bind. by destruct (m s). Qed.
Lemma bind_cong {S E A B} (m : M S E A) (f g : A → M S E B) s :
  (∀ a s', f a s' = g a s') → (m ≫= f) s = (m ≫= g) s.
Proof. intros Hf. unfold mbind, M_bind. by destruct (m s). Qed.
Lemma bind_ext {S E A B} (m m' : M S E A) (f : A → M S E B) s :
  m s = m' s → (m ≫= f) s = (m' ≫= f) s.
Proof. intros Hm. unfold mbind, M_bind. by rewrite Hm. Qed.

(** Symbolic execution of a monadic definition on a known state. *)
Ltac mrun :=
  repeat progress (unfold mbind, M_bind, mret, M_ret, throw, panic, getS, modifyS,
    ok_or, or_panic; cbn beta iota).

(** ** Machine integers *)

(** [uN w x]: [x] is a value of Rust's unsigned [w]-bit integer type. *)
Definition uN (w x : Z) : Prop := 0 ≤ x < 2 ^ w.
Abbreviation u8 := (uN 8).
Abbreviation u16 := (uN 16).
Abbreviation u32 := (uN 32).
Abbreviation u64 := (uN 64).
(** [usize] on the 64-bit targets the code is built for: [u64 as usize] and
    [u32 as usize] keep the value. *)
Abbreviation usize := (uN 64) (only parsing).

#[export] Instance uN_dec w x : Decision (uN w x).
Proof. unfold uN. apply _. Defined.

Definition wrap (w x : Z) : Z := x mod 2 ^ w.
(** [a.wrapping_add(b)] *)
Definition wrapping_add (w a b : Z) : Z := wrap w (a + b).
Definition wrapping_mul (w a b : Z) : Z := wrap w (a * b).
(** [a.checked_add(b)] *)
Definition checked_add (w a b : Z) : option Z :=
  if a + b <? 2 ^ w then Some (a + b) else None.
(** [isize::MAX], the largest allocation a [Vec<u8>] accepts. *)
Definition isize_max : Z := 2 ^ 63 - 1.

(** The build profile: with [overflow_checks] (debug builds) the operators [+],
    [-] and [*] panic on overflow, without (release builds) they wrap. *)
Class Profile : Type := overflow_checks : bool.

Definition ovf `{Profile} {S E} (w r : Z) : M S E Z :=
  if decide (uN w r) then mret r
  else if overflow_checks then panic else mret (wrap w r).
Definition add_ovf `{Profile} {S E} (w a b : Z) : M S E Z := ovf w (a + b).
Definition sub_ovf `{Profile} {S E} (w a b : Z) : M S E Z := ovf w (a - b).

Lemma ovf_in `{Profile} {S E} w r : uN w r → (ovf w r : M S E Z) = mret r.
Proof. intros Hr. unfold ovf. by rewrite decide_True. Qed.

Lemma ovf_out_bind `{Profile} {S E B} w r (k : Z → M S E B) s :
  ¬ uN w r → (ovf w r ≫= k) s = if overflow_checks then Panic else k (wrap w r) s.
Proof. intros Hr. unfold ovf. rewrite decide_False by done. by destruct overflow_checks. Qed.
Lemma ovf_bind `{Profile} {S E B} w r (k : Z → M S E B) s :
  uN w r → (ovf w r ≫= k) s = k r s.
Proof. intros Hr. by rewrite (ovf_in w r Hr). Qed.

Lemma wrap_range w x : 0 ≤ w → uN w (wrap w x).
Proof. intros. unfold uN, wrap. apply Z.mod_pos_bound. by apply Z.pow_pos_nonneg. Qed.
Lemma wrap_id w x : uN w x → wrap w x = x.
Proof. intros. by apply Z.mod_small. Qed.
Lemma wrapping_add_range w a b : 0 ≤ w → uN w (wrapping_add w a b).
Proof. apply wrap_range. Qed.

Lemma steps_ovf `{Profile} {S E} (R : S → S → Prop) `{!PreOrder R} w r :
  steps R (ovf w r : M S E Z).
Proof. unfold ovf. repeat case_match; auto with rdows_steps. Qed.
#[export] Hint Extern 1 (steps _ (ovf _ _)) => apply steps_ovf : rdows_steps.
#[export] Hint Extern 1 (steps _ (add_ovf _ _ _)) => apply steps_ovf : rdows_steps.
#[export] Hint Extern 1 (steps _ (sub_ovf _ _ _)) => apply steps_ovf : rdows_steps.

(** ** Lists, lengths and slices *)

Definition zlen {A} (l : list A) : Z := Z.of_nat (length l).

Lemma zlen_app {A} (l k : list A) : zlen (l ++ k) = zlen l + zlen k.
Proof. unfold zlen. rewrite length_app. lia. Qed.
Lemma zlen_nonneg {A} (l : list A) : 0 ≤ zlen l.
Proof. unfold zlen. lia. Qed.

Section slices.
Context {A : Type}.
Implicit Types l d : list A.

(** [&l[start..stop]]: [None] is the out-of-range panic. *)
Definition slice l (start stop : Z) : option (list A) :=
  if decide (0 ≤ start ∧ start ≤ stop ∧ stop ≤ zlen l)
  then Some (take (Z.to_nat (stop - start)) (drop (Z.to_nat start) l))
  else None.

Definition splice l (start : nat) d : list A :=
  take start l ++ d ++ drop (start + length d) l.

(** [l[start..stop].copy_from_slice(d)]: panics out of range, and when the
    lengths differ. *)
Definition slice_copy l (start stop : Z) d : option (list A) :=
  if decide (0 ≤ start ∧ start ≤ stop ∧ stop ≤ zlen l ∧ zlen d = stop - start)
  then Some (splice l (Z.to_nat start) d)
  else None.

Lemma length_splice l n d : (n + length d ≤ length l)%nat → length (splice l n d) = length l.
Proof. intros. unfold splice. rewrite !length_app, length_take, length_drop. lia. Qed.

Lemma lookup_splice_out l n d i :
  (n + length d ≤ length l)%nat → (i < n ∨ n + length d ≤ i)%nat →
  splice l n d !! i = l !! i.
Proof.
  intros Hl [Hi|Hi]; unfold splice.
  - rewrite lookup_app_l by (rewrite length_take; lia). by rewrite lookup_take_lt by lia.
  - rewrite lookup_app_r by (rewrite length_take; lia).
    rewrite length_take, Nat.min_l by lia.
    rewrite lookup_app_r by lia. rewrite lookup_drop. f_equal. lia.
Qed.

Lemma take_drop_splice l n d :
  (n + length d ≤ length l)%nat → take (length d) (drop n (splice l n d)) = d.
Proof.
  intros. unfold splice. rewrite drop_app_length' by (rewrite length_take; lia).
  by rewrite take_app_length.
Qed.

Lemma slice_Some l start stop :
  0 ≤ start → start ≤ stop → stop ≤ zlen l →
  slice l start stop = Some (take (Z.to_nat (stop - start)) (drop (Z.to_nat start) l)).
Proof. intros. unfold slice. by rewrite decide_True. Qed.

Lemma slice_copy_Some l start stop d :
  0 ≤ start → stop ≤ zlen l → zlen d = stop - start →
  slice_copy l start stop d = Some (splice l (Z.to_nat start) d).
Proof.
  intros. unfold slice_copy. rewrite decide_True; [done|].
  pose proof (zlen_nonneg d). lia.
Qed.

(** A slice that does not overlap the copied range is unchanged. *)
Lemma slice_splice_disjoint l n d start stop :
  (n + length d ≤ length l)%nat → (stop ≤ Z.of_nat n ∨ Z.of_nat (n + length d) ≤ start) →
  slice (splice l n d) start stop = slice l start stop.
Proof.
  intros Hn Hdis. unfold slice, zlen. rewrite length_splice by done.
  case_decide as Hr; [|done]. f_equal. apply list_eq. intros i.
  destruct (decide (i < Z.to_nat (stop - start))%nat).
  - rewrite !lookup_take_lt, !lookup_drop by lia. apply lookup_splice_out; lia.
  - rewrite !lookup_take_ge by lia. done.
Qed.
End slices.

(** ** Bytes and big-endian integers *)

#[export] Instance byte_eq_dec : EqDecision byte := Byte.byte_eq_dec.

Definition Z_of_byte (b : byte) : Z := Z.of_N (Byte.to_N b).
(** [x as u8] *)
Definition byte_of_Z (x : Z) : byte :=
  default x00 (Byte.of_N (Z.to_N (x mod 256))).

Lemma Z_of_byte_range b : 0 ≤ Z_of_byte b < 256.
Proof. unfold Z_of_byte. pose proof (Byte.to_N_bounded b). lia. Qed.
Lemma Z_of_byte_of_Z x : Z_of_byte (byte_of_Z x) = x mod 256.
Proof.
  unfold byte_of_Z, Z_of_byte.
  pose proof (Z.mod_pos_bound x 256 ltac:(lia)).
  destruct (Byte.of_N (Z.to_N (x mod 256))) as [b|] eqn:Hb; cbn [default from_option id].
  - apply Byte.to_of_N in Hb. lia.
  - apply Byte.of_N_None_iff in Hb. lia.
Qed.
Lemma byte_of_Z_of_byte b : byte_of_Z (Z_of_byte b) = b.
Proof.
  unfold byte_of_Z. rewrite Z.mod_small by apply Z_of_byte_range.
  unfold Z_of_byte. by rewrite N2Z.id, Byte.of_to_N.
Qed.
#[export] Instance Z_of_byte_inj : Inj (=) (=) Z_of_byte.
Proof. intros a b H. rewrite <-(byte_of_Z_of_byte a), H. apply byte_of_Z_of_byte. Qed.

(** [x.to_be_bytes()] of an [n]-byte integer, and [from_be_bytes]. *)
Fixpoint be_bytes (n : nat) (x : Z) : list byte :=
  match n with
  | O => []
  | S n' => byte_of_Z (x / 256 ^ Z.of_nat n') :: be_bytes n' x
  end.
Fixpoint be_value (l : list byte) : Z :=
  match l with
  | [] => 0
  | b :: l' => Z_of_byte b * 256 ^ zlen l' + be_value l'
  end.

Lemma length_be_bytes n x : length (be_bytes n x) = n.
Proof. induction n; cbn; congruence. Qed.
Lemma zlen_be_bytes n x : zlen (be_bytes n x) = Z.of_nat n.
Proof. unfold zlen. by rewrite length_be_bytes. Qed.

Lemma be_value_range l : 0 ≤ be_value l < 256 ^ zlen l.
Proof.
  induction l as [|b l IH]; [done|]. cbn [be_value].
  replace (zlen (b :: l)) with (Z.succ (zlen l)) by (unfold zlen; cbn; lia).
  rewrite Z.pow_succ_r by apply zlen_nonneg. pose proof (Z_of_byte_range b). nia.
Qed.

Lemma be_value_be_bytes n x : be_value (be_bytes n x) = x mod 256 ^ Z.of_nat n.
Proof.
  induction n as [|n IH]; cbn [be_bytes be_value]; [by rewrite Z.mod_1_r|].
  rewrite Z_of_byte_of_Z, zlen_be_bytes, IH.
  replace (Z.of_nat (S n)) with (Z.of_nat n + 1) by lia.
  rewrite Z.pow_add_r, Z.pow_1_r by lia.
  rewrite Z.rem_mul_r by (try apply Z.pow_nonzero; lia). ring.
Qed.

Lemma be_bytes_mod n k x : (k ≤ n)%nat → be_bytes k (x mod 256 ^ Z.of_nat n) = be_bytes k x.
Proof.
  intros Hk. induction k as [|k IH]; cbn [be_bytes]; [done|]. f_equal; [|apply IH; lia].
  apply (inj Z_of_byte). rewrite !Z_of_byte_of_Z.
  replace (Z.of_nat n) with (Z.of_nat k + Z.of_nat (n - k)) by lia.
  rewrite Z.pow_add_r by lia.
  rewrite Z.rem_mul_r by (apply Z.pow_nonzero || apply Z.pow_pos_nonneg; lia).
  rewrite Z.mul_comm, Z.div_add by (apply Z.pow_nonzero; lia).
  rewrite Z.div_small by (apply Z.mod_pos_bound, Z.pow_pos_nonneg; lia).
  rewrite Z.add_0_l. destruct (n - k)%nat as [|m] eqn:Hm; [lia|].
  replace (Z.of_nat (S m)) with (1 + Z.of_nat m) by lia.
  rewrite Z.pow_add_r, Z.pow_1_r by lia.
  rewrite Z.rem_mul_r by (try apply Z.pow_nonzero; lia).
  rewrite Z.mul_comm, Z.add_mod_idemp_l by lia.
  by rewrite Z.mod_add by lia.
Qed.

(** A string literal of the source, as the bytes of its UTF-8 encoding. *)
Definition lit (s : string) : list byte := String.list_byte_of_string s.

(** [impl Display for u32] and [u64]: decimal digits, most significant first.
    Twenty digits are enough for 64 bits. *)
Fixpoint dec_digits (fuel : nat) (n : Z) (acc : list byte) : list byte :=
  match fuel with
  | O => acc
  | S fuel' =>
      let acc' := byte_of_Z (48 + n mod 10) :: acc in
      if n <? 10 then acc' else dec_digits fuel' (n / 10) acc'
  end.
Definition dec_display (n : Z) : list byte := dec_digits 20 n [].

(** [{:X}]: sixteen digits are enough for 64 bits. *)
Definition hex_digit (d : Z) : byte := byte_of_Z (if d <? 10 then 48 + d else 55 + d).
Fixpoint hex_digits (fuel : nat) (n : Z) (acc : list byte) : list byte :=
  match fuel with
  | O => acc
  | S fuel' =>
      let acc' := hex_digit (n mod 16) :: acc in
      if n <? 16 then acc' else hex_digits fuel' (n / 16) acc'
  end.
(** [{:0wX}] *)
Definition fmt_hex (w : nat) (n : Z) : list byte :=
  let d := hex_digits 16 n [] in replicate (w - length d) x30 ++ d.

Definition is_digit (b : byte) : Prop := 48 ≤ Z_of_byte b < 58.
Lemma dec_digits_ascii fuel n acc :
  Forall is_digit acc → Forall is_digit (dec_digits fuel n acc).
Proof.
  revert n acc. induction fuel as [|fuel IH]; intros n acc Hacc; cbn [dec_digits]; [done|].
  assert (Forall is_digit (byte_of_Z (48 + n mod 10) :: acc)) as Hacc'.
  { constructor; [|done]. unfold is_digit. rewrite Z_of_byte_of_Z.
    pose proof (Z.mod_pos_bound n 10 ltac:(lia)). rewrite Z.mod_small; lia. }
  destruct (n <? 10); [done|by apply IH].
Qed.
Lemma dec_digits_length fuel n acc :
  (length (dec_digits fuel n acc) ≤ fuel + length acc)%nat.
Proof.
  revert n acc. induction fuel as [|fuel IH]; intros n acc; cbn [dec_digits]; [lia|].
  destruct (n <? 10); [cbn; lia|]. etransitivity; [apply IH|cbn; lia].
Qed.

(** Reading the digits back gives the number. *)
Definition dec_value (l : list byte) : Z := fold_left (λ v b, 10 * v + (Z_of_byte b - 48)) l 0.
Lemma dec_value_acc l v : fold_left (λ v b, 10 * v + (Z_of_byte b - 48)) l v =
  v * 10 ^ zlen l + dec_value l.
Proof.
  unfold dec_value. revert v. induction l as [|b l IH]; intros v; cbn [fold_left]; [unfold zlen; cbn; lia|].
  rewrite (IH (10 * v + _)), (IH (10 * 0 + _)).
  replace (zlen (b :: l)) with (Z.succ (zlen l)) by (unfold zlen; cbn; lia).
  rewrite Z.pow_succ_r by apply zlen_nonneg. ring.
Qed.
Lemma dec_digits_value fuel n acc :
  0 ≤ n < 10 ^ Z.of_nat fuel →
  dec_value (dec_digits fuel n acc) = n * 10 ^ zlen acc + dec_value acc.
Proof.
  revert n acc. induction fuel as [|fuel IH]; intros n acc Hn; cbn [dec_digits].
  { cbn in Hn. replace n with 0 by lia. lia. }
  pose proof (Z.mod_pos_bound n 10 ltac:(lia)) as Hm.
  assert (dec_value (byte_of_Z (48 + n mod 10) :: acc) = n mod 10 * 10 ^ zlen acc + dec_value acc) as Hv.
  { unfold dec_value at 1. cbn [fold_left]. rewrite dec_value_acc, Z_of_byte_of_Z.
    rewrite (Z.mod_small _ 256) by lia. f_equal. lia. }
  destruct (Z.ltb_spec n 10); [by rewrite Hv, Z.mod_small by lia|].
  rewrite IH, Hv.
  - replace (zlen (byte_of_Z (48 + n mod 10) :: acc)) with (Z.succ (zlen acc))
      by (unfold zlen; cbn; lia).
    rewrite Z.pow_succ_r by apply zlen_nonneg. pose proof (Z.div_mod n 10 ltac:(lia)). nia.
  - replace (Z.of_nat (S fuel)) with (Z.succ (Z.of_nat fuel)) in Hn by lia.
    rewrite Z.pow_succ_r in Hn by lia. split; [apply Z.div_pos; lia|].
    apply Z.div_lt_upper_bound; lia.
Qed.
Lemma dec_display_value n : u64 n → dec_value (dec_display n) = n.
Proof.
  unfold uN. intros Hn. unfold dec_display. rewrite dec_digits_value.
  - unfold dec_value, zlen. cbn. lia.
  - split; [lia|]. change (10 ^ Z.of_nat 20) with 100000000000000000000. lia.
Qed.

(** [vec![0u8; n]]: refuses more than [isize::MAX] bytes with a panic. *)
Definition vec_zeroed {S E} (n : Z) : M S E (list byte) :=
  if n <=? isize_max then mret (replicate (Z.to_nat n) x00) else panic.
