(* ===== verification/Externals.v ===== *)
(** * Interfaces to code outside the repository

    The [bytes], [rand], [tokio] and [tokio-tungstenite] crates are not part of
    the repository.  Each is a type class: its operations are parameters of the
    model, and what the code relies on is a class of laws taken from the crate's
    documentation.  [Concrete] gives an instance of every class, which shows the
    laws are satisfiable and makes the model executable. *)

From S2P Require Import Prelude.

(** ** The [bytes] crate

    A [Bytes]/[BytesMut] value is the sequence of its (remaining) bytes.
    [None] stands for the documented panic of the getters. *)
Class BytesCrate : Type := {
  put_u8 : list byte → Z → list byte;
  put_u16 : list byte → Z → list byte;
  put_u32 : list byte → Z → list byte;
  put_u64 : list byte → Z → list byte;
  put_slice : list byte → list byte → list byte;
  put_bytes : list byte → Z → nat → list byte;
  remaining : list byte → Z;
  get_u8 : list byte → option (Z * list byte);
  get_u16 : list byte → option (Z * list byte);
  get_u32 : list byte → option (Z * list byte);
  get_u64 : list byte → option (Z * list byte);
  advance : list byte → Z → option (list byte);
  copy_to_bytes : list byte → Z → option (list byte * list byte);
}.

(** Reading an [n]-byte big-endian integer off the front of a buffer. *)
Definition be_take (n : nat) (b : list byte) : option (Z * list byte) :=
  if decide (n ≤ length b)%nat then Some (be_value (take n b), drop n b) else None.

Class BytesCrateLaws `{BytesCrate} : Prop := {
  put_u8_law b v : put_u8 b v = b ++ be_bytes 1 v;
  put_u16_law b v : put_u16 b v = b ++ be_bytes 2 v;
  put_u32_law b v : put_u32 b v = b ++ be_bytes 4 v;
  put_u64_law b v : put_u64 b v = b ++ be_bytes 8 v;
  put_slice_law b d : put_slice b d = b ++ d;
  put_bytes_law b v n : put_bytes b v n = b ++ replicate n (byte_of_Z v);
  remaining_law b : remaining b = zlen b;
  get_u8_law b : get_u8 b = be_take 1 b;
  get_u16_law b : get_u16 b = be_take 2 b;
  get_u32_law b : get_u32 b = be_take 4 b;
  get_u64_law b : get_u64 b = be_take 8 b;
  advance_law b n :
    0 ≤ n → advance b n = if decide (n ≤ zlen b) then Some (drop (Z.to_nat n) b) else None;
  copy_to_bytes_law b n :
    0 ≤ n → copy_to_bytes b n =
      if decide (n ≤ zlen b) then Some (take (Z.to_nat n) b, drop (Z.to_nat n) b) else None;
}.

(** The cursor operations as monadic calls on the [&mut impl Buf] argument. *)
Section cursor.
Context `{BytesCrate} {E : Type}.
Definition buf_get (g : list byte → option (Z * list byte)) : M (list byte) E Z :=
  λ b, match g b with Some (v, b') => Ok v b' | None => Panic end.
Definition buf_remaining : M (list byte) E Z := λ b, Ok (remaining b) b.
Definition buf_advance (n : Z) : M (list byte) E unit :=
  λ b, match advance b n with Some b' => Ok tt b' | None => Panic end.
Definition buf_copy (n : Z) : M (list byte) E (list byte) :=
  λ b, match copy_to_bytes b n with Some (d, b') => Ok d b' | None => Panic end.
End cursor.

(** ** [rand::rngs::OsRng]

    [os_rng_fill n] is the outcome of the [n]-th [OsRng.fill_bytes] call on a
    four-byte array; [None] is its panic when the system source fails. *)
Class OsRng : Type := os_rng_fill : nat → option (list byte).
Class OsRngLaws `{OsRng} : Prop :=
  os_rng_fill_length n b : os_rng_fill n = Some b → length b = 4%nat.

(** ** The WebSocket sink ([futures_util::SinkExt::send] on a tungstenite stream)

    [ws_send_error log] is the error, if any, of the [send] whose submission
    completes the sequence [log] of binary messages; nothing is assumed of it. *)
Class WsSinkEnv : Type := ws_send_error : list (list byte) → option (list byte).

(** ** The WebSocket stream ([futures_util::StreamExt::next])

    What [stream.next()] yields: a binary message, a close message, another
    message (text, ping, pong), or an error. *)
Inductive WsItem : Type :=
| WsBinary (data : list byte)
| WsClose
| WsOther
| WsError (e : list byte).

(** tungstenite's default [max_frame_size], which neither side of the repository
    changes: a binary message travels as one frame, and a frame with a longer
    payload is read as the error [CapacityError::MessageTooLong]. *)
Definition WS_MAX_FRAME_SIZE : Z := 16 * 1024 * 1024.
Definition over_ws (data : list byte) : WsItem :=
  if WS_MAX_FRAME_SIZE <? zlen data
  then WsError (lit "Space limit exceeded: Message too long: " ++ dec_display (zlen data) ++
                lit " > " ++ dec_display WS_MAX_FRAME_SIZE)
  else WsBinary data.
Lemma over_ws_short data : zlen data ≤ WS_MAX_FRAME_SIZE → over_ws data = WsBinary data.
Proof. intros Hd. unfold over_ws. by rewrite (proj2 (Z.ltb_ge _ _)). Qed.

(** ** [tokio::time::Instant]

    [instant_now n] is the [n]-th reading of the clock, in nanoseconds; readings
    never decrease.  [duration_since] saturates at zero. *)
Class Clock : Type := instant_now : nat → Z.
Class ClockLaws `{Clock} : Prop :=
  instant_now_mono i j : (i ≤ j)%nat → instant_now i ≤ instant_now j.
Definition duration_since (later earlier : Z) : Z := Z.max 0 (later - earlier).
Definition from_secs (n : Z) : Z := n * 1000000000.

(** ** Concrete instances *)
Module Concrete.
#[export] Instance list_bytes : BytesCrate := {
  put_u8 b v := b ++ be_bytes 1 v;
  put_u16 b v := b ++ be_bytes 2 v;
  put_u32 b v := b ++ be_bytes 4 v;
  put_u64 b v := b ++ be_bytes 8 v;
  put_slice b d := b ++ d;
  put_bytes b v n := b ++ replicate n (byte_of_Z v);
  remaining b := zlen b;
  get_u8 := be_take 1;
  get_u16 := be_take 2;
  get_u32 := be_take 4;
  get_u64 := be_take 8;
  advance b n := if decide (n ≤ zlen b) then Some (drop (Z.to_nat n) b) else None;
  copy_to_bytes b n :=
    if decide (n ≤ zlen b) then Some (take (Z.to_nat n) b, drop (Z.to_nat n) b) else None;
}.
#[export] Instance list_bytes_laws : BytesCrateLaws.
Proof. split; reflexivity. Qed.

(** A generator that returns the draw number, as four bytes. *)
#[export] Instance counting_rng : OsRng := λ n, Some (be_bytes 4 (Z.of_nat n + 1)).
#[export] Instance counting_rng_laws : OsRngLaws.
Proof. by intros n b [= <-]. Qed.

(** A sink that never fails. *)
#[export] Instance reliable_sink : WsSinkEnv := λ _, None.

(** A clock that advances a millisecond per reading. *)
#[export] Instance ticking_clock : Clock := λ n, 1000000 * Z.of_nat n.
#[export] Instance ticking_clock_laws : ClockLaws.
Proof. unfold ClockLaws, instant_now, ticking_clock. lia. Qed.

(** A debug build. *)
#[export] Instance debug_build : Profile := true.
End Concrete.

(** ** Codec automation

    The laws rewrite every buffer operation into list operations; the two
    lemmas below run a getter on a buffer that starts with an encoded field. *)
Section codec_lemmas.
Context `{BytesCrateLaws} {E : Type}.

Lemma be_take_app n v r : be_take n (be_bytes n v ++ r) = Some (v mod 256 ^ Z.of_nat n, r).
Proof using Type.
  unfold be_take. rewrite length_app, length_be_bytes, decide_True by lia.
  rewrite take_app_length', drop_app_length' by (by rewrite length_be_bytes).
  by rewrite be_value_be_bytes.
Qed.
Lemma be_take_app_ok n v r :
  uN (8 * Z.of_nat n) v → be_take n (be_bytes n v ++ r) = Some (v, r).
Proof using Type.
  intros Hv. rewrite be_take_app. unfold uN in Hv.
  rewrite Z.mod_small; [done|]. by rewrite Z.pow_mul_r in Hv by lia.
Qed.
Lemma be_take_long n b :
  Z.of_nat n ≤ zlen b → be_take n b = Some (be_value (take n b), drop n b).
Proof using Type. unfold zlen. intros. unfold be_take. by rewrite decide_True by lia. Qed.

Lemma be_value_take n b : uN (8 * Z.of_nat n) (be_value (take n b)).
Proof using Type.
  pose proof (be_value_range (take n b)) as Hr. unfold uN. rewrite Z.pow_mul_r by lia.
  change (2 ^ 8) with 256. split; [lia|]. eapply Z.lt_le_trans; [apply Hr|].
  apply Z.pow_le_mono_r; [lia|]. unfold zlen. rewrite length_take. lia.
Qed.

Lemma advance_bind {A} (k' : unit → M (list byte) E A) n b :
  0 ≤ n ≤ zlen b → (buf_advance n ≫= k') b = k' tt (drop (Z.to_nat n) b).
Proof using Type*.
  intros. apply bind_Ok. unfold buf_advance.
  by rewrite advance_law, decide_True by lia.
Qed.
Lemma copy_bind {A} (k' : list byte → M (list byte) E A) n b :
  0 ≤ n ≤ zlen b →
  (buf_copy n ≫= k') b = k' (take (Z.to_nat n) b) (drop (Z.to_nat n) b).
Proof using Type*.
  intros. apply bind_Ok. unfold buf_copy.
  by rewrite copy_to_bytes_law, decide_True by lia.
Qed.

Context {A : Type} (k : Z → M (list byte) E A).

Lemma remaining_bind b : (buf_remaining ≫= k) b = k (zlen b) b.
Proof using Type*. apply bind_Ok. unfold buf_remaining. by rewrite remaining_law. Qed.

(** A getter in front of the field it reads. *)
Lemma get_u8_bind v r : u8 v → (buf_get get_u8 ≫= k) (be_bytes 1 v ++ r) = k v r.
Proof using Type*. intros. apply bind_Ok. unfold buf_get. by rewrite get_u8_law, be_take_app_ok. Qed.
Lemma get_u16_bind v r : u16 v → (buf_get get_u16 ≫= k) (be_bytes 2 v ++ r) = k v r.
Proof using Type*. intros. apply bind_Ok. unfold buf_get. by rewrite get_u16_law, be_take_app_ok. Qed.
Lemma get_u32_bind v r : u32 v → (buf_get get_u32 ≫= k) (be_bytes 4 v ++ r) = k v r.
Proof using Type*. intros. apply bind_Ok. unfold buf_get. by rewrite get_u32_law, be_take_app_ok. Qed.
Lemma get_u64_bind v r : u64 v → (buf_get get_u64 ≫= k) (be_bytes 8 v ++ r) = k v r.
Proof using Type*. intros. apply bind_Ok. unfold buf_get. by rewrite get_u64_law, be_take_app_ok. Qed.

(** A getter on any buffer that is long enough. *)
Lemma get_u8_long b :
  1 ≤ zlen b → (buf_get get_u8 ≫= k) b = k (be_value (take 1 b)) (drop 1 b).
Proof using Type*. intros. apply bind_Ok. unfold buf_get. by rewrite get_u8_law, be_take_long. Qed.
Lemma get_u16_long b :
  2 ≤ zlen b → (buf_get get_u16 ≫= k) b = k (be_value (take 2 b)) (drop 2 b).
Proof using Type*. intros. apply bind_Ok. unfold buf_get. by rewrite get_u16_law, be_take_long. Qed.
Lemma get_u32_long b :
  4 ≤ zlen b → (buf_get get_u32 ≫= k) b = k (be_value (take 4 b)) (drop 4 b).
Proof using Type*. intros. apply bind_Ok. unfold buf_get. by rewrite get_u32_law, be_take_long. Qed.
Lemma get_u64_long b :
  8 ≤ zlen b → (buf_get get_u64 ≫= k) b = k (be_value (take 8 b)) (drop 8 b).
Proof using Type*. intros. apply bind_Ok. unfold buf_get. by rewrite get_u64_law, be_take_long. Qed.

End codec_lemmas.

Lemma zlen_drop {A} n (l : list A) : zlen (drop n l) = Z.max 0 (zlen l - Z.of_nat n).
Proof. unfold zlen. rewrite length_drop. lia. Qed.
Lemma zlen_take {A} n (l : list A) : zlen (take n l) = Z.min (Z.of_nat n) (zlen l).
Proof. unfold zlen. rewrite length_take. lia. Qed.
Lemma zlen_replicate {A} n (x : A) : zlen (replicate n x) = Z.of_nat n.
Proof. unfold zlen. by rewrite length_replicate. Qed.
Lemma zlen_cons {A} (x : A) l : zlen (x :: l) = 1 + zlen l.
Proof. unfold zlen. cbn. lia. Qed.
Lemma zlen_nil {A} : zlen (@nil A) = 0.
Proof. done. Qed.

Create Rewrite HintDb zlen.
#[export] Hint Rewrite @zlen_app @zlen_be_bytes @zlen_drop @zlen_take @zlen_replicate
  @zlen_cons @zlen_nil : zlen.

(** Arithmetic on buffer lengths. *)
Ltac zlen_nonneg_hyps :=
  repeat match goal with
  | |- context [zlen ?l] =>
      lazymatch goal with _ : 0 ≤ zlen l |- _ => fail | _ => pose proof (zlen_nonneg l) end
  | _ : context [zlen ?l] |- _ =>
      lazymatch goal with _ : 0 ≤ zlen l |- _ => fail | _ => pose proof (zlen_nonneg l) end
  end.
Ltac zlen_lia := autorewrite with zlen in *; zlen_nonneg_hyps; lia.

(** Run a decoder on the encoding of a typed value. *)
Ltac decode_step :=
  first
    [ rewrite remaining_bind
    | rewrite get_u8_bind by done | rewrite get_u16_bind by done
    | rewrite get_u32_bind by done | rewrite get_u64_bind by done
    | match goal with |- context [if ?x <? ?y then _ else _] =>
        rewrite (proj2 (Z.ltb_ge x y)) by zlen_lia end ].

(** Run a decoder on a buffer known to be long enough. *)
Ltac decode_long_step :=
  first
    [ rewrite remaining_bind
    | rewrite get_u8_long by zlen_lia | rewrite get_u16_long by zlen_lia
    | rewrite get_u32_long by zlen_lia | rewrite get_u64_long by zlen_lia
    | rewrite advance_bind by zlen_lia ]; rewrite ?drop_drop; cbn [Nat.add].

(** Rewrite the buffer writers into appends. *)
Ltac put_laws :=
  rewrite ?put_u8_law, ?put_u16_law, ?put_u32_law, ?put_u64_law, ?put_slice_law,
    ?put_bytes_law, <-?app_assoc; cbn [app].
