(* ===== verification/Utf8.v ===== *)
(** * UTF-8, as [String::from_utf8_lossy] of the Rust standard library uses it

    A Rust [String] is the list of its bytes, which is valid UTF-8.  The decoder
    of the standard library ([core::str::lossy]) scans one character or one
    maximal ill-formed prefix at a time; [utf8_scan] is that scan. *)

From S2P Require Import Prelude.

Definition nth0 (l : list byte) (i : nat) : Z := from_option Z_of_byte 0 (l !! i).

Definition in_range (lo hi x : Z) : bool := (lo <=? x) && (x <=? hi).
(** [b & 192 == 128] *)
Definition is_cont (x : Z) : bool := in_range 128 191 x.

Definition utf8_char_width (b : Z) : nat :=
  if b <? 128 then 1 else if b <? 194 then 0 else if b <? 224 then 2
  else if b <? 240 then 3 else if b <? 245 then 4 else 0.

Definition second_of_three (b c : Z) : bool :=
  ((b =? 224) && in_range 160 191 c) || (in_range 225 236 b && in_range 128 191 c)
  || ((b =? 237) && in_range 128 159 c) || (in_range 238 239 b && in_range 128 191 c).
Definition second_of_four (b c : Z) : bool :=
  ((b =? 240) && in_range 144 191 c) || (in_range 241 243 b && in_range 128 191 c)
  || ((b =? 244) && in_range 128 143 c).

(** The number of bytes scanned, and whether they form a character. *)
Definition utf8_scan (l : list byte) : nat * bool :=
  let b := nth0 l 0 in
  match utf8_char_width b with
  | 1%nat => (1%nat, true)
  | 2%nat => if is_cont (nth0 l 1) then (2%nat, true) else (1%nat, false)
  | 3%nat =>
      if second_of_three b (nth0 l 1)
      then if is_cont (nth0 l 2) then (3%nat, true) else (2%nat, false)
      else (1%nat, false)
  | 4%nat =>
      if second_of_four b (nth0 l 1)
      then if is_cont (nth0 l 2)
           then if is_cont (nth0 l 3) then (4%nat, true) else (3%nat, false)
           else (2%nat, false)
      else (1%nat, false)
  | _ => (1%nat, false)
  end.

(** U+FFFD *)
Definition replacement : list byte := [xef; xbf; xbd].

Fixpoint lossy (fuel : nat) (l : list byte) : list byte :=
  match fuel, l with
  | S fuel', _ :: _ =>
      let '(n, ok) := utf8_scan l in
      (if ok then take n l else replacement) ++ lossy fuel' (drop n l)
  | _, _ => []
  end.
(** Every scan consumes a byte, so the length is enough fuel ([lossy_fuel]). *)
Definition from_utf8_lossy (l : list byte) : list byte := lossy (length l) l.

Fixpoint valid_fuel (fuel : nat) (l : list byte) : bool :=
  match fuel, l with
  | _, [] => true
  | S fuel', _ :: _ => let '(n, ok) := utf8_scan l in ok && valid_fuel fuel' (drop n l)
  | O, _ :: _ => false
  end.
(** The invariant of [String] and [&str]. *)
Definition valid_utf8 (l : list byte) : Prop := valid_fuel (length l) l = true.

#[export] Instance valid_utf8_dec l : Decision (valid_utf8 l).
Proof. unfold valid_utf8. apply _. Defined.

Lemma utf8_scan_pos l : (1 ≤ (utf8_scan l).1 ≤ 4)%nat.
Proof. unfold utf8_scan. repeat case_match; cbn; lia. Qed.

Lemma nth0_zero_invalid l i : (length l ≤ i)%nat → nth0 l i = 0.
Proof. intros. unfold nth0. by rewrite lookup_ge_None_2. Qed.

Lemma nth0_take l r n i : (i < n)%nat → (n ≤ length l)%nat → nth0 (take n l ++ r) i = nth0 l i.
Proof.
  intros. unfold nth0. rewrite lookup_app_l by (rewrite length_take; lia).
  by rewrite lookup_take_lt by lia.
Qed.

(** A scan that finds a character stays inside the list ... *)
Lemma utf8_scan_valid_length l : l ≠ [] → (utf8_scan l).2 = true → ((utf8_scan l).1 ≤ length l)%nat.
Proof.
  intros Hne. unfold utf8_scan.
  destruct l as [|a [|b [|c [|d l]]]]; [done|..]; cbn [length];
    rewrite ?(nth0_zero_invalid _ 1), ?(nth0_zero_invalid _ 2), ?(nth0_zero_invalid _ 3)
      by (cbn; lia);
    repeat case_match; cbn; try lia; intros; try done;
    repeat match goal with H : second_of_three _ 0 = true |- _ => revert H
                         | H : second_of_four _ 0 = true |- _ => revert H end;
    unfold second_of_three, second_of_four, in_range; lia.
Qed.

(** ... and depends on the scanned bytes only. *)
Lemma utf8_scan_take l r n :
  utf8_scan l = (n, true) → (n ≤ length l)%nat → utf8_scan (take n l ++ r) = (n, true).
Proof.
  intros Hs Hn. assert (1 ≤ n)%nat as Hpos by (pose proof (utf8_scan_pos l); rewrite Hs in *; cbn in *; lia).
  unfold utf8_scan in *. rewrite (nth0_take l r n 0) by lia.
  destruct (utf8_char_width (nth0 l 0)) as [|[|[|[|[|?]]]]]; try done;
    repeat match type of Hs with context [if ?c then _ else _] => destruct c eqn:? end;
    injection Hs as <-; rewrite ?nth0_take by lia;
    repeat match goal with H : _ = true |- _ => rewrite H end; done.
Qed.

Lemma valid_fuel_enough f l : (length l ≤ f)%nat → valid_fuel f l = valid_fuel (length l) l.
Proof.
  revert f. induction l as [l IH] using (induction_ltof1 _ (@length byte)); unfold ltof in IH.
  intros f Hf. destruct l as [|a l]; [by destruct f|].
  destruct f as [|f]; [cbn in *; lia|]. cbn [valid_fuel length].
  pose proof (utf8_scan_pos (a :: l)). destruct (utf8_scan (a :: l)) as [n ok]. cbn [fst] in *.
  f_equal. rewrite IH; rewrite ?length_drop; cbn [length] in *; try lia.
  symmetry. rewrite IH; rewrite ?length_drop; cbn [length] in *; try lia. done.
Qed.

(** One character in front of a valid string. *)
Lemma valid_utf8_cons c l :
  c ≠ [] → utf8_scan c = (length c, true) → valid_utf8 l → valid_utf8 (c ++ l).
Proof.
  unfold valid_utf8. intros Hc Hs Hl.
  pose proof (utf8_scan_take c l (length c) Hs ltac:(lia)) as Hs'.
  rewrite take_ge in Hs' by lia.
  destruct (c ++ l) as [|a k] eqn:Hcl; [by destruct c|]. cbn [length valid_fuel].
  rewrite Hs', <-Hcl, drop_app_length. cbn [andb].
  rewrite valid_fuel_enough; [done|].
  apply (f_equal length) in Hcl. rewrite length_app in Hcl. cbn in Hcl.
  destruct c; cbn in *; [done|lia].
Qed.

Lemma valid_utf8_uncons a l :
  valid_utf8 (a :: l) →
  ∃ n, utf8_scan (a :: l) = (n, true) ∧ (1 ≤ n ≤ length (a :: l))%nat ∧
    valid_utf8 (drop n (a :: l)).
Proof.
  unfold valid_utf8. cbn [length valid_fuel]. destruct (utf8_scan (a :: l)) as [n ok] eqn:Hs.
  intros [-> Hv]%andb_true_iff. exists n.
  pose proof (utf8_scan_pos (a :: l)) as Hp. rewrite Hs in Hp. cbn in Hp.
  pose proof (utf8_scan_valid_length (a :: l) ltac:(done)) as Hle. rewrite Hs in Hle.
  specialize (Hle eq_refl). cbn [fst] in Hle. split_and!; [done|lia|done|].
  rewrite <-Hv. symmetry. apply valid_fuel_enough. rewrite length_drop. cbn. lia.
Qed.

Lemma lossy_valid f l : (length l ≤ f)%nat → valid_utf8 l → lossy f l = l.
Proof.
  revert f. induction l as [l IH] using (induction_ltof1 _ (@length byte)); unfold ltof in IH.
  intros [|f] Hf Hv; destruct l as [|a l]; try done; [cbn in *; lia|].
  destruct (valid_utf8_uncons a l Hv) as (n & Hs & Hn & Hv').
  cbn [lossy]. rewrite Hs, IH; [apply take_drop|..]; rewrite ?length_drop; cbn in *; lia || done.
Qed.

Lemma lossy_is_valid f l : valid_utf8 (lossy f l).
Proof.
  revert l. induction f as [|f IH]; intros [|a l]; try done. cbn [lossy].
  destruct (utf8_scan (a :: l)) as [n ok] eqn:Hs. destruct ok.
  - pose proof (utf8_scan_valid_length (a :: l) ltac:(done)) as Hle. rewrite Hs in Hle.
    specialize (Hle eq_refl). cbn [fst] in Hle.
    pose proof (utf8_scan_pos (a :: l)) as Hp. rewrite Hs in Hp. cbn [fst] in Hp.
    apply valid_utf8_cons; [|rewrite length_take, Nat.min_l by lia|apply IH].
    + destruct n; [lia|done].
    + rewrite <-(app_nil_r (take n _)). by apply utf8_scan_take.
  - apply valid_utf8_cons; [done|by vm_compute|apply IH].
Qed.

(** On a valid string the lossy decoder is the identity ... *)
Lemma from_utf8_lossy_valid l : valid_utf8 l → from_utf8_lossy l = l.
Proof. intros. by apply lossy_valid. Qed.
(** ... and what it returns is always a valid string. *)
Lemma from_utf8_lossy_is_valid l : valid_utf8 (from_utf8_lossy l).
Proof. apply lossy_is_valid. Qed.

(** ASCII text is valid. *)
Definition is_ascii (b : byte) : Prop := Z_of_byte b < 128.
Lemma valid_utf8_ascii l : Forall is_ascii l → valid_utf8 l.
Proof.
  unfold valid_utf8. induction 1 as [|b l Hb Hl IH]; [done|].
  cbn [length valid_fuel]. assert (utf8_scan (b :: l) = (1%nat, true)) as ->.
  { unfold utf8_scan, nth0, utf8_char_width. cbn.
    by rewrite (proj2 (Z.ltb_lt _ _)) by apply Hb. }
  done.
Qed.
#[export] Instance is_ascii_dec b : Decision (is_ascii b).
Proof. unfold is_ascii. apply _. Defined.
Lemma dec_display_ascii n : Forall is_ascii (dec_display n).
Proof.
  eapply Forall_impl; [apply dec_digits_ascii; constructor|].
  intros b [_ Hb]. unfold is_ascii. lia.
Qed.
