(* ===== verification/Core.v ===== *)
(** * Wire constants and enumerations of [rdows-core]

    [lib.rs] (constants), [error.rs] (error codes and the library error type),
    [opcode.rs] (opcodes) and [memory.rs] (access flags and keys).  The key
    newtypes [LKey], [RKey] and [ProtectionDomain] are the integers they wrap. *)

From S2P Require Import Prelude.

(** ** [lib.rs] *)
Definition RDOWS_VERSION : Z := 0x01.
Definition SUBPROTOCOL : list byte := lit "rdows.v1".
Definition HEADER_SIZE : Z := 24.
Definition DEFAULT_MAX_MSG_SIZE : Z := 16 * 1024 * 1024.
Definition DEFAULT_ICC : Z := 65535.

(** ** [opcode.rs] *)
Module Opcode.
Inductive Opcode : Set :=
| Connect | ConnectAck | Disconnect
| MrReg | MrRegAck | MrDereg | MrDeregAck
| Send | SendData | RecvComp
| Write | WriteData | WriteComp
| ReadReq | ReadResp
| AtomicReq | AtomicResp
| Ack | CreditUpdate | Error.

#[export] Instance Opcode_eq_dec : EqDecision Opcode.
Proof. solve_decision. Defined.
End Opcode.
Export (hints) Opcode.
Abbreviation Opcode := Opcode.Opcode.

Definition Opcode_is_protocol_message (op : Opcode) : bool :=
  match op with
  | Opcode.Connect | Opcode.ConnectAck | Opcode.Ack | Opcode.Error | Opcode.CreditUpdate => true
  | _ => false
  end.

(** [impl From<Opcode> for u8] *)
Definition u8_from_Opcode (op : Opcode) : Z :=
  match op with
  | Opcode.Connect => 0x01
  | Opcode.ConnectAck => 0x02
  | Opcode.Disconnect => 0x03
  | Opcode.MrReg => 0x10
  | Opcode.MrRegAck => 0x11
  | Opcode.MrDereg => 0x12
  | Opcode.MrDeregAck => 0x13
  | Opcode.Send => 0x20
  | Opcode.SendData => 0x21
  | Opcode.RecvComp => 0x22
  | Opcode.Write => 0x30
  | Opcode.WriteData => 0x31
  | Opcode.WriteComp => 0x32
  | Opcode.ReadReq => 0x40
  | Opcode.ReadResp => 0x41
  | Opcode.AtomicReq => 0x50
  | Opcode.AtomicResp => 0x51
  | Opcode.Ack => 0x60
  | Opcode.CreditUpdate => 0x61
  | Opcode.Error => 0xF0
  end.

(** [impl TryFrom<u8> for Opcode]; [None] is [Err(InvalidOpcode(value))]. *)
Definition Opcode_try_from (value : Z) : option Opcode :=
  match value with
  | 0x01 => Some Opcode.Connect
  | 0x02 => Some Opcode.ConnectAck
  | 0x03 => Some Opcode.Disconnect
  | 0x10 => Some Opcode.MrReg
  | 0x11 => Some Opcode.MrRegAck
  | 0x12 => Some Opcode.MrDereg
  | 0x13 => Some Opcode.MrDeregAck
  | 0x20 => Some Opcode.Send
  | 0x21 => Some Opcode.SendData
  | 0x22 => Some Opcode.RecvComp
  | 0x30 => Some Opcode.Write
  | 0x31 => Some Opcode.WriteData
  | 0x32 => Some Opcode.WriteComp
  | 0x40 => Some Opcode.ReadReq
  | 0x41 => Some Opcode.ReadResp
  | 0x50 => Some Opcode.AtomicReq
  | 0x51 => Some Opcode.AtomicResp
  | 0x60 => Some Opcode.Ack
  | 0x61 => Some Opcode.CreditUpdate
  | 0xF0 => Some Opcode.Error
  | _ => None
  end.

(** ** [error.rs] *)
Inductive ErrorCode : Set :=
| Success | ErrProtoVersion | ErrUnknownOpcode | ErrInvalidPd | ErrInvalidLkey
| ErrInvalidMkey | ErrAccessDenied | ErrBounds | ErrAlignment | ErrPayloadSize
| ErrRnr | ErrCqOverflow | ErrSeqGap | ErrTimeout | ErrInternal.

#[export] Instance ErrorCode_eq_dec : EqDecision ErrorCode.
Proof. solve_decision. Defined.

(** [impl From<ErrorCode> for u16] *)
Definition u16_from_ErrorCode (c : ErrorCode) : Z :=
  match c with
  | Success => 0x0000
  | ErrProtoVersion => 0x0001
  | ErrUnknownOpcode => 0x0002
  | ErrInvalidPd => 0x0003
  | ErrInvalidLkey => 0x0004
  | ErrInvalidMkey => 0x0005
  | ErrAccessDenied => 0x0006
  | ErrBounds => 0x0007
  | ErrAlignment => 0x0008
  | ErrPayloadSize => 0x0009
  | ErrRnr => 0x0010
  | ErrCqOverflow => 0x0020
  | ErrSeqGap => 0x0030
  | ErrTimeout => 0x0040
  | ErrInternal => 0xFFFF
  end.

(** [impl TryFrom<u16> for ErrorCode]; [None] is [Err(InvalidErrorCode(value))]. *)
Definition ErrorCode_try_from (value : Z) : option ErrorCode :=
  match value with
  | 0x0000 => Some Success
  | 0x0001 => Some ErrProtoVersion
  | 0x0002 => Some ErrUnknownOpcode
  | 0x0003 => Some ErrInvalidPd
  | 0x0004 => Some ErrInvalidLkey
  | 0x0005 => Some ErrInvalidMkey
  | 0x0006 => Some ErrAccessDenied
  | 0x0007 => Some ErrBounds
  | 0x0008 => Some ErrAlignment
  | 0x0009 => Some ErrPayloadSize
  | 0x0010 => Some ErrRnr
  | 0x0020 => Some ErrCqOverflow
  | 0x0030 => Some ErrSeqGap
  | 0x0040 => Some ErrTimeout
  | 0xFFFF => Some ErrInternal
  | _ => None
  end.

(** [impl Display for ErrorCode] *)
Definition ErrorCode_display (c : ErrorCode) : list byte :=
  lit match c with
  | Success => "SUCCESS"
  | ErrProtoVersion => "ERR_PROTO_VERSION"
  | ErrUnknownOpcode => "ERR_UNKNOWN_OPCODE"
  | ErrInvalidPd => "ERR_INVALID_PD"
  | ErrInvalidLkey => "ERR_INVALID_LKEY"
  | ErrInvalidMkey => "ERR_INVALID_MKEY"
  | ErrAccessDenied => "ERR_ACCESS_DENIED"
  | ErrBounds => "ERR_BOUNDS"
  | ErrAlignment => "ERR_ALIGNMENT"
  | ErrPayloadSize => "ERR_PAYLOAD_SIZE"
  | ErrRnr => "ERR_RNR"
  | ErrCqOverflow => "ERR_CQ_OVERFLOW"
  | ErrSeqGap => "ERR_SEQ_GAP"
  | ErrTimeout => "ERR_TIMEOUT"
  | ErrInternal => "ERR_INTERNAL"
  end.

(** [enum RdowsError]; the [String]s and the wrapped [io::Error] are bytes. *)
Inductive RdowsError : Type :=
| InvalidVersion (v : Z)
| InvalidOpcode (op : Z)
| PayloadTooShort (expected got : Z)
| HeaderTooShort (got : Z)
| Protocol (code : ErrorCode)
| ConnectionRejected (why : list byte)
| SessionNotReady
| SessionClosed
| SendCreditsExhausted
| UnexpectedMessage (expected : list byte) (got : Opcode)
| WebSocket (e : list byte)
| Tls (e : list byte)
| Io (e : list byte).

#[export] Instance RdowsError_eq_dec : EqDecision RdowsError.
Proof. solve_decision. Defined.

(** ** [memory.rs] *)
Abbreviation LKey := Z (only parsing).
Abbreviation RKey := Z (only parsing).
Abbreviation ProtectionDomain := Z (only parsing).
Abbreviation AccessFlags := Z (only parsing).

Definition LOCAL_WRITE : AccessFlags := 0x01.
Definition REMOTE_WRITE : AccessFlags := 0x02.
Definition REMOTE_READ : AccessFlags := 0x04.
Definition REMOTE_ATOMIC : AccessFlags := 0x08.

Definition AccessFlags_contains (self flag : AccessFlags) : bool :=
  Z.land self flag =? flag.
Definition AccessFlags_is_empty (self : AccessFlags) : bool := self =? 0.
Definition AccessFlags_bitor (self rhs : AccessFlags) : AccessFlags := Z.lor self rhs.

(** ** Properties of the enumerations *)

Lemma Opcode_try_from_u8 op : Opcode_try_from (u8_from_Opcode op) = Some op.
Proof. by destruct op. Qed.
Lemma u8_from_Opcode_range op : u8 (u8_from_Opcode op).
Proof. by destruct op. Qed.
Lemma Opcode_try_from_Some v op : Opcode_try_from v = Some op → u8_from_Opcode op = v.
Proof.
  unfold Opcode_try_from. intros H.
  repeat match type of H with (match ?x with _ => _ end) = _ => destruct x; try done end;
    by injection H as <-.
Qed.
Lemma ErrorCode_try_from_u16 c : ErrorCode_try_from (u16_from_ErrorCode c) = Some c.
Proof. by destruct c. Qed.
Lemma u16_from_ErrorCode_range c : u16 (u16_from_ErrorCode c).
Proof. by destruct c. Qed.
Lemma ErrorCode_try_from_Some v c : ErrorCode_try_from v = Some c → u16_from_ErrorCode c = v.
Proof.
  unfold ErrorCode_try_from. intros H.
  repeat match type of H with (match ?x with _ => _ end) = _ => destruct x; try done end;
    by injection H as <-.
Qed.

(** [contains] is inclusion of bit sets. *)
Lemma AccessFlags_contains_spec self flag :
  AccessFlags_contains self flag = true ↔
  ∀ i, Z.testbit flag i = true → Z.testbit self i = true.
Proof.
  unfold AccessFlags_contains. rewrite Z.eqb_eq. split.
  - intros H i Hi. rewrite <-H, Z.land_spec in Hi. by apply andb_true_iff in Hi as [? _].
  - intros H. apply Z.bits_inj. intros i. rewrite Z.land_spec.
    specialize (H i). destruct (Z.testbit flag i); [by rewrite H|by rewrite andb_false_r].
Qed.
Lemma AccessFlags_contains_bitor self rhs flag :
  AccessFlags_contains self flag = true →
  AccessFlags_contains (AccessFlags_bitor self rhs) flag = true.
Proof.
  rewrite !AccessFlags_contains_spec. intros H i Hi. unfold AccessFlags_bitor.
  by rewrite Z.lor_spec, H.
Qed.
