(* ===== verification/Frame.v ===== *)
(** * The 24-byte frame header ([rdows-core/src/frame.rs]) and the queue entries
    ([rdows-core/src/queue.rs])

    Codecs are written as the source writes them: [encode] appends to a
    [BytesMut], [decode] moves a cursor. *)

From S2P Require Import Prelude Externals Core.

Definition FLAG_F : Z := 0x8000.
Definition FLAG_L : Z := 0x4000.
Definition FLAG_S : Z := 0x2000.

Record RdowsHeader := mkHeader {
  h_version : Z;
  h_opcode : Opcode;
  h_flags : Z;
  h_session_id : Z;
  h_sequence : Z;
  h_wrid : Z;
  h_payload_length : Z;
}.

#[export] Instance RdowsHeader_eq_dec : EqDecision RdowsHeader.
Proof. solve_decision. Defined.

(** The field types of the struct. *)
Definition RdowsHeader_typed (h : RdowsHeader) : Prop :=
  u8 (h_version h) ∧ u16 (h_flags h) ∧ u32 (h_session_id h) ∧ u32 (h_sequence h) ∧
  u64 (h_wrid h) ∧ u32 (h_payload_length h).

Definition RdowsHeader_new (opcode : Opcode) (session_id sequence wrid : Z) : RdowsHeader :=
  {| h_version := RDOWS_VERSION; h_opcode := opcode; h_flags := 0;
     h_session_id := session_id; h_sequence := sequence; h_wrid := wrid;
     h_payload_length := 0 |}.

Definition RdowsHeader_is_fragment (h : RdowsHeader) : bool :=
  negb (Z.land (h_flags h) FLAG_F =? 0).
Definition RdowsHeader_is_last_fragment (h : RdowsHeader) : bool :=
  negb (Z.land (h_flags h) FLAG_L =? 0).
Definition RdowsHeader_is_solicited (h : RdowsHeader) : bool :=
  negb (Z.land (h_flags h) FLAG_S =? 0).

(** [struct ScatterGatherEntry] *)
Record ScatterGatherEntry := mkSge { sg_lkey : LKey; sg_offset : Z; sg_length : Z }.
Definition SG_ENTRY_SIZE : Z := 16.
#[export] Instance ScatterGatherEntry_eq_dec : EqDecision ScatterGatherEntry.
Proof. solve_decision. Defined.
Definition ScatterGatherEntry_typed (e : ScatterGatherEntry) : Prop :=
  u32 (sg_lkey e) ∧ u64 (sg_offset e) ∧ u32 (sg_length e).

(** [struct CompletionQueueEntry] *)
Record CompletionQueueEntry := mkCqe {
  cqe_wrid : Z; cqe_status : Z; cqe_opcode : Opcode; cqe_vendor_error : Z;
  cqe_byte_count : Z; cqe_qp_number : Z;
}.
Definition CQE_SIZE : Z := 24.
#[export] Instance CompletionQueueEntry_eq_dec : EqDecision CompletionQueueEntry.
Proof. solve_decision. Defined.
Definition CompletionQueueEntry_typed (c : CompletionQueueEntry) : Prop :=
  u64 (cqe_wrid c) ∧ u16 (cqe_status c) ∧ u8 (cqe_vendor_error c) ∧
  u32 (cqe_byte_count c) ∧ u32 (cqe_qp_number c).

Section codec.
Context `{BytesCrate}.

Definition RdowsHeader_encode (h : RdowsHeader) (buf : list byte) : list byte :=
  let buf := put_u8 buf (h_version h) in
  let buf := put_u8 buf (u8_from_Opcode (h_opcode h)) in
  let buf := put_u16 buf (h_flags h) in
  let buf := put_u32 buf (h_session_id h) in
  let buf := put_u32 buf (h_sequence h) in
  let buf := put_u64 buf (h_wrid h) in
  put_u32 buf (h_payload_length h).

Definition RdowsHeader_decode : M (list byte) RdowsError RdowsHeader :=
  n ← buf_remaining;
  if n <? HEADER_SIZE then throw (HeaderTooShort n) else
  version ← buf_get get_u8;
  if negb (version =? RDOWS_VERSION) then throw (InvalidVersion version) else
  opcode_byte ← buf_get get_u8;
  opcode ← ok_or (Opcode_try_from opcode_byte) (InvalidOpcode opcode_byte);
  flags ← buf_get get_u16;
  session_id ← buf_get get_u32;
  sequence ← buf_get get_u32;
  wrid ← buf_get get_u64;
  payload_length ← buf_get get_u32;
  mret {| h_version := version; h_opcode := opcode; h_flags := flags;
          h_session_id := session_id; h_sequence := sequence; h_wrid := wrid;
          h_payload_length := payload_length |}.

Definition ScatterGatherEntry_encode (e : ScatterGatherEntry) (buf : list byte) : list byte :=
  let buf := put_u32 buf (sg_lkey e) in
  let buf := put_u64 buf (sg_offset e) in
  put_u32 buf (sg_length e).

Definition ScatterGatherEntry_decode : M (list byte) RdowsError ScatterGatherEntry :=
  n ← buf_remaining;
  if n <? SG_ENTRY_SIZE then throw (PayloadTooShort SG_ENTRY_SIZE n) else
  lkey ← buf_get get_u32;
  offset ← buf_get get_u64;
  length ← buf_get get_u32;
  mret {| sg_lkey := lkey; sg_offset := offset; sg_length := length |}.

Definition CompletionQueueEntry_encode (c : CompletionQueueEntry) (buf : list byte) : list byte :=
  let buf := put_u64 buf (cqe_wrid c) in
  let buf := put_u16 buf (cqe_status c) in
  let buf := put_u8 buf (u8_from_Opcode (cqe_opcode c)) in
  let buf := put_u8 buf (cqe_vendor_error c) in
  let buf := put_u32 buf (cqe_byte_count c) in
  let buf := put_u32 buf (cqe_qp_number c) in
  put_u32 buf 0.

Definition CompletionQueueEntry_decode : M (list byte) RdowsError CompletionQueueEntry :=
  n ← buf_remaining;
  if n <? CQE_SIZE then throw (PayloadTooShort CQE_SIZE n) else
  wrid ← buf_get get_u64;
  status ← buf_get get_u16;
  opcode_byte ← buf_get get_u8;
  opcode ← ok_or (Opcode_try_from opcode_byte) (InvalidOpcode opcode_byte);
  vendor_error ← buf_get get_u8;
  byte_count ← buf_get get_u32;
  qp_number ← buf_get get_u32;
  _ ← buf_get get_u32;
  mret {| cqe_wrid := wrid; cqe_status := status; cqe_opcode := opcode;
          cqe_vendor_error := vendor_error; cqe_byte_count := byte_count;
          cqe_qp_number := qp_number |}.
End codec.

(** ** Round trips and decoder specifications *)

(** What a fixed-size decoder promises on every buffer: too few bytes are
    refused with the buffer untouched, otherwise exactly [n] bytes are consumed
    and the result is well typed.  It never panics. *)
Definition fixed_decoder {A} (n : Z) (short : Z → RdowsError) (typed : A → Prop)
    (d : M (list byte) RdowsError A) : Prop :=
  ∀ b, match d b with
       | Ok a b' => n ≤ zlen b ∧ b' = drop (Z.to_nat n) b ∧ typed a
       | Err e b' => b' = b ∧ zlen b < n ∧ e = short (zlen b)
       | Panic => False
       end.

Section codec_facts.
Context `{BytesCrateLaws}.

Lemma RdowsHeader_encode_length h : zlen (RdowsHeader_encode h []) = HEADER_SIZE.
Proof using Type*. unfold RdowsHeader_encode. put_laws. by autorewrite with zlen. Qed.

Lemma RdowsHeader_decode_encode h r :
  RdowsHeader_typed h → h_version h = RDOWS_VERSION →
  RdowsHeader_decode (RdowsHeader_encode h [] ++ r) = Ok h r.
Proof using Type*.
  intros (? & ? & ? & ? & ? & ?) Hv.
  unfold RdowsHeader_encode, RdowsHeader_decode. put_laws. unfold HEADER_SIZE.
  pose proof (u8_from_Opcode_range (h_opcode h)).
  repeat decode_step. rewrite Hv, Z.eqb_refl. cbn [negb].
  repeat decode_step. rewrite Opcode_try_from_u8, ok_or_bind. repeat decode_step.
  unfold mret, M_ret. rewrite <-Hv. by destruct h.
Qed.

(** The decoder on every buffer: the length test comes first, then the version,
    then the opcode; it never panics. *)
Definition field (off n : nat) (b : list byte) : Z := be_value (take n (drop off b)).
Lemma RdowsHeader_decode_eq b :
  RdowsHeader_decode b =
    if zlen b <? HEADER_SIZE then Err (HeaderTooShort (zlen b)) b
    else if negb (field 0 1 b =? RDOWS_VERSION)
    then Err (InvalidVersion (field 0 1 b)) (drop 1 b)
    else match Opcode_try_from (field 1 1 b) with
    | None => Err (InvalidOpcode (field 1 1 b)) (drop 2 b)
    | Some op =>
        Ok {| h_version := field 0 1 b; h_opcode := op; h_flags := field 2 2 b;
              h_session_id := field 4 4 b; h_sequence := field 8 4 b;
              h_wrid := field 12 8 b; h_payload_length := field 20 4 b |} (drop 24 b)
    end.
Proof using Type*.
  unfold RdowsHeader_decode, field, HEADER_SIZE. rewrite remaining_bind.
  destruct (Z.ltb_spec (zlen b) 24) as [|Hb]; [done|]. decode_long_step.
  rewrite drop_0. destruct (be_value (take 1 b) =? RDOWS_VERSION); cbn [negb]; [|done].
  decode_long_step. destruct (Opcode_try_from _) as [op|]; [|done].
  rewrite ok_or_bind. by repeat decode_long_step.
Qed.

Lemma RdowsHeader_decode_typed b h r :
  RdowsHeader_decode b = Ok h r →
  RdowsHeader_typed h ∧ h_version h = RDOWS_VERSION ∧ r = drop 24 b ∧ HEADER_SIZE ≤ zlen b.
Proof using Type*.
  rewrite RdowsHeader_decode_eq.
  destruct (Z.ltb_spec (zlen b) HEADER_SIZE); [done|].
  destruct (Z.eqb_spec (field 0 1 b) RDOWS_VERSION) as [Hv|]; cbn [negb]; [|done].
  destruct (Opcode_try_from _); [|done]. intros [= <- <-]. cbn. split_and!; try done.
  unfold RdowsHeader_typed, field. cbn. split_and!; apply be_value_take.
Qed.

Lemma ScatterGatherEntry_encode_eq e buf :
  ScatterGatherEntry_encode e buf = buf ++ ScatterGatherEntry_encode e [].
Proof using Type*. unfold ScatterGatherEntry_encode. by put_laws. Qed.
Lemma ScatterGatherEntry_encode_length e :
  zlen (ScatterGatherEntry_encode e []) = SG_ENTRY_SIZE.
Proof using Type*. unfold ScatterGatherEntry_encode. put_laws. by autorewrite with zlen. Qed.
Lemma ScatterGatherEntry_decode_encode e r :
  ScatterGatherEntry_typed e →
  ScatterGatherEntry_decode (ScatterGatherEntry_encode e [] ++ r) = Ok e r.
Proof using Type*.
  intros (? & ? & ?). unfold ScatterGatherEntry_encode, ScatterGatherEntry_decode, SG_ENTRY_SIZE.
  put_laws. repeat decode_step. by destruct e.
Qed.
Lemma ScatterGatherEntry_decode_fixed :
  fixed_decoder SG_ENTRY_SIZE (PayloadTooShort SG_ENTRY_SIZE) ScatterGatherEntry_typed
    ScatterGatherEntry_decode.
Proof using Type*.
  intros b. unfold ScatterGatherEntry_decode, SG_ENTRY_SIZE. rewrite remaining_bind.
  destruct (Z.ltb_spec (zlen b) 16); [done|]. repeat decode_long_step.
  split_and!; [done..|]. split_and!; apply be_value_take.
Qed.

(** A completion entry survives its wire form; the encoding has [CQE_SIZE] bytes. *)
Lemma CompletionQueueEntry_decode_encode c r :
  CompletionQueueEntry_typed c →
  CompletionQueueEntry_decode (CompletionQueueEntry_encode c [] ++ r) = Ok c r ∧
  zlen (CompletionQueueEntry_encode c []) = CQE_SIZE.
Proof using Type*.
  intros (? & ? & ? & ? & ?).
  unfold CompletionQueueEntry_encode, CompletionQueueEntry_decode, CQE_SIZE. put_laws.
  pose proof (u8_from_Opcode_range (cqe_opcode c)). split; [|by autorewrite with zlen].
  repeat decode_step. rewrite Opcode_try_from_u8, ok_or_bind. repeat decode_step. by destruct c.
Qed.
End codec_facts.
