(* ===== verification/Payloads.v ===== *)
(** * Message payloads ([rdows-core/src/message.rs], lines 10-610)

    One record, [encode] and [decode] per payload struct, with the type of its
    fields ([_typed]), and for each the round trip and the behaviour of the
    decoder on every buffer. *)

From S2P Require Import Prelude Externals Utf8 Core Frame.

(** [Vec::with_capacity(count)] panics when the allocation would exceed
    [isize::MAX] bytes. *)
Definition vec_with_capacity {S E} (elem_size count : Z) : M S E unit :=
  if elem_size * count <=? isize_max then mret tt else panic.

Lemma vec_with_capacity_bind {S E A} size count (k : unit → M S E A) s :
  size * count ≤ isize_max → (vec_with_capacity size count ≫= k) s = k tt s.
Proof. intros. unfold vec_with_capacity. by rewrite (proj2 (Z.leb_le _ _)). Qed.

Definition CONNECT_PAYLOAD_SIZE : Z := 16.
Definition MR_REG_ACK_SIZE : Z := 16.
Definition MR_DEREG_SIZE : Z := 8.
Definition MR_DEREG_ACK_SIZE : Z := 8.
Definition WRITE_HEADER_SIZE : Z := 24.
Definition READ_REQ_SIZE : Z := 40.
Definition ERROR_FIXED_SIZE : Z := 10.
Definition CREDIT_UPDATE_SIZE : Z := 8.
Definition ATOMIC_REQ_SIZE : Z := 32.
Definition ATOMIC_RESP_SIZE : Z := 16.
Definition ATOMIC_TYPE_CAS : Z := 0x01.
Definition ATOMIC_TYPE_FAA : Z := 0x02.

Record ConnectPayload := mkConnect {
  cp_pd : ProtectionDomain; cp_capability_flags : Z; cp_max_msg_size : Z; cp_icc : Z }.
Record MrRegPayload := mkMrReg {
  mr_pd : ProtectionDomain; mr_access_flags : AccessFlags; mr_region_len : Z;
  mr_suggested_lkey : option LKey }.
Record MrRegAckPayload := mkMrRegAck {
  ra_pd : ProtectionDomain; ra_lkey : LKey; ra_rkey : RKey; ra_status : Z }.
Record MrDeregPayload := mkMrDereg { md_pd : ProtectionDomain; md_lkey : LKey }.
Record MrDeregAckPayload := mkMrDeregAck { da_status : Z }.
Record SendPayload := mkSend { sp_sg_list : list ScatterGatherEntry }.
Record WritePayload := mkWrite {
  wp_rkey : RKey; wp_remote_va : Z; wp_length : Z; wp_sg_list : list ScatterGatherEntry }.
Record ReadReqPayload := mkReadReq {
  rq_rkey : RKey; rq_remote_va : Z; rq_read_len : Z; rq_local_lkey : LKey; rq_local_va : Z }.
Record ReadRespPayload := mkReadResp { rr_fragment_offset : Z; rr_data : list byte }.
Record ErrorPayload := mkError {
  ep_error_code : ErrorCode; ep_failing_seq : Z; ep_description : list byte }.
Record CreditUpdatePayload := mkCredit { cu_credit_increment : Z }.
Record AtomicReqPayload := mkAtomicReq {
  aq_rkey : RKey; aq_atomic_type : Z; aq_remote_va : Z; aq_operand1 : Z; aq_operand2 : Z }.
Record AtomicRespPayload := mkAtomicResp { ap_original_value : Z; ap_status : Z }.
Record DataPayload := mkData { dp_data : list byte }.

(** ** The types of the fields *)
Definition ConnectPayload_typed p : Prop :=
  u32 (cp_pd p) ∧ u32 (cp_capability_flags p) ∧ u32 (cp_max_msg_size p) ∧ u32 (cp_icc p).
Definition MrRegPayload_typed p : Prop :=
  u32 (mr_pd p) ∧ u32 (mr_access_flags p) ∧ u64 (mr_region_len p) ∧
  from_option u32 True (mr_suggested_lkey p).
Definition MrRegAckPayload_typed p : Prop :=
  u32 (ra_pd p) ∧ u32 (ra_lkey p) ∧ u32 (ra_rkey p) ∧ u16 (ra_status p).
Definition MrDeregPayload_typed p : Prop := u32 (md_pd p) ∧ u32 (md_lkey p).
Definition MrDeregAckPayload_typed p : Prop := u16 (da_status p).
Definition SendPayload_typed p : Prop := Forall ScatterGatherEntry_typed (sp_sg_list p).
Definition WritePayload_typed p : Prop :=
  u32 (wp_rkey p) ∧ u64 (wp_remote_va p) ∧ u64 (wp_length p) ∧
  Forall ScatterGatherEntry_typed (wp_sg_list p).
Definition ReadReqPayload_typed p : Prop :=
  u32 (rq_rkey p) ∧ u64 (rq_remote_va p) ∧ u64 (rq_read_len p) ∧ u32 (rq_local_lkey p) ∧
  u64 (rq_local_va p).
Definition ReadRespPayload_typed p : Prop := u64 (rr_fragment_offset p).
Definition ErrorPayload_typed p : Prop := u32 (ep_failing_seq p) ∧ valid_utf8 (ep_description p).
Definition CreditUpdatePayload_typed p : Prop := u32 (cu_credit_increment p).
Definition AtomicReqPayload_typed p : Prop :=
  u32 (aq_rkey p) ∧ u8 (aq_atomic_type p) ∧ u64 (aq_remote_va p) ∧ u64 (aq_operand1 p) ∧
  u64 (aq_operand2 p).
Definition AtomicRespPayload_typed p : Prop := u64 (ap_original_value p) ∧ u16 (ap_status p).

Section codec.
Context `{BytesCrate, Profile}.
Implicit Types buf : list byte.

Definition ConnectPayload_encode (p : ConnectPayload) buf : list byte :=
  let buf := put_u32 buf (cp_pd p) in
  let buf := put_u32 buf (cp_capability_flags p) in
  let buf := put_u32 buf (cp_max_msg_size p) in
  put_u32 buf (cp_icc p).
Definition ConnectPayload_decode : M (list byte) RdowsError ConnectPayload :=
  n ← buf_remaining;
  if n <? CONNECT_PAYLOAD_SIZE then throw (PayloadTooShort CONNECT_PAYLOAD_SIZE n) else
  pd ← buf_get get_u32;
  capability_flags ← buf_get get_u32;
  max_msg_size ← buf_get get_u32;
  icc ← buf_get get_u32;
  mret (mkConnect pd capability_flags max_msg_size icc).

Definition MrRegPayload_encode (p : MrRegPayload) buf : list byte :=
  let buf := put_u32 buf (mr_pd p) in
  let buf := put_u32 buf (mr_access_flags p) in
  let buf := put_u32 buf (wrap 32 (Z.shiftr (mr_region_len p) 32)) in
  let buf := put_u32 buf (wrap 32 (mr_region_len p)) in
  match mr_suggested_lkey p with
  | Some lkey => put_u32 buf lkey
  | None => buf
  end.
Definition MrRegPayload_decode (payload_length : Z) : M (list byte) RdowsError MrRegPayload :=
  n ← buf_remaining;
  if n <? 16 then throw (PayloadTooShort 16 n) else
  pd ← buf_get get_u32;
  access_flags ← buf_get get_u32;
  high ← buf_get get_u32;
  low ← buf_get get_u32;
  let region_len := Z.lor (Z.shiftl high 32) low in
  n ← buf_remaining;
  suggested_lkey ←
    (if (20 <=? payload_length) && (4 <=? n)
     then lkey ← buf_get get_u32; mret (Some lkey)
     else mret None);
  mret (mkMrReg pd access_flags region_len suggested_lkey).
Definition MrRegPayload_encoded_len (p : MrRegPayload) : Z :=
  match mr_suggested_lkey p with Some _ => 20 | None => 16 end.

Definition MrRegAckPayload_encode (p : MrRegAckPayload) buf : list byte :=
  let buf := put_u32 buf (ra_pd p) in
  let buf := put_u32 buf (ra_lkey p) in
  let buf := put_u32 buf (ra_rkey p) in
  let buf := put_u16 buf (ra_status p) in
  put_u16 buf 0.
Definition MrRegAckPayload_decode : M (list byte) RdowsError MrRegAckPayload :=
  n ← buf_remaining;
  if n <? MR_REG_ACK_SIZE then throw (PayloadTooShort MR_REG_ACK_SIZE n) else
  pd ← buf_get get_u32;
  lkey ← buf_get get_u32;
  rkey ← buf_get get_u32;
  status ← buf_get get_u16;
  _ ← buf_get get_u16;
  mret (mkMrRegAck pd lkey rkey status).

Definition MrDeregPayload_encode (p : MrDeregPayload) buf : list byte :=
  let buf := put_u32 buf (md_pd p) in
  put_u32 buf (md_lkey p).
Definition MrDeregPayload_decode : M (list byte) RdowsError MrDeregPayload :=
  n ← buf_remaining;
  if n <? MR_DEREG_SIZE then throw (PayloadTooShort MR_DEREG_SIZE n) else
  pd ← buf_get get_u32;
  lkey ← buf_get get_u32;
  mret (mkMrDereg pd lkey).

Definition MrDeregAckPayload_encode (p : MrDeregAckPayload) buf : list byte :=
  let buf := put_u16 buf (da_status p) in
  put_bytes buf 0 6.
Definition MrDeregAckPayload_decode : M (list byte) RdowsError MrDeregAckPayload :=
  n ← buf_remaining;
  if n <? MR_DEREG_ACK_SIZE then throw (PayloadTooShort MR_DEREG_ACK_SIZE n) else
  status ← buf_get get_u16;
  _ ← buf_advance 6;
  mret (mkMrDeregAck status).

(** [for entry in &self.sg_list { entry.encode(buf) }] *)
Definition sg_list_encode (sg_list : list ScatterGatherEntry) buf : list byte :=
  fold_left (λ buf entry, ScatterGatherEntry_encode entry buf) sg_list buf.
(** [for _ in 0..count { sg_list.push(ScatterGatherEntry::decode(buf)?) }] *)
Fixpoint sg_list_decode (count : nat) (sg_list : list ScatterGatherEntry)
    : M (list byte) RdowsError (list ScatterGatherEntry) :=
  match count with
  | O => mret sg_list
  | S count' =>
      entry ← ScatterGatherEntry_decode;
      sg_list_decode count' (sg_list ++ [entry])
  end.

Definition SendPayload_encode (p : SendPayload) buf : list byte :=
  let buf := put_u16 buf (wrap 16 (zlen (sp_sg_list p))) in
  let buf := put_u16 buf 0 in
  sg_list_encode (sp_sg_list p) buf.
Definition SendPayload_decode : M (list byte) RdowsError SendPayload :=
  n ← buf_remaining;
  if n <? 4 then throw (PayloadTooShort 4 n) else
  count ← buf_get get_u16;
  _ ← buf_get get_u16;
  let needed := count * SG_ENTRY_SIZE in
  n ← buf_remaining;
  if n <? needed then throw (PayloadTooShort (4 + needed) (4 + n)) else
  _ ← vec_with_capacity 16 count;
  sg_list ← sg_list_decode (Z.to_nat count) [];
  mret (mkSend sg_list).
Definition SendPayload_encoded_len (p : SendPayload) : Z :=
  4 + zlen (sp_sg_list p) * SG_ENTRY_SIZE.

Definition WritePayload_encode (p : WritePayload) buf : list byte :=
  let buf := put_u32 buf (wp_rkey p) in
  let buf := put_u32 buf 0 in
  let buf := put_u64 buf (wp_remote_va p) in
  let buf := put_u64 buf (wp_length p) in
  sg_list_encode (wp_sg_list p) buf.
Definition WritePayload_decode (payload_length : Z) : M (list byte) RdowsError WritePayload :=
  n ← buf_remaining;
  if n <? WRITE_HEADER_SIZE then throw (PayloadTooShort WRITE_HEADER_SIZE n) else
  rkey ← buf_get get_u32;
  _ ← buf_get get_u32;
  remote_va ← buf_get get_u64;
  length ← buf_get get_u64;
  sg_bytes ← sub_ovf 64 payload_length WRITE_HEADER_SIZE;
  let count := sg_bytes / SG_ENTRY_SIZE in
  _ ← vec_with_capacity 16 count;
  sg_list ← sg_list_decode (Z.to_nat count) [];
  mret (mkWrite rkey remote_va length sg_list).
Definition WritePayload_encoded_len (p : WritePayload) : Z :=
  WRITE_HEADER_SIZE + zlen (wp_sg_list p) * SG_ENTRY_SIZE.

Definition ReadReqPayload_encode (p : ReadReqPayload) buf : list byte :=
  let buf := put_u32 buf (rq_rkey p) in
  let buf := put_u32 buf 0 in
  let buf := put_u64 buf (rq_remote_va p) in
  let buf := put_u64 buf (rq_read_len p) in
  let buf := put_u32 buf (rq_local_lkey p) in
  let buf := put_u32 buf 0 in
  put_u64 buf (rq_local_va p).
Definition ReadReqPayload_decode : M (list byte) RdowsError ReadReqPayload :=
  n ← buf_remaining;
  if n <? READ_REQ_SIZE then throw (PayloadTooShort READ_REQ_SIZE n) else
  rkey ← buf_get get_u32;
  _ ← buf_get get_u32;
  remote_va ← buf_get get_u64;
  read_len ← buf_get get_u64;
  local_lkey ← buf_get get_u32;
  _ ← buf_get get_u32;
  local_va ← buf_get get_u64;
  mret (mkReadReq rkey remote_va read_len local_lkey local_va).

Definition ReadRespPayload_encode (p : ReadRespPayload) buf : list byte :=
  let buf := put_u64 buf (rr_fragment_offset p) in
  put_slice buf (rr_data p).
Definition ReadRespPayload_decode (payload_length : Z)
    : M (list byte) RdowsError ReadRespPayload :=
  n ← buf_remaining;
  if n <? 8 then throw (PayloadTooShort 8 n) else
  fragment_offset ← buf_get get_u64;
  data_len ← sub_ovf 64 payload_length 8;
  n ← buf_remaining;
  if n <? data_len then throw (PayloadTooShort payload_length (8 + n)) else
  data ← buf_copy data_len;
  mret (mkReadResp fragment_offset data).
Definition ReadRespPayload_encoded_len (p : ReadRespPayload) : Z := 8 + zlen (rr_data p).

Definition ErrorPayload_encode (p : ErrorPayload) buf : list byte :=
  let buf := put_u16 buf (u16_from_ErrorCode (ep_error_code p)) in
  let buf := put_u16 buf 0 in
  let buf := put_u32 buf (ep_failing_seq p) in
  let desc_bytes := ep_description p in
  let buf := put_u16 buf (wrap 16 (zlen desc_bytes)) in
  put_slice buf desc_bytes.
Definition ErrorPayload_decode : M (list byte) RdowsError ErrorPayload :=
  n ← buf_remaining;
  if n <? ERROR_FIXED_SIZE then throw (PayloadTooShort ERROR_FIXED_SIZE n) else
  code_val ← buf_get get_u16;
  let error_code := default ErrInternal (ErrorCode_try_from code_val) in
  _ ← buf_get get_u16;
  failing_seq ← buf_get get_u32;
  desc_len ← buf_get get_u16;
  n ← buf_remaining;
  description ←
    (if (0 <? desc_len) && (desc_len <=? n)
     then desc_bytes ← buf_copy desc_len; mret (from_utf8_lossy desc_bytes)
     else mret []);
  mret (mkError error_code failing_seq description).
Definition ErrorPayload_encoded_len (p : ErrorPayload) : Z :=
  ERROR_FIXED_SIZE + zlen (ep_description p).

Definition CreditUpdatePayload_encode (p : CreditUpdatePayload) buf : list byte :=
  let buf := put_u32 buf (cu_credit_increment p) in
  put_u32 buf 0.
Definition CreditUpdatePayload_decode : M (list byte) RdowsError CreditUpdatePayload :=
  n ← buf_remaining;
  if n <? CREDIT_UPDATE_SIZE then throw (PayloadTooShort CREDIT_UPDATE_SIZE n) else
  credit_increment ← buf_get get_u32;
  _ ← buf_get get_u32;
  mret (mkCredit credit_increment).

Definition AtomicReqPayload_encode (p : AtomicReqPayload) buf : list byte :=
  let buf := put_u32 buf (aq_rkey p) in
  let buf := put_u8 buf (aq_atomic_type p) in
  let buf := put_bytes buf 0 3 in
  let buf := put_u64 buf (aq_remote_va p) in
  let buf := put_u64 buf (aq_operand1 p) in
  put_u64 buf (aq_operand2 p).
Definition AtomicReqPayload_decode : M (list byte) RdowsError AtomicReqPayload :=
  n ← buf_remaining;
  if n <? ATOMIC_REQ_SIZE then throw (PayloadTooShort ATOMIC_REQ_SIZE n) else
  rkey ← buf_get get_u32;
  atomic_type ← buf_get get_u8;
  _ ← buf_advance 3;
  remote_va ← buf_get get_u64;
  operand1 ← buf_get get_u64;
  operand2 ← buf_get get_u64;
  mret (mkAtomicReq rkey atomic_type remote_va operand1 operand2).

Definition AtomicRespPayload_encode (p : AtomicRespPayload) buf : list byte :=
  let buf := put_u64 buf (ap_original_value p) in
  let buf := put_u16 buf (ap_status p) in
  put_bytes buf 0 6.
Definition AtomicRespPayload_decode : M (list byte) RdowsError AtomicRespPayload :=
  n ← buf_remaining;
  if n <? ATOMIC_RESP_SIZE then throw (PayloadTooShort ATOMIC_RESP_SIZE n) else
  original_value ← buf_get get_u64;
  status ← buf_get get_u16;
  _ ← buf_advance 6;
  mret (mkAtomicResp original_value status).

Definition DataPayload_encode (p : DataPayload) buf : list byte := put_slice buf (dp_data p).
Definition DataPayload_decode (payload_length : Z) : M (list byte) RdowsError DataPayload :=
  n ← buf_remaining;
  if n <? payload_length then throw (PayloadTooShort payload_length n) else
  data ← buf_copy payload_length;
  mret (mkData data).
End codec.

(** ** Fixed-size payloads *)

(** [codec_ok n typed enc dec]: [enc] appends exactly [n] bytes, [dec] inverts it
    on typed values and refuses short buffers with the error [PayloadTooShort n],
    and never panics. *)
Class codec_ok {A} (n : Z) (typed : A → Prop) (enc : A → list byte → list byte)
    (dec : M (list byte) RdowsError A) : Prop := {
  codec_append a buf : enc a buf = buf ++ enc a [];
  codec_length a : zlen (enc a []) = n;
  codec_roundtrip a r : typed a → dec (enc a [] ++ r) = Ok a r;
  codec_fixed : fixed_decoder n (PayloadTooShort n) typed dec;
}.

(** The four obligations for a payload of integer fields. *)
Ltac unfold_sizes :=
  unfold CONNECT_PAYLOAD_SIZE, MR_REG_ACK_SIZE, MR_DEREG_SIZE, MR_DEREG_ACK_SIZE,
    WRITE_HEADER_SIZE, READ_REQ_SIZE, ERROR_FIXED_SIZE, CREDIT_UPDATE_SIZE,
    ATOMIC_REQ_SIZE, ATOMIC_RESP_SIZE, SG_ENTRY_SIZE, HEADER_SIZE in *.
Ltac solve_fixed_decoder :=
  intros ?b; rewrite remaining_bind;
  match goal with |- context [?x <? ?y] => destruct (Z.ltb_spec x y) end;
  [done|]; repeat decode_long_step; split_and!; [done..|];
  repeat split; apply be_value_take.
Ltac advance_step :=
  rewrite advance_bind by zlen_lia; rewrite drop_app_length'
    by (rewrite ?length_be_bytes, ?length_replicate; done).
Ltac cond_true :=
  match goal with |- context [if ?c then _ else _] =>
    replace c with true by (symmetry; rewrite ?andb_true_iff, ?Z.leb_le, ?Z.ltb_lt; zlen_lia)
  end.
Ltac solve_codec typed enc dec :=
  split;
  [ intros a buf; unfold enc; by put_laws
  | intros a; unfold enc; put_laws; by autorewrite with zlen
  | intros a r Ht; unfold typed in Ht; destruct_and?; unfold enc, dec; unfold_sizes; put_laws;
    repeat (decode_step || advance_step); by destruct a
  | unfold dec; unfold_sizes; solve_fixed_decoder ].

Section codec_facts.
Context `{BytesCrateLaws, Profile}.

#[export] Instance ConnectPayload_ok :
  codec_ok CONNECT_PAYLOAD_SIZE ConnectPayload_typed ConnectPayload_encode ConnectPayload_decode.
Proof using Type*. solve_codec @ConnectPayload_typed @ConnectPayload_encode @ConnectPayload_decode. Qed.
#[export] Instance MrRegAckPayload_ok :
  codec_ok MR_REG_ACK_SIZE MrRegAckPayload_typed MrRegAckPayload_encode MrRegAckPayload_decode.
Proof using Type*. solve_codec @MrRegAckPayload_typed @MrRegAckPayload_encode @MrRegAckPayload_decode. Qed.
#[export] Instance MrDeregPayload_ok :
  codec_ok MR_DEREG_SIZE MrDeregPayload_typed MrDeregPayload_encode MrDeregPayload_decode.
Proof using Type*. solve_codec @MrDeregPayload_typed @MrDeregPayload_encode @MrDeregPayload_decode. Qed.
#[export] Instance MrDeregAckPayload_ok :
  codec_ok MR_DEREG_ACK_SIZE MrDeregAckPayload_typed MrDeregAckPayload_encode MrDeregAckPayload_decode.
Proof using Type*. solve_codec @MrDeregAckPayload_typed @MrDeregAckPayload_encode @MrDeregAckPayload_decode. Qed.
#[export] Instance ReadReqPayload_ok :
  codec_ok READ_REQ_SIZE ReadReqPayload_typed ReadReqPayload_encode ReadReqPayload_decode.
Proof using Type*. solve_codec @ReadReqPayload_typed @ReadReqPayload_encode @ReadReqPayload_decode. Qed.
#[export] Instance CreditUpdatePayload_ok :
  codec_ok CREDIT_UPDATE_SIZE CreditUpdatePayload_typed CreditUpdatePayload_encode CreditUpdatePayload_decode.
Proof using Type*. solve_codec @CreditUpdatePayload_typed @CreditUpdatePayload_encode @CreditUpdatePayload_decode. Qed.
#[export] Instance AtomicReqPayload_ok :
  codec_ok ATOMIC_REQ_SIZE AtomicReqPayload_typed AtomicReqPayload_encode AtomicReqPayload_decode.
Proof using Type*. solve_codec @AtomicReqPayload_typed @AtomicReqPayload_encode @AtomicReqPayload_decode. Qed.
#[export] Instance AtomicRespPayload_ok :
  codec_ok ATOMIC_RESP_SIZE AtomicRespPayload_typed AtomicRespPayload_encode AtomicRespPayload_decode.
Proof using Type*. solve_codec @AtomicRespPayload_typed @AtomicRespPayload_encode @AtomicRespPayload_decode. Qed.

(** *** MR_REG: the length travels as two halves, the suggested key is optional *)
Lemma region_len_halves len :
  u64 len → Z.lor (Z.shiftl (wrap 32 (Z.shiftr len 32)) 32) (wrap 32 len) = len.
Proof using Type.
  intros Hl. unfold wrap. rewrite <-!Z.land_ones by lia.
  apply Z.bits_inj'. intros i Hi. rewrite Z.lor_spec, Z.land_spec, Z.shiftl_spec by done.
  destruct (Z.ltb_spec i 32).
  - rewrite Z.testbit_neg_r, Z.ones_spec_low by lia. by rewrite andb_true_r.
  - rewrite (Z.ones_spec_high 32 i) by lia. rewrite andb_false_r, orb_false_r.
    rewrite Z.land_spec, Z.shiftr_spec by lia. replace (i - 32 + 32) with i by lia.
    destruct (Z.ltb_spec (i - 32) 32).
    + rewrite Z.ones_spec_low by lia. by rewrite andb_true_r.
    + rewrite Z.ones_spec_high by lia. rewrite andb_false_r. symmetry.
      destruct (decide (len = 0)) as [->|]; [apply Z.bits_0|]. unfold uN in Hl.
      apply Z.bits_above_log2; [lia|]. apply Z.log2_lt_pow2; [lia|].
      eapply Z.lt_le_trans; [apply Hl|]. apply Z.pow_le_mono_r; lia.
Qed.
Lemma lor_halves_range high low :
  u32 high → u32 low → u64 (Z.lor (Z.shiftl high 32) low).
Proof using Type.
  unfold uN. intros Hh Hl. rewrite Z.shiftl_mul_pow2 by lia.
  assert (0 ≤ Z.lor (high * 2 ^ 32) low) by (apply Z.lor_nonneg; lia).
  split; [done|]. destruct (decide (Z.lor (high * 2 ^ 32) low = 0)) as [->|]; [lia|].
  apply Z.log2_lt_pow2; [lia|]. rewrite Z.log2_lor by lia. apply Z.max_lub_lt.
  - destruct (decide (high = 0)) as [->|]; [done|]. apply Z.log2_lt_pow2; lia.
  - destruct (decide (low = 0)) as [->|]; [done|]. apply Z.log2_lt_pow2; lia.
Qed.

Lemma MrRegPayload_length p :
  zlen (MrRegPayload_encode p []) = MrRegPayload_encoded_len p.
Proof using Type*.
  unfold MrRegPayload_encode, MrRegPayload_encoded_len.
  destruct (mr_suggested_lkey p); put_laws; by autorewrite with zlen.
Qed.
Lemma MrRegPayload_roundtrip p :
  MrRegPayload_typed p →
  MrRegPayload_decode (MrRegPayload_encoded_len p) (MrRegPayload_encode p []) = Ok p [].
Proof using Type*.
  intros (? & ? & Hlen & Hl). unfold MrRegPayload_encode, MrRegPayload_encoded_len, MrRegPayload_decode.
  pose proof (wrap_range 32 (mr_region_len p) ltac:(lia)).
  pose proof (wrap_range 32 (Z.shiftr (mr_region_len p) 32) ltac:(lia)).
  destruct (mr_suggested_lkey p) as [lk|] eqn:Hs; cbn in Hl; put_laws.
  - rewrite <-(app_nil_r (be_bytes 4 lk)). repeat decode_step.
    cond_true. rewrite bind_assoc. repeat decode_step. rewrite region_len_halves by done.
    rewrite <-Hs. by destruct p.
  - rewrite <-(app_nil_r (be_bytes 4 (wrap 32 (mr_region_len p)))).
    repeat decode_step. rewrite region_len_halves by done. rewrite <-Hs. by destruct p.
Qed.

Lemma MrRegPayload_decode_safe pl b :
  match MrRegPayload_decode pl b with
  | Ok p _ => MrRegPayload_typed p
  | Err e _ => zlen b < 16 ∧ e = PayloadTooShort 16 (zlen b)
  | Panic => False
  end.
Proof using Type*.
  unfold MrRegPayload_decode. rewrite remaining_bind.
  destruct (Z.ltb_spec (zlen b) 16); [done|]. repeat decode_long_step.
  destruct (_ && _) eqn:Hc.
  - rewrite andb_true_iff, !Z.leb_le in Hc. destruct Hc as [_ Hc].
    rewrite bind_assoc, get_u32_long by zlen_lia.
    split_and!; cbn; try apply be_value_take. apply lor_halves_range; apply be_value_take.
  - split_and!; cbn; try apply be_value_take; [|done]. apply lor_halves_range; apply be_value_take.
Qed.

(** *** Scatter/gather lists *)
Lemma sg_list_encode_append l buf : sg_list_encode l buf = buf ++ sg_list_encode l [].
Proof using Type*.
  unfold sg_list_encode. revert buf. induction l as [|e l IH]; intros buf; cbn [fold_left].
  - by rewrite app_nil_r.
  - rewrite IH, (IH (ScatterGatherEntry_encode e [])), (ScatterGatherEntry_encode_eq e buf).
    by rewrite <-app_assoc.
Qed.
Lemma sg_list_encode_cons e l :
  sg_list_encode (e :: l) [] = ScatterGatherEntry_encode e [] ++ sg_list_encode l [].
Proof using Type*. unfold sg_list_encode at 1. cbn [fold_left]. apply sg_list_encode_append. Qed.
Lemma sg_list_encode_length l : zlen (sg_list_encode l []) = zlen l * SG_ENTRY_SIZE.
Proof using Type*.
  induction l as [|e l IH]; [done|].
  rewrite sg_list_encode_cons, zlen_app, IH, ScatterGatherEntry_encode_length.
  autorewrite with zlen. unfold_sizes. lia.
Qed.
Lemma sg_list_decode_encode l acc r :
  Forall ScatterGatherEntry_typed l →
  sg_list_decode (length l) acc (sg_list_encode l [] ++ r) = Ok (acc ++ l) r.
Proof using Type*.
  intros Hl. revert acc. induction Hl as [|e l He Hl IH]; intros acc.
  - cbn [length sg_list_decode]. by rewrite app_nil_r.
  - cbn [length sg_list_decode]. rewrite sg_list_encode_cons, <-app_assoc.
    rewrite (bind_Ok _ _ _ _ _ (ScatterGatherEntry_decode_encode e _ He)), IH.
    by rewrite <-app_assoc.
Qed.
Lemma sg_list_decode_safe n acc b :
  Forall ScatterGatherEntry_typed acc →
  match sg_list_decode n acc b with
  | Ok l _ => Forall ScatterGatherEntry_typed l ∧ length l = (length acc + n)%nat
  | Err e _ => zlen b < Z.of_nat n * SG_ENTRY_SIZE
  | Panic => False
  end.
Proof using Type*.
  revert acc b. induction n as [|n IH]; intros acc b Ha; cbn [sg_list_decode].
  - split; [done|lia].
  - pose proof (ScatterGatherEntry_decode_fixed b) as Hd.
    destruct (ScatterGatherEntry_decode b) as [e b'|e b'|] eqn:He; [| |done].
    + destruct Hd as (Hb & -> & Ht). rewrite (bind_Ok _ _ _ _ _ He).
      assert (Forall ScatterGatherEntry_typed (acc ++ [e])) as Ha' by (apply Forall_app; auto).
      specialize (IH (acc ++ [e]) (drop (Z.to_nat SG_ENTRY_SIZE) b) Ha').
      destruct (sg_list_decode n _ _); [| |done].
      * destruct IH as [? IH]. split; [done|]. rewrite IH, length_app. cbn. lia.
      * rewrite zlen_drop in IH. unfold_sizes. lia.
    + rewrite (bind_Err _ _ _ _ _ He). unfold_sizes. lia.
Qed.

(** *** SEND *)
Lemma SendPayload_length p : zlen (SendPayload_encode p []) = SendPayload_encoded_len p.
Proof using Type*.
  unfold SendPayload_encode, SendPayload_encoded_len.
  rewrite sg_list_encode_append. put_laws. autorewrite with zlen. rewrite sg_list_encode_length. lia.
Qed.
Lemma SendPayload_roundtrip p r :
  SendPayload_typed p → u16 (zlen (sp_sg_list p)) →
  SendPayload_decode (SendPayload_encode p [] ++ r) = Ok p r.
Proof using Type*.
  intros Hp Hn. unfold SendPayload_encode, SendPayload_decode.
  rewrite sg_list_encode_append, wrap_id by done. put_laws.
  pose proof (sg_list_encode_length (sp_sg_list p)). unfold_sizes.
  unfold uN in Hn.
  repeat decode_step. rewrite vec_with_capacity_bind by (unfold isize_max; lia). unfold zlen at 1. rewrite Nat2Z.id.
  rewrite (bind_Ok _ _ _ _ _ (sg_list_decode_encode (sp_sg_list p) [] r Hp)). by destruct p.
Qed.
Lemma SendPayload_decode_safe b :
  match SendPayload_decode b with
  | Ok p _ => SendPayload_typed p ∧ u16 (zlen (sp_sg_list p))
  | Err _ _ => True
  | Panic => False
  end.
Proof using Type*.
  unfold SendPayload_decode. rewrite remaining_bind.
  destruct (Z.ltb_spec (zlen b) 4); [done|]. repeat decode_long_step.
  set (count := be_value (take 2 b)).
  assert (u16 count) as Hc by apply be_value_take. unfold uN in Hc.
  destruct (Z.ltb_spec (zlen (drop 4 b)) (count * SG_ENTRY_SIZE)); [done|].
  rewrite vec_with_capacity_bind by (unfold isize_max; lia).
  pose proof (sg_list_decode_safe (Z.to_nat count) [] (drop 4 b) ltac:(constructor)) as Hs.
  destruct (sg_list_decode _ _ _) as [l b'|e b'|] eqn:Hd; [| |done].
  - rewrite (bind_Ok _ _ _ _ _ Hd). cbn. destruct Hs as [? Hl]. split; [done|].
    unfold uN, zlen. cbn in Hl. lia.
  - by rewrite (bind_Err _ _ _ _ _ Hd).
Qed.

(** *** WRITE *)
Lemma WritePayload_length p : zlen (WritePayload_encode p []) = WritePayload_encoded_len p.
Proof using Type*.
  unfold WritePayload_encode, WritePayload_encoded_len.
  rewrite sg_list_encode_append. put_laws. autorewrite with zlen. rewrite sg_list_encode_length.
  unfold_sizes. lia.
Qed.
Lemma WritePayload_roundtrip p r :
  WritePayload_typed p → u32 (WritePayload_encoded_len p) →
  WritePayload_decode (WritePayload_encoded_len p) (WritePayload_encode p [] ++ r) = Ok p r.
Proof using Type*.
  intros (? & ? & ? & Hl) Hn. unfold WritePayload_encode, WritePayload_decode.
  unfold WritePayload_encoded_len, uN in *. rewrite sg_list_encode_append. put_laws.
  pose proof (sg_list_encode_length (wp_sg_list p)).
  assert (u32 0) by done. unfold_sizes. repeat decode_step.
  zlen_nonneg_hyps. unfold sub_ovf. rewrite ovf_bind by (unfold uN; lia).
  replace ((24 + zlen (wp_sg_list p) * 16 - 24) / 16) with (zlen (wp_sg_list p))
    by (rewrite Z.add_simpl_l, Z.div_mul; lia).
  rewrite vec_with_capacity_bind by (unfold isize_max; lia). unfold zlen at 1. rewrite Nat2Z.id.
  rewrite (bind_Ok _ _ _ _ _ (sg_list_decode_encode (wp_sg_list p) [] r Hl)). by destruct p.
Qed.
(** With a [payload_length] below the fixed part the subtraction underflows: a
    debug build panics there, a release build wraps and panics in
    [Vec::with_capacity]. *)
Lemma WritePayload_decode_panics pl b :
  0 ≤ pl < WRITE_HEADER_SIZE → WRITE_HEADER_SIZE ≤ zlen b → WritePayload_decode pl b = Panic.
Proof using Type*.
  intros Hpl Hb. unfold WritePayload_decode. unfold_sizes. rewrite remaining_bind.
  rewrite (proj2 (Z.ltb_ge _ _)) by lia. repeat decode_long_step.
  unfold sub_ovf, ovf. rewrite decide_False by (unfold uN; lia).
  case_match; [done|]. rewrite ret_bind. apply bind_Panic. unfold vec_with_capacity.
  rewrite (proj2 (Z.leb_gt _ _)); [done|]. unfold isize_max, wrap.
  replace ((pl - 24) mod 2 ^ 64) with (pl - 24 + 2 ^ 64)
    by (symmetry; rewrite <-(Z.mod_add _ 1) by lia; rewrite Z.mod_small; lia).
  assert (2 ^ 60 - 2 ≤ (pl - 24 + 2 ^ 64) / 16) by (apply Z.div_le_lower_bound; lia). lia.
Qed.
Lemma WritePayload_decode_safe pl b :
  u32 pl →
  match WritePayload_decode pl b with
  | Ok p _ => WritePayload_typed p
  | Err _ _ => True
  | Panic => pl < WRITE_HEADER_SIZE ∧ WRITE_HEADER_SIZE ≤ zlen b
  end.
Proof using Type*.
  intros Hpl. unfold uN in Hpl. unfold_sizes.
  destruct (decide (pl < 24 ∧ 24 ≤ zlen b)) as [[]|Hn].
  { by rewrite WritePayload_decode_panics by (unfold_sizes; lia). }
  unfold WritePayload_decode. unfold_sizes. rewrite remaining_bind.
  destruct (Z.ltb_spec (zlen b) 24); [done|]. repeat decode_long_step.
  unfold sub_ovf. rewrite ovf_bind by (unfold uN; lia). set (count := (pl - 24) / 16).
  assert (0 ≤ count < 2 ^ 28) by (unfold count; split; [apply Z.div_pos|apply Z.div_lt_upper_bound]; lia).
  rewrite vec_with_capacity_bind by (unfold isize_max; lia).
  pose proof (sg_list_decode_safe (Z.to_nat count) [] (drop 24 b) ltac:(constructor)) as Hs.
  destruct (sg_list_decode _ _ _) as [l b'|e b'|] eqn:Hd; [| |done].
  - rewrite (bind_Ok _ _ _ _ _ Hd). repeat split; try apply be_value_take. apply Hs.
  - by rewrite (bind_Err _ _ _ _ _ Hd).
Qed.

(** *** READ_RESP *)
Lemma ReadRespPayload_length p :
  zlen (ReadRespPayload_encode p []) = ReadRespPayload_encoded_len p.
Proof using Type*. unfold ReadRespPayload_encode. put_laws. by autorewrite with zlen. Qed.
Lemma ReadRespPayload_roundtrip p r :
  ReadRespPayload_typed p → u32 (ReadRespPayload_encoded_len p) →
  ReadRespPayload_decode (ReadRespPayload_encoded_len p) (ReadRespPayload_encode p [] ++ r)
    = Ok p r.
Proof using Type*.
  intros Hp Hn. unfold ReadRespPayload_typed in Hp.
  unfold ReadRespPayload_encode, ReadRespPayload_decode, ReadRespPayload_encoded_len, uN in *.
  put_laws. repeat decode_step. zlen_nonneg_hyps.
  unfold sub_ovf. rewrite ovf_bind by (unfold uN; lia).
  rewrite Z.add_simpl_l. decode_step. decode_step.
  rewrite copy_bind by zlen_lia. unfold zlen. rewrite Nat2Z.id, take_app_length, drop_app_length.
  by destruct p.
Qed.
Lemma ReadRespPayload_decode_safe pl b :
  u32 pl →
  match ReadRespPayload_decode pl b with
  | Ok p _ => ReadRespPayload_typed p
  | Err _ _ => True
  | Panic => overflow_checks = true ∧ pl < 8 ∧ 8 ≤ zlen b
  end.
Proof using Type*.
  intros Hpl. unfold ReadRespPayload_decode. unfold uN in Hpl. rewrite remaining_bind.
  destruct (Z.ltb_spec (zlen b) 8); [done|]. repeat decode_long_step.
  unfold sub_ovf, ovf. destruct (decide (uN 64 (pl - 8))) as [Hd|Hd].
  - rewrite ret_bind. decode_long_step. unfold uN in Hd.
    destruct (Z.ltb_spec (zlen (drop 8 b)) (pl - 8)); [done|].
    rewrite copy_bind by lia. apply be_value_take.
  - unfold uN in Hd. destruct overflow_checks eqn:Ho.
    + cbn. split_and!; [done|lia|done].
    + rewrite ret_bind. decode_long_step. unfold wrap.
      replace ((pl - 8) mod 2 ^ 64) with (pl - 8 + 2 ^ 64)
        by (symmetry; rewrite <-(Z.mod_add _ 1) by lia; rewrite Z.mod_small; lia).
      destruct (Z.ltb_spec (zlen (drop 8 b)) (pl - 8 + 2 ^ 64)); [done|].
      rewrite copy_bind by lia. apply be_value_take.
Qed.
Lemma ReadRespPayload_decode_panics pl b :
  overflow_checks = true → 0 ≤ pl < 8 → 8 ≤ zlen b → ReadRespPayload_decode pl b = Panic.
Proof using Type*.
  intros Ho Hpl Hb. unfold ReadRespPayload_decode. rewrite remaining_bind.
  rewrite (proj2 (Z.ltb_ge _ _)) by lia. repeat decode_long_step.
  unfold sub_ovf, ovf. by rewrite decide_False, Ho by (unfold uN; lia).
Qed.

(** *** ERROR *)
Lemma ErrorPayload_length p : zlen (ErrorPayload_encode p []) = ErrorPayload_encoded_len p.
Proof using Type*.
  unfold ErrorPayload_encode, ErrorPayload_encoded_len. put_laws. autorewrite with zlen.
  unfold_sizes. lia.
Qed.
Lemma ErrorPayload_roundtrip p r :
  ErrorPayload_typed p → u16 (zlen (ep_description p)) →
  ErrorPayload_decode (ErrorPayload_encode p [] ++ r) = Ok p r.
Proof using Type*.
  intros [? Hu] Hn. unfold ErrorPayload_encode, ErrorPayload_decode. rewrite wrap_id by done.
  pose proof (u16_from_ErrorCode_range (ep_error_code p)).
  put_laws. unfold_sizes. repeat decode_step.
  rewrite ErrorCode_try_from_u16. cbn [default from_option id].
  destruct (Z.ltb_spec 0 (zlen (ep_description p))).
  - rewrite (proj2 (Z.leb_le _ _)) by zlen_lia. cbn [andb].
    rewrite bind_assoc, copy_bind by zlen_lia.
    unfold zlen at 1 2. rewrite Nat2Z.id, take_app_length, drop_app_length, ret_bind.
    rewrite from_utf8_lossy_valid by done. by destruct p.
  - cbn [andb]. rewrite ret_bind. destruct p as [c f [|]]; [done|]. cbn in *. zlen_lia.
Qed.
Lemma ErrorPayload_decode_safe b :
  match ErrorPayload_decode b with
  | Ok p _ => ErrorPayload_typed p
  | Err _ _ => True
  | Panic => False
  end.
Proof using Type*.
  unfold ErrorPayload_decode. unfold_sizes. rewrite remaining_bind.
  destruct (Z.ltb_spec (zlen b) 10); [done|]. repeat decode_long_step.
  destruct (_ && _) eqn:Hc.
  - rewrite andb_true_iff, Z.ltb_lt, Z.leb_le in Hc. rewrite bind_assoc, copy_bind by lia.
    rewrite ret_bind. split; [apply be_value_take|apply from_utf8_lossy_is_valid].
  - rewrite ret_bind. split; [apply be_value_take|done].
Qed.

(** *** SEND_DATA and WRITE_DATA *)
Lemma DataPayload_roundtrip p r :
  DataPayload_decode (zlen (dp_data p)) (DataPayload_encode p [] ++ r) = Ok p r.
Proof using Type*.
  unfold DataPayload_encode, DataPayload_decode. put_laws. repeat decode_step.
  rewrite copy_bind by zlen_lia. unfold zlen. rewrite Nat2Z.id, take_app_length, drop_app_length.
  by destruct p.
Qed.
Lemma DataPayload_decode_safe pl b :
  u32 pl → match DataPayload_decode pl b with
           | Ok p _ => zlen (dp_data p) = pl
           | Err _ _ => zlen b < pl
           | Panic => False
           end.
Proof using Type*.
  intros Hpl. unfold DataPayload_decode. unfold uN in Hpl. rewrite remaining_bind.
  destruct (Z.ltb_spec (zlen b) pl); [done|]. rewrite copy_bind by lia. cbn. zlen_lia.
Qed.
End codec_facts.
