(* ===== verification/Message.v ===== *)
(** * The unified message type ([rdows-core/src/message.rs], [enum RdowsMessage])

    [encode] writes the payload, stores its length in a copy of the header and
    concatenates; [decode] reads the header and dispatches on its opcode. *)

From S2P Require Import Prelude Externals Utf8 Core Frame Payloads.

Module RdowsMessage.
Inductive RdowsMessage : Type :=
| Connect (h : RdowsHeader) (p : ConnectPayload)
| ConnectAck (h : RdowsHeader) (p : ConnectPayload)
| Disconnect (h : RdowsHeader)
| MrReg (h : RdowsHeader) (p : MrRegPayload)
| MrRegAck (h : RdowsHeader) (p : MrRegAckPayload)
| MrDereg (h : RdowsHeader) (p : MrDeregPayload)
| MrDeregAck (h : RdowsHeader) (p : MrDeregAckPayload)
| Send (h : RdowsHeader) (p : SendPayload)
| SendData (h : RdowsHeader) (p : DataPayload)
| RecvComp (h : RdowsHeader)
| Write (h : RdowsHeader) (p : WritePayload)
| WriteData (h : RdowsHeader) (p : DataPayload)
| WriteComp (h : RdowsHeader)
| ReadReq (h : RdowsHeader) (p : ReadReqPayload)
| ReadResp (h : RdowsHeader) (p : ReadRespPayload)
| AtomicReq (h : RdowsHeader) (p : AtomicReqPayload)
| AtomicResp (h : RdowsHeader) (p : AtomicRespPayload)
| Ack (h : RdowsHeader)
| CreditUpdate (h : RdowsHeader) (p : CreditUpdatePayload)
| Error (h : RdowsHeader) (p : ErrorPayload).
End RdowsMessage.
Abbreviation RdowsMessage := RdowsMessage.RdowsMessage.

Definition RdowsMessage_header (m : RdowsMessage) : RdowsHeader :=
  match m with
  | RdowsMessage.Connect h _ => h
  | RdowsMessage.ConnectAck h _ => h
  | RdowsMessage.Disconnect h => h
  | RdowsMessage.MrReg h _ => h
  | RdowsMessage.MrRegAck h _ => h
  | RdowsMessage.MrDereg h _ => h
  | RdowsMessage.MrDeregAck h _ => h
  | RdowsMessage.Send h _ => h
  | RdowsMessage.SendData h _ => h
  | RdowsMessage.RecvComp h => h
  | RdowsMessage.Write h _ => h
  | RdowsMessage.WriteData h _ => h
  | RdowsMessage.WriteComp h => h
  | RdowsMessage.ReadReq h _ => h
  | RdowsMessage.ReadResp h _ => h
  | RdowsMessage.AtomicReq h _ => h
  | RdowsMessage.AtomicResp h _ => h
  | RdowsMessage.Ack h => h
  | RdowsMessage.CreditUpdate h _ => h
  | RdowsMessage.Error h _ => h
  end.

(** [header.payload_length = n] on a copy of the header. *)
Definition with_payload_length (n : Z) (h : RdowsHeader) : RdowsHeader :=
  {| h_version := h_version h; h_opcode := h_opcode h; h_flags := h_flags h;
     h_session_id := h_session_id h; h_sequence := h_sequence h; h_wrid := h_wrid h;
     h_payload_length := n |}.

Section codec.
Context `{BytesCrate, Profile}.

(** The [match self] that fills [payload_buf]. *)
Definition RdowsMessage_encode_payload (m : RdowsMessage) : list byte :=
  match m with
  | RdowsMessage.Connect _ p | RdowsMessage.ConnectAck _ p => ConnectPayload_encode p []
  | RdowsMessage.Disconnect _ | RdowsMessage.RecvComp _ | RdowsMessage.WriteComp _
  | RdowsMessage.Ack _ => []
  | RdowsMessage.MrReg _ p => MrRegPayload_encode p []
  | RdowsMessage.MrRegAck _ p => MrRegAckPayload_encode p []
  | RdowsMessage.MrDereg _ p => MrDeregPayload_encode p []
  | RdowsMessage.MrDeregAck _ p => MrDeregAckPayload_encode p []
  | RdowsMessage.Send _ p => SendPayload_encode p []
  | RdowsMessage.SendData _ p | RdowsMessage.WriteData _ p => DataPayload_encode p []
  | RdowsMessage.Write _ p => WritePayload_encode p []
  | RdowsMessage.ReadReq _ p => ReadReqPayload_encode p []
  | RdowsMessage.ReadResp _ p => ReadRespPayload_encode p []
  | RdowsMessage.AtomicReq _ p => AtomicReqPayload_encode p []
  | RdowsMessage.AtomicResp _ p => AtomicRespPayload_encode p []
  | RdowsMessage.CreditUpdate _ p => CreditUpdatePayload_encode p []
  | RdowsMessage.Error _ p => ErrorPayload_encode p []
  end.

Definition RdowsMessage_encode (m : RdowsMessage) : list byte :=
  let payload_buf := RdowsMessage_encode_payload m in
  let header := with_payload_length (wrap 32 (zlen payload_buf)) (RdowsMessage_header m) in
  let out := RdowsHeader_encode header [] in
  put_slice out payload_buf.

Definition RdowsMessage_decode : M (list byte) RdowsError RdowsMessage :=
  header ← RdowsHeader_decode;
  let pl := h_payload_length header in
  match h_opcode header with
  | Opcode.Connect => p ← ConnectPayload_decode; mret (RdowsMessage.Connect header p)
  | Opcode.ConnectAck => p ← ConnectPayload_decode; mret (RdowsMessage.ConnectAck header p)
  | Opcode.Disconnect => mret (RdowsMessage.Disconnect header)
  | Opcode.MrReg => p ← MrRegPayload_decode pl; mret (RdowsMessage.MrReg header p)
  | Opcode.MrRegAck => p ← MrRegAckPayload_decode; mret (RdowsMessage.MrRegAck header p)
  | Opcode.MrDereg => p ← MrDeregPayload_decode; mret (RdowsMessage.MrDereg header p)
  | Opcode.MrDeregAck => p ← MrDeregAckPayload_decode; mret (RdowsMessage.MrDeregAck header p)
  | Opcode.Send => p ← SendPayload_decode; mret (RdowsMessage.Send header p)
  | Opcode.SendData => p ← DataPayload_decode pl; mret (RdowsMessage.SendData header p)
  | Opcode.RecvComp => mret (RdowsMessage.RecvComp header)
  | Opcode.Write => p ← WritePayload_decode pl; mret (RdowsMessage.Write header p)
  | Opcode.WriteData => p ← DataPayload_decode pl; mret (RdowsMessage.WriteData header p)
  | Opcode.WriteComp => mret (RdowsMessage.WriteComp header)
  | Opcode.ReadReq => p ← ReadReqPayload_decode; mret (RdowsMessage.ReadReq header p)
  | Opcode.ReadResp => p ← ReadRespPayload_decode pl; mret (RdowsMessage.ReadResp header p)
  | Opcode.AtomicReq => p ← AtomicReqPayload_decode; mret (RdowsMessage.AtomicReq header p)
  | Opcode.AtomicResp => p ← AtomicRespPayload_decode; mret (RdowsMessage.AtomicResp header p)
  | Opcode.Ack => mret (RdowsMessage.Ack header)
  | Opcode.CreditUpdate =>
      p ← CreditUpdatePayload_decode; mret (RdowsMessage.CreditUpdate header p)
  | Opcode.Error => p ← ErrorPayload_decode; mret (RdowsMessage.Error header p)
  end.
End codec.

(** ** Well-formed messages *)

(** The opcode a constructor stands for. *)
Definition opcode_of (m : RdowsMessage) : Opcode :=
  match m with
  | RdowsMessage.Connect _ _ => Opcode.Connect
  | RdowsMessage.ConnectAck _ _ => Opcode.ConnectAck
  | RdowsMessage.Disconnect _ => Opcode.Disconnect
  | RdowsMessage.MrReg _ _ => Opcode.MrReg
  | RdowsMessage.MrRegAck _ _ => Opcode.MrRegAck
  | RdowsMessage.MrDereg _ _ => Opcode.MrDereg
  | RdowsMessage.MrDeregAck _ _ => Opcode.MrDeregAck
  | RdowsMessage.Send _ _ => Opcode.Send
  | RdowsMessage.SendData _ _ => Opcode.SendData
  | RdowsMessage.RecvComp _ => Opcode.RecvComp
  | RdowsMessage.Write _ _ => Opcode.Write
  | RdowsMessage.WriteData _ _ => Opcode.WriteData
  | RdowsMessage.WriteComp _ => Opcode.WriteComp
  | RdowsMessage.ReadReq _ _ => Opcode.ReadReq
  | RdowsMessage.ReadResp _ _ => Opcode.ReadResp
  | RdowsMessage.AtomicReq _ _ => Opcode.AtomicReq
  | RdowsMessage.AtomicResp _ _ => Opcode.AtomicResp
  | RdowsMessage.Ack _ => Opcode.Ack
  | RdowsMessage.CreditUpdate _ _ => Opcode.CreditUpdate
  | RdowsMessage.Error _ _ => Opcode.Error
  end.

(** The types of the payload's fields. *)
Definition payload_typed (m : RdowsMessage) : Prop :=
  match m with
  | RdowsMessage.Connect _ p | RdowsMessage.ConnectAck _ p => ConnectPayload_typed p
  | RdowsMessage.MrReg _ p => MrRegPayload_typed p
  | RdowsMessage.MrRegAck _ p => MrRegAckPayload_typed p
  | RdowsMessage.MrDereg _ p => MrDeregPayload_typed p
  | RdowsMessage.MrDeregAck _ p => MrDeregAckPayload_typed p
  | RdowsMessage.Send _ p => SendPayload_typed p
  | RdowsMessage.Write _ p => WritePayload_typed p
  | RdowsMessage.ReadReq _ p => ReadReqPayload_typed p
  | RdowsMessage.ReadResp _ p => ReadRespPayload_typed p
  | RdowsMessage.AtomicReq _ p => AtomicReqPayload_typed p
  | RdowsMessage.AtomicResp _ p => AtomicRespPayload_typed p
  | RdowsMessage.CreditUpdate _ p => CreditUpdatePayload_typed p
  | RdowsMessage.Error _ p => ErrorPayload_typed p
  | RdowsMessage.Disconnect _ | RdowsMessage.SendData _ _ | RdowsMessage.WriteData _ _
  | RdowsMessage.RecvComp _ | RdowsMessage.WriteComp _ | RdowsMessage.Ack _ => True
  end.

(** A message of this protocol version: typed fields, the version number, and a
    header opcode that agrees with the constructor. *)
Definition RdowsMessage_wf (m : RdowsMessage) : Prop :=
  RdowsHeader_typed (RdowsMessage_header m) ∧
  h_version (RdowsMessage_header m) = RDOWS_VERSION ∧
  h_opcode (RdowsMessage_header m) = opcode_of m ∧
  payload_typed m.

(** The counters of the variable-size payloads are not truncated by their
    16-bit length fields. *)
Definition fits_counts (m : RdowsMessage) : Prop :=
  match m with
  | RdowsMessage.Send _ p => u16 (zlen (sp_sg_list p))
  | RdowsMessage.Error _ p => u16 (zlen (ep_description p))
  | _ => True
  end.

(** The message with another header. *)
Definition set_header (h : RdowsHeader) (m : RdowsMessage) : RdowsMessage :=
  match m with
  | RdowsMessage.Connect _ p => RdowsMessage.Connect h p
  | RdowsMessage.ConnectAck _ p => RdowsMessage.ConnectAck h p
  | RdowsMessage.Disconnect _ => RdowsMessage.Disconnect h
  | RdowsMessage.MrReg _ p => RdowsMessage.MrReg h p
  | RdowsMessage.MrRegAck _ p => RdowsMessage.MrRegAck h p
  | RdowsMessage.MrDereg _ p => RdowsMessage.MrDereg h p
  | RdowsMessage.MrDeregAck _ p => RdowsMessage.MrDeregAck h p
  | RdowsMessage.Send _ p => RdowsMessage.Send h p
  | RdowsMessage.SendData _ p => RdowsMessage.SendData h p
  | RdowsMessage.RecvComp _ => RdowsMessage.RecvComp h
  | RdowsMessage.Write _ p => RdowsMessage.Write h p
  | RdowsMessage.WriteData _ p => RdowsMessage.WriteData h p
  | RdowsMessage.WriteComp _ => RdowsMessage.WriteComp h
  | RdowsMessage.ReadReq _ p => RdowsMessage.ReadReq h p
  | RdowsMessage.ReadResp _ p => RdowsMessage.ReadResp h p
  | RdowsMessage.AtomicReq _ p => RdowsMessage.AtomicReq h p
  | RdowsMessage.AtomicResp _ p => RdowsMessage.AtomicResp h p
  | RdowsMessage.Ack _ => RdowsMessage.Ack h
  | RdowsMessage.CreditUpdate _ p => RdowsMessage.CreditUpdate h p
  | RdowsMessage.Error _ p => RdowsMessage.Error h p
  end.

Section message_facts.
Context `{BytesCrateLaws, Profile}.

Lemma RdowsMessage_encode_eq m :
  RdowsMessage_encode m =
    RdowsHeader_encode
      (with_payload_length (wrap 32 (zlen (RdowsMessage_encode_payload m)))
         (RdowsMessage_header m)) []
    ++ RdowsMessage_encode_payload m.
Proof using Type*. unfold RdowsMessage_encode. by rewrite put_slice_law. Qed.

(** The payload decoder chosen by the opcode. *)
Lemma decode_payload_roundtrip m h :
  payload_typed m → fits_counts m → u32 (zlen (RdowsMessage_encode_payload m)) →
  h_opcode h = opcode_of m → h_payload_length h = zlen (RdowsMessage_encode_payload m) →
  (∀ b, RdowsHeader_decode b = Ok h (RdowsMessage_encode_payload m) →
    RdowsMessage_decode b = Ok (set_header h m) []).
Proof using Type*.
  intros Ht Hc Hn Hop Hpl b Hb. unfold RdowsMessage_decode.
  rewrite (bind_Ok _ _ _ _ _ Hb), Hop.
  destruct m as [? p|? p|?|? p|? p|? p|? p|? p|? p|?|? p|? p|?|? p|? p|? p|? p|?|? p|? p];
    cbn [opcode_of set_header RdowsMessage_encode_payload payload_typed fits_counts] in *;
    try done;
    try (rewrite <-(app_nil_r (_ p [])), (bind_Ok _ _ _ _ _ (codec_roundtrip p [] Ht)); done);
    rewrite ?Hpl.
  - rewrite MrRegPayload_length, (bind_Ok _ _ _ _ _ (MrRegPayload_roundtrip p Ht)). done.
  - rewrite <-(app_nil_r (_ p [])), (bind_Ok _ _ _ _ _ (SendPayload_roundtrip p [] Ht Hc)). done.
  - replace (zlen (DataPayload_encode p [])) with (zlen (dp_data p))
      by (unfold DataPayload_encode; by put_laws).
    rewrite <-(app_nil_r (_ p [])), (bind_Ok _ _ _ _ _ (DataPayload_roundtrip p [])). done.
  - rewrite WritePayload_length in *.
    rewrite <-(app_nil_r (_ p [])), (bind_Ok _ _ _ _ _ (WritePayload_roundtrip p [] Ht Hn)). done.
  - replace (zlen (DataPayload_encode p [])) with (zlen (dp_data p))
      by (unfold DataPayload_encode; by put_laws).
    rewrite <-(app_nil_r (_ p [])), (bind_Ok _ _ _ _ _ (DataPayload_roundtrip p [])). done.
  - rewrite ReadRespPayload_length in *.
    rewrite <-(app_nil_r (_ p [])), (bind_Ok _ _ _ _ _ (ReadRespPayload_roundtrip p [] Ht Hn)). done.
  - rewrite <-(app_nil_r (_ p [])), (bind_Ok _ _ _ _ _ (ErrorPayload_roundtrip p [] Ht Hc)). done.
Qed.

Lemma with_payload_length_typed n h :
  RdowsHeader_typed h → u32 n → RdowsHeader_typed (with_payload_length n h).
Proof using Type. intros (? & ? & ? & ? & ? & ?) Hn. by split_and!. Qed.

(** Decoding inverts encoding. *)
Lemma decode_encode m :
  RdowsMessage_wf m → fits_counts m → u32 (zlen (RdowsMessage_encode_payload m)) →
  RdowsMessage_decode (RdowsMessage_encode m) =
    Ok (set_header (with_payload_length (zlen (RdowsMessage_encode_payload m))
                      (RdowsMessage_header m)) m) [].
Proof using Type*.
  intros (Hh & Hv & Hop & Ht) Hc Hn. rewrite RdowsMessage_encode_eq, wrap_id by done.
  apply decode_payload_roundtrip; try done.
  apply RdowsHeader_decode_encode; [by apply with_payload_length_typed|done].
Qed.

(** C5: a well-formed message whose payload fits its length fields is decoded
    from its own encoding, completely and with nothing left over; only the
    header's [payload_length] changes, to the length of the payload. *)
Theorem message_roundtrip m :
  RdowsMessage_wf m → fits_counts m → u32 (zlen (RdowsMessage_encode_payload m)) →
  RdowsMessage_decode (RdowsMessage_encode m) =
    Ok (set_header (with_payload_length (zlen (RdowsMessage_encode_payload m))
                      (RdowsMessage_header m)) m) [].
Proof using Type*. apply decode_encode. Qed.

(** One case of [RdowsMessage_decode]: a payload decoder and its constructor. *)
Lemma bind_ret_inv {A B} (d : M (list byte) RdowsError A) (f : A → B) b m r :
  (d ≫= λ p, mret (f p)) b = Ok m r → ∃ p, d b = Ok p r ∧ m = f p.
Proof using Type. intros (p & b' & Hd & [= <- <-])%bind_Ok_inv. eauto. Qed.

Lemma codec_decode_typed {A} n typed enc (dec : M (list byte) RdowsError A) b a r
    `{Hc : !codec_ok n typed enc dec} :
  dec b = Ok a r → typed a.
Proof using Type. intros Hd. pose proof (codec_fixed (codec_ok:=Hc) b) as Hf. rewrite Hd in Hf. apply Hf. Qed.

(** What an accepted message satisfies. *)
Lemma decode_Ok_wf b m r :
  RdowsMessage_decode b = Ok m r →
  RdowsMessage_wf m ∧ (opcode_of m ≠ Opcode.Error → fits_counts m).
Proof using Type*.
  unfold RdowsMessage_decode. intros (h & b1 & Hh & Hm)%bind_Ok_inv.
  apply RdowsHeader_decode_typed in Hh as (Ht & Hv & _ & _). unfold RdowsMessage_wf.
  assert (u32 (h_payload_length h)) as Hpl by apply Ht.
  pose proof (MrRegPayload_decode_safe (h_payload_length h) b1) as Smr.
  pose proof (SendPayload_decode_safe b1) as Ssend.
  pose proof (WritePayload_decode_safe (h_payload_length h) b1 Hpl) as Sw.
  pose proof (ReadRespPayload_decode_safe (h_payload_length h) b1 Hpl) as Srr.
  pose proof (ErrorPayload_decode_safe b1) as Serr.
  destruct (h_opcode h) eqn:Hop;
    first [ apply bind_ret_inv in Hm as (p & Hd & ->); rewrite ?Hd in * | injection Hm as <- _ ];
    cbn [RdowsMessage_header opcode_of payload_typed fits_counts];
    repeat match goal with |- _ ∧ _ => split end; try done;
    first [ apply (codec_decode_typed _ _ _ _ _ _ _ Hd) | by destruct Ssend ].
Qed.

(** C11: whatever bytes arrive, a message that [decode] accepts is well formed:
    its fields have their types, its version is the supported one, the
    constructor agrees with the header's opcode, and its counters fit their
    fields (an ERROR description may grow when ill-formed UTF-8 is replaced). *)
Theorem decode_well_formed b m r :
  RdowsMessage_decode b = Ok m r →
  RdowsMessage_wf m ∧ (opcode_of m ≠ Opcode.Error → fits_counts m).
Proof using Type*. apply decode_Ok_wf. Qed.

(** The inputs on which the decoder panics: a header that announces fewer
    payload bytes than the fixed part of WRITE (or, with overflow checks, of
    READ_RESP) although those bytes are present. *)
Definition underflow_input (b : list byte) : Prop :=
  ∃ h r, RdowsHeader_decode b = Ok h r ∧
    ((h_opcode h = Opcode.Write ∧ h_payload_length h < WRITE_HEADER_SIZE ∧
      WRITE_HEADER_SIZE ≤ zlen r) ∨
     (overflow_checks = true ∧ h_opcode h = Opcode.ReadResp ∧ h_payload_length h < 8 ∧
      8 ≤ zlen r)).

Lemma bind_ret_panic {A B} (d : M (list byte) RdowsError A) (f : A → B) b :
  (d ≫= λ p, mret (f p)) b = Panic → d b = Panic.
Proof using Type. unfold mbind, M_bind. by destruct (d b). Qed.

Lemma codec_decode_no_panic {A} n typed enc (dec : M (list byte) RdowsError A) b
    `{Hc : !codec_ok n typed enc dec} : dec b ≠ Panic.
Proof using Type. pose proof (codec_fixed (codec_ok:=Hc) b). by destruct (dec b). Qed.

(** When the decoder panics. *)
Lemma decode_Panic b : RdowsMessage_decode b = Panic ↔ underflow_input b.
Proof using Type*.
  split.
  - unfold RdowsMessage_decode. intros Hp.
    destruct (RdowsHeader_decode b) as [h r|e r|] eqn:Hh.
    + rewrite (bind_Ok _ _ _ _ _ Hh) in Hp. exists h, r. split; [done|].
      apply RdowsHeader_decode_typed in Hh as (Ht & _).
      assert (u32 (h_payload_length h)) as Hpl by apply Ht.
      pose proof (MrRegPayload_decode_safe (h_payload_length h) r) as Smr.
      pose proof (SendPayload_decode_safe r) as Ssend.
      pose proof (WritePayload_decode_safe (h_payload_length h) r Hpl) as Sw.
      pose proof (ReadRespPayload_decode_safe (h_payload_length h) r Hpl) as Srr.
      pose proof (ErrorPayload_decode_safe r) as Serr.
      pose proof (DataPayload_decode_safe (h_payload_length h) r Hpl) as Sd.
      destruct (h_opcode h); try done; apply bind_ret_panic in Hp; rewrite ?Hp in *; try done;
        try (by destruct (codec_decode_no_panic _ _ _ _ _ Hp)); tauto.
    + rewrite (bind_Err _ _ _ _ _ Hh) in Hp. done.
    + rewrite RdowsHeader_decode_eq in Hh. repeat case_match; done.
  - intros (h & r & Hh & Hc). unfold RdowsMessage_decode. rewrite (bind_Ok _ _ _ _ _ Hh).
    apply RdowsHeader_decode_typed in Hh as (Ht & _).
    assert (0 ≤ h_payload_length h) by apply Ht.
    destruct Hc as [(-> & ? & ?)|(? & -> & ? & ?)]; apply bind_Panic.
    + by apply WritePayload_decode_panics.
    + by apply ReadRespPayload_decode_panics.
Qed.

(** C17: [decode] panics exactly on the inputs whose announced payload length
    underflows; on every other input, hostile or not, it returns a message or
    an error. *)
Theorem decode_panic_iff b : RdowsMessage_decode b = Panic ↔ underflow_input b.
Proof using Type*. apply decode_Panic. Qed.

(** Every frame is the 24-byte header followed by the payload, the header
    announces the payload's length, and [encoded_len] of each variable-size
    payload predicts it. *)
Theorem encode_length m :
  u32 (zlen (RdowsMessage_encode_payload m)) →
  zlen (RdowsMessage_encode m) = HEADER_SIZE + zlen (RdowsMessage_encode_payload m) ∧
  be_value (take 4 (drop 20 (RdowsMessage_encode m))) = zlen (RdowsMessage_encode_payload m) ∧
  match m with
  | RdowsMessage.MrReg _ p => zlen (RdowsMessage_encode_payload m) = MrRegPayload_encoded_len p
  | RdowsMessage.Send _ p => zlen (RdowsMessage_encode_payload m) = SendPayload_encoded_len p
  | RdowsMessage.Write _ p => zlen (RdowsMessage_encode_payload m) = WritePayload_encoded_len p
  | RdowsMessage.ReadResp _ p =>
      zlen (RdowsMessage_encode_payload m) = ReadRespPayload_encoded_len p
  | RdowsMessage.Error _ p => zlen (RdowsMessage_encode_payload m) = ErrorPayload_encoded_len p
  | _ => True
  end.
Proof using Type*.
  intros Hn. split_and!.
  - rewrite RdowsMessage_encode_eq, zlen_app, RdowsHeader_encode_length. done.
  - rewrite RdowsMessage_encode_eq, wrap_id by done. unfold RdowsHeader_encode. put_laws.
    rewrite !app_assoc, <-(app_assoc _ (be_bytes 4 _) (RdowsMessage_encode_payload m)).
    rewrite drop_app_length' by (rewrite !length_app, !length_be_bytes; done).
    rewrite take_app_length' by (by rewrite length_be_bytes).
    rewrite be_value_be_bytes. apply Z.mod_small. done.
  - destruct m; try done; [apply MrRegPayload_length|apply SendPayload_length
      |apply WritePayload_length|apply ReadRespPayload_length|apply ErrorPayload_length].
Qed.
End message_facts.

(** ** Witnesses *)
Module MessageWitness.
Import Concrete.

(** The WRITE of the unit test [write_round_trip]. *)
Definition sample_write : RdowsMessage :=
  RdowsMessage.Write (RdowsHeader_new Opcode.Write 0xABCD 1 42)
    (mkWrite 0xCAFEBABE 1024 100 [mkSge 1 0 100]).
(** An ERROR with a description. *)
Definition sample_error : RdowsMessage :=
  RdowsMessage.Error (RdowsHeader_new Opcode.Error 0xABCD 1 0)
    (mkError ErrInvalidMkey 7 (lit "R_Key 0xDEADBEEF not found")).
(** A WRITE header that announces an empty payload, in front of 24 bytes. *)
Definition evil_write : list byte :=
  RdowsHeader_encode (RdowsHeader_new Opcode.Write 7 1 0) [] ++ replicate 24 x00.

Lemma message_roundtrip_witness :
  RdowsMessage_decode (RdowsMessage_encode sample_error) =
    Ok (set_header (with_payload_length 36 (RdowsMessage_header sample_error)) sample_error) [].
Proof. rewrite (message_roundtrip sample_error); [by vm_compute|by repeat split..]. Defined.

Lemma decode_well_formed_witness :
  RdowsMessage_wf
    (set_header (with_payload_length 40 (RdowsMessage_header sample_write)) sample_write).
Proof.
  apply (decode_well_formed (RdowsMessage_encode sample_write) _ []). by vm_compute.
Defined.

Lemma decode_panic_iff_witness : RdowsMessage_decode evil_write = Panic.
Proof.
  apply (decode_panic_iff evil_write).
  exists (RdowsHeader_new Opcode.Write 7 1 0), (replicate 24 x00).
  split; [by vm_compute|]. left. by vm_compute.
Defined.

Lemma encode_length_witness :
  zlen (RdowsMessage_encode sample_write) = HEADER_SIZE + 40.
Proof.
  assert (u32 (zlen (RdowsMessage_encode_payload sample_write))) as Hn by (by vm_compute).
  destruct (encode_length sample_write Hn) as [-> _]. by vm_compute.
Defined.
End MessageWitness.
