(* ===== verification/MemoryStore.v ===== *)
(** * The server's memory region store ([rdows-server/src/memory_store.rs])

    The store as the source has it: a map of regions by local key, a map from
    remote to local keys, the set of remote keys ever issued, and the limits.
    The second component of the state of [register] counts the draws made from
    [OsRng]. *)

From S2P Require Import Prelude Externals Core.

Record MemoryRegionEntry := mkEntry {
  e_pd : ProtectionDomain;
  e_lkey : LKey;
  e_rkey : RKey;
  e_access_flags : AccessFlags;
  e_data : list byte;
}.

Record MemoryStore := mkStore {
  regions : gmap Z MemoryRegionEntry;
  rkey_to_lkey : gmap Z Z;
  used_rkeys : gset Z;
  next_lkey : Z;
  total_registered_bytes : Z;
  max_regions : Z;
  max_total_bytes : Z;
}.

Definition MemoryStore_new (max_regions max_total_bytes : Z) : MemoryStore :=
  mkStore ∅ ∅ ∅ 1 0 max_regions max_total_bytes.
Definition MemoryStore_default : MemoryStore := MemoryStore_new 4096 (32 * 1024 * 1024 * 1024).

(** [&mut self] field updates. *)
Definition set_regions r s :=
  mkStore r (rkey_to_lkey s) (used_rkeys s) (next_lkey s) (total_registered_bytes s)
    (max_regions s) (max_total_bytes s).
Definition set_rkey_to_lkey m s :=
  mkStore (regions s) m (used_rkeys s) (next_lkey s) (total_registered_bytes s)
    (max_regions s) (max_total_bytes s).
Definition set_used_rkeys u s :=
  mkStore (regions s) (rkey_to_lkey s) u (next_lkey s) (total_registered_bytes s)
    (max_regions s) (max_total_bytes s).
Definition set_next_lkey n s :=
  mkStore (regions s) (rkey_to_lkey s) (used_rkeys s) n (total_registered_bytes s)
    (max_regions s) (max_total_bytes s).
Definition set_total t s :=
  mkStore (regions s) (rkey_to_lkey s) (used_rkeys s) (next_lkey s) t
    (max_regions s) (max_total_bytes s).
Definition set_data d e := mkEntry (e_pd e) (e_lkey e) (e_rkey e) (e_access_flags e) d.

Section store.
Context `{Profile, OsRng}.

(** [for _ in 0..1000 { .. OsRng.fill_bytes(&mut buf) .. }] *)
Fixpoint generate_rkey_loop (fuel : nat) : M (MemoryStore * nat) ErrorCode RKey :=
  match fuel with
  | O => throw ErrInternal
  | S fuel' => λ '(s, n),
      match os_rng_fill n with
      | None => Panic
      | Some buf =>
          let val := be_value buf in
          if negb (val =? 0) && negb (bool_decide (val ∈ used_rkeys s))
          then Ok val (set_used_rkeys ({[val]} ∪ used_rkeys s) s, S n)
          else generate_rkey_loop fuel' (s, S n)
      end
  end.
Definition generate_rkey : M (MemoryStore * nat) ErrorCode RKey := generate_rkey_loop 1000.

Definition register (pd : ProtectionDomain) (access_flags : AccessFlags) (region_len : Z)
    : M (MemoryStore * nat) ErrorCode (LKey * RKey) :=
  '(s, _) ← getS;
  if max_regions s <=? Z.of_nat (size (regions s)) then throw ErrInternal else
  sum ← add_ovf 64 (total_registered_bytes s) region_len;
  if max_total_bytes s <? sum then throw ErrBounds else
  let lkey := next_lkey s in
  next ← add_ovf 32 (next_lkey s) 1;
  _ ← modifyS (λ '(s, n), (set_next_lkey next s, n));
  rkey ← generate_rkey;
  data ← vec_zeroed region_len;
  let entry := mkEntry pd lkey rkey access_flags data in
  _ ← modifyS (λ '(s, n), (set_rkey_to_lkey (<[rkey := lkey]> (rkey_to_lkey s)) s, n));
  _ ← modifyS (λ '(s, n), (set_regions (<[lkey := entry]> (regions s)) s, n));
  total ← add_ovf 64 (total_registered_bytes s) region_len;
  _ ← modifyS (λ '(s, n), (set_total total s, n));
  mret (lkey, rkey).

Definition deregister (pd : ProtectionDomain) (lkey : LKey) : M MemoryStore ErrorCode unit :=
  s ← getS;
  entry ← ok_or (regions s !! lkey) ErrInvalidLkey;
  if negb (e_pd entry =? pd) then throw ErrInvalidPd else
  let rkey := e_rkey entry in
  let region_len := zlen (e_data entry) in
  _ ← modifyS (λ s, set_rkey_to_lkey (delete rkey (rkey_to_lkey s)) s);
  _ ← modifyS (λ s, set_regions (delete lkey (regions s)) s);
  total ← sub_ovf 64 (total_registered_bytes s) region_len;
  modifyS (set_total total).

Definition validate_rkey (rkey : RKey) (required_access : AccessFlags)
    : M MemoryStore ErrorCode MemoryRegionEntry :=
  s ← getS;
  lkey_val ← ok_or (rkey_to_lkey s !! rkey) ErrInvalidMkey;
  entry ← ok_or (regions s !! lkey_val) ErrInvalidMkey;
  if negb (AccessFlags_contains (e_access_flags entry) required_access)
  then throw ErrAccessDenied else
  mret entry.

Definition write_region (rkey : RKey) (offset : Z) (data : list byte)
    : M MemoryStore ErrorCode unit :=
  s ← getS;
  lkey_val ← ok_or (rkey_to_lkey s !! rkey) ErrInvalidMkey;
  entry ← ok_or (regions s !! lkey_val) ErrInvalidMkey;
  if negb (AccessFlags_contains (e_access_flags entry) REMOTE_WRITE)
  then throw ErrAccessDenied else
  let start := offset in
  stop ← ok_or (checked_add 64 start (zlen data)) ErrBounds;
  if zlen (e_data entry) <? stop then throw ErrBounds else
  d ← or_panic (slice_copy (e_data entry) start stop data);
  modifyS (λ s, set_regions (<[lkey_val := set_data d entry]> (regions s)) s).

Definition read_region (rkey : RKey) (offset len : Z) : M MemoryStore ErrorCode (list byte) :=
  s ← getS;
  lkey_val ← ok_or (rkey_to_lkey s !! rkey) ErrInvalidMkey;
  entry ← ok_or (regions s !! lkey_val) ErrInvalidMkey;
  if negb (AccessFlags_contains (e_access_flags entry) REMOTE_READ)
  then throw ErrAccessDenied else
  let start := offset in
  stop ← ok_or (checked_add 64 start len) ErrBounds;
  if zlen (e_data entry) <? stop then throw ErrBounds else
  or_panic (slice (e_data entry) start stop).

Definition atomic_op (rkey : RKey) (remote_va atomic_type operand1 operand2 : Z)
    : M MemoryStore ErrorCode Z :=
  s ← getS;
  lkey_val ← ok_or (rkey_to_lkey s !! rkey) ErrInvalidMkey;
  entry ← ok_or (regions s !! lkey_val) ErrInvalidMkey;
  if negb (AccessFlags_contains (e_access_flags entry) REMOTE_ATOMIC)
  then throw ErrAccessDenied else
  if negb (remote_va mod 8 =? 0) then throw ErrAlignment else
  let start := remote_va in
  stop ← ok_or (checked_add 64 start 8) ErrBounds;
  if zlen (e_data entry) <? stop then throw ErrBounds else
  word ← or_panic (slice (e_data entry) start stop);
  let original := be_value word in
  new_value ←
    (if atomic_type =? 0x01 then
       mret (if original =? operand1 then operand2 else original)
     else if atomic_type =? 0x02 then mret (wrapping_add 64 original operand1)
     else throw ErrUnknownOpcode);
  d ← or_panic (slice_copy (e_data entry) start stop (be_bytes 8 new_value));
  _ ← modifyS (λ s, set_regions (<[lkey_val := set_data d entry]> (regions s)) s);
  mret original.
End store.

(** ** The store invariant *)

(** Bytes held by all regions. *)
Definition regions_bytes (m : gmap Z MemoryRegionEntry) : Z :=
  map_fold (λ _ e n, zlen (e_data e) + n) 0 m.

(** The two maps are inverse to each other, every live remote key is recorded as
    used, local keys are below the counter, and the accounting is exact. *)
Record store_ok (s : MemoryStore) : Prop := {
  ok_fwd r l : rkey_to_lkey s !! r = Some l → ∃ e, regions s !! l = Some e ∧ e_rkey e = r;
  ok_bwd l e : regions s !! l = Some e → rkey_to_lkey s !! e_rkey e = Some l;
  ok_lkey l e : regions s !! l = Some e → e_lkey e = l ∧ 1 ≤ l < next_lkey s;
  ok_used r l : rkey_to_lkey s !! r = Some l → r ∈ used_rkeys s;
  ok_rkey r : r ∈ used_rkeys s → 0 < r < 2 ^ 32;
  ok_next : 1 ≤ next_lkey s < 2 ^ 32;
  ok_total : total_registered_bytes s = regions_bytes (regions s);
  ok_total_max : total_registered_bytes s ≤ max_total_bytes s ≤ isize_max;
  ok_count : Z.of_nat (size (regions s)) ≤ max_regions s;
}.

Lemma regions_bytes_insert m l e :
  m !! l = None → regions_bytes (<[l := e]> m) = zlen (e_data e) + regions_bytes m.
Proof. intros. unfold regions_bytes. rewrite map_fold_insert_L; [done|lia|done]. Qed.
Lemma regions_bytes_delete m l e :
  m !! l = Some e → regions_bytes m = zlen (e_data e) + regions_bytes (delete l m).
Proof. intros. unfold regions_bytes. rewrite (map_fold_delete_L _ _ l e m); [done|lia|done]. Qed.
Lemma regions_bytes_update m l e e' :
  m !! l = Some e → zlen (e_data e') = zlen (e_data e) →
  regions_bytes (<[l := e']> m) = regions_bytes m.
Proof.
  intros Hl Hlen. rewrite (regions_bytes_delete m l e Hl).
  rewrite <-insert_delete_eq, regions_bytes_insert by apply lookup_delete_eq. lia.
Qed.
Lemma regions_bytes_nonneg m : 0 ≤ regions_bytes m.
Proof.
  unfold regions_bytes. apply (map_fold_weak_ind (λ n _, 0 ≤ n)); [lia|].
  intros l e m' n _ Hn. pose proof (zlen_nonneg (e_data e)). lia.
Qed.
Lemma regions_bytes_le m l e : m !! l = Some e → zlen (e_data e) ≤ regions_bytes m.
Proof.
  intros Hl. rewrite (regions_bytes_delete m l e Hl).
  pose proof (regions_bytes_nonneg (delete l m)). lia.
Qed.

Lemma MemoryStore_new_ok mr mt :
  0 ≤ mr → 0 ≤ mt ≤ isize_max → store_ok (MemoryStore_new mr mt).
Proof.
  intros Hr Ht.
  split; cbn; try (intros *; rewrite ?lookup_empty; set_solver); try done; lia.
Qed.

(** The region a remote key stands for. *)
Definition region_of (s : MemoryStore) (r : RKey) : option MemoryRegionEntry :=
  l ← rkey_to_lkey s !! r; regions s !! l.

Lemma region_of_Some s r e :
  store_ok s →
  region_of s r = Some e ↔ ∃ l, rkey_to_lkey s !! r = Some l ∧ regions s !! l = Some e.
Proof.
  intros _. unfold region_of. destruct (rkey_to_lkey s !! r) as [l|]; cbn; naive_solver.
Qed.
Lemma region_of_None s r : store_ok s → region_of s r = None ↔ rkey_to_lkey s !! r = None.
Proof.
  intros Hok. unfold region_of. destruct (rkey_to_lkey s !! r) as [l|] eqn:Hr; cbn; [|done].
  destruct (ok_fwd _ Hok r l Hr) as (e & -> & _). done.
Qed.
Lemma region_size s r e : store_ok s → region_of s r = Some e → 0 ≤ zlen (e_data e) < 2 ^ 64.
Proof.
  intros Hok (l & _ & Hl)%region_of_Some; [|done].
  pose proof (regions_bytes_le _ _ _ Hl). pose proof (ok_total _ Hok). pose proof (ok_total_max _ Hok).
  pose proof (zlen_nonneg (e_data e)). unfold isize_max in *. lia.
Qed.

(** Storing new contents of the same length keeps the invariant ... *)
Lemma store_ok_set_data s l e d :
  store_ok s → regions s !! l = Some e → zlen d = zlen (e_data e) →
  store_ok (set_regions (<[l := set_data d e]> (regions s)) s).
Proof.
  intros Hok Hl Hd.
  assert (∀ l' e', <[l := set_data d e]> (regions s) !! l' = Some e' →
    ∃ e0, regions s !! l' = Some e0 ∧ e_rkey e0 = e_rkey e' ∧ e_lkey e0 = e_lkey e') as Hlk.
  { intros l' e'. rewrite lookup_insert. case_decide; [|eauto]. subst. intros [= <-]. eauto. }
  split; cbn.
  - intros r l' Hr. destruct (ok_fwd _ Hok r l' Hr) as (e' & He' & <-).
    rewrite lookup_insert. case_decide; [|eauto]. subst. simplify_eq. eauto.
  - intros l' e' (e0 & He0 & <- & _)%Hlk. by apply (ok_bwd _ Hok).
  - intros l' e' (e0 & He0 & _ & <-)%Hlk. by apply (ok_lkey _ Hok).
  - apply (ok_used _ Hok).
  - apply (ok_rkey _ Hok).
  - apply (ok_next _ Hok).
  - rewrite (regions_bytes_update _ _ _ (set_data d e) Hl Hd). apply (ok_total _ Hok).
  - apply (ok_total_max _ Hok).
  - rewrite map_size_insert_Some by eauto. apply (ok_count _ Hok).
Qed.
(** ... and changes the contents of that region only. *)
Lemma region_of_set_data s r l e d r' :
  store_ok s → rkey_to_lkey s !! r = Some l → regions s !! l = Some e →
  region_of (set_regions (<[l := set_data d e]> (regions s)) s) r' =
    if decide (r' = r) then Some (set_data d e) else region_of s r'.
Proof.
  intros Hok Hr Hl. unfold region_of. cbn. case_decide as Hd; [subst|].
  - rewrite Hr. cbn. by rewrite lookup_insert_eq.
  - destruct (rkey_to_lkey s !! r') as [l'|] eqn:Hr'; [|done]. cbn.
    rewrite lookup_insert_ne; [done|]. intros <-.
    destruct (ok_fwd _ Hok r' l Hr') as (e1 & He1 & H1).
    destruct (ok_fwd _ Hok r l Hr) as (e2 & He2 & H2). congruence.
Qed.

(** ** What each operation does, on every branch *)

(** The store with the contents of the region of [r] replaced. *)
Definition put_contents (s : MemoryStore) (r : RKey) (d : list byte) : MemoryStore :=
  match rkey_to_lkey s !! r with
  | Some l => match regions s !! l with
              | Some e => set_regions (<[l := set_data d e]> (regions s)) s
              | None => s
              end
  | None => s
  end.

Lemma region_of_put s r e d r' :
  store_ok s → region_of s r = Some e →
  region_of (put_contents s r d) r' =
    if decide (r' = r) then Some (set_data d e) else region_of s r'.
Proof.
  intros Hok (l & Hr & Hl)%region_of_Some; [|done]. unfold put_contents. rewrite Hr, Hl.
  by apply region_of_set_data.
Qed.
Lemma put_contents_ok s r e d :
  store_ok s → region_of s r = Some e → zlen d = zlen (e_data e) →
  store_ok (put_contents s r d).
Proof.
  intros Hok (l & Hr & Hl)%region_of_Some Hd; [|done]. unfold put_contents. rewrite Hr, Hl.
  by apply store_ok_set_data.
Qed.

(** Run the two map lookups every data operation starts with. *)
Ltac run_lookup Hok Hr :=
  let l := fresh "l" in let Hl := fresh "Hl" in let He := fresh "He" in
  apply region_of_Some in Hr as (l & Hl & He); [|exact Hok];
  rewrite (bind_Ok getS _ _ _ _ eq_refl), Hl, ok_or_bind, He, ok_or_bind.
Ltac run_lookup_None Hok Hr :=
  apply region_of_None in Hr; [|exact Hok];
  rewrite (bind_Ok getS _ _ _ _ eq_refl), Hr; reflexivity.

Section store_facts.
Context `{Profile, OsRng}.

Lemma validate_rkey_eq s r acc :
  store_ok s →
  validate_rkey r acc s =
    match region_of s r with
    | None => Err ErrInvalidMkey s
    | Some e => if AccessFlags_contains (e_access_flags e) acc then Ok e s
                else Err ErrAccessDenied s
    end.
Proof using Type.
  intros Hok. unfold validate_rkey.
  destruct (region_of s r) as [e|] eqn:Hr; [|run_lookup_None Hok Hr]. run_lookup Hok Hr.
  by destruct (AccessFlags_contains _ _).
Qed.

Lemma write_region_eq s r off d :
  store_ok s → 0 ≤ off →
  write_region r off d s =
    match region_of s r with
    | None => Err ErrInvalidMkey s
    | Some e =>
        if negb (AccessFlags_contains (e_access_flags e) REMOTE_WRITE) then Err ErrAccessDenied s
        else if zlen (e_data e) <? off + zlen d then Err ErrBounds s
        else Ok tt (put_contents s r (splice (e_data e) (Z.to_nat off) d))
    end.
Proof using Type.
  intros Hok Hoff. unfold write_region.
  destruct (region_of s r) as [e|] eqn:Hr; [|run_lookup_None Hok Hr].
  pose proof (region_size _ _ _ Hok Hr) as Hsz. run_lookup Hok Hr.
  destruct (AccessFlags_contains _ _); cbn [negb]; [|done].
  unfold checked_add. destruct (Z.ltb_spec (off + zlen d) (2 ^ 64)).
  - rewrite ok_or_bind. destruct (Z.ltb_spec (zlen (e_data e)) (off + zlen d)); [done|].
    rewrite slice_copy_Some, or_panic_bind by lia. unfold modifyS, put_contents.
    by rewrite Hl, He.
  - destruct (Z.ltb_spec (zlen (e_data e)) (off + zlen d)); [done|lia].
Qed.

Lemma read_region_eq s r off len :
  store_ok s → 0 ≤ off → 0 ≤ len →
  read_region r off len s =
    match region_of s r with
    | None => Err ErrInvalidMkey s
    | Some e =>
        if negb (AccessFlags_contains (e_access_flags e) REMOTE_READ) then Err ErrAccessDenied s
        else if zlen (e_data e) <? off + len then Err ErrBounds s
        else Ok (take (Z.to_nat len) (drop (Z.to_nat off) (e_data e))) s
    end.
Proof using Type.
  intros Hok Hoff Hlen. unfold read_region.
  destruct (region_of s r) as [e|] eqn:Hr; [|run_lookup_None Hok Hr].
  pose proof (region_size _ _ _ Hok Hr) as Hsz. run_lookup Hok Hr.
  destruct (AccessFlags_contains _ _); cbn [negb]; [|done].
  unfold checked_add. destruct (Z.ltb_spec (off + len) (2 ^ 64)).
  - rewrite ok_or_bind. destruct (Z.ltb_spec (zlen (e_data e)) (off + len)); [done|].
    rewrite slice_Some by lia. by rewrite Z.add_simpl_l.
  - destruct (Z.ltb_spec (zlen (e_data e)) (off + len)); [done|lia].
Qed.

(** The 64-bit big-endian word at an offset, and the value an atomic leaves. *)
Definition word_at (d : list byte) (va : Z) : Z := be_value (take 8 (drop (Z.to_nat va) d)).
Definition atomic_result (ty original op1 op2 : Z) : Z :=
  if ty =? 0x01 then (if original =? op1 then op2 else original)
  else wrapping_add 64 original op1.

Lemma atomic_op_eq s r va ty op1 op2 :
  store_ok s → 0 ≤ va →
  atomic_op r va ty op1 op2 s =
    match region_of s r with
    | None => Err ErrInvalidMkey s
    | Some e =>
        if negb (AccessFlags_contains (e_access_flags e) REMOTE_ATOMIC) then Err ErrAccessDenied s
        else if negb (va mod 8 =? 0) then Err ErrAlignment s
        else if zlen (e_data e) <? va + 8 then Err ErrBounds s
        else if negb ((ty =? 0x01) || (ty =? 0x02)) then Err ErrUnknownOpcode s
        else Ok (word_at (e_data e) va)
               (put_contents s r
                  (splice (e_data e) (Z.to_nat va)
                     (be_bytes 8 (atomic_result ty (word_at (e_data e) va) op1 op2))))
    end.
Proof using Type.
  intros Hok Hva. unfold atomic_op.
  destruct (region_of s r) as [e|] eqn:Hr; [|run_lookup_None Hok Hr].
  pose proof (region_size _ _ _ Hok Hr) as Hsz. run_lookup Hok Hr.
  destruct (AccessFlags_contains _ _); cbn [negb]; [|done].
  destruct (va mod 8 =? 0); cbn [negb]; [|done].
  unfold checked_add. destruct (Z.ltb_spec (va + 8) (2 ^ 64)).
  - rewrite ok_or_bind. destruct (Z.ltb_spec (zlen (e_data e)) (va + 8)); [done|].
    rewrite slice_Some, or_panic_bind by lia. rewrite Z.add_simpl_l.
    change (be_value (take (Z.to_nat 8) _)) with (word_at (e_data e) va).
    unfold atomic_result.
    destruct (ty =? 1); [|destruct (ty =? 2)]; cbn [orb negb]; [..|done]; rewrite ret_bind;
      rewrite slice_copy_Some, or_panic_bind by (rewrite ?zlen_be_bytes; lia);
      unfold put_contents; by rewrite Hl, He.
  - destruct (Z.ltb_spec (zlen (e_data e)) (va + 8)); [done|lia].
Qed.

Lemma deregister_eq s pd l :
  store_ok s →
  deregister pd l s =
    match regions s !! l with
    | None => Err ErrInvalidLkey s
    | Some e =>
        if negb (e_pd e =? pd) then Err ErrInvalidPd s
        else Ok tt (mkStore (delete l (regions s)) (delete (e_rkey e) (rkey_to_lkey s))
               (used_rkeys s) (next_lkey s) (total_registered_bytes s - zlen (e_data e))
               (max_regions s) (max_total_bytes s))
    end.
Proof using Type.
  intros Hok. unfold deregister. rewrite (bind_Ok getS _ _ s s) by done.
  destruct (regions s !! l) as [e|] eqn:Hl; [|done]. rewrite ok_or_bind.
  destruct (e_pd e =? pd); cbn [negb]; [|done].
  pose proof (regions_bytes_le _ _ _ Hl). pose proof (ok_total _ Hok). pose proof (ok_total_max _ Hok).
  pose proof (zlen_nonneg (e_data e)).
  unfold modifyS at 1 2. mrun. unfold sub_ovf, ovf. rewrite decide_True by (unfold uN, isize_max in *; lia). done.
Qed.

(** [generate_rkey] returns a key that was never issued before; it gives up
    only after all its draws were zero or taken. *)
Lemma generate_rkey_loop_spec `{!OsRngLaws} fuel s n :
  match generate_rkey_loop fuel (s, n) with
  | Ok r (s', _) =>
      s' = set_used_rkeys ({[r]} ∪ used_rkeys s) s ∧ 0 < r < 2 ^ 32 ∧ r ∉ used_rkeys s
  | Err e (s', _) =>
      e = ErrInternal ∧ s' = s ∧
      ∀ i, (i < fuel)%nat → ∃ b, os_rng_fill (n + i) = Some b ∧
        (be_value b = 0 ∨ be_value b ∈ used_rkeys s)
  | Panic => ∃ i, (i < fuel)%nat ∧ os_rng_fill (n + i) = None
  end.
Proof using Type.
  revert n. induction fuel as [|fuel IH]; intros n; cbn [generate_rkey_loop].
  { split_and!; [done..|]. intros; lia. }
  destruct (os_rng_fill n) as [b|] eqn:Hb; [|exists 0%nat; rewrite Nat.add_0_r; split; [lia|done]].
  destruct (Z.eqb_spec (be_value b) 0) as [Hz|Hz]; cbn [negb andb];
    [|case_bool_decide as Hu; cbn [negb]]; [..|split_and!; try done].
  3,4: pose proof (be_value_range b) as Hr; unfold zlen in Hr;
    rewrite (os_rng_fill_length _ _ Hb) in Hr; change (256 ^ Z.of_nat 4) with (2 ^ 32) in Hr; lia.
  all: specialize (IH (S n)); destruct (generate_rkey_loop fuel (s, S n)) as [r [s' n']|e [s' n']|];
    [done| |].
  all: try (destruct IH as (i & Hi & Hn); exists (S i); split; [lia|];
            by replace (n + S i)%nat with (S n + i)%nat by lia).
  all: destruct IH as (-> & -> & IH); split_and!; [done..|]; intros [|i] Hi;
    [rewrite Nat.add_0_r; eauto|].
  all: replace (n + S i)%nat with (S n + i)%nat by lia; apply IH; lia.
Qed.

(** The store after a successful registration. *)
Definition registered (s : MemoryStore) (pd : ProtectionDomain) (fl : AccessFlags) (len : Z)
    (r : RKey) : MemoryStore :=
  mkStore (<[next_lkey s := mkEntry pd (next_lkey s) r fl (replicate (Z.to_nat len) x00)]> (regions s))
    (<[r := next_lkey s]> (rkey_to_lkey s)) ({[r]} ∪ used_rkeys s) (next_lkey s + 1)
    (total_registered_bytes s + len) (max_regions s) (max_total_bytes s).

Lemma register_spec `{!OsRngLaws} s n pd fl len :
  store_ok s → u64 len → next_lkey s + 1 < 2 ^ 32 →
  match register pd fl len (s, n) with
  | Ok (l, r) (s', _) =>
      Z.of_nat (size (regions s)) < max_regions s ∧
      total_registered_bytes s + len ≤ max_total_bytes s ∧
      l = next_lkey s ∧ 0 < r < 2 ^ 32 ∧ (r ∉ used_rkeys s) ∧ s' = registered s pd fl len r
  | Err e (s', _) =>
      (e = ErrInternal ∧ max_regions s ≤ Z.of_nat (size (regions s)) ∧ s' = s) ∨
      (e = ErrBounds ∧ max_total_bytes s < total_registered_bytes s + len ∧
       total_registered_bytes s + len < 2 ^ 64 ∧ s' = s) ∨
      (e = ErrInternal ∧ Z.of_nat (size (regions s)) < max_regions s ∧
       s' = set_next_lkey (next_lkey s + 1) s ∧
       ∀ i, (i < 1000)%nat → ∃ b, os_rng_fill (n + i) = Some b ∧
         (be_value b = 0 ∨ be_value b ∈ used_rkeys s))
  | Panic =>
      2 ^ 64 ≤ total_registered_bytes s + len ∨
      ∃ i, (i < 1000)%nat ∧ os_rng_fill (n + i) = None
  end.
Proof using Type.
  intros Hok Hlen Hnext. unfold register, uN in *. rewrite (bind_Ok getS _ _ _ _ eq_refl).
  pose proof (ok_next _ Hok). pose proof (ok_total_max _ Hok) as Hmax. unfold isize_max in Hmax.
  pose proof (ok_total _ Hok) as Htot. pose proof (regions_bytes_nonneg (regions s)) as Hnn.
  destruct (Z.leb_spec (max_regions s) (Z.of_nat (size (regions s)))); [by left|].
  unfold add_ovf. destruct (decide (uN 64 (total_registered_bytes s + len))) as [Hin|Hout].
  2:{ unfold uN in Hout. assert (2 ^ 64 ≤ total_registered_bytes s + len) by lia.
      rewrite ovf_out_bind by (unfold uN; lia). destruct overflow_checks; [by left|].
      assert (wrap 64 (total_registered_bytes s + len) = total_registered_bytes s + len - 2 ^ 64) as ->.
      { unfold wrap. rewrite <-(Z.mod_add _ (-1)) by lia. rewrite Z.mod_small; lia. }
      rewrite (proj2 (Z.ltb_ge _ _)) by lia. rewrite ovf_bind by (unfold uN; lia).
      rewrite (bind_Ok (modifyS _) _ _ _ _ eq_refl). unfold generate_rkey.
      pose proof (generate_rkey_loop_spec 1000 (set_next_lkey (next_lkey s + 1) s) n) as Hg.
      destruct (generate_rkey_loop _ _) as [r [s' n']|e [s' n']|] eqn:Hgen.
      - rewrite (bind_Ok _ _ _ _ _ Hgen). unfold vec_zeroed.
        rewrite (proj2 (Z.leb_gt _ _)) by (unfold isize_max; lia). by left.
      - rewrite (bind_Err _ _ _ _ _ Hgen). destruct Hg as (-> & -> & Hg). right; right. auto.
      - rewrite (bind_Panic _ _ _ Hgen). by right. }
  rewrite ovf_bind by done. unfold uN in Hin.
  destruct (Z.ltb_spec (max_total_bytes s) (total_registered_bytes s + len)) as [|Hle];
    [right; left; split_and!; [done|lia|lia|done]|].
  rewrite ovf_bind by (unfold uN; lia). rewrite (bind_Ok (modifyS _) _ _ _ _ eq_refl).
  unfold generate_rkey.
  pose proof (generate_rkey_loop_spec 1000 (set_next_lkey (next_lkey s + 1) s) n) as Hg.
  destruct (generate_rkey_loop _ _) as [r [s' n']|e [s' n']|] eqn:Hgen.
  - rewrite (bind_Ok _ _ _ _ _ Hgen). destruct Hg as (-> & Hr & Hu). cbn in Hu.
    unfold vec_zeroed. rewrite (proj2 (Z.leb_le _ _)) by (unfold isize_max; lia).
    rewrite ret_bind, !(bind_Ok (modifyS _) _ _ _ _ eq_refl).
    rewrite ovf_bind by (unfold uN; lia). split_and!; try done; lia.
  - rewrite (bind_Err _ _ _ _ _ Hgen). destruct Hg as (-> & -> & Hg). right; right. auto.
  - rewrite (bind_Panic _ _ _ Hgen). by right.
Qed.

Lemma fresh_lkey s : store_ok s → regions s !! next_lkey s = None.
Proof using Type.
  intros Hok. destruct (regions s !! next_lkey s) as [e|] eqn:Hl; [|done].
  pose proof (proj2 (ok_lkey _ Hok _ _ Hl)). lia.
Qed.
Lemma fresh_rkey s r : store_ok s → r ∉ used_rkeys s → rkey_to_lkey s !! r = None.
Proof using Type.
  intros Hok Hr. destruct (rkey_to_lkey s !! r) as [l|] eqn:Hl; [|done].
  by destruct Hr; eapply ok_used.
Qed.

Lemma registered_ok s pd fl len r :
  store_ok s → 0 ≤ len → 0 < r < 2 ^ 32 → r ∉ used_rkeys s → next_lkey s + 1 < 2 ^ 32 →
  Z.of_nat (size (regions s)) < max_regions s →
  total_registered_bytes s + len ≤ max_total_bytes s →
  store_ok (registered s pd fl len r).
Proof using Type.
  intros Hok Hlen Hr Hu Hn Hc Ht. pose proof (fresh_lkey s Hok) as Hl.
  pose proof (fresh_rkey s r Hok Hu) as Hk. pose proof (ok_next _ Hok). split; cbn.
  - intros r' l'. rewrite !lookup_insert. case_decide; subst.
    + intros [= <-]. rewrite decide_True by done. eauto.
    + intros Hr'. destruct (ok_fwd _ Hok r' l' Hr') as (e & He & <-).
      rewrite decide_False by congruence. eauto.
  - intros l' e'. rewrite !lookup_insert. case_decide; subst.
    + intros [= <-]. cbn. by rewrite decide_True.
    + intros He'. pose proof (ok_bwd _ Hok _ _ He') as Hb.
      rewrite decide_False; [done|]. intros ->. congruence.
  - intros l' e'. rewrite lookup_insert. case_decide; subst.
    + intros [= <-]. cbn. lia.
    + intros He'. pose proof (ok_lkey _ Hok _ _ He'). lia.
  - intros r' l'. rewrite lookup_insert. case_decide; [set_solver|].
    intros Hr'%(ok_used _ Hok). set_solver.
  - intros r' [->%elem_of_singleton|Hr']%elem_of_union; [done|]. by apply (ok_rkey _ Hok).
  - lia.
  - rewrite regions_bytes_insert, <-(ok_total _ Hok) by done. cbn. rewrite zlen_replicate. lia.
  - pose proof (ok_total_max _ Hok). lia.
  - rewrite map_size_insert_None by done. lia.
Qed.

Lemma deregistered_ok s l e :
  store_ok s → regions s !! l = Some e →
  store_ok (mkStore (delete l (regions s)) (delete (e_rkey e) (rkey_to_lkey s))
    (used_rkeys s) (next_lkey s) (total_registered_bytes s - zlen (e_data e))
    (max_regions s) (max_total_bytes s)).
Proof using Type.
  intros Hok Hl. pose proof (ok_bwd _ Hok _ _ Hl) as Hb. split; cbn.
  - intros r l' [Hne Hr]%lookup_delete_Some. destruct (ok_fwd _ Hok r l' Hr) as (e' & He' & <-).
    exists e'. rewrite lookup_delete_ne; [done|]. intros <-. congruence.
  - intros l' e' [Hne He']%lookup_delete_Some. pose proof (ok_bwd _ Hok _ _ He').
    rewrite lookup_delete_ne; [done|]. congruence.
  - intros l' e' [_ He']%lookup_delete_Some. by apply (ok_lkey _ Hok).
  - intros r l' [_ Hr]%lookup_delete_Some. by apply (ok_used _ Hok r l').
  - apply (ok_rkey _ Hok).
  - apply (ok_next _ Hok).
  - rewrite (ok_total _ Hok), (regions_bytes_delete _ _ _ Hl). lia.
  - pose proof (ok_total_max _ Hok). pose proof (zlen_nonneg (e_data e)). lia.
  - rewrite map_size_delete_Some by eauto. pose proof (ok_count _ Hok). lia.
Qed.

Lemma region_of_registered s pd fl len r r' :
  store_ok s → r ∉ used_rkeys s →
  region_of (registered s pd fl len r) r' =
    if decide (r' = r) then Some (mkEntry pd (next_lkey s) r fl (replicate (Z.to_nat len) x00))
    else region_of s r'.
Proof using Type.
  intros Hok Hu. unfold region_of. cbn. case_decide; [subst|].
  - rewrite lookup_insert_eq. cbn. by rewrite lookup_insert_eq.
  - rewrite lookup_insert_ne by done. destruct (rkey_to_lkey s !! r') as [l|] eqn:Hl; [|done]. cbn.
    rewrite lookup_insert_ne; [done|]. intros <-.
    destruct (ok_fwd _ Hok _ _ Hl) as (e & He & _). by rewrite (fresh_lkey s Hok) in He.
Qed.

Lemma region_of_deregistered s l e r' :
  store_ok s → regions s !! l = Some e →
  region_of (mkStore (delete l (regions s)) (delete (e_rkey e) (rkey_to_lkey s))
    (used_rkeys s) (next_lkey s) (total_registered_bytes s - zlen (e_data e))
    (max_regions s) (max_total_bytes s)) r' =
    if decide (r' = e_rkey e) then None else region_of s r'.
Proof using Type.
  intros Hok Hl. unfold region_of. cbn. case_decide; [subst; by rewrite lookup_delete_eq|].
  rewrite lookup_delete_ne by done. destruct (rkey_to_lkey s !! r') as [l'|] eqn:Hr; [|done]. cbn.
  rewrite lookup_delete_ne; [done|]. intros <-.
  destruct (ok_fwd _ Hok _ _ Hr) as (e' & He' & <-). congruence.
Qed.
End store_facts.
