(* ===== verification/StoreSpec.v ===== *)
(** * What the memory store promises

    An abstract store is a map from remote keys to regions, the set of keys ever
    issued, and the resource accounting.  The concrete store of [MemoryStore.v]
    refines it operation by operation, for every sequence of operations. *)

From S2P Require Import Prelude Externals Core MemoryStore.

(** ** Operations and sequences of operations *)
Inductive StoreOp : Type :=
| OpRegister (pd fl len : Z)
| OpDeregister (pd l : Z)
| OpWrite (r off : Z) (d : list byte)
| OpRead (r off len : Z)
| OpAtomic (r va ty op1 op2 : Z).

Inductive Reply : Type :=
| RKeys (l r : Z)
| RDone
| RBytes (d : list byte)
| RWord (w : Z).

(** Arguments as they come off the wire. *)
Definition op_typed (op : StoreOp) : Prop :=
  match op with
  | OpRegister pd fl len => u32 pd ∧ u32 fl ∧ u64 len
  | OpDeregister pd l => u32 pd ∧ u32 l
  | OpWrite r off _ => u32 r ∧ u64 off
  | OpRead r off len => u32 r ∧ u64 off ∧ u64 len
  | OpAtomic r va ty op1 op2 => u32 r ∧ u64 va ∧ u8 ty ∧ u64 op1 ∧ u64 op2
  end.

Section run.
Context `{Profile, OsRng}.

Definition on_store {A} (m : M MemoryStore ErrorCode A) : M (MemoryStore * nat) ErrorCode A :=
  zoom fst (λ s' '(_, n), (s', n)) m.

Definition run_op (op : StoreOp) : M (MemoryStore * nat) ErrorCode Reply :=
  match op with
  | OpRegister pd fl len => '(l, r) ← register pd fl len; mret (RKeys l r)
  | OpDeregister pd l => _ ← on_store (deregister pd l); mret RDone
  | OpWrite r off d => _ ← on_store (write_region r off d); mret RDone
  | OpRead r off len => d ← on_store (read_region r off len); mret (RBytes d)
  | OpAtomic r va ty op1 op2 => w ← on_store (atomic_op r va ty op1 op2); mret (RWord w)
  end.

(** A run of operations with the result of each; a panic ends the session, so
    it ends the run. *)
Inductive run_ops : MemoryStore * nat → list (StoreOp * (ErrorCode + Reply)) →
    MemoryStore * nat → Prop :=
| run_nil s : run_ops s [] s
| run_ok s op rep s' tr s'' :
    run_op op s = Ok rep s' → run_ops s' tr s'' → run_ops s ((op, inr rep) :: tr) s''
| run_err s op e s' tr s'' :
    run_op op s = Err e s' → run_ops s' tr s'' → run_ops s ((op, inl e) :: tr) s''.
End run.

(** ** The abstract store *)
Record Region := mkRegion {
  rg_pd : ProtectionDomain; rg_lkey : LKey; rg_flags : AccessFlags; rg_bytes : list byte }.
Record AState := mkAState {
  live : gmap Z Region;
  issued : gset Z;
  count : Z;
  bytes : Z;
  count_max : Z;
  bytes_max : Z;
}.

Definition region_of_entry (e : MemoryRegionEntry) : Region :=
  mkRegion (e_pd e) (e_lkey e) (e_access_flags e) (e_data e).
Definition abs (s : MemoryStore) : AState :=
  mkAState (region_of_entry <$> omap (λ l, regions s !! l) (rkey_to_lkey s)) (used_rkeys s)
    (Z.of_nat (size (regions s))) (total_registered_bytes s) (max_regions s) (max_total_bytes s).

Lemma abs_live s r : live (abs s) !! r = region_of_entry <$> region_of s r.
Proof. cbn. rewrite lookup_fmap, lookup_omap. done. Qed.

Definition with_live (m : gmap Z Region) (a : AState) : AState :=
  mkAState m (issued a) (count a) (bytes a) (count_max a) (bytes_max a).

(** Key and permission check shared by the data operations. *)
Definition access (a : AState) (r : RKey) (flag : AccessFlags) : ErrorCode + Region :=
  match live a !! r with
  | None => inl ErrInvalidMkey
  | Some g => if AccessFlags_contains (rg_flags g) flag then inr g else inl ErrAccessDenied
  end.

(** The bytes of a region are an array: no other region, and no byte outside the
    accessed range, takes part. *)
Definition spec_write (a : AState) (r off : Z) (d : list byte) : (ErrorCode + Reply) * AState :=
  match access a r REMOTE_WRITE with
  | inl e => (inl e, a)
  | inr g =>
      if zlen (rg_bytes g) <? off + zlen d then (inl ErrBounds, a)
      else (inr RDone,
            with_live (<[r := mkRegion (rg_pd g) (rg_lkey g) (rg_flags g)
                                (splice (rg_bytes g) (Z.to_nat off) d)]> (live a)) a)
  end.
Definition spec_read (a : AState) (r off len : Z) : (ErrorCode + Reply) * AState :=
  match access a r REMOTE_READ with
  | inl e => (inl e, a)
  | inr g =>
      if zlen (rg_bytes g) <? off + len then (inl ErrBounds, a)
      else (inr (RBytes (take (Z.to_nat len) (drop (Z.to_nat off) (rg_bytes g)))), a)
  end.
Definition spec_atomic (a : AState) (r va ty op1 op2 : Z) : (ErrorCode + Reply) * AState :=
  match access a r REMOTE_ATOMIC with
  | inl e => (inl e, a)
  | inr g =>
      if negb (va mod 8 =? 0) then (inl ErrAlignment, a)
      else if zlen (rg_bytes g) <? va + 8 then (inl ErrBounds, a)
      else if negb ((ty =? 0x01) || (ty =? 0x02)) then (inl ErrUnknownOpcode, a)
      else
        let w := word_at (rg_bytes g) va in
        (inr (RWord w),
         with_live (<[r := mkRegion (rg_pd g) (rg_lkey g) (rg_flags g)
                             (splice (rg_bytes g) (Z.to_nat va)
                                (be_bytes 8 (atomic_result ty w op1 op2)))]> (live a)) a)
  end.

(** The specification: deterministic except for the choice of the keys. *)
Inductive spec_step (a : AState) : StoreOp → ErrorCode + Reply → AState → Prop :=
| spec_register pd fl len l r :
    count a < count_max a → bytes a + len ≤ bytes_max a →
    (r ∉ issued a) → 0 < r < 2 ^ 32 →
    (∀ r' g, live a !! r' = Some g → rg_lkey g ≠ l) →
    spec_step a (OpRegister pd fl len) (inr (RKeys l r))
      (mkAState (<[r := mkRegion pd l fl (replicate (Z.to_nat len) x00)]> (live a))
         ({[r]} ∪ issued a) (count a + 1) (bytes a + len) (count_max a) (bytes_max a))
| spec_register_full pd fl len :
    count_max a ≤ count a → spec_step a (OpRegister pd fl len) (inl ErrInternal) a
| spec_register_bytes pd fl len :
    bytes_max a < bytes a + len → spec_step a (OpRegister pd fl len) (inl ErrBounds) a
| spec_register_no_key pd fl len :
    count a < count_max a → spec_step a (OpRegister pd fl len) (inl ErrInternal) a
| spec_deregister pd l r g :
    live a !! r = Some g → rg_lkey g = l → rg_pd g = pd →
    spec_step a (OpDeregister pd l) (inr RDone)
      (mkAState (delete r (live a)) (issued a) (count a - 1) (bytes a - zlen (rg_bytes g))
         (count_max a) (bytes_max a))
| spec_deregister_pd pd l r g :
    live a !! r = Some g → rg_lkey g = l → rg_pd g ≠ pd →
    spec_step a (OpDeregister pd l) (inl ErrInvalidPd) a
| spec_deregister_unknown pd l :
    (∀ r g, live a !! r = Some g → rg_lkey g ≠ l) →
    spec_step a (OpDeregister pd l) (inl ErrInvalidLkey) a
| spec_do_write r off d res a' :
    spec_write a r off d = (res, a') → spec_step a (OpWrite r off d) res a'
| spec_do_read r off len res a' :
    spec_read a r off len = (res, a') → spec_step a (OpRead r off len) res a'
| spec_do_atomic r va ty op1 op2 res a' :
    spec_atomic a r va ty op1 op2 = (res, a') → spec_step a (OpAtomic r va ty op1 op2) res a'.

Inductive spec_steps : AState → list (StoreOp * (ErrorCode + Reply)) → AState → Prop :=
| spec_nil a : spec_steps a [] a
| spec_cons a op res a' tr a'' :
    spec_step a op res a' → spec_steps a' tr a'' → spec_steps a ((op, res) :: tr) a''.

Lemma spec_error_ne_success a op code a' : spec_step a op (inl code) a' → code ≠ Success.
Proof.
  intros Hs ->. inversion Hs as [| | | | | | |? ? ? ? ? Hw|? ? ? ? ? Hw|? ? ? ? ? ? ? Hw];
    unfold spec_write, spec_read, spec_atomic, access in Hw; repeat case_match; simplify_eq.
Qed.
Lemma spec_steps_errors a tr a' : spec_steps a tr a' → Forall (λ '(_, res), res ≠ inl Success) tr.
Proof.
  induction 1 as [|a op res a' tr a'' Hs _ IH]; constructor; [|done]. intros ->.
  by apply (spec_error_ne_success _ _ _ _ Hs).
Qed.

Lemma AState_eq a b :
  (∀ r, live a !! r = live b !! r) → issued a = issued b → count a = count b →
  bytes a = bytes b → count_max a = count_max b → bytes_max a = bytes_max b → a = b.
Proof.
  destruct a, b; cbn. intros Hl -> -> -> -> ->. f_equal. by apply map_eq.
Qed.

Lemma abs_lkey s l :
  store_ok s → regions s !! l = None → ∀ r g, live (abs s) !! r = Some g → rg_lkey g ≠ l.
Proof.
  intros Hok Hn r g. rewrite abs_live. destruct (region_of s r) as [e|] eqn:Hr; [|done].
  intros [= <-]. cbn. apply region_of_Some in Hr as (l' & _ & Hl'); [|done].
  destruct (ok_lkey _ Hok _ _ Hl') as [-> _]. congruence.
Qed.

Lemma abs_put s r e d :
  store_ok s → region_of s r = Some e →
  abs (put_contents s r d) =
    with_live (<[r := mkRegion (e_pd e) (e_lkey e) (e_access_flags e) d]> (live (abs s))) (abs s).
Proof.
  intros Hok Hr. assert (Hr' := Hr). apply region_of_Some in Hr' as (l & Hl & He); [|done].
  assert (put_contents s r d = set_regions (<[l := set_data d e]> (regions s)) s) as Hp
    by (unfold put_contents; by rewrite Hl, He).
  apply AState_eq; rewrite ?Hp; try done.
  - intros r'. rewrite <-Hp, abs_live, (region_of_put _ _ _ _ _ Hok Hr).
    unfold with_live. cbn [live]. rewrite lookup_insert. repeat case_decide; subst; try done.
    by rewrite abs_live.
  - cbn. by rewrite map_size_insert_Some by eauto.
Qed.

Lemma set_next_lkey_ok s :
  store_ok s → next_lkey s + 1 < 2 ^ 32 → store_ok (set_next_lkey (next_lkey s + 1) s).
Proof.
  intros Hok Hn. pose proof (ok_next _ Hok). split; cbn;
    [apply (ok_fwd _ Hok)|apply (ok_bwd _ Hok)| |apply (ok_used _ Hok)|apply (ok_rkey _ Hok)|lia
    |apply (ok_total _ Hok)|apply (ok_total_max _ Hok)|apply (ok_count _ Hok)].
  intros l e He. pose proof (ok_lkey _ Hok _ _ He). lia.
Qed.

Section refinement.
Context `{Profile, !OsRng, !OsRngLaws}.

(** The registrations among the operations, which count for the local keys. *)
Definition reg_op (op : StoreOp) : Z := match op with OpRegister _ _ _ => 1 | _ => 0 end.
Definition reg_ops (tr : list (StoreOp * (ErrorCode + Reply))) : Z :=
  foldr (λ '(op, _) n, reg_op op + n) 0 tr.
Lemma reg_op_range op : 0 ≤ reg_op op ≤ 1.
Proof using Type. destruct op; cbn; lia. Qed.
Lemma reg_ops_range tr : 0 ≤ reg_ops tr ≤ zlen tr.
Proof using Type.
  induction tr as [|[op res] tr IH]; [done|]. rewrite zlen_cons. cbn [reg_ops foldr]. fold (reg_ops tr).
  pose proof (reg_op_range op). lia.
Qed.
Lemma reg_ops_app tr1 tr2 : reg_ops (tr1 ++ tr2) = reg_ops tr1 + reg_ops tr2.
Proof using Type.
  induction tr1 as [|[op res] tr1 IH]; cbn [app reg_ops foldr]; [done|]. fold (reg_ops tr1) (reg_ops (tr1 ++ tr2)). lia.
Qed.

(** One operation, from a store that satisfies the invariant. *)
Definition op_result (op : StoreOp) (s : MemoryStore) (n : nat) (post : Prop) : Prop :=
  match run_op op (s, n) with
  | Ok rep (s', _) =>
      store_ok s' ∧ spec_step (abs s) op (inr rep) (abs s') ∧ next_lkey s' ≤ next_lkey s + reg_op op
  | Err e (s', _) =>
      store_ok s' ∧ spec_step (abs s) op (inl e) (abs s') ∧ next_lkey s' ≤ next_lkey s + reg_op op
  | Panic => post
  end.

Definition register_panics (op : StoreOp) (s : MemoryStore) (n : nat) : Prop :=
  match op with
  | OpRegister _ _ len =>
      2 ^ 64 ≤ total_registered_bytes s + len ∨
      ∃ i, (i < 1000)%nat ∧ os_rng_fill (n + i) = None
  | _ => False
  end.

Lemma op_result_register pd fl len s n :
  store_ok s → u64 len → next_lkey s + 1 < 2 ^ 32 →
  op_result (OpRegister pd fl len) s n (register_panics (OpRegister pd fl len) s n).
Proof using Type*.
  intros Hok Hlen Hn. unfold op_result. cbn [run_op register_panics reg_op].
  pose proof (register_spec s n pd fl len Hok Hlen Hn) as Hs.
  destruct (register pd fl len (s, n)) as [[l r] [s' n']|e [s' n']|] eqn:Hr.
  - rewrite (bind_Ok _ _ _ _ _ Hr). destruct Hs as (Hc & Hb & -> & Hrr & Hu & ->). cbn.
    unfold uN in Hlen. split_and!; [by apply registered_ok; [|lia|..]| |lia].
    assert (abs (registered s pd fl len r) =
      mkAState (<[r := mkRegion pd (next_lkey s) fl (replicate (Z.to_nat len) x00)]> (live (abs s)))
        ({[r]} ∪ issued (abs s)) (count (abs s) + 1) (bytes (abs s) + len)
        (count_max (abs s)) (bytes_max (abs s))) as ->.
    { apply AState_eq; try done.
      - intros r'. rewrite abs_live, (region_of_registered _ _ _ _ _ _ Hok Hu). cbn [live].
        rewrite lookup_insert. repeat case_decide; subst; try done. by rewrite abs_live.
      - cbn. rewrite map_size_insert_None by (by apply fresh_lkey). lia. }
    apply spec_register; try done. apply abs_lkey; [done|]. by apply fresh_lkey.
  - rewrite (bind_Err _ _ _ _ _ Hr).
    destruct Hs as [(-> & Hc & ->)|[(-> & Hb & _ & ->)|(-> & Hc & -> & _)]].
    + split_and!; [done|by constructor|lia].
    + split_and!; [done|by constructor|lia].
    + change (abs (set_next_lkey (next_lkey s + 1) s)) with (abs s).
      split_and!; [by apply set_next_lkey_ok|by apply spec_register_no_key|cbn; lia].
  - by rewrite (bind_Panic _ _ _ Hr).
Qed.

Lemma op_result_deregister pd l s n :
  store_ok s → op_result (OpDeregister pd l) s n False.
Proof using Type*.
  intros Hok. unfold op_result. cbn [run_op reg_op]. unfold on_store, zoom. cbn [fst].
  mrun. rewrite (deregister_eq _ _ _ Hok).
  destruct (regions s !! l) as [e|] eqn:Hl.
  2:{ split_and!; [done| |lia]. apply spec_deregister_unknown. by apply abs_lkey. }
  assert (live (abs s) !! e_rkey e = Some (region_of_entry e)) as Hlive.
  { rewrite abs_live. unfold region_of. rewrite (ok_bwd _ Hok _ _ Hl). cbn. by rewrite Hl. }
  destruct (ok_lkey _ Hok _ _ Hl) as [Hle _].
  destruct (Z.eqb_spec (e_pd e) pd) as [Hpd|Hpd]; cbn [negb].
  - split_and!; [by apply deregistered_ok| |cbn; lia].
    eassert (abs (mkStore _ _ _ _ _ _ _) = mkAState (delete (e_rkey e) (live (abs s))) _ _ _ _ _) as ->;
      [|by eapply (spec_deregister _ _ _ (e_rkey e))].
    apply AState_eq; try done.
    + intros r'. rewrite abs_live, (region_of_deregistered _ _ _ _ Hok Hl). cbn [live].
      rewrite lookup_delete. repeat case_decide; subst; try done. by rewrite abs_live.
    + cbn. rewrite map_size_delete_Some by eauto.
      assert (size (regions s) ≠ 0)%nat; [|lia].
      intros Hz%map_size_empty_inv. by rewrite Hz, lookup_empty in Hl.
  - split_and!; [done| |lia]. by eapply (spec_deregister_pd _ _ _ (e_rkey e)).
Qed.

Lemma access_abs s r flag :
  access (abs s) r flag =
    match region_of s r with
    | None => inl ErrInvalidMkey
    | Some e => if AccessFlags_contains (e_access_flags e) flag
                then inr (region_of_entry e) else inl ErrAccessDenied
    end.
Proof using Type. unfold access. rewrite abs_live. by destruct (region_of s r). Qed.

Lemma op_result_data op s n :
  store_ok s → op_typed op →
  match op with OpRegister _ _ _ | OpDeregister _ _ => True | _ => op_result op s n False end.
Proof using Type*.
  intros Hok Ht. unfold op_result. destruct op as [| |r off d|r off len|r va ty op1 op2];
    cbn [run_op op_typed reg_op] in *; try done; unfold on_store, zoom, uN in *; cbn [fst]; mrun.
  - rewrite (write_region_eq _ _ _ _ Hok) by lia.
    destruct (region_of s r) as [e|] eqn:Hr;
      [destruct (AccessFlags_contains (e_access_flags e) REMOTE_WRITE) eqn:Hf; cbn [negb];
       [destruct (Z.ltb_spec (zlen (e_data e)) (off + zlen d)) as [Hb|Hb]|]|];
      (split_and!; [|apply spec_do_write; unfold spec_write; rewrite access_abs, Hr, ?Hf|]);
      cbn [rg_bytes region_of_entry]; try done; try lia.
    + by rewrite (proj2 (Z.ltb_lt _ _)).
    + apply (put_contents_ok _ _ _ _ Hok Hr). unfold zlen in *. rewrite length_splice; [done|lia].
    + rewrite (proj2 (Z.ltb_ge _ _)) by done. by rewrite (abs_put _ _ _ _ Hok Hr).
    + unfold put_contents. repeat case_match; cbn; lia.
  - rewrite (read_region_eq _ _ _ _ Hok) by lia.
    destruct (region_of s r) as [e|] eqn:Hr;
      [destruct (AccessFlags_contains (e_access_flags e) REMOTE_READ) eqn:Hf; cbn [negb];
       [destruct (Z.ltb_spec (zlen (e_data e)) (off + len)) as [Hb|Hb]|]|];
      (split_and!; [|apply spec_do_read; unfold spec_read; rewrite access_abs, Hr, ?Hf|]);
      cbn [rg_bytes region_of_entry]; try done; try lia.
    + by rewrite (proj2 (Z.ltb_lt _ _)).
    + by rewrite (proj2 (Z.ltb_ge _ _)).
  - rewrite (atomic_op_eq _ _ _ _ _ _ Hok) by lia.
    destruct (region_of s r) as [e|] eqn:Hr;
      [destruct (AccessFlags_contains (e_access_flags e) REMOTE_ATOMIC) eqn:Hf; cbn [negb];
       [destruct (va mod 8 =? 0) eqn:Hal; cbn [negb];
        [destruct (Z.ltb_spec (zlen (e_data e)) (va + 8)) as [Hb|Hb];
         [|destruct ((ty =? 1) || (ty =? 2)) eqn:Hty; cbn [negb]]|]|]|];
      (split_and!; [|apply spec_do_atomic; unfold spec_atomic; rewrite access_abs, Hr, ?Hf, ?Hal|]);
      cbn [rg_bytes region_of_entry negb]; try done; try lia;
      try (by rewrite (proj2 (Z.ltb_lt _ _))); try (by rewrite (proj2 (Z.ltb_ge _ _)), Hty).
    + apply (put_contents_ok _ _ _ _ Hok Hr). unfold zlen in *.
      rewrite length_splice; [done|rewrite length_be_bytes; lia].
    + rewrite (proj2 (Z.ltb_ge _ _)), Hty by done. by rewrite (abs_put _ _ _ _ Hok Hr).
    + unfold put_contents. repeat case_match; cbn; lia.
Qed.

Lemma op_result_any op s n :
  store_ok s → op_typed op → next_lkey s + reg_op op < 2 ^ 32 →
  op_result op s n (register_panics op s n).
Proof using Type*.
  intros Hok Ht Hn. pose proof (op_result_data op s n Hok Ht) as Hd.
  destruct op; try done.
  - apply op_result_register; [done|apply Ht|done].
  - by apply op_result_deregister.
Qed.

(** The counter of local keys is at its last value when a registration comes. *)
Definition lkeys_spent (op : StoreOp) (s : MemoryStore) : Prop :=
  match op with OpRegister _ _ _ => next_lkey s = 2 ^ 32 - 1 | _ => False end.

(** C18: what can go wrong in the store.  From a store that satisfies the invariant,
    every operation keeps the invariant on all its branches, errors included, and only
    [register] can panic: because the total length overflows 64 bits, because the
    system random source fails, or because the counter of local keys is at 2^32 - 1,
    the one state from which a registration may also break the invariant (the counter
    then wraps in a release build). *)
Theorem store_op_safe op s n :
  store_ok s → op_typed op →
  match run_op op (s, n) with
  | Ok _ (s', _) => store_ok s' ∨ lkeys_spent op s
  | Err _ (s', _) => store_ok s' ∨ lkeys_spent op s
  | Panic => register_panics op s n ∨ lkeys_spent op s
  end.
Proof using Type*.
  intros Hok Ht. pose proof (ok_next _ Hok) as Hn.
  assert (lkeys_spent op s ∨ op_result op s n (register_panics op s n)) as [Hsp|Hr].
  { pose proof (op_result_data op s n Hok Ht) as Hd.
    destruct op as [pd fl len| | | |]; [|right; first [done|by apply op_result_deregister]..].
    destruct (decide (next_lkey s = 2 ^ 32 - 1)) as [|Hne]; [by left|right].
    apply op_result_register; [done|apply Ht|lia]. }
  - destruct (run_op op (s, n)) as [? []|? []|]; by right.
  - unfold op_result in Hr. destruct (run_op op (s, n)) as [? []|? []|]; left; [apply Hr..|done].
Qed.

(** The third panic of [register] does happen, in a build with overflow checks. *)
Theorem lkey_counter_overflows pd fl len s n :
  overflow_checks = true → next_lkey s = 2 ^ 32 - 1 → 0 ≤ total_registered_bytes s → u64 len →
  Z.of_nat (size (regions s)) < max_regions s → total_registered_bytes s + len ≤ max_total_bytes s →
  max_total_bytes s < 2 ^ 64 → run_op (OpRegister pd fl len) (s, n) = Panic.
Proof using Type.
  intros Ho Hn Ht Hlen Hr Hb Hm. cbn [run_op]. apply bind_Panic. unfold register. unfold getS. mrun.
  rewrite (proj2 (Z.leb_gt _ _)) by done. unfold add_ovf, ovf, uN in *.
  rewrite (decide_True _ _) by lia. mrun. rewrite (proj2 (Z.ltb_ge _ _)) by lia.
  rewrite (decide_False _ _) by lia. by rewrite Ho.
Qed.

Lemma run_ops_refine_aux s n tr s' n' :
  run_ops (s, n) tr (s', n') → store_ok s → Forall op_typed tr.*1 →
  next_lkey s + reg_ops tr < 2 ^ 32 →
  store_ok s' ∧ spec_steps (abs s) tr (abs s').
Proof using Type*.
  intros Hrun. remember (s, n) as st eqn:Hst. remember (s', n') as st' eqn:Hst'.
  revert s n Hst; induction Hrun as [? |st0 op rep [s1 n1] tr ? Hop Hrun IH
                                    |st0 op e [s1 n1] tr ? Hop Hrun IH]; intros s0 n0 -> Hok Ht Hn.
  - injection Hst' as <- <-. split; [done|constructor].
  - apply Forall_cons in Ht as [Ht Hts]. cbn [reg_ops foldr] in Hn.
    fold (reg_ops tr) in Hn. pose proof (reg_op_range op). pose proof (reg_ops_range tr).
    pose proof (op_result_any op s0 n0 Hok Ht ltac:(lia)) as Hr. unfold op_result in Hr.
    rewrite Hop in Hr. destruct Hr as (Hok1 & Hstep & Hk).
    destruct (IH Hst' s1 n1 eq_refl Hok1 Hts ltac:(lia)). split; [done|by econstructor].
  - apply Forall_cons in Ht as [Ht Hts]. cbn [reg_ops foldr] in Hn.
    fold (reg_ops tr) in Hn. pose proof (reg_op_range op). pose proof (reg_ops_range tr).
    pose proof (op_result_any op s0 n0 Hok Ht ltac:(lia)) as Hr. unfold op_result in Hr.
    rewrite Hop in Hr. destruct Hr as (Hok1 & Hstep & Hk).
    destruct (IH Hst' s1 n1 eq_refl Hok1 Hts ltac:(lia)). split; [done|by econstructor].
Qed.

Lemma run_ops_refine_length s n tr s' n' :
  run_ops (s, n) tr (s', n') → store_ok s → Forall op_typed tr.*1 →
  next_lkey s + Z.of_nat (length tr) < 2 ^ 32 →
  store_ok s' ∧ spec_steps (abs s) tr (abs s').
Proof using Type*.
  intros Hrun Hok Ht Hn. pose proof (reg_ops_range tr). by eapply run_ops_refine_aux; [..|unfold zlen in *; lia].
Qed.

End refinement.

(** ** Key discipline, from the specification *)

(** The remote keys handed out in a run. *)
Definition issued_keys (tr : list (StoreOp * (ErrorCode + Reply))) : list RKey :=
  omap (λ '(_, res), match res with inr (RKeys _ r) => Some r | _ => None end) tr.

(** The remote key a data operation presents. *)
Definition op_key (op : StoreOp) : option RKey :=
  match op with
  | OpWrite r _ _ | OpRead r _ _ | OpAtomic r _ _ _ _ => Some r
  | _ => None
  end.

Lemma spec_step_issued a op res a' :
  spec_step a op res a' →
  issued a ⊆ issued a' ∧
  match res with inr (RKeys _ r) => (r ∉ issued a) ∧ r ∈ issued a' | _ => issued a' = issued a end.
Proof.
  destruct 1 as [| | | | | | |r off d res a' Hw|r off len res a' Hw|r va ty o1 o2 res a' Hw]; cbn;
    try set_solver.
  - unfold spec_write in Hw. repeat case_match; simplify_eq; cbn; set_solver.
  - unfold spec_read in Hw. repeat case_match; simplify_eq; cbn; set_solver.
  - unfold spec_atomic in Hw. repeat case_match; simplify_eq; cbn; set_solver.
Qed.

Lemma spec_issued_distinct a tr a' :
  spec_steps a tr a' → NoDup (issued_keys tr) ∧ ∀ r, r ∈ issued_keys tr → r ∉ issued a.
Proof.
  induction 1 as [|a op res a' tr a'' Hs _ [IHd IHf]]; [split; [constructor|set_solver]|].
  destruct (spec_step_issued _ _ _ _ Hs) as [Hsub Hres]. unfold issued_keys in *. cbn.
  destruct res as [e|[l r| | |]]; try (split; [done|set_solver]).
  destruct Hres as [Hn Hi]. split.
  - constructor; [|done]. intros Hin. by apply (IHf r Hin).
  - intros r' [->|Hin]%elem_of_cons; [done|]. intros Hr'. apply (IHf r' Hin). set_solver.
Qed.

Lemma spec_dead_key a op res a' r :
  spec_step a op res a' → r ∈ issued a → live a !! r = None →
  live a' !! r = None ∧ (op_key op = Some r → res = inl ErrInvalidMkey).
Proof.
  intros Hs Hi Hl. assert (∀ flag, access a r flag = inl ErrInvalidMkey) as Ha
    by (intros; unfold access; by rewrite Hl).
  destruct Hs as [pd fl len l r1 _ _ Hn _ _| | | |pd l r1 g Hg _ _| | |r1 off d res a' Hw
                 |r1 off len res a' Hw|r1 va ty o1 o2 res a' Hw]; cbn; try done.
  - split; [|done]. rewrite lookup_insert_ne; [done|]. intros ->. done.
  - split; [|done]. apply lookup_delete_None. by right.
  - destruct (decide (r1 = r)) as [->|Hne].
    + unfold spec_write in Hw. rewrite Ha in Hw. by simplify_eq.
    + split; [|congruence]. unfold spec_write in Hw.
      repeat case_match; simplify_eq; cbn; try done. by rewrite lookup_insert_ne.
  - destruct (decide (r1 = r)) as [->|Hne].
    + unfold spec_read in Hw. rewrite Ha in Hw. by simplify_eq.
    + split; [|congruence]. unfold spec_read in Hw. repeat case_match; by simplify_eq.
  - destruct (decide (r1 = r)) as [->|Hne].
    + unfold spec_atomic in Hw. rewrite Ha in Hw. by simplify_eq.
    + split; [|congruence]. unfold spec_atomic in Hw.
      repeat case_match; simplify_eq; cbn; try done. by rewrite lookup_insert_ne.
Qed.

Lemma spec_dead_key_steps a tr a' r :
  spec_steps a tr a' → r ∈ issued a → live a !! r = None →
  live a' !! r = None ∧
  Forall (λ '(op, res), op_key op = Some r → res = inl ErrInvalidMkey) tr.
Proof.
  induction 1 as [|a op res a' tr a'' Hs _ IH]; intros Hi Hl; [done|].
  destruct (spec_dead_key _ _ _ _ _ Hs Hi Hl) as [Hl' Hres].
  destruct (spec_step_issued _ _ _ _ Hs) as [Hsub _].
  destruct IH as [? ?]; [set_solver|done|]. split; [done|by constructor].
Qed.

Section keys.
Context `{Profile, !OsRng, !OsRngLaws}.

(** C14: a remote key is never issued twice in a session: the keys a run hands
    out are pairwise distinct and new, deregistrations in between or not. *)
Theorem rkeys_never_reissued s n tr s' n' :
  run_ops (s, n) tr (s', n') → store_ok s → Forall op_typed tr.*1 →
  next_lkey s + Z.of_nat (length tr) < 2 ^ 32 →
  NoDup (issued_keys tr) ∧ ∀ r, r ∈ issued_keys tr → r ∉ used_rkeys s.
Proof using Type*.
  intros Hrun Hok Ht Hn. destruct (run_ops_refine_length _ _ _ _ _ Hrun Hok Ht Hn) as [_ Hs].
  by apply spec_issued_distinct in Hs.
Qed.

(** C15: after [deregister] succeeds, the region's remote key is dead for the
    rest of the session: whatever runs next, every write, read or atomic that
    presents it is refused with ERR_INVALID_MKEY. *)
Theorem deregistered_key_is_dead s n pd l e s1 tr s' n' :
  store_ok s → regions s !! l = Some e → deregister pd l s = Ok tt s1 →
  run_ops (s1, n) tr (s', n') → Forall op_typed tr.*1 →
  next_lkey s + Z.of_nat (length tr) < 2 ^ 32 →
  region_of s' (e_rkey e) = None ∧
  Forall (λ '(op, res), op_key op = Some (e_rkey e) → res = inl ErrInvalidMkey) tr.
Proof using Type*.
  intros Hok Hl Hd Hrun Ht Hn. rewrite (deregister_eq _ _ _ Hok), Hl in Hd.
  destruct (negb (e_pd e =? pd)); [done|]. injection Hd as <-.
  pose proof (deregistered_ok s l e Hok Hl) as Hok1.
  destruct (run_ops_refine_length _ _ _ _ _ Hrun Hok1 Ht Hn) as [Hok' Hs].
  apply (spec_dead_key_steps _ _ _ (e_rkey e)) in Hs as [Hlive Hall].
  - split; [|done]. rewrite abs_live in Hlive. by destruct (region_of s' (e_rkey e)).
  - cbn. apply (ok_used _ Hok (e_rkey e) l). by apply ok_bwd.
  - rewrite abs_live, (region_of_deregistered _ _ _ _ Hok Hl). by rewrite decide_True.
Qed.

(** C39: [register] on a length whose sum with the registered total overflows 64
    bits does not answer ERR_BOUNDS: unless the key generator gives up first,
    the call panics, in debug and in release builds alike. *)
Theorem register_length_overflow s n pd fl len :
  store_ok s → u64 len → next_lkey s + 1 < 2 ^ 32 →
  Z.of_nat (size (regions s)) < max_regions s →
  2 ^ 64 ≤ total_registered_bytes s + len →
  (∃ i b, (i < 1000)%nat ∧ os_rng_fill (n + i) = Some b ∧
    be_value b ≠ 0 ∧ be_value b ∉ used_rkeys s) →
  register pd fl len (s, n) = Panic.
Proof using Type*.
  intros Hok Hlen Hn Hc Hov (i & b & Hi & Hb & Hz & Hu).
  pose proof (register_spec s n pd fl len Hok Hlen Hn) as Hs.
  pose proof (ok_total_max _ Hok) as Hm. unfold isize_max in Hm.
  destruct (register pd fl len (s, n)) as [[l r] [s' n']|e [s' n']|]; [lia| |done].
  destruct Hs as [(_ & Hf & _)|[(_ & _ & Hf & _)|(_ & _ & _ & Hf)]]; [lia..|].
  destruct (Hf i Hi) as (b' & Hb' & Hbad). naive_solver congruence.
Qed.

(** What [write_region] stored is what [read_region] returns, and every
    range of every region that the write did not touch reads as before. *)
Theorem read_after_write s r off d s' e :
  store_ok s → 0 ≤ off → region_of s r = Some e →
  AccessFlags_contains (e_access_flags e) REMOTE_READ = true →
  write_region r off d s = Ok tt s' →
  read_region r off (zlen d) s' = Ok d s' ∧
  ∀ r' off' len', 0 ≤ off' → 0 ≤ len' →
    (r' ≠ r ∨ off' + len' ≤ off ∨ off + zlen d ≤ off') →
    value_of (read_region r' off' len' s') = value_of (read_region r' off' len' s).
Proof using Type.
  intros Hok Hoff Hr Hf Hw. rewrite (write_region_eq _ _ _ _ Hok Hoff), Hr in Hw.
  destruct (negb _); [done|]. destruct (Z.ltb_spec (zlen (e_data e)) (off + zlen d)) as [|Hb]; [done|].
  injection Hw as <-. set (d' := splice (e_data e) (Z.to_nat off) d).
  assert (zlen d' = zlen (e_data e)) as Hd'
    by (unfold d', zlen in *; rewrite length_splice; [done|lia]).
  pose proof (put_contents_ok _ _ _ d' Hok Hr Hd') as Hok'.
  pose proof (λ r', region_of_put _ _ _ d' r' Hok Hr) as Hput. split.
  - rewrite (read_region_eq _ _ _ _ Hok' Hoff (zlen_nonneg d)), Hput, decide_True by done.
    cbn [e_access_flags set_data e_data]. rewrite Hf. cbn [negb]. rewrite Hd'.
    rewrite (proj2 (Z.ltb_ge _ _)) by lia. f_equal. unfold d', zlen in *.
    rewrite Nat2Z.id. apply take_drop_splice. lia.
  - intros r' off' len' Ho Hl Hdis. rewrite (read_region_eq _ _ _ _ Hok') by done.
    rewrite (read_region_eq _ _ _ _ Hok), Hput by done.
    destruct (decide (r' = r)) as [->|]; [|by repeat case_match].
    rewrite Hr. cbn [e_access_flags set_data e_data]. rewrite Hd'.
    destruct (negb _); [done|]. destruct (Z.ltb_spec (zlen (e_data e)) (off' + len')); [done|].
    cbn [value_of]. do 2 f_equal.
    assert (slice d' off' (off' + len') = slice (e_data e) off' (off' + len')) as Hsl
      by (apply slice_splice_disjoint; unfold zlen in *; naive_solver lia).
    rewrite !slice_Some in Hsl by lia. rewrite Z.add_simpl_l in Hsl. congruence.
Qed.
End keys.

(** ** Fetch-and-add *)

Lemma word_at_splice d va x :
  0 ≤ va → va + 8 ≤ zlen d →
  word_at (splice d (Z.to_nat va) (be_bytes 8 x)) va = wrap 64 x.
Proof.
  unfold zlen. intros Hva Hd. unfold word_at.
  assert (take 8 (drop (Z.to_nat va) (splice d (Z.to_nat va) (be_bytes 8 x))) = be_bytes 8 x) as ->.
  { change 8%nat with (length (be_bytes 8 x)) at 1. apply take_drop_splice.
    rewrite length_be_bytes. lia. }
  by rewrite be_value_be_bytes.
Qed.

(** The original values a sequence of additions observes. *)
Fixpoint running (w : Z) (l : list Z) : list Z :=
  match l with
  | [] => []
  | a :: l' => w :: running (wrapping_add 64 w a) l'
  end.
Definition faa_trace (r va w : Z) (l : list Z) : list (StoreOp * (ErrorCode + Reply)) :=
  zip_with (λ a v, (OpAtomic r va 0x02 a 0, inr (RWord v))) l (running w l).
Definition sum_list_Z (l : list Z) : Z := foldr Z.add 0 l.

Section faa.
Context `{Profile, OsRng}.

(** Fetch-and-add never loses an update: each of any sequence of additions
    to an aligned word returns the value the previous ones left, and the word
    ends as the 64-bit sum of all of them. *)
Theorem faa_accumulates s n r va e l :
  store_ok s → region_of s r = Some e →
  AccessFlags_contains (e_access_flags e) REMOTE_ATOMIC = true →
  0 ≤ va → va mod 8 = 0 → va + 8 ≤ zlen (e_data e) → u64 (word_at (e_data e) va) →
  ∃ s' e', run_ops (s, n) (faa_trace r va (word_at (e_data e) va) l) (s', n) ∧
    region_of s' r = Some e' ∧
    word_at (e_data e') va = wrap 64 (word_at (e_data e) va + sum_list_Z l).
Proof using Type.
  intros Hok Hr Hf Hva Hal Hb Hw. revert s e Hok Hr Hf Hb Hw.
  induction l as [|a l IH]; intros s e Hok Hr Hf Hb Hw.
  { exists s, e. split_and!; [constructor|done|]. cbn. by rewrite Z.add_0_r, wrap_id. }
  set (w := word_at (e_data e) va) in *.
  set (d := splice (e_data e) (Z.to_nat va) (be_bytes 8 (wrapping_add 64 w a))).
  assert (zlen d = zlen (e_data e)) as Hd
    by (unfold d, zlen in *; rewrite length_splice; rewrite ?length_be_bytes; lia).
  assert (word_at d va = wrapping_add 64 w a) as Hw'
    by (unfold d; rewrite word_at_splice by done; apply wrap_id, wrap_range; lia).
  destruct (IH (put_contents s r d) (set_data d e)) as (s' & e' & Hrun & Hr' & Hv); cbn [e_data set_data].
  - by apply (put_contents_ok _ _ _ _ Hok Hr).
  - rewrite (region_of_put _ _ _ _ _ Hok Hr). by rewrite decide_True.
  - done.
  - by rewrite Hd.
  - rewrite Hw'. by apply wrapping_add_range.
  - cbn [e_data set_data] in Hrun, Hv. rewrite Hw' in Hrun, Hv. exists s', e'. split_and!; [|done|].
    + eapply run_ok; [|exact Hrun]. cbn [run_op]. unfold on_store, zoom. cbn [fst]. mrun.
      rewrite (atomic_op_eq _ _ _ _ _ _ Hok Hva), Hr, Hf, Hal. cbn [negb Z.eqb orb].
      by rewrite (proj2 (Z.ltb_ge _ _)) by done.
    + rewrite Hv. cbn [sum_list_Z foldr]. unfold wrapping_add, wrap.
      rewrite Z.add_mod_idemp_l by done. f_equal. unfold sum_list_Z. lia.
Qed.
End faa.

(** ** Witnesses *)
Module StoreWitness.
Import Concrete.

(** A store with room for four regions, one region of 16 bytes registered under
    protection domain 1 with the first two draws of the generator. *)
Definition all_remote : AccessFlags := 0x1e.
Definition store0 : MemoryStore := MemoryStore_new 4 64.
Definition entry1 : MemoryRegionEntry := mkEntry 1 1 1 all_remote (replicate 16 x00).
Definition store1 : MemoryStore := registered store0 1 all_remote 16 1.

Lemma store0_ok : store_ok store0.
Proof. by apply MemoryStore_new_ok. Qed.
Lemma store1_ok : store_ok store1.
Proof. by apply registered_ok; [apply store0_ok|..]. Qed.

Lemma store_op_safe_witness :
  ∃ s' n', run_op (OpRegister 1 all_remote 16) (store1, 1%nat) = Ok (RKeys 2 2) (s', n') ∧ store_ok s'.
Proof.
  pose proof (store_op_safe (OpRegister 1 all_remote 16) store1 1 store1_ok ltac:(done)) as Hs.
  assert (∃ s' n', run_op (OpRegister 1 all_remote 16) (store1, 1%nat) = Ok (RKeys 2 2) (s', n')) as (s' & n' & Hr)
    by (eexists _, _; vm_compute; reflexivity).
  rewrite Hr in Hs. exists s', n'. split; [done|]. by destruct Hs.
Defined.

(** Register, write, read back, deregister, and a refused read. *)
Definition trace1 : list (StoreOp * (ErrorCode + Reply)) :=
  [(OpRegister 1 all_remote 16, inr (RKeys 1 1));
   (OpWrite 1 4 [x0a; x0b], inr RDone);
   (OpRead 1 3 4, inr (RBytes [x00; x0a; x0b; x00]));
   (OpDeregister 1 1, inr RDone);
   (OpRead 1 0 1, inl ErrInvalidMkey);
   (OpRegister 1 all_remote 8, inr (RKeys 2 2))].
Definition trace1_end : MemoryStore :=
  mkStore {[2 := mkEntry 1 2 2 all_remote (replicate 8 x00)]} {[2 := 2]} {[1; 2]} 3 8 4 64.
Lemma trace1_runs : run_ops (store0, 0%nat) trace1 (trace1_end, 2%nat).
Proof.
  do 4 (eapply run_ok; [vm_compute; reflexivity|]).
  eapply run_err; [vm_compute; reflexivity|].
  eapply run_ok; [vm_compute; reflexivity|]. constructor.
Qed.
Lemma trace1_typed : Forall op_typed trace1.*1.
Proof. by repeat constructor. Qed.


Lemma rkeys_never_reissued_witness : NoDup [1; 2].
Proof.
  apply (rkeys_never_reissued store0 0 trace1 trace1_end 2);
    [apply trace1_runs|apply store0_ok|apply trace1_typed|done].
Defined.

Lemma deregistered_key_is_dead_witness :
  ∃ s1, deregister 1 1 store1 = Ok tt s1 ∧
    Forall (λ '(op, res), op_key op = Some 1 → res = inl ErrInvalidMkey)
      [(OpRead 1 0 1, @inl ErrorCode Reply ErrInvalidMkey)].
Proof.
  eexists. split; [vm_compute; reflexivity|].
  eapply (deregistered_key_is_dead store1 1 1 1 entry1);
    [apply store1_ok|by vm_compute|vm_compute; reflexivity| |by repeat constructor|done].
  eapply run_err; [vm_compute; reflexivity|constructor].
Defined.

Lemma register_length_overflow_witness :
  register 1 all_remote (2 ^ 64 - 1) (store1, 1%nat) = Panic.
Proof.
  apply register_length_overflow; [apply store1_ok|done|done|done|by vm_compute|].
  exists 0%nat, [x00; x00; x00; x02]. split_and!; [lia|done|done|].
  by apply (bool_decide_unpack _).
Defined.

Lemma read_after_write_witness :
  ∃ s', write_region 1 4 [x0a; x0b] store1 = Ok tt s' ∧
    read_region 1 4 2 s' = Ok [x0a; x0b] s'.
Proof.
  eexists. split; [vm_compute; reflexivity|].
  eapply (read_after_write store1 1 4 [x0a; x0b] _ entry1);
    [apply store1_ok|done|by vm_compute|done|by vm_compute].
Defined.

Lemma faa_accumulates_witness :
  ∃ s' e', run_ops (store1, 1%nat) (faa_trace 1 8 0 [5; 2 ^ 64 - 1; 7]) (s', 1%nat) ∧
    region_of s' 1 = Some e' ∧ word_at (e_data e') 8 = wrap 64 (0 + (5 + (2 ^ 64 - 1 + (7 + 0)))).
Proof.
  apply (faa_accumulates store1 1 1 8 entry1 [5; 2 ^ 64 - 1; 7]);
    [apply store1_ok|by vm_compute|done..].
Defined.
End StoreWitness.
