(* ===== verification/ServerState.v ===== *)
(** * The state of a server session ([rdows-server/src/session.rs], [lib.rs])

    [Session] and [PendingOp] as the source declares them, and the primitives the
    handlers use: [next_header], [send_message] and [send_error].  A handler runs
    on a [World]: the session it borrows mutably, the binary messages submitted
    to the WebSocket sink so far, and how many times the random source and the
    clock were read. *)

From S2P Require Import Prelude Externals Utf8 Core Frame Payloads Message MemoryStore.

(** [struct ServerConfig] and its [Default] *)
Record ServerConfig := mkConfig {
  cfg_recv_queue_depth : Z;
  cfg_max_regions_per_session : Z;
  cfg_max_total_bytes_per_session : Z;
  cfg_max_outstanding_reads : Z;
  cfg_max_sessions_per_ip : Z;
  cfg_mr_reg_rate_limit : Z;
}.
Definition ServerConfig_default : ServerConfig :=
  mkConfig 128 4096 (32 * 1024 * 1024 * 1024) 128 256 1000.

Inductive SessionState : Set := AwaitingConnect | Ready | Closed.
#[export] Instance SessionState_eq_dec : EqDecision SessionState.
Proof. solve_decision. Defined.

(** [enum PendingOp] of [handler.rs] *)
Inductive PendingOp : Type :=
| NoPending
| AwaitingSendData (wrid : Z)
| AwaitingWriteData (wrid : Z) (rkey : RKey) (remote_va expected_len : Z)
| DiscardingSendData.

Record Session := mkSession {
  session_state : SessionState;
  session_id : Z;
  pd : ProtectionDomain;
  max_msg_size : Z;
  next_seq : Z;
  memory_store : MemoryStore;
  pending_op : PendingOp;
  recv_queue_depth : Z;
  expected_remote_seq : option Z;
  sends_since_last_credit : Z;
  icc : Z;
  outstanding_reads : Z;
  max_outstanding_reads : Z;
  mr_reg_count : Z;
  mr_reg_window_start : Z;
  mr_reg_rate_limit : Z;
}.

Definition Session_new (config : ServerConfig) (now : Z) : Session :=
  {| session_state := AwaitingConnect;
     session_id := 0;
     pd := 0;
     max_msg_size := DEFAULT_MAX_MSG_SIZE;
     next_seq := 0;
     memory_store := MemoryStore_new (cfg_max_regions_per_session config)
                       (cfg_max_total_bytes_per_session config);
     pending_op := NoPending;
     recv_queue_depth := cfg_recv_queue_depth config;
     expected_remote_seq := None;
     sends_since_last_credit := 0;
     icc := DEFAULT_ICC;
     outstanding_reads := 0;
     max_outstanding_reads := cfg_max_outstanding_reads config;
     mr_reg_count := 0;
     mr_reg_window_start := now;
     mr_reg_rate_limit := cfg_mr_reg_rate_limit config |}.

(** Assignments to the fields of [session]. *)
Definition set_session_state (v : SessionState) (s : Session) : Session :=
  mkSession v (session_id s) (pd s) (max_msg_size s) (next_seq s) (memory_store s)
    (pending_op s) (recv_queue_depth s) (expected_remote_seq s) (sends_since_last_credit s)
    (icc s) (outstanding_reads s) (max_outstanding_reads s) (mr_reg_count s)
    (mr_reg_window_start s) (mr_reg_rate_limit s).
Definition set_session_id (v : Z) (s : Session) : Session :=
  mkSession (session_state s) v (pd s) (max_msg_size s) (next_seq s) (memory_store s)
    (pending_op s) (recv_queue_depth s) (expected_remote_seq s) (sends_since_last_credit s)
    (icc s) (outstanding_reads s) (max_outstanding_reads s) (mr_reg_count s)
    (mr_reg_window_start s) (mr_reg_rate_limit s).
Definition set_pd (v : ProtectionDomain) (s : Session) : Session :=
  mkSession (session_state s) (session_id s) v (max_msg_size s) (next_seq s) (memory_store
    s) (pending_op s) (recv_queue_depth s) (expected_remote_seq s) (sends_since_last_credit
    s) (icc s) (outstanding_reads s) (max_outstanding_reads s) (mr_reg_count s)
    (mr_reg_window_start s) (mr_reg_rate_limit s).
Definition set_max_msg_size (v : Z) (s : Session) : Session :=
  mkSession (session_state s) (session_id s) (pd s) v (next_seq s) (memory_store s)
    (pending_op s) (recv_queue_depth s) (expected_remote_seq s) (sends_since_last_credit s)
    (icc s) (outstanding_reads s) (max_outstanding_reads s) (mr_reg_count s)
    (mr_reg_window_start s) (mr_reg_rate_limit s).
Definition set_next_seq (v : Z) (s : Session) : Session :=
  mkSession (session_state s) (session_id s) (pd s) (max_msg_size s) v (memory_store s)
    (pending_op s) (recv_queue_depth s) (expected_remote_seq s) (sends_since_last_credit s)
    (icc s) (outstanding_reads s) (max_outstanding_reads s) (mr_reg_count s)
    (mr_reg_window_start s) (mr_reg_rate_limit s).
Definition set_memory_store (v : MemoryStore) (s : Session) : Session :=
  mkSession (session_state s) (session_id s) (pd s) (max_msg_size s) (next_seq s) v
    (pending_op s) (recv_queue_depth s) (expected_remote_seq s) (sends_since_last_credit s)
    (icc s) (outstanding_reads s) (max_outstanding_reads s) (mr_reg_count s)
    (mr_reg_window_start s) (mr_reg_rate_limit s).
Definition set_pending_op (v : PendingOp) (s : Session) : Session :=
  mkSession (session_state s) (session_id s) (pd s) (max_msg_size s) (next_seq s)
    (memory_store s) v (recv_queue_depth s) (expected_remote_seq s) (sends_since_last_credit
    s) (icc s) (outstanding_reads s) (max_outstanding_reads s) (mr_reg_count s)
    (mr_reg_window_start s) (mr_reg_rate_limit s).
Definition set_recv_queue_depth (v : Z) (s : Session) : Session :=
  mkSession (session_state s) (session_id s) (pd s) (max_msg_size s) (next_seq s)
    (memory_store s) (pending_op s) v (expected_remote_seq s) (sends_since_last_credit s)
    (icc s) (outstanding_reads s) (max_outstanding_reads s) (mr_reg_count s)
    (mr_reg_window_start s) (mr_reg_rate_limit s).
Definition set_expected_remote_seq (v : option Z) (s : Session) : Session :=
  mkSession (session_state s) (session_id s) (pd s) (max_msg_size s) (next_seq s)
    (memory_store s) (pending_op s) (recv_queue_depth s) v (sends_since_last_credit s) (icc
    s) (outstanding_reads s) (max_outstanding_reads s) (mr_reg_count s) (mr_reg_window_start
    s) (mr_reg_rate_limit s).
Definition set_sends_since_last_credit (v : Z) (s : Session) : Session :=
  mkSession (session_state s) (session_id s) (pd s) (max_msg_size s) (next_seq s)
    (memory_store s) (pending_op s) (recv_queue_depth s) (expected_remote_seq s) v (icc s)
    (outstanding_reads s) (max_outstanding_reads s) (mr_reg_count s) (mr_reg_window_start s)
    (mr_reg_rate_limit s).
Definition set_outstanding_reads (v : Z) (s : Session) : Session :=
  mkSession (session_state s) (session_id s) (pd s) (max_msg_size s) (next_seq s)
    (memory_store s) (pending_op s) (recv_queue_depth s) (expected_remote_seq s)
    (sends_since_last_credit s) (icc s) v (max_outstanding_reads s) (mr_reg_count s)
    (mr_reg_window_start s) (mr_reg_rate_limit s).
Definition set_mr_reg_count (v : Z) (s : Session) : Session :=
  mkSession (session_state s) (session_id s) (pd s) (max_msg_size s) (next_seq s)
    (memory_store s) (pending_op s) (recv_queue_depth s) (expected_remote_seq s)
    (sends_since_last_credit s) (icc s) (outstanding_reads s) (max_outstanding_reads s) v
    (mr_reg_window_start s) (mr_reg_rate_limit s).
Definition set_mr_reg_window_start (v : Z) (s : Session) : Session :=
  mkSession (session_state s) (session_id s) (pd s) (max_msg_size s) (next_seq s)
    (memory_store s) (pending_op s) (recv_queue_depth s) (expected_remote_seq s)
    (sends_since_last_credit s) (icc s) (outstanding_reads s) (max_outstanding_reads s)
    (mr_reg_count s) v (mr_reg_rate_limit s).

Record World := mkWorld {
  session : Session;
  sink : list (list byte);
  rng_draws : nat;
  clock_reads : nat;
}.

Definition on_session (f : Session → Session) (w : World) : World :=
  mkWorld (f (session w)) (sink w) (rng_draws w) (clock_reads w).
Definition submit (data : list byte) (w : World) : World :=
  mkWorld (session w) (sink w ++ [data]) (rng_draws w) (clock_reads w).

Section primitives.
Context `{BytesCrate, Profile, OsRng, WsSinkEnv, Clock}.

(** The state of a session task before its first message. *)
Definition World_new (config : ServerConfig) : World :=
  mkWorld (Session_new config (instant_now 0)) [] 0 1.

Definition assign {E} (f : Session → Session) : M World E unit := modifyS (on_session f).
(** Reading a field of [session]. *)
Definition field_of {E A} (f : Session → A) : M World E A := w ← getS; mret (f (session w)).
(** [Instant::now()] *)
Definition clock_now {E} : M World E Z := λ w,
  Ok (instant_now (clock_reads w))
     (mkWorld (session w) (sink w) (rng_draws w) (S (clock_reads w))).

(** Calls on [session.memory_store]. *)
Definition on_memory_store {A} (m : M MemoryStore ErrorCode A) : M World ErrorCode A :=
  zoom (λ w, memory_store (session w)) (λ st, on_session (set_memory_store st)) m.
Definition on_memory_store_rng {A} (m : M (MemoryStore * nat) ErrorCode A)
    : M World ErrorCode A :=
  zoom (λ w, (memory_store (session w), rng_draws w))
    (λ '(st, n) w, mkWorld (set_memory_store st (session w)) (sink w) n (clock_reads w)) m.

Definition next_header {E} (opcode : Opcode) (wrid : Z) : M World E RdowsHeader :=
  seq ← field_of next_seq;
  _ ← assign (set_next_seq (wrapping_add 32 seq 1));
  sid ← field_of session_id;
  mret (RdowsHeader_new opcode sid seq wrid).

Definition send_message (msg : RdowsMessage) : M World RdowsError unit :=
  let data := RdowsMessage_encode msg in
  _ ← modifyS (submit data);
  w ← getS;
  match ws_send_error (sink w) with
  | Some e => throw (WebSocket e)
  | None => mret tt
  end.

Definition send_error (error_code : ErrorCode) (failing_seq : Z) (description : list byte)
    : M World RdowsError unit :=
  header ← next_header Opcode.Error 0;
  let payload := mkError error_code failing_seq description in
  let msg := RdowsMessage.Error header payload in
  send_message msg.
End primitives.

(** Symbolic execution of the primitives. *)
Section run.
Context `{BytesCrate, Profile, OsRng, WsSinkEnv, Clock} {E A : Type}.

Lemma field_of_bind {B} (f : Session → B) (k : B → M World E A) w :
  (field_of f ≫= k) w = k (f (session w)) w.
Proof using Type. done. Qed.
Lemma assign_bind f (k : unit → M World E A) w : (assign f ≫= k) w = k tt (on_session f w).
Proof using Type. done. Qed.
Lemma clock_now_bind (k : Z → M World E A) w :
  (clock_now ≫= k) w = k (instant_now (clock_reads w))
    (mkWorld (session w) (sink w) (rng_draws w) (S (clock_reads w))).
Proof using Type. done. Qed.
End run.
Ltac srun := repeat first [rewrite field_of_bind | rewrite assign_bind | rewrite clock_now_bind
  | rewrite bind_assoc | rewrite ret_bind].
