(* ===== verification/Handler.v ===== *)
(** * The server's request handlers ([rdows-server/src/handler.rs])

    One definition per handler, composed by [dispatch].  [throw] is the handler's
    [Err] (the session then ends); [attempt] is a [match] on the result of a call
    on the memory store. *)

From S2P Require Import Prelude Externals Utf8 Core Frame Payloads Message MemoryStore.
From S2P Require Import ServerState.

Section handlers.
Context `{BytesCrate, Profile, OsRng, WsSinkEnv, Clock}.

Definition handle_mr_reg (wrid : Z) (payload : MrRegPayload) : M World RdowsError unit :=
  now ← clock_now;
  start ← field_of mr_reg_window_start;
  _ ← (if from_secs 1 <=? duration_since now start then
         _ ← assign (set_mr_reg_count 0); assign (set_mr_reg_window_start now)
       else mret tt);
  count ← field_of mr_reg_count;
  limit ← field_of mr_reg_rate_limit;
  if limit <=? count then
    header ← next_header Opcode.MrRegAck wrid;
    let ack := mkMrRegAck (mr_pd payload) 0 0 (u16_from_ErrorCode ErrInternal) in
    send_message (RdowsMessage.MrRegAck header ack)
  else
  count' ← add_ovf 32 count 1;
  _ ← assign (set_mr_reg_count count');
  res ← attempt (on_memory_store_rng
          (register (mr_pd payload) (mr_access_flags payload) (mr_region_len payload)));
  match res with
  | inr (lkey, rkey) =>
      header ← next_header Opcode.MrRegAck wrid;
      let ack := mkMrRegAck (mr_pd payload) lkey rkey 0 in
      send_message (RdowsMessage.MrRegAck header ack)
  | inl code =>
      header ← next_header Opcode.MrRegAck wrid;
      let ack := mkMrRegAck (mr_pd payload) 0 0 (u16_from_ErrorCode code) in
      send_message (RdowsMessage.MrRegAck header ack)
  end.

Definition handle_mr_dereg (wrid : Z) (payload : MrDeregPayload) : M World RdowsError unit :=
  res ← attempt (on_memory_store (deregister (md_pd payload) (md_lkey payload)));
  let status := match res with inr _ => 0 | inl code => u16_from_ErrorCode code end in
  header ← next_header Opcode.MrDeregAck wrid;
  let ack := mkMrDeregAck status in
  send_message (RdowsMessage.MrDeregAck header ack).

Definition handle_send (header : RdowsHeader) (_payload : SendPayload)
    : M World RdowsError unit :=
  depth ← field_of recv_queue_depth;
  if depth =? 0 then
    _ ← send_error ErrRnr (h_sequence header) (lit "receiver not ready");
    assign (set_pending_op DiscardingSendData)
  else
  depth' ← sub_ovf 32 depth 1;
  _ ← assign (set_recv_queue_depth depth');
  assign (set_pending_op (AwaitingSendData (h_wrid header))).

(** [std::mem::replace(&mut session.pending_op, PendingOp::None)] *)
Definition take_pending : M World RdowsError PendingOp :=
  p ← field_of pending_op; _ ← assign (set_pending_op NoPending); mret p.

Definition handle_send_data (_header : RdowsHeader) (payload : DataPayload)
    : M World RdowsError unit :=
  pending ← take_pending;
  match pending with
  | DiscardingSendData => mret tt
  | AwaitingSendData wrid =>
      header ← next_header Opcode.RecvComp wrid;
      _ ← send_message (RdowsMessage.RecvComp header);
      n ← field_of sends_since_last_credit;
      n' ← add_ovf 32 n 1;
      _ ← assign (set_sends_since_last_credit n');
      icc ← field_of icc;
      if icc / 4 <=? n' then
        credit_header ← next_header Opcode.CreditUpdate 0;
        let credit_payload := mkCredit n' in
        _ ← send_message (RdowsMessage.CreditUpdate credit_header credit_payload);
        assign (set_sends_since_last_credit 0)
      else mret tt
  | _ =>
      send_error ErrUnknownOpcode 0 (lit "unexpected SEND_DATA without preceding SEND")
  end.

Definition handle_write (header : RdowsHeader) (payload : WritePayload)
    : M World RdowsError unit :=
  res ← attempt (on_memory_store (validate_rkey (wp_rkey payload) REMOTE_WRITE));
  match res with
  | inl code => send_error code (h_sequence header) []
  | inr _ =>
      assign (set_pending_op (AwaitingWriteData (h_wrid header) (wp_rkey payload)
                                (wp_remote_va payload) (wp_length payload)))
  end.

Definition handle_write_data (_header : RdowsHeader) (payload : DataPayload)
    : M World RdowsError unit :=
  pending ← take_pending;
  match pending with
  | AwaitingWriteData wrid rkey remote_va _ =>
      res ← attempt (on_memory_store (write_region rkey remote_va (dp_data payload)));
      match res with
      | inl code => send_error code 0 []
      | inr _ =>
          header ← next_header Opcode.WriteComp wrid;
          send_message (RdowsMessage.WriteComp header)
      end
  | _ =>
      send_error ErrUnknownOpcode 0 (lit "unexpected WRITE_DATA without preceding WRITE")
  end.

Definition handle_read_req (header : RdowsHeader) (payload : ReadReqPayload)
    : M World RdowsError unit :=
  outstanding ← field_of outstanding_reads;
  max ← field_of max_outstanding_reads;
  if max <=? outstanding then
    send_error ErrRnr (h_sequence header) (lit "too many outstanding reads")
  else
  outstanding' ← add_ovf 32 outstanding 1;
  _ ← assign (set_outstanding_reads outstanding');
  res ← attempt (on_memory_store
          (read_region (rq_rkey payload) (rq_remote_va payload) (rq_read_len payload)));
  match res with
  | inl code =>
      out ← sub_ovf 32 outstanding' 1;
      _ ← assign (set_outstanding_reads out);
      send_error code (h_sequence header) []
  | inr data =>
      resp_header ← next_header Opcode.ReadResp (h_wrid header);
      let resp_payload := mkReadResp 0 data in
      result ← attempt (send_message (RdowsMessage.ReadResp resp_header resp_payload));
      out ← sub_ovf 32 outstanding' 1;
      _ ← assign (set_outstanding_reads out);
      match result with inl e => throw e | inr _ => mret tt end
  end.

Definition handle_atomic_req (header : RdowsHeader) (payload : AtomicReqPayload)
    : M World RdowsError unit :=
  if negb (aq_atomic_type payload =? ATOMIC_TYPE_CAS)
     && negb (aq_atomic_type payload =? ATOMIC_TYPE_FAA) then
    send_error ErrUnknownOpcode (h_sequence header) (lit "invalid atomic type")
  else
  res ← attempt (on_memory_store
          (atomic_op (aq_rkey payload) (aq_remote_va payload) (aq_atomic_type payload)
             (aq_operand1 payload) (aq_operand2 payload)));
  match res with
  | inr original =>
      resp_header ← next_header Opcode.AtomicResp (h_wrid header);
      let resp_payload := mkAtomicResp original 0 in
      send_message (RdowsMessage.AtomicResp resp_header resp_payload)
  | inl code => send_error code (h_sequence header) []
  end.

Definition dispatch (msg : RdowsMessage) : M World RdowsError unit :=
  let seq := h_sequence (RdowsMessage_header msg) in
  match msg with
  | RdowsMessage.MrReg header payload => handle_mr_reg (h_wrid header) payload
  | RdowsMessage.MrDereg header payload => handle_mr_dereg (h_wrid header) payload
  | RdowsMessage.Send header payload => handle_send header payload
  | RdowsMessage.SendData header payload => handle_send_data header payload
  | RdowsMessage.Write header payload => handle_write header payload
  | RdowsMessage.WriteData header payload => handle_write_data header payload
  | RdowsMessage.ReadReq header payload => handle_read_req header payload
  | RdowsMessage.AtomicReq header payload => handle_atomic_req header payload
  | RdowsMessage.Ack _ => mret tt
  | _ => send_error ErrUnknownOpcode seq (lit "unsupported opcode")
  end.
End handlers.
