(* ===== verification/Session.v ===== *)
(** * The session loop ([rdows-server/src/session.rs])

    [handle_message] is the state machine of a session; [run_session] feeds it
    the messages of the WebSocket stream until the stream ends, the peer closes,
    an error ends the session, or a DISCONNECT arrives. *)

From S2P Require Import Prelude Externals Utf8 Core Frame Payloads Message MemoryStore.
From S2P Require Import ServerState Handler.

Section session.
Context `{BytesCrate, Profile, OsRng, WsSinkEnv, Clock}.

Definition handle_ready (msg : RdowsMessage) : M World RdowsError unit :=
  match msg with
  | RdowsMessage.Disconnect _ => assign (set_session_state Closed)
  | RdowsMessage.CreditUpdate _ _ => mret tt
  | _ => dispatch msg
  end.

Definition handle_connect (msg : RdowsMessage) : M World RdowsError unit :=
  match msg with
  | RdowsMessage.Connect header payload =>
      if negb (h_version header =? RDOWS_VERSION) then
        _ ← send_error ErrProtoVersion (h_sequence header) (lit "unsupported protocol version");
        assign (set_session_state Closed)
      else
      _ ← assign (set_session_id (h_session_id header));
      _ ← assign (set_pd (cp_pd payload));
      _ ← assign (set_max_msg_size (Z.min (cp_max_msg_size payload) DEFAULT_MAX_MSG_SIZE));
      ack_header ← next_header Opcode.ConnectAck 0;
      pd ← field_of pd;
      max_msg_size ← field_of max_msg_size;
      let ack_payload := mkConnect pd 0 max_msg_size DEFAULT_ICC in
      let ack := RdowsMessage.ConnectAck ack_header ack_payload in
      _ ← send_message ack;
      _ ← assign (set_expected_remote_seq (Some (wrapping_add 32 (h_sequence header) 1)));
      assign (set_session_state Ready)
  | other =>
      throw (UnexpectedMessage (lit "CONNECT") (h_opcode (RdowsMessage_header other)))
  end.

(** [format!("expected seq {expected}, got {actual}")] *)
Definition seq_gap_description (expected actual : Z) : list byte :=
  lit "expected seq " ++ dec_display expected ++ lit ", got " ++ dec_display actual.

Definition handle_message (msg : RdowsMessage) : M World RdowsError unit :=
  st ← field_of session_state;
  max ← field_of max_msg_size;
  if bool_decide (st = Ready) && (max <? h_payload_length (RdowsMessage_header msg)) then
    send_error ErrPayloadSize (h_sequence (RdowsMessage_header msg))
      (lit "payload exceeds negotiated maximum message size")
  else
  match st with
  | AwaitingConnect => handle_connect msg
  | Ready =>
      e ← field_of expected_remote_seq;
      let actual := h_sequence (RdowsMessage_header msg) in
      let continue :=
        _ ← assign (set_expected_remote_seq (Some (wrapping_add 32 actual 1)));
        handle_ready msg in
      match e with
      | Some expected =>
          if negb (actual =? expected) then
            send_error ErrSeqGap actual (seq_gap_description expected actual)
          else continue
      | None => continue
      end
  | Closed => mret tt
  end.

(** The body of the loop on one item: [true] is [break]. *)
Definition session_item (item : WsItem) : M World RdowsError bool :=
  match item with
  | WsError _ => mret true
  | WsBinary data =>
      match RdowsMessage_decode data with
      | Panic => panic
      | Err _ _ => mret true
      | Ok rdows_msg _ =>
          res ← attempt (handle_message rdows_msg);
          match res with
          | inl _ => mret true
          | inr _ => st ← field_of session_state; mret (bool_decide (st = Closed))
          end
      end
  | WsClose => mret true
  | WsOther => mret false
  end.

(** [while let Some(msg_result) = stream.next().await]; the list is what the
    stream yields before it ends. *)
Fixpoint session_loop (stream : list WsItem) : M World RdowsError unit :=
  match stream with
  | [] => mret tt
  | item :: rest => stop ← session_item item; if stop : bool then mret tt else session_loop rest
  end.

Definition run_session (config : ServerConfig) (stream : list WsItem)
    : outcome World RdowsError unit :=
  session_loop stream (World_new config).
End session.
