(* ===== verification/SessionFacts.v ===== *)
(** * What handling one message does to a session

    [emit] is one message sent; every handler is a sequence of session updates,
    at most one call on the store, and at most two emissions.  [handled] collects
    what all of them guarantee: the outgoing messages are well formed and
    numbered consecutively, the store moves by one operation of [StoreSpec], and
    the credit and receive-queue accounts balance. *)

From S2P Require Import Prelude Externals Utf8 Core Frame Payloads Message MemoryStore.
From S2P Require Import StoreSpec ServerState Handler Session.

Abbreviation store w := (memory_store (session w)).

(** ** The session invariant *)
Definition pending_typed (p : PendingOp) : Prop :=
  match p with
  | AwaitingSendData wrid => u64 wrid
  | AwaitingWriteData wrid r va len => u64 wrid ∧ u32 r ∧ u64 va ∧ u64 len
  | NoPending | DiscardingSendData => True
  end.

Record session_ok (s : Session) : Prop := {
  so_store : store_ok (memory_store s);
  so_seq : u32 (next_seq s);
  so_sid : u32 (session_id s);
  so_pd : u32 (pd s);
  so_max : 0 ≤ max_msg_size s ≤ DEFAULT_MAX_MSG_SIZE;
  so_recv : u32 (recv_queue_depth s);
  so_exp : from_option u32 (session_state s ≠ Ready) (expected_remote_seq s);
  so_icc : icc s = DEFAULT_ICC;
  so_credit : 0 ≤ sends_since_last_credit s < icc s / 4;
  so_reads : outstanding_reads s = 0;
  so_max_reads : u32 (max_outstanding_reads s);
  so_limit : u32 (mr_reg_rate_limit s);
  so_count : 0 ≤ mr_reg_count s ≤ mr_reg_rate_limit s;
  so_pending : pending_typed (pending_op s);
}.

(** ** Emissions *)
Definition next_hdr (op : Opcode) (wrid : Z) (w : World) : RdowsHeader :=
  RdowsHeader_new op (session_id (session w)) (next_seq (session w)) wrid.

(** Sums over the messages sent. *)
Definition total (f : RdowsMessage → Z) (msgs : list RdowsMessage) : Z :=
  foldr (λ m n, f m + n) 0 msgs.
Definition credit_of (m : RdowsMessage) : Z :=
  match m with RdowsMessage.CreditUpdate _ p => cu_credit_increment p | _ => 0 end.
Definition completion_of (m : RdowsMessage) : Z :=
  match m with RdowsMessage.RecvComp _ => 1 | _ => 0 end.
(** A SEND accepted whose data has not arrived. *)
Definition awaiting_send (p : PendingOp) : Z :=
  match p with AwaitingSendData _ => 1 | _ => 0 end.

Lemma total_app f l k : total f (l ++ k) = total f l + total f k.
Proof. unfold total. induction l as [|m l IH]; cbn; lia. Qed.

(** The counters fit their fields, and a CREDIT_UPDATE returns at least a quarter
    of the initial credits. *)
Definition sized (m : RdowsMessage) : Prop :=
  fits_counts m ∧
  match m with
  | RdowsMessage.CreditUpdate _ p => DEFAULT_ICC / 4 ≤ cu_credit_increment p
  | _ => True
  end.

(** Fields that only CONNECT sets, and the limits. *)
Definition same_peer (s s' : Session) : Prop :=
  session_id s' = session_id s ∧ pd s' = pd s ∧ max_msg_size s' = max_msg_size s.

Section emissions.
Context `{BytesCrate, Profile, OsRng, WsSinkEnv, Clock}.

Definition emit (m : RdowsMessage) (w : World) : World :=
  mkWorld (set_next_seq (wrapping_add 32 (next_seq (session w)) 1) (session w))
    (sink w ++ [RdowsMessage_encode m]) (rng_draws w) (clock_reads w).
(** The result of the [send] that produced [w]. *)
Definition finish (w : World) : outcome World RdowsError unit :=
  match ws_send_error (sink w) with Some e => Err (WebSocket e) w | None => Ok tt w end.

Lemma reply_eq op wrid (mk : RdowsHeader → RdowsMessage) w :
  (h ← next_header op wrid; send_message (mk h)) w = finish (emit (mk (next_hdr op wrid w)) w).
Proof using Type.
  unfold finish, emit, next_hdr, next_header, send_message, field_of, assign. mrun. cbn.
  by destruct (ws_send_error _).
Qed.
Lemma send_error_eq code seq d w :
  send_error code seq d w =
    finish (emit (RdowsMessage.Error (next_hdr Opcode.Error 0 w) (mkError code seq d)) w).
Proof using Type. apply (reply_eq _ _ (λ h, RdowsMessage.Error h (mkError code seq d))). Qed.

Lemma finish_bind {A} (m : M World RdowsError unit) (k : unit → M World RdowsError A) w w' :
  m w = finish w' →
  (m ≫= k) w = match ws_send_error (sink w') with
               | Some e => Err (WebSocket e) w' | None => k tt w' end.
Proof using Type. intros Hm. unfold mbind, M_bind. rewrite Hm. unfold finish. by destruct (ws_send_error _). Qed.

Lemma reply_bind {A} op wrid (mk : RdowsHeader → RdowsMessage) (k : M World RdowsError A) w :
  (h ← next_header op wrid; _ ← send_message (mk h); k) w =
    let w' := emit (mk (next_hdr op wrid w)) w in
    match ws_send_error (sink w') with Some e => Err (WebSocket e) w' | None => k w' end.
Proof using Type.
  rewrite <-(bind_assoc (next_header op wrid) (λ h, send_message (mk h)) (λ _, k)).
  apply (finish_bind (h ← next_header op wrid; send_message (mk h)) (λ _, k)), reply_eq.
Qed.

Lemma reply_attempt_bind {A} op wrid (mk : RdowsHeader → RdowsMessage)
    (k : RdowsError + unit → M World RdowsError A) w :
  (h ← next_header op wrid; res ← attempt (send_message (mk h)); k res) w =
    let w' := emit (mk (next_hdr op wrid w)) w in
    k (match ws_send_error (sink w') with Some e => inl (WebSocket e) | None => inr tt end) w'.
Proof using Type.
  unfold emit, next_hdr, next_header, send_message, field_of, assign, attempt. mrun. cbn.
  by destruct (ws_send_error _).
Qed.

(** The messages [msgs] were sent between [w] and [w'], with consecutive
    sequence numbers and the session's identifier. *)
Record emits (w w' : World) (msgs : list RdowsMessage) : Prop := {
  em_sink : sink w' = sink w ++ (RdowsMessage_encode <$> msgs);
  em_seq : next_seq (session w') = wrap 32 (next_seq (session w) + zlen msgs);
  em_wf i m : msgs !! i = Some m →
    RdowsMessage_wf m ∧ sized m ∧
    h_sequence (RdowsMessage_header m) = wrap 32 (next_seq (session w) + Z.of_nat i) ∧
    h_session_id (RdowsMessage_header m) = session_id (session w');
}.

Lemma emits_nil w w' :
  sink w' = sink w → next_seq (session w') = next_seq (session w) → u32 (next_seq (session w)) →
  emits w w' [].
Proof using Type.
  intros Hs Hn Hu. split.
  - by rewrite Hs, app_nil_r.
  - unfold zlen. cbn. by rewrite Hn, Z.add_0_r, wrap_id.
  - intros i m. by rewrite lookup_nil.
Qed.
Lemma emits_trans w1 w2 w3 l k :
  emits w1 w2 l → emits w2 w3 k → session_id (session w3) = session_id (session w2) →
  emits w1 w3 (l ++ k).
Proof using Type.
  intros [Hs1 Hq1 Hw1] [Hs2 Hq2 Hw2] Hid. split.
  - by rewrite Hs2, Hs1, fmap_app, app_assoc.
  - rewrite Hq2, Hq1, zlen_app. unfold wrap. rewrite Z.add_mod_idemp_l by done. f_equal. lia.
  - intros i m [Hm|[Hge Hm]]%lookup_app_Some.
    + rewrite Hid. by apply Hw1.
    + destruct (Hw2 _ _ Hm) as (? & ? & -> & ?). split_and!; try done.
      rewrite Hq1. unfold wrap, zlen. rewrite Z.add_mod_idemp_l by done. f_equal. lia.
Qed.
Lemma emits_one m w :
  RdowsMessage_wf m → sized m → u32 (next_seq (session w)) →
  h_sequence (RdowsMessage_header m) = next_seq (session w) →
  h_session_id (RdowsMessage_header m) = session_id (session w) →
  emits w (emit m w) [m].
Proof using Type.
  intros Hwf Hf Hu Hs Hid. split; [done|done|].
  intros [|i] m'; [|done]. intros [= <-]. rewrite Z.add_0_r, (wrap_id 32) by done. done.
Qed.
End emissions.

(** ** One message *)
Section handled.
Context `{BytesCrate, Profile, !OsRng, !OsRngLaws, WsSinkEnv, Clock}.

(** The store moved by the operations of [tr]. *)
Record store_moves (s : MemoryStore) (n : nat) (tr : list (StoreOp * (ErrorCode + Reply)))
    (s' : MemoryStore) (n' : nat) : Prop := {
  sm_run : run_ops (s, n) tr (s', n');
  sm_typed : Forall op_typed tr.*1;
  sm_ok : store_ok s';
  sm_lkey : next_lkey s' ≤ next_lkey s + reg_ops tr;
}.

Lemma store_moves_nil s n : store_ok s → store_moves s n [] s n.
Proof using Type. intros Hok. split; [constructor|constructor|done|cbn; lia]. Qed.
Lemma run_ops_app s1 tr1 s2 tr2 s3 :
  run_ops s1 tr1 s2 → run_ops s2 tr2 s3 → run_ops s1 (tr1 ++ tr2) s3.
Proof using Type. induction 1; [done|econstructor; eauto..]. Qed.
Lemma store_moves_trans s1 n1 tr1 s2 n2 tr2 s3 n3 :
  store_moves s1 n1 tr1 s2 n2 → store_moves s2 n2 tr2 s3 n3 →
  store_moves s1 n1 (tr1 ++ tr2) s3 n3.
Proof using Type.
  intros [R1 T1 O1 L1] [R2 T2 O2 L2]. split; [by eapply run_ops_app| |done|].
  - rewrite fmap_app. by apply Forall_app.
  - rewrite reg_ops_app. lia.
Qed.

(** A call on the store is one operation of [StoreSpec]. *)
Lemma store_call {A} (m : M (MemoryStore * nat) ErrorCode A) op (rep : A → Reply) s n :
  (∀ st, run_op op st = (a ← m; mret (rep a)) st) →
  store_ok s → op_typed op → next_lkey s + 1 < 2 ^ 32 →
  match m (s, n) with
  | Ok a (s', n') => store_moves s n [(op, inr (rep a))] s' n'
  | Err e (s', n') => store_moves s n [(op, inl e)] s' n'
  | Panic => register_panics op s n
  end.
Proof using Type*.
  intros Hop Hok Ht Hl. pose proof (reg_op_range op).
  pose proof (op_result_any op s n Hok Ht ltac:(lia)) as Hr. unfold op_result in Hr. specialize (Hop (s, n)).
  destruct (m (s, n)) as [a [s' n']|e [s' n']|] eqn:Hm.
  - rewrite (bind_Ok _ _ _ _ _ Hm) in Hop. rewrite Hop in Hr. destruct Hr as (? & _ & ?).
    split; [eapply run_ok; [done|constructor]|by repeat constructor|done|cbn; lia].
  - rewrite (bind_Err _ _ _ _ _ Hm) in Hop. rewrite Hop in Hr. destruct Hr as (? & _ & ?).
    split; [eapply run_err; [done|constructor]|by repeat constructor|done|cbn; lia].
  - rewrite (bind_Panic _ _ _ Hm) in Hop. by rewrite Hop in Hr.
Qed.

(** The reply that tells the result of an operation. *)
Definition reply_of (op : StoreOp) (res : ErrorCode + Reply) (m : RdowsMessage) : Prop :=
  match op, res, m with
  | OpRegister pd _ _, inr (RKeys l r), RdowsMessage.MrRegAck _ p => p = mkMrRegAck pd l r 0
  | OpRegister pd _ _, inl code, RdowsMessage.MrRegAck _ p => p = mkMrRegAck pd 0 0 (u16_from_ErrorCode code)
  | OpDeregister _ _, inr RDone, RdowsMessage.MrDeregAck _ p => p = mkMrDeregAck 0
  | OpDeregister _ _, inl code, RdowsMessage.MrDeregAck _ p => p = mkMrDeregAck (u16_from_ErrorCode code)
  | OpWrite _ _ _, inr RDone, RdowsMessage.WriteComp _ => True
  | OpRead _ _ _, inr (RBytes d), RdowsMessage.ReadResp _ p => p = mkReadResp 0 d
  | OpAtomic _ _ _ _ _, inr (RWord v), RdowsMessage.AtomicResp _ p => p = mkAtomicResp v 0
  | (OpWrite _ _ _ | OpRead _ _ _ | OpAtomic _ _ _ _ _), inl code, RdowsMessage.Error _ p =>
      ep_error_code p = code
  | _, _, _ => False
  end.
(** A message that tells no result: no keys, bytes or words, no success. *)
Definition bare (m : RdowsMessage) : Prop :=
  match m with
  | RdowsMessage.MrRegAck _ p => ra_status p ≠ 0
  | RdowsMessage.MrDeregAck _ _ | RdowsMessage.WriteComp _ | RdowsMessage.ReadResp _ _
  | RdowsMessage.AtomicResp _ _ => False
  | _ => True
  end.

(** The operation that a request asks for, given what the session waits for. *)
Definition asks (p : PendingOp) (m : RdowsMessage) (op : StoreOp) : Prop :=
  match m with
  | RdowsMessage.MrReg _ p => op = OpRegister (mr_pd p) (mr_access_flags p) (mr_region_len p)
  | RdowsMessage.MrDereg _ p => op = OpDeregister (md_pd p) (md_lkey p)
  | RdowsMessage.WriteData _ d =>
      match p with AwaitingWriteData _ r va _ => op = OpWrite r va (dp_data d) | _ => False end
  | RdowsMessage.ReadReq _ p => op = OpRead (rq_rkey p) (rq_remote_va p) (rq_read_len p)
  | RdowsMessage.AtomicReq _ p =>
      op = OpAtomic (aq_rkey p) (aq_remote_va p) (aq_atomic_type p) (aq_operand1 p) (aq_operand2 p)
  | _ => False
  end.

(** Between [w] and [w'] the messages [msgs] went out and the store moved. *)
Record moves (w w' : World) (msgs : list RdowsMessage)
    (tr : list (StoreOp * (ErrorCode + Reply))) : Prop := {
  mv_emits : emits w w' msgs;
  mv_store : store_moves (store w) (rng_draws w) tr (store w') (rng_draws w');
  mv_peer : session_state (session w) ≠ AwaitingConnect →
    same_peer (session w) (session w') ∧ session_state (session w') ≠ AwaitingConnect;
}.
(** Completed SENDs are either credited back or still counted, and each one
    used up a posted receive. *)
Record balanced (w w' : World) (msgs : list RdowsMessage) : Prop := {
  bl_credit : sends_since_last_credit (session w') + total credit_of msgs =
    sends_since_last_credit (session w) + total completion_of msgs;
  bl_recv : total completion_of msgs + recv_queue_depth (session w') +
      awaiting_send (pending_op (session w')) ≤
    recv_queue_depth (session w) + awaiting_send (pending_op (session w));
}.

(** What remains true when the session ends with an error. *)
Record within (w w' : World) (msgs : list RdowsMessage) : Prop := {
  wi_credit : total credit_of msgs ≤
    sends_since_last_credit (session w) + total completion_of msgs;
  wi_recv : total completion_of msgs + awaiting_send (pending_op (session w')) ≤
    recv_queue_depth (session w) + awaiting_send (pending_op (session w));
}.

(** The operations that the message asks for. *)
Context (ask : StoreOp → Prop).

(** The answer to a message: one operation on the store that the message asks for,
    and the reply that tells its result; or no operation, and no reply that tells one. *)
Definition exchange (tr : list (StoreOp * (ErrorCode + Reply))) (msgs : list RdowsMessage) : Prop :=
  (tr = [] ∧ Forall bare msgs) ∨
  ∃ op res m, tr = [(op, res)] ∧ msgs = [m] ∧ ask op ∧ reply_of op res m.
Lemma exchange_bare msgs : Forall bare msgs → exchange [] msgs.
Proof using Type. by left. Qed.
Lemma exchange_op op res m : ask op → reply_of op res m → exchange [(op, res)] [m].
Proof using Type. intros. right. by exists op, res, m. Qed.

(** The outcome of handling a message: [crash] says when it may panic. *)
Definition handled (w : World) (crash : Prop) (out : outcome World RdowsError unit) : Prop :=
  match out with
  | Ok _ w' => ∃ msgs tr, moves w w' msgs tr ∧ exchange tr msgs ∧
      session_ok (session w') ∧ balanced w w' msgs
  | Err _ w' => ∃ msgs tr, moves w w' msgs tr ∧ exchange tr msgs ∧ within w w' msgs
  | Panic => crash
  end.

(** Session updates that send nothing. *)
Record quiet (w w1 : World) (tr : list (StoreOp * (ErrorCode + Reply))) : Prop := {
  qt_ok : session_ok (session w1);
  qt_sink : sink w1 = sink w;
  qt_seq : next_seq (session w1) = next_seq (session w);
  qt_peer : session_state (session w) ≠ AwaitingConnect →
    same_peer (session w) (session w1) ∧ session_state (session w1) ≠ AwaitingConnect;
  qt_sends : sends_since_last_credit (session w1) = sends_since_last_credit (session w);
  qt_recv : recv_queue_depth (session w1) + awaiting_send (pending_op (session w1)) ≤
    recv_queue_depth (session w) + awaiting_send (pending_op (session w));
  qt_store : store_moves (store w) (rng_draws w) tr (store w1) (rng_draws w1);
  qt_one : zlen tr ≤ 1;
}.

Definition reply_ok (w1 : World) (m : RdowsMessage) : Prop :=
  RdowsMessage_wf m ∧ sized m ∧
  h_sequence (RdowsMessage_header m) = next_seq (session w1) ∧
  h_session_id (RdowsMessage_header m) = session_id (session w1).

Lemma handled_quiet w w1 crash : quiet w w1 [] → handled w crash (Ok tt w1).
Proof using Type.
  intros [Ho Hs Hq Hp Hc Hr Hst Hone]. exists [], []. split_and!; [|by left|done|].
  - split; [|done|done]. apply emits_nil; [done|done|]. rewrite <-Hq. apply Ho.
  - split; cbn; lia.
Qed.

Lemma emit_ok m w : session_ok (session w) → session_ok (session (emit m w)).
Proof using Type.
  intros []. split; cbn; try done. by apply wrapping_add_range.
Qed.

Lemma moves_emit w w1 tr m : quiet w w1 tr → reply_ok w1 m → moves w (emit m w1) [m] tr.
Proof using Type.
  intros [Ho Hs Hq Hp Hc Hr Hst _] (Hw & Hf & Hsq & Hid). split; [|done|].
  - change [m] with ([] ++ [m]). eapply (emits_trans w w1); [|apply emits_one; [done|done|apply Ho|done|done]|done].
    apply emits_nil; [done|done|]. rewrite <-Hq. apply Ho.
  - intros Hst'. destruct (Hp Hst') as [(? & ? & ?) ?]. done.
Qed.

Lemma handled_reply w w1 tr m crash :
  quiet w w1 tr → exchange tr [m] → reply_ok w1 m → credit_of m = 0 → completion_of m = 0 →
  handled w crash (finish (emit m w1)).
Proof using Type.
  intros Hq Hx Hr Hc Hk. pose proof (moves_emit _ _ _ _ Hq Hr) as Hm.
  unfold finish. destruct (ws_send_error _); cbn [handled]; exists [m], tr.
  { split_and!; [done|done|]. destruct Hq as [Ho]. pose proof (so_credit _ Ho).
    pose proof (so_recv _ Ho) as [? _]. split; cbn; lia. }
  split_and!; [done|done|apply emit_ok, Hq|].
  destruct Hq. split; cbn; lia.
Qed.

(** *** Replies *)
Lemma next_hdr_typed op wrid w1 :
  session_ok (session w1) → u64 wrid → RdowsHeader_typed (next_hdr op wrid w1).
Proof using Type. intros Ho Hw. by split_and!; try apply Ho. Qed.

Lemma reply_ok_of w1 m op wrid :
  session_ok (session w1) → u64 wrid → RdowsMessage_header m = next_hdr op wrid w1 →
  opcode_of m = op → payload_typed m → sized m → reply_ok w1 m.
Proof using Type.
  intros Ho Hw Hh Hop Ht Hf. unfold reply_ok, RdowsMessage_wf. rewrite Hh, Hop.
  split_and!; try done; by apply next_hdr_typed.
Qed.

Lemma handled_error w w1 tr code seq d crash :
  quiet w w1 tr → (∀ h, exchange tr [RdowsMessage.Error h (mkError code seq d)]) →
  u32 seq → valid_utf8 d → u16 (zlen d) → handled w crash (send_error code seq d w1).
Proof using Type.
  intros Hq Hx Hs Hu Hd. rewrite send_error_eq. apply (handled_reply _ _ tr); try done.
  by apply (reply_ok_of _ _ Opcode.Error 0); [apply Hq|..].
Qed.
Lemma handled_send_error w w1 code seq d crash :
  quiet w w1 [] → u32 seq → valid_utf8 d → u16 (zlen d) →
  handled w crash (send_error code seq d w1).
Proof using Type. intros Hq. apply (handled_error _ _ [] _ _ _ _ Hq). intros h. left. by repeat constructor. Qed.

Lemma handled_reply_with w w1 tr op wrid (mk : RdowsHeader → RdowsMessage) crash :
  quiet w w1 tr → u64 wrid → RdowsMessage_header (mk (next_hdr op wrid w1)) = next_hdr op wrid w1 →
  opcode_of (mk (next_hdr op wrid w1)) = op → payload_typed (mk (next_hdr op wrid w1)) →
  sized (mk (next_hdr op wrid w1)) → credit_of (mk (next_hdr op wrid w1)) = 0 →
  completion_of (mk (next_hdr op wrid w1)) = 0 → exchange tr [mk (next_hdr op wrid w1)] →
  handled w crash ((h ← next_header op wrid; send_message (mk h)) w1).
Proof using Type.
  intros Hq Hw Hh Hop Ht Hf Hc Hk Hx. rewrite reply_eq. apply (handled_reply _ _ tr); try done.
  apply (reply_ok_of _ _ op wrid); try done. apply Hq.
Qed.

Lemma quiet_refl w : session_ok (session w) → quiet w w [].
Proof using Type.
  intros Ho. split; try done. apply store_moves_nil, Ho.
Qed.

(** The session after a call on the store. *)
Definition with_store (st : MemoryStore) (n : nat) (w : World) : World :=
  mkWorld (set_memory_store st (session w)) (sink w) n (clock_reads w).

Lemma set_memory_store_ok st s :
  session_ok s → store_ok st → session_ok (set_memory_store st s).
Proof using Type. intros [] Hst. by split. Qed.

Lemma quiet_store w w1 tr st n :
  quiet w w1 [] → store_moves (store w1) (rng_draws w1) tr st n → zlen tr ≤ 1 →
  quiet w (with_store st n w1) tr.
Proof using Type.
  intros [] Hst Hone. split; cbn; try done.
  - apply set_memory_store_ok; [done|apply Hst].
  - change tr with ([] ++ tr). by eapply store_moves_trans.
Qed.

(** [match session.memory_store.call(..)]: one operation, then the reply. *)
Lemma handled_store_call {A} (m : M (MemoryStore * nat) ErrorCode A) op (rep : A → Reply)
    (call : M World ErrorCode A) (k : ErrorCode + A → M World RdowsError unit) w w1 crash :
  (∀ st, run_op op st = (a ← m; mret (rep a)) st) →
  call w1 = match m (store w1, rng_draws w1) with
            | Ok a (s', n') => Ok a (with_store s' n' w1)
            | Err e (s', n') => Err e (with_store s' n' w1)
            | Panic => Panic
            end →
  quiet w w1 [] → op_typed op → next_lkey (store w1) + 1 < 2 ^ 32 →
  (register_panics op (store w1) (rng_draws w1) → crash) →
  (∀ a w2, quiet w w2 [(op, inr (rep a))] →
     m (store w1, rng_draws w1) = Ok a (store w2, rng_draws w2) →
     handled w crash (k (inr a) w2)) →
  (∀ e w2, quiet w w2 [(op, inl e)] → handled w crash (k (inl e) w2)) →
  handled w crash ((res ← attempt call; k res) w1).
Proof using Type*.
  intros Hop Hcall Hq Ht Hl Hcrash Hok Herr.
  pose proof (store_call m op rep (store w1) (rng_draws w1) Hop (so_store _ (qt_ok _ _ _ Hq)) Ht Hl)
    as Hm.
  rewrite attempt_bind, Hcall.
  destruct (m (store w1, rng_draws w1)) as [a [s' n']|e [s' n']|] eqn:He.
  - by apply (Hok a (with_store s' n' w1)); [apply quiet_store|].
  - by apply (Herr e (with_store s' n' w1)), quiet_store.
  - by apply Hcrash.
Qed.

Lemma on_memory_store_eq {A} (m : M MemoryStore ErrorCode A) w :
  on_memory_store m w =
    match on_store m (store w, rng_draws w) with
    | Ok a (s', n') => Ok a (with_store s' n' w)
    | Err e (s', n') => Err e (with_store s' n' w)
    | Panic => Panic
    end.
Proof using Type. unfold on_memory_store, on_store, zoom. cbn [fst]. by destruct (m (store w)). Qed.
Lemma on_memory_store_rng_eq {A} (m : M (MemoryStore * nat) ErrorCode A) w :
  on_memory_store_rng m w =
    match m (store w, rng_draws w) with
    | Ok a (s', n') => Ok a (with_store s' n' w)
    | Err e (s', n') => Err e (with_store s' n' w)
    | Panic => Panic
    end.
Proof using Type.
  unfold on_memory_store_rng, zoom. by destruct (m (store w, rng_draws w)) as [? []|? []|].
Qed.

Lemma on_session_store_id w : on_session (set_memory_store (store w)) w = w.
Proof using Type. by destruct w as [[]]. Qed.

(** The read counter is back at zero whatever happened in between. *)
Lemma outstanding_restored w n :
  outstanding_reads (session w) = 0 →
  on_session (set_outstanding_reads 0) (on_session (set_outstanding_reads n) w) = w.
Proof using Type. destruct w as [[]]. cbn. by intros ->. Qed.
Lemma outstanding_restored_emit w n op wrid (mk : RdowsHeader → RdowsMessage) :
  outstanding_reads (session w) = 0 →
  let w1 := on_session (set_outstanding_reads n) w in
  on_session (set_outstanding_reads 0) (emit (mk (next_hdr op wrid w1)) w1) =
    emit (mk (next_hdr op wrid w)) w.
Proof using Type. destruct w as [[]]. cbn. by intros ->. Qed.

(** *** The handlers *)
Context (w : World) (Ho : session_ok (session w)) (Hl : next_lkey (store w) + 1 < 2 ^ 32).

Lemma handle_mr_dereg_handled wrid p crash :
  u64 wrid → MrDeregPayload_typed p → ask (OpDeregister (md_pd p) (md_lkey p)) →
  handled w crash (handle_mr_dereg wrid p w).
Proof using Type*.
  intros Hw Ht Hask. unfold handle_mr_dereg.
  eapply (handled_store_call _ (OpDeregister (md_pd p) (md_lkey p)) (λ _, RDone));
    [reflexivity|apply on_memory_store_eq|by apply quiet_refl|apply Ht|done|done|..].
  - intros a w2 Hq _. eapply handled_reply_with; try done. by apply exchange_op.
  - intros e w2 Hq. eapply handled_reply_with; try done; [apply u16_from_ErrorCode_range|by apply exchange_op].
Qed.

Lemma handle_atomic_req_handled h p crash :
  RdowsHeader_typed h → AtomicReqPayload_typed p →
  ask (OpAtomic (aq_rkey p) (aq_remote_va p) (aq_atomic_type p) (aq_operand1 p) (aq_operand2 p)) →
  handled w crash (handle_atomic_req h p w).
Proof using Type*.
  intros (_ & _ & _ & Hseq & Hw & _) Ht Hask. unfold handle_atomic_req.
  destruct (negb _ && _);
    [by eapply handled_send_error; [apply quiet_refl|..]|].
  eapply (handled_store_call _ (OpAtomic (aq_rkey p) (aq_remote_va p) (aq_atomic_type p)
    (aq_operand1 p) (aq_operand2 p)) RWord);
    [reflexivity|apply on_memory_store_eq|by apply quiet_refl| |done|done|..].
  - destruct Ht as (? & ? & ? & ? & ?). done.
  - intros a w2 Hq Ha. eapply handled_reply_with; try done; [|by apply exchange_op]. split; [|done].
    unfold on_store, zoom in Ha. cbn [fst] in Ha.
    rewrite (atomic_op_eq _ _ _ _ _ _ (so_store _ Ho)) in Ha by apply Ht.
    repeat case_match; simplify_eq. unfold word_at. apply (be_value_take 8).
  - intros e w2 Hq. eapply handled_error; [done|intros h'; by apply exchange_op|done..].
Qed.

Lemma quiet_pending p :
  pending_typed p → awaiting_send p = 0 → quiet w (on_session (set_pending_op p) w) [].
Proof using Ho.
  intros Hp Ha. destruct Ho. split; cbn; try done.
  - rewrite Ha. destruct (pending_op (session w)); cbn; lia.
  - by apply store_moves_nil.
Qed.

Lemma handle_send_handled h p crash :
  RdowsHeader_typed h → handled w crash (handle_send h p w).
Proof using Ho.
  intros (_ & _ & _ & Hseq & Hw & _). unfold handle_send. srun.
  destruct (Z.eqb_spec (recv_queue_depth (session w)) 0) as [Hz|Hz].
  - pose proof (handled_send_error w w ErrRnr (h_sequence h) (lit "receiver not ready") crash
      (quiet_refl w Ho) Hseq ltac:(by vm_compute) ltac:(by vm_compute)) as He.
    unfold mbind, M_bind. destruct (send_error _ _ _ w) as [[] w'|e w'|]; [|exact He..].
    destruct He as (msgs & tr & [Hem Hst Hp] & Hone & Hok' & [Hc Hr]). exists msgs, tr.
    split_and!; [split; [|done|done]| |destruct Hok'; by split|split].
    + destruct Hem. by split.
    + done.
    + done.
    + cbn. destruct (pending_op (session w')); cbn in *; lia.
  - pose proof (so_recv _ Ho) as Hr. unfold uN in Hr. unfold sub_ovf. rewrite ovf_bind by (unfold uN; lia). srun.
    eapply handled_quiet. destruct Ho. split; cbn; try done.
    + split; cbn; try done. unfold uN. lia.
    + destruct (pending_op (session w)); cbn; lia.
    + by apply store_moves_nil.
Qed.

Lemma handle_write_handled h p crash :
  RdowsHeader_typed h → WritePayload_typed p → handled w crash (handle_write h p w).
Proof using Ho.
  intros (_ & _ & _ & Hseq & Hw & _) (Hr & Hva & Hlen & _). unfold handle_write.
  assert (∀ k : ErrorCode + MemoryRegionEntry → M World RdowsError unit,
    (∀ r, handled w crash (k r w)) →
    handled w crash ((res ← attempt (on_memory_store (validate_rkey (wp_rkey p) REMOTE_WRITE));
                      k res) w)) as Hv.
  { intros k Hk. rewrite attempt_bind. unfold on_memory_store, zoom.
    rewrite (validate_rkey_eq _ _ _ (so_store _ Ho)).
    repeat case_match; simplify_eq; rewrite on_session_store_id; apply Hk. }
  apply Hv. intros [e|a].
  - by eapply handled_send_error; [apply quiet_refl|..].
  - by eapply handled_quiet, quiet_pending.
Qed.

Lemma handle_write_data_handled h p crash :
  (∀ wrid r va len, pending_op (session w) = AwaitingWriteData wrid r va len → ask (OpWrite r va (dp_data p))) →
  handled w crash (handle_write_data h p w).
Proof using Type*.
  intros Hask. unfold handle_write_data, take_pending. srun.
  destruct (pending_op (session w)) as [|wrid|wrid r va len|] eqn:Hp; cbn;
    try (by eapply handled_send_error; [by apply quiet_pending|..]).
  specialize (Hask _ _ _ _ eq_refl).
  pose proof (so_pending _ Ho) as Hpt. rewrite Hp in Hpt. destruct Hpt as (? & ? & ? & ?).
  eapply (handled_store_call _ (OpWrite r va (dp_data p)) (λ _, RDone));
    [reflexivity|apply on_memory_store_eq|by apply quiet_pending|done|done|done|..].
  - intros a w2 Hq _. eapply handled_reply_with; try done. by apply exchange_op.
  - intros e w2 Hq. eapply handled_error; [done|intros h'; by apply exchange_op|done..].
Qed.

Lemma set_sends_ok n s :
  session_ok s → 0 ≤ n < 16383 → session_ok (set_sends_since_last_credit n s).
Proof using Type. intros [] Hn. split; try done. cbn. by rewrite so_icc0. Qed.
Lemma moves_set_sends w1 n msgs tr :
  moves w w1 msgs tr → moves w (on_session (set_sends_since_last_credit n) w1) msgs tr.
Proof using Type. intros [[] ? ?]. by split; [split|..]. Qed.
Lemma moves_emit_after w1 m msgs tr :
  moves w w1 msgs tr → u32 (next_seq (session w1)) → reply_ok w1 m →
  moves w (emit m w1) (msgs ++ [m]) tr.
Proof using Type.
  intros [He Hs Hp] Hu (? & ? & ? & ?). split; [|done|done].
  eapply emits_trans; [done|by apply emits_one|done].
Qed.

Lemma handle_send_data_handled h p crash : handled w crash (handle_send_data h p w).
Proof using Ho.
  unfold handle_send_data, take_pending. srun.
  destruct (pending_op (session w)) as [|wrid|wrid r va len|] eqn:Hp;
    try (by eapply handled_send_error; [by apply quiet_pending|..]).
  2:{ by eapply handled_quiet, quiet_pending. }
  assert (u64 wrid) as Hw by (pose proof (so_pending _ Ho) as Ht; by rewrite Hp in Ht).
  rewrite (reply_bind _ _ RdowsMessage.RecvComp). cbn zeta.
  set (w0 := on_session (set_pending_op NoPending) w).
  assert (quiet w w0 []) as Hq0 by (by apply quiet_pending).
  set (m1 := RdowsMessage.RecvComp (next_hdr Opcode.RecvComp wrid w0)).
  assert (moves w (emit m1 w0) [m1] []) as Hm1
    by (apply moves_emit; [done|by apply (reply_ok_of _ _ Opcode.RecvComp wrid); [apply Hq0|..]]).
  pose proof (emit_ok m1 w0 (qt_ok _ _ _ Hq0)) as Ho1.
  assert (0 ≤ sends_since_last_credit (session w)) as Hge0 by apply Ho.
  pose proof (so_recv _ Ho) as [Hrv _].
  destruct (ws_send_error _);
    [exists [m1], []; split_and!; [done|by left; repeat constructor|split; cbn; rewrite ?Hp; cbn; lia]|]. srun.
  change (sends_since_last_credit (session (emit m1 w0))) with (sends_since_last_credit (session w)).
  pose proof (so_credit _ Ho) as Hc. pose proof (so_icc _ Ho) as Hi. rewrite Hi in Hc.
  change (DEFAULT_ICC / 4) with 16383 in Hc. set (n := sends_since_last_credit (session w)) in *.
  unfold add_ovf. rewrite ovf_bind by (unfold uN; lia). srun.
  apply (moves_set_sends _ (n + 1)) in Hm1.
  set (w2 := on_session (set_sends_since_last_credit (n + 1)) (emit m1 w0)) in *.
  change (icc (session w2)) with (icc (session w)). rewrite Hi.
  change (DEFAULT_ICC / 4) with 16383.
  destruct (Z.leb_spec 16383 (n + 1)) as [Hge|Hlt].
  2:{ exists [m1], []. split_and!; [done|by left; repeat constructor|apply set_sends_ok; [done|lia]|].
      split; cbn; rewrite ?Hp; cbn; unfold n; lia. }
  rewrite (reply_bind _ _ (λ h, RdowsMessage.CreditUpdate h (mkCredit (n + 1)))). cbn zeta.
  set (m2 := RdowsMessage.CreditUpdate (next_hdr Opcode.CreditUpdate 0 w2) (mkCredit (n + 1))).
  assert (moves w (emit m2 w2) [m1; m2] []) as Hm2.
  { apply (moves_emit_after _ _ [m1]); [done|apply Ho1|]. split_and!; try done.
    split_and!; try done; [split_and!; try done; apply Ho1|]. unfold payload_typed. split; cbn; lia. }
  destruct (ws_send_error _);
    [exists [m1; m2], []; split_and!; [done|by left; repeat constructor|split; cbn; rewrite ?Hp; cbn; unfold n in *; lia]|].
  exists [m1; m2], []. split_and!; [by apply moves_set_sends|by left; repeat constructor| |].
  - pose proof (emit_ok m2 _ (set_sends_ok 0 _ Ho1 ltac:(lia) : session_ok (session
      (on_session (set_sends_since_last_credit 0) (emit m1 w0))))) as []. by split.
  - split; cbn; rewrite ?Hp; cbn; unfold n in *; lia.
Qed.

Lemma read_region_quiet r va len :
  u32 r → u64 va → u64 len →
  match read_region r va len (store w) with
  | Ok d s' => s' = store w ∧ quiet w w [(OpRead r va len, inr (RBytes d))]
  | Err e s' => s' = store w ∧ quiet w w [(OpRead r va len, inl e)]
  | Panic => False
  end.
Proof using Type*.
  intros Hr Hva Hlen. pose proof (store_call (on_store (read_region r va len)) (OpRead r va len)
    RBytes (store w) (rng_draws w) ltac:(done) (so_store _ Ho) ltac:(done) Hl) as Hc.
  assert (with_store (store w) (rng_draws w) w = w) as Hid by (by destruct w as [[]]).
  unfold on_store, zoom in Hc. cbn [fst] in Hc. unfold uN in *.
  rewrite (read_region_eq _ _ _ _ (so_store _ Ho)) in * by lia.
  repeat case_match; simplify_eq; (split; [done|]; rewrite <-Hid at 2;
    by apply quiet_store; [apply quiet_refl|apply Hc|]).
Qed.

Lemma handle_read_req_handled h p crash :
  RdowsHeader_typed h → ReadReqPayload_typed p → ask (OpRead (rq_rkey p) (rq_remote_va p) (rq_read_len p)) →
  handled w crash (handle_read_req h p w).
Proof using Type*.
  intros (_ & _ & _ & Hseq & Hw & _) (Hr & Hva & Hlen & _) Hask. unfold handle_read_req. srun.
  rewrite (so_reads _ Ho).
  destruct (_ <=? 0); [by eapply handled_send_error; [apply quiet_refl|..]|].
  unfold add_ovf, sub_ovf. rewrite ovf_bind by done. srun.
  set (w1 := on_session (set_outstanding_reads (0 + 1)) w).
  pose proof (read_region_quiet _ _ _ Hr Hva Hlen) as Hread.
  assert (on_session (set_memory_store (store w)) w1 = w1) as Hid
    by exact (on_session_store_id w1).
  rewrite attempt_bind. unfold on_memory_store, zoom. change (store w1) with (store w).
  destruct (read_region _ _ _ (store w)) as [d s'|e s'|]; [..|done];
    destruct Hread as [-> Hq]; cbn beta iota; rewrite Hid.
  - rewrite (reply_attempt_bind _ _ (λ h, RdowsMessage.ReadResp h (mkReadResp 0 d))). cbn zeta.
    rewrite ovf_bind by done. srun. change (0 + 1 - 1) with 0. unfold w1.
    rewrite (outstanding_restored_emit w (0 + 1) Opcode.ReadResp (h_wrid h)
      (λ h, RdowsMessage.ReadResp h (mkReadResp 0 d)) (so_reads _ Ho)). cbn beta.
    pose proof (handled_reply w w _
      (RdowsMessage.ReadResp (next_hdr Opcode.ReadResp (h_wrid h) w) (mkReadResp 0 d)) crash Hq
      ltac:(by apply exchange_op) ltac:(by apply (reply_ok_of _ _ Opcode.ReadResp (h_wrid h))) eq_refl eq_refl) as Hh.
    unfold finish in Hh. cbn [sink emit next_hdr session on_session] in *.
    by destruct (ws_send_error _).
  - rewrite ovf_bind by done. srun. change (0 + 1 - 1) with 0. unfold w1. rewrite outstanding_restored by apply Ho.
    eapply handled_error; [done|intros h'; by apply exchange_op|done..].
Qed.

(** Updates of the rate-limit window and clock readings. *)
Lemma quiet_window start count clk :
  0 ≤ count ≤ mr_reg_rate_limit (session w) →
  quiet w (mkWorld (set_mr_reg_count count (set_mr_reg_window_start start (session w)))
             (sink w) (rng_draws w) clk) [].
Proof using Ho.
  intros Hc. destruct Ho. split; try done; first [by split|by apply store_moves_nil].
Qed.

Lemma handle_mr_reg_handled wrid p :
  u64 wrid → MrRegPayload_typed p → ask (OpRegister (mr_pd p) (mr_access_flags p) (mr_region_len p)) →
  handled w (register_panics (OpRegister (mr_pd p) (mr_access_flags p) (mr_region_len p))
               (store w) (rng_draws w)) (handle_mr_reg wrid p w).
Proof using Type*.
  intros Hw (Hpd & Hfl & Hlen & _) Hask. unfold handle_mr_reg. srun.
  set (now := instant_now (clock_reads w)).
  set (start := mr_reg_window_start (session w)).
  set (count := if from_secs 1 <=? duration_since now start then 0 else mr_reg_count (session w)).
  set (start' := if from_secs 1 <=? duration_since now start then now else start).
  set (w1 c := mkWorld (set_mr_reg_count c (set_mr_reg_window_start start' (session w)))
             (sink w) (rng_draws w) (S (clock_reads w))).
  assert (0 ≤ count ≤ mr_reg_rate_limit (session w)) as Hcount.
  { unfold count. pose proof (so_count _ Ho). destruct (_ <=? _); lia. }
  match goal with |- handled _ ?c ((?m ≫= ?k) ?w0) =>
    assert ((m ≫= k) w0 = k tt (w1 count)) as -> end.
  { unfold w1, count, start'. fold start now.
    destruct (from_secs 1 <=? _); srun; [done|]. unfold start. by destruct w as [[]]. }
  assert (∀ c, 0 ≤ c ≤ mr_reg_rate_limit (session w) → quiet w (w1 c) []) as Hq
    by (intros; by apply quiet_window).
  srun. change (mr_reg_count (session (w1 count))) with count.
  change (mr_reg_rate_limit (session (w1 count))) with (mr_reg_rate_limit (session w)).
  destruct (Z.leb_spec (mr_reg_rate_limit (session w)) count).
  { eapply handled_reply_with; [by apply Hq|try done..]. left. split; [done|]. by repeat constructor. }
  pose proof (so_limit _ Ho) as Hlim. unfold uN in Hlim.
  unfold add_ovf. rewrite ovf_bind by (unfold uN; lia). srun.
  change (on_session _ (w1 count)) with (w1 (count + 1)).
  eapply (handled_store_call _ (OpRegister (mr_pd p) (mr_access_flags p) (mr_region_len p))
    (λ '(l, r), RKeys l r)); [|apply on_memory_store_rng_eq|apply Hq; lia|done|done|done|..].
  - intros st. cbn [run_op]. unfold mbind, M_bind. by destruct (register _ _ _ _) as [[]| |].
  - intros [l r] w2 Hq2 Hr. eapply handled_reply_with; try done; [|by apply exchange_op].
    pose proof (register_spec (store w) (rng_draws w) (mr_pd p) (mr_access_flags p)
      (mr_region_len p) (so_store _ Ho) Hlen Hl) as Hs.
    cbn [store w1 session memory_store rng_draws set_mr_reg_count set_mr_reg_window_start] in Hr.
    rewrite Hr in Hs. destruct Hs as (_ & _ & -> & Hrr & _).
    pose proof (ok_next _ (so_store _ Ho)). unfold payload_typed, MrRegAckPayload_typed, uN.
    cbn [ra_pd ra_lkey ra_rkey ra_status]. unfold uN in Hpd. lia.
  - intros e w2 Hq2. eapply handled_reply_with; try done; [|by apply exchange_op].
    unfold payload_typed, MrRegAckPayload_typed. cbn. split_and!; try done.
    apply u16_from_ErrorCode_range.
Qed.

(** When handling a message can panic: a registration whose total length
    overflows, or a failing random source. *)
Definition message_crashes (m : RdowsMessage) : Prop :=
  match m with
  | RdowsMessage.MrReg _ p =>
      register_panics (OpRegister (mr_pd p) (mr_access_flags p) (mr_region_len p))
        (store w) (rng_draws w)
  | _ => False
  end.

Lemma dispatch_handled m :
  RdowsMessage_wf m → (∀ op, asks (pending_op (session w)) m op → ask op) →
  handled w (message_crashes m) (dispatch m w).
Proof using Type*.
  intros (Hh & _ & _ & Ht) Hask.
  destruct m; cbn [dispatch RdowsMessage_header payload_typed message_crashes] in *;
    try (by eapply handled_send_error; [apply quiet_refl|apply Hh|..]);
    try (by eapply handled_quiet, quiet_refl).
  - apply handle_mr_reg_handled; [apply Hh|done|by apply Hask].
  - apply handle_mr_dereg_handled; [apply Hh|done|by apply Hask].
  - by apply handle_send_handled.
  - by apply handle_send_data_handled.
  - by apply handle_write_handled.
  - apply handle_write_data_handled. intros wrid r va len Hp. apply Hask. cbn. by rewrite Hp.
  - apply handle_read_req_handled; [done|done|by apply Hask].
  - apply handle_atomic_req_handled; [done|done|by apply Hask].
Qed.
End handled.

Section handle_message.
Context `{BytesCrate, Profile, !OsRng, !OsRngLaws, WsSinkEnv, Clock}.

Lemma handled_quiet_trans ask w w1 crash out :
  quiet w w1 [] → handled ask w1 crash out → handled ask w crash out.
Proof using Type.
  intros [Ho Hs Hq Hp Hc Hr Hst _] Hh.
  assert (∀ w' msgs tr, moves w1 w' msgs tr → moves w w' msgs tr) as Hmv.
  { intros w' msgs tr [[E1 E2 E3] M2 M3]. split; [|by eapply (store_moves_trans _ _ [])|].
    - split; [by rewrite E1, Hs|by rewrite E2, Hq|]. intros i m Hm. rewrite <-Hq. by apply E3.
    - intros Hns. destruct (Hp Hns) as [(P1 & P2 & P3) Hns1].
      destruct (M3 Hns1) as [(Q1 & Q2 & Q3) ?]. split; [|done]. split_and!; congruence. }
  destruct out as [[] w'|e w'|]; [| |done].
  - destruct Hh as (msgs & tr & Hm & Ht & Hok & [B1 B2]). exists msgs, tr.
    split_and!; [by apply Hmv|done|done|]. split; lia.
  - destruct Hh as (msgs & tr & Hm & Ht & [W1 W2]). exists msgs, tr.
    split_and!; [by apply Hmv|done|]. split; lia.
Qed.

Context (w : World) (Ho : session_ok (session w)) (Hl : next_lkey (store w) + 1 < 2 ^ 32).

Lemma quiet_state st :
  st ≠ AwaitingConnect → from_option u32 (st ≠ Ready) (expected_remote_seq (session w)) →
  quiet w (on_session (set_session_state st) w) [].
Proof using Ho.
  intros Hst He. destruct Ho. split; try done; first [by split|by apply store_moves_nil].
Qed.

Lemma handle_ready_handled m :
  RdowsMessage_wf m → handled (asks (pending_op (session w)) m) w (message_crashes w m) (handle_ready m w).
Proof using Type*.
  intros Hwf. destruct m; try (by apply dispatch_handled).
  - eapply handled_quiet, quiet_state; [done|].
    pose proof (so_exp _ Ho) as He. by destruct (expected_remote_seq (session w)).
  - by eapply handled_quiet, quiet_refl.
Qed.

Lemma quiet_expected q :
  u32 q → session_state (session w) ≠ AwaitingConnect →
  quiet w (on_session (set_expected_remote_seq (Some q)) w) [].
Proof using Ho.
  intros Hq Hst. destruct Ho. split; try done; first [by split|by apply store_moves_nil].
Qed.

Lemma seq_gap_description_ok e a :
  valid_utf8 (seq_gap_description e a) ∧ u16 (zlen (seq_gap_description e a)).
Proof using Type.
  unfold seq_gap_description. split.
  - apply valid_utf8_ascii. rewrite !Forall_app. split_and!; try apply dec_display_ascii;
      by apply (bool_decide_unpack _).
  - pose proof (dec_digits_length 20 e []). pose proof (dec_digits_length 20 a []).
    unfold dec_display, zlen, uN in *. rewrite !length_app. cbn [length] in *.
    change (length (lit "expected seq ")) with 13%nat. change (length (lit ", got ")) with 6%nat. lia.
Qed.

(** The negotiated session after a CONNECT, before the acknowledgement. *)
Definition connecting (h : RdowsHeader) (p : ConnectPayload) : World :=
  on_session (λ s, set_max_msg_size (Z.min (cp_max_msg_size p) DEFAULT_MAX_MSG_SIZE)
                     (set_pd (cp_pd p) (set_session_id (h_session_id h) s))) w.
Definition connect_ack (h : RdowsHeader) (p : ConnectPayload) : RdowsMessage :=
  RdowsMessage.ConnectAck (next_hdr Opcode.ConnectAck 0 (connecting h p))
    (mkConnect (cp_pd p) 0 (Z.min (cp_max_msg_size p) DEFAULT_MAX_MSG_SIZE) DEFAULT_ICC).
Definition connected (h : RdowsHeader) (p : ConnectPayload) : World :=
  on_session (λ s, set_session_state Ready
      (set_expected_remote_seq (Some (wrapping_add 32 (h_sequence h) 1)) s))
    (emit (connect_ack h p) (connecting h p)).

Lemma handle_connect_eq h p :
  h_version h = RDOWS_VERSION →
  handle_connect (RdowsMessage.Connect h p) w =
    let w1 := emit (connect_ack h p) (connecting h p) in
    match ws_send_error (sink w1) with
    | Some e => Err (WebSocket e) w1
    | None => Ok tt (connected h p)
    end.
Proof using Type.
  intros Hv. cbn [handle_connect]. rewrite Hv. cbn [negb Z.eqb RDOWS_VERSION Pos.eqb].
  srun. unfold next_header. srun. unfold send_message. mrun. cbn. by destruct (ws_send_error _).
Qed.

Lemma handle_connect_handled m :
  session_state (session w) = AwaitingConnect → RdowsMessage_wf m →
  handled (asks (pending_op (session w)) m) w False (handle_connect m w) ∧
  (∀ u w', handle_connect m w = Ok u w' → session_state (session w') ≠ AwaitingConnect).
Proof using Ho.
  intros Hst (Hh & Hv & _ & Ht).
  destruct m as [h p| | | | | | | | | | | | | | | | | | |];
    try (split; [|done]; exists [], []; split_and!;
         [split; [by apply emits_nil; [..|apply Ho]|apply store_moves_nil, Ho|done]|by left
         |pose proof (so_credit _ Ho); pose proof (so_recv _ Ho) as [? _]; split; cbn; lia]).
  cbn [RdowsMessage_header payload_typed] in *. rewrite (handle_connect_eq h p Hv). cbn zeta.
  destruct Hh as (_ & _ & Hsid & Hseq & Hw & _), Ht as (Hpd & _ & Hmax & _).
  assert (quiet w (connecting h p) []) as Hq.
  { destruct Ho. split; try done; try (by rewrite Hst).
    - split; try done. cbn. unfold uN in Hmax. unfold DEFAULT_MAX_MSG_SIZE. lia.
    - by apply store_moves_nil. }
  assert (moves w (emit (connect_ack h p) (connecting h p)) [connect_ack h p] []) as Hm.
  { apply moves_emit; [done|]. apply (reply_ok_of _ _ Opcode.ConnectAck 0); try done; [apply Hq|].
    cbn [payload_typed connect_ack]. unfold ConnectPayload_typed, uN, DEFAULT_MAX_MSG_SIZE, DEFAULT_ICC in *. cbn. lia. }
  destruct (ws_send_error _).
  { split; [|done]. exists [connect_ack h p], []. pose proof (so_credit _ Ho).
    pose proof (so_recv _ Ho) as [? _].
    split_and!; [done|by left; repeat constructor|split; cbn; lia]. }
  split; [|by intros u w' [= _ <-]]. exists [connect_ack h p], [].
  pose proof (emit_ok (connect_ack h p) _ (qt_ok _ _ _ Hq)) as [].
  split_and!; [by destruct Hm as [[] ? ?]; split; [split|..]|by left; repeat constructor| |by split; cbn; lia].
  split; try done. by apply wrapping_add_range.
Qed.

End handle_message.

Section message.
Context `{BytesCrate, Profile, !OsRng, !OsRngLaws, WsSinkEnv, Clock}.

(** Everything [handle_message] guarantees of the message it is given. *)
Lemma handle_message_handled w m :
  session_ok (session w) → next_lkey (store w) + 1 < 2 ^ 32 → RdowsMessage_wf m →
  handled (asks (pending_op (session w)) m) w (message_crashes w m) (handle_message m w) ∧
  (∀ u w', handle_message m w = Ok u w' → session_state (session w') ≠ AwaitingConnect).
Proof using Type*.
  intros Ho Hl Hwf. assert (u32 (h_sequence (RdowsMessage_header m))) as Hseq by apply Hwf.
  unfold handle_message. srun.
  destruct (session_state (session w)) eqn:Hst; cbn [bool_decide].
  - rewrite (bool_decide_eq_false_2 _) by done. cbn [andb].
    destruct (handle_connect_handled w Ho m Hst Hwf) as [Hh ?]. split; [|done].
    destruct (handle_connect m w); [done|done|destruct Hh].
  - assert (∀ out : outcome World RdowsError unit, handled (asks (pending_op (session w)) m) w (message_crashes w m) out →
      handled (asks (pending_op (session w)) m) w (message_crashes w m) out ∧
      (∀ u w', out = Ok u w' → session_state (session w') ≠ AwaitingConnect)) as Hready.
    { intros out Hh. split; [done|]. intros u w' ->. destruct Hh as (? & ? & [_ _ Hp] & _).
      apply Hp. by rewrite Hst. }
    apply Hready. rewrite (bool_decide_eq_true_2 _) by done. cbn [andb].
    destruct (_ <? _); [by eapply handled_send_error; [apply quiet_refl|..]|]. srun.
    assert (∀ q, u32 q → handled (asks (pending_op (session w)) m) w (message_crashes w m)
      ((_ ← assign (set_expected_remote_seq (Some q)); handle_ready m) w)) as Hgo.
    { intros q Hq. srun. eapply handled_quiet_trans;
        [apply (quiet_expected w Ho q Hq); by rewrite Hst|].
      change (message_crashes w m) with
        (message_crashes (on_session (set_expected_remote_seq (Some q)) w) m).
      change (pending_op (session w)) with
        (pending_op (session (on_session (set_expected_remote_seq (Some q)) w))).
      apply handle_ready_handled; [|done|done].
      apply (quiet_expected w Ho q Hq). by rewrite Hst. }
    destruct (expected_remote_seq (session w)); [|by apply Hgo, wrapping_add_range].
    destruct (negb _); [|by apply Hgo, wrapping_add_range].
    destruct (seq_gap_description_ok z (h_sequence (RdowsMessage_header m))).
    by eapply handled_send_error; [apply quiet_refl|..].
  - rewrite (bool_decide_eq_false_2 _) by done. cbn [andb]. split.
    + by eapply handled_quiet, quiet_refl.
    + intros u w' [= _ <-]. by rewrite Hst.
Qed.
End message.
