(* ===== verification/SessionTalk.v ===== *)
(** * What a session says about its memory

    [talk ms tr out]: the session received the messages [ms], performed the operations
    [tr] on its store and sent the messages [out], and the three fit together.  Every
    operation was asked for by the message that was handled, a write by a WRITE before
    it and the WRITE_DATA at hand, and every result was told in the reply; no other
    message that went out tells a result. *)

From S2P Require Import Prelude Externals Utf8 Core Frame Payloads Message MemoryStore.
From S2P Require Import StoreSpec ServerState Handler Session SessionFacts.

(** ** The pending write comes from a WRITE *)
Section pending.
Context `{BytesCrate, Profile, !OsRng, WsSinkEnv, Clock}.
(** The keys and addresses of the WRITEs so far. *)
Context (src : Z → Z → Prop).

Definition awaits (p : PendingOp) : Prop :=
  match p with AwaitingWriteData _ r va _ => src r va | _ => True end.
Definition keeps (w w' : World) : Prop := awaits (pending_op (session w)) → awaits (pending_op (session w')).
#[export] Instance keeps_preorder : PreOrder keeps.
Proof. split; unfold keeps; repeat intro; auto. Qed.

Lemma steps_field {E A} (f : Session → A) : steps keeps (field_of f : M World E A).
Proof using Type. unfold field_of. eauto with rdows_steps typeclass_instances. Qed.
Lemma steps_assign {E} f :
  (∀ s, pending_op (f s) = pending_op s ∨ awaits (pending_op (f s))) → steps keeps (assign f : M World E unit).
Proof using Type.
  intros Hf. apply steps_modifyS. intros w. unfold keeps. cbn. destruct (Hf (session w)) as [->|?]; auto.
Qed.
Lemma steps_send m : steps keeps (send_message m).
Proof using Type. intros w. unfold post, send_message, keeps. mrun. cbn. destruct (ws_send_error _); auto. Qed.
Lemma steps_attempt {E E' A} (m : M World E A) : steps keeps m → steps keeps (attempt m : M World E' (E + A)).
Proof using Type. intros Hm w. specialize (Hm w). unfold post, attempt in *. by destruct (m w). Qed.
Lemma steps_on_store {A} (m : M MemoryStore ErrorCode A) : steps keeps (on_memory_store m).
Proof using Type. intros w. unfold post, on_memory_store, zoom, keeps. destruct (m _); cbn; auto. Qed.
Lemma steps_on_store_rng {A} (m : M (MemoryStore * nat) ErrorCode A) : steps keeps (on_memory_store_rng m).
Proof using Type. intros w. unfold post, on_memory_store_rng, zoom, keeps. destruct (m _) as [? []|? []|]; cbn; auto. Qed.
Lemma steps_clock {E} : steps keeps (clock_now : M World E Z).
Proof using Type. intros w. unfold post, keeps. cbn. auto. Qed.
Lemma steps_keeps_ovf {E} w r : steps keeps (ovf w r : M World E Z).
Proof using Type. apply steps_ovf, _. Qed.

Lemma steps_header {E} op wrid : steps keeps (next_header op wrid : M World E RdowsHeader).
Proof using Type.
  apply steps_bind; [apply _|apply steps_field|intros seq].
  apply steps_bind; [apply _|apply steps_assign; intros s; by left|intros ?].
  apply steps_bind; [apply _|apply steps_field|intros sid]. apply steps_ret, _.
Qed.
Lemma steps_error code seq d : steps keeps (send_error code seq d).
Proof using Type. apply steps_bind; [apply _|apply steps_header|intros h; apply steps_send]. Qed.
Lemma steps_take_pending : steps keeps take_pending.
Proof using Type.
  apply steps_bind; [apply _|apply steps_field|intros p].
  apply steps_bind; [apply _|apply steps_assign; intros s; by right|intros ?]. apply steps_ret, _.
Qed.

(** A handler, primitive by primitive. *)
Ltac keeps_tac :=
  lazymatch goal with
  | |- steps keeps (field_of _) => apply steps_field
  | |- steps keeps (assign _) =>
      apply steps_assign; first [by (intros ?; left) | by (intros ?; right) | intros ?; right]
  | |- steps keeps (send_message _) => apply steps_send
  | |- steps keeps (send_error _ _ _) => apply steps_error
  | |- steps keeps (next_header _ _) => apply steps_header
  | |- steps keeps take_pending => apply steps_take_pending
  | |- steps keeps (attempt _) => apply steps_attempt; keeps_tac
  | |- steps keeps (on_memory_store _) => apply steps_on_store
  | |- steps keeps (on_memory_store_rng _) => apply steps_on_store_rng
  | |- steps keeps clock_now => apply steps_clock
  | |- steps keeps (add_ovf _ _ _) => apply steps_keeps_ovf
  | |- steps keeps (sub_ovf _ _ _) => apply steps_keeps_ovf
  | |- steps keeps (mret _) => apply steps_ret; apply _
  | |- steps keeps (throw _) => apply steps_throw; apply _
  | |- steps keeps (_ ≫= _) => apply steps_bind; [apply _|keeps_tac|intros ?; keeps_tac]
  | |- steps keeps (match ?x with _ => _ end) => destruct x; keeps_tac
  | |- _ => idtac
  end.

Lemma handle_ready_keeps m :
  (∀ h p, m = RdowsMessage.Write h p → src (wp_rkey p) (wp_remote_va p)) → steps keeps (handle_ready m).
Proof using Type.
  intros Hsrc. destruct m; cbn [handle_ready dispatch]; keeps_tac.
  - unfold handle_mr_reg. keeps_tac.
  - unfold handle_mr_dereg. keeps_tac.
  - unfold handle_send. keeps_tac.
  - unfold handle_send_data. keeps_tac.
  - unfold handle_write. keeps_tac. by eapply Hsrc.
  - unfold handle_write_data. keeps_tac.
  - unfold handle_read_req. keeps_tac.
  - unfold handle_atomic_req. keeps_tac.
Qed.
Lemma handle_message_keeps m :
  (∀ h p, m = RdowsMessage.Write h p → src (wp_rkey p) (wp_remote_va p)) → steps keeps (handle_message m).
Proof using Type.
  intros Hsrc. pose proof (handle_ready_keeps m Hsrc) as Hr.
  assert (steps keeps (handle_connect m)) as Hc by (destruct m; cbn [handle_connect]; keeps_tac).
  unfold handle_message. keeps_tac; done.
Qed.
End pending.

(** ** Requests, operations and replies *)

(** The operation that [m] asks for after the messages [ms]. *)
Definition requests (ms : list RdowsMessage) (m : RdowsMessage) (op : StoreOp) : Prop :=
  match m with
  | RdowsMessage.WriteData _ d =>
      ∃ h p, RdowsMessage.Write h p ∈ ms ∧ op = OpWrite (wp_rkey p) (wp_remote_va p) (dp_data d)
  | _ => asks NoPending m op
  end.

Inductive talk : list RdowsMessage → list (StoreOp * (ErrorCode + Reply)) → list RdowsMessage → Prop :=
| talk_nil : talk [] [] []
| talk_bare ms tr out m out' :
    talk ms tr out → Forall bare out' → talk (ms ++ [m]) tr (out ++ out')
| talk_op ms tr out m op res rep :
    talk ms tr out → requests ms m op → reply_of op res rep →
    talk (ms ++ [m]) (tr ++ [(op, res)]) (out ++ [rep]).

(** The keys and addresses of the WRITEs received. *)
Definition written (ms : list RdowsMessage) (r va : Z) : Prop :=
  ∃ h p, RdowsMessage.Write h p ∈ ms ∧ wp_rkey p = r ∧ wp_remote_va p = va.
Lemma written_app ms ms' r va : written ms r va → written (ms ++ ms') r va.
Proof. intros (h & p & Hin & ?). exists h, p. split; [set_solver|done]. Qed.
Lemma awaits_mono (src src' : Z → Z → Prop) p : (∀ r va, src r va → src' r va) → awaits src p → awaits src' p.
Proof. intros Hs. destruct p; cbn; auto. Qed.

Lemma asks_requests ms p m op : awaits (written ms) p → asks p m op → requests ms m op.
Proof.
  destruct m; try done. cbn. destruct p; try done. intros (h' & q & Hin & <- & <-) ->. by exists h', q.
Qed.
(** One message more. *)
Lemma talk_exchange ms tr out p m tr' out' :
  talk ms tr out → awaits (written ms) p → exchange (asks p m) tr' out' →
  talk (ms ++ [m]) (tr ++ tr') (out ++ out').
Proof.
  intros Ht Hp [[-> Hb]|(op & res & rep & -> & -> & Ha & Hr)].
  - rewrite app_nil_r. by apply talk_bare.
  - apply talk_op; [done|by eapply asks_requests|done].
Qed.
Definition is_reg (m : RdowsMessage) : Z := match m with RdowsMessage.MrReg _ _ => 1 | _ => 0 end.
Lemma exchange_regs p m tr out :
  exchange (asks p m) tr out → reg_ops tr ≤ is_reg m ∧ zlen tr ≤ 1.
Proof.
  intros [[-> _]|(op & res & rep & -> & _ & Ha & _)]; [by destruct m|].
  destruct m; cbn in Ha; try done; try (destruct p; try done); subst op; cbn; unfold zlen; cbn; lia.
Qed.

(** The keys that the replies hand out are those that the store issued. *)
Definition acked_keys (out : list RdowsMessage) : list RKey :=
  omap (λ m, match m with
             | RdowsMessage.MrRegAck _ p => if ra_status p =? 0 then Some (ra_rkey p) else None
             | _ => None
             end) out.
Lemma acked_bare out : Forall bare out → acked_keys out = [].
Proof.
  induction 1 as [|m out Hm _ IH]; [done|]. unfold acked_keys in *. cbn [omap list_omap]. rewrite IH.
  destruct m; try done. cbn in Hm. by rewrite (proj2 (Z.eqb_neq _ _)).
Qed.
Lemma u16_from_ErrorCode_Success code : u16_from_ErrorCode code = 0 → code = Success.
Proof. by destruct code. Qed.
Lemma acked_app l k : acked_keys (l ++ k) = acked_keys l ++ acked_keys k.
Proof. apply omap_app. Qed.
Lemma reply_keys op res m :
  res ≠ inl Success → reply_of op res m → acked_keys [m] = issued_keys [(op, res)].
Proof.
  intros Hne. destruct op, res as [code|[]], m; cbn; try done; intros ->; cbn; try done.
  destruct (Z.eqb_spec (u16_from_ErrorCode code) 0) as [Hz|]; [|done].
  by apply u16_from_ErrorCode_Success in Hz as ->.
Qed.
Lemma talk_keys a ms tr out a' :
  talk ms tr out → spec_steps a tr a' → acked_keys out = issued_keys tr.
Proof.
  intros Ht Hs%spec_steps_errors. induction Ht as [|ms tr out m out' _ IH Hb|ms tr out m op res rep _ IH _ Hr]; [done|..].
  - by rewrite acked_app, (acked_bare out' Hb), app_nil_r, IH.
  - apply Forall_app in Hs as [Hs [Hne _]%Forall_cons]. unfold issued_keys in *. rewrite acked_app, omap_app, IH by done.
    f_equal. by apply (reply_keys op).
Qed.

(** ** The messages of a stream *)
Section stream.
Context `{BytesCrate, Profile}.

Definition decoded (item : WsItem) : option RdowsMessage :=
  match item with
  | WsBinary data => match RdowsMessage_decode data with Ok m _ => Some m | _ => None end
  | _ => None
  end.
(** The registrations that a stream asks for. *)
Definition registrations (stream : list WsItem) : Z := total is_reg (omap decoded stream).
Lemma registrations_nonneg stream : 0 ≤ registrations stream.
Proof using Type.
  unfold registrations, total. induction (omap decoded stream) as [|m l IH]; cbn; [lia|]. destruct m; cbn; lia.
Qed.
Lemma registrations_cons item stream :
  registrations (item :: stream) = from_option is_reg 0 (decoded item) + registrations stream.
Proof using Type. unfold registrations. cbn [omap list_omap]. by destruct (decoded item). Qed.
End stream.
