(* ===== verification/SessionProps.v ===== *)
(** * Theorems about server sessions

    The guarantees of [SessionFacts.v] for one message, carried through
    [session_loop] to whole sessions: framing, memory safety, resource accounts,
    and the behaviour of the sequence and size checks. *)

From S2P Require Import Prelude Externals Utf8 Core Frame Payloads Message MemoryStore.
From S2P Require Import StoreSpec ServerState Handler Session SessionFacts SessionTalk.

(** A configuration whose fields have their types and whose byte limit can be
    allocated. *)
Record config_ok (c : ServerConfig) : Prop := {
  co_recv : u32 (cfg_recv_queue_depth c);
  co_regions : 0 ≤ cfg_max_regions_per_session c;
  co_bytes : 0 ≤ cfg_max_total_bytes_per_session c ≤ isize_max;
  co_reads : u32 (cfg_max_outstanding_reads c);
  co_rate : u32 (cfg_mr_reg_rate_limit c);
}.

Lemma ServerConfig_default_ok : config_ok ServerConfig_default.
Proof. by split. Qed.

Section loop.
Context `{BytesCrateLaws, Profile, !OsRng, !OsRngLaws, WsSinkEnv, Clock}.

Lemma World_new_ok c : config_ok c → session_ok (session (World_new c)).
Proof using Type.
  intros []. split; cbn; try done; first [by apply MemoryStore_new_ok|unfold uN in *; lia].
Qed.

Lemma moves_refl w : session_ok (session w) → moves w w [] [].
Proof using Type.
  intros Ho. split; [by apply emits_nil; [..|apply Ho]|apply store_moves_nil, Ho|done].
Qed.
Lemma moves_trans w w1 w2 l k tr1 tr2 :
  moves w w1 l tr1 → moves w1 w2 k tr2 → session_state (session w1) ≠ AwaitingConnect →
  moves w w2 (l ++ k) (tr1 ++ tr2).
Proof using Type.
  intros [E1 S1 P1] [E2 S2 P2] Hst. destruct (P2 Hst) as [(Q1 & Q2 & Q3) Hst2].
  split; [by eapply emits_trans|by eapply store_moves_trans|].
  intros Hw. destruct (P1 Hw) as [(R1 & R2 & R3) _]. split; [|done]. split_and!; congruence.
Qed.
Lemma within_refl w : session_ok (session w) → within w w [].
Proof using Type. intros Ho. pose proof (so_credit _ Ho). pose proof (so_recv _ Ho) as [? _]. split; cbn; lia. Qed.
Lemma balanced_within w w' l : session_ok (session w') → balanced w w' l → within w w' l.
Proof using Type. intros Ho []. pose proof (so_credit _ Ho). pose proof (so_recv _ Ho) as [? _]. split; lia. Qed.
Lemma within_trans w w1 w2 l k : balanced w w1 l → within w1 w2 k → within w w2 (l ++ k).
Proof using Type. intros [] []. split; rewrite !total_app; lia. Qed.

(** What makes a frame fatal to the session task. *)
Definition fatal_frame (w : World) (data : list byte) : Prop :=
  RdowsMessage_decode data = Panic ∨
  ∃ m r, RdowsMessage_decode data = Ok m r ∧ message_crashes w m.

(** What the loop does with one item: nothing, or it handles the message in it. *)
Lemma session_item_result w item :
  session_ok (session w) → next_lkey (store w) + 1 < 2 ^ 32 →
  match session_item item w with
  | Ok stop w1 =>
      (decoded item = None ∧ w1 = w) ∨
      ∃ m msgs tr, decoded item = Some m ∧ moves w w1 msgs tr ∧
        exchange (asks (pending_op (session w)) m) tr msgs ∧
        (∀ src : Z → Z → Prop, (∀ h p, m = RdowsMessage.Write h p → src (wp_rkey p) (wp_remote_va p)) →
           keeps src w w1) ∧
        within w w1 msgs ∧
        (stop = false → session_ok (session w1) ∧ balanced w w1 msgs ∧
           session_state (session w1) ≠ AwaitingConnect)
  | Err _ _ => False
  | Panic => ∃ data, item = WsBinary data ∧ fatal_frame w data
  end.
Proof using Type*.
  intros Ho Hl. destruct item as [data| | |e]; cbn [session_item decoded]; try (by left).
  destruct (RdowsMessage_decode data) as [m r|e r|] eqn:Hd; [|by left|].
  2:{ exists data. split; [done|by left]. }
  destruct (decode_Ok_wf data m r Hd) as [Hwf _].
  destruct (handle_message_handled w m Ho Hl Hwf) as [Hh Hst]. rewrite attempt_bind.
  assert (∀ src : Z → Z → Prop, (∀ h p, m = RdowsMessage.Write h p → src (wp_rkey p) (wp_remote_va p)) →
    post (handle_message m) (λ _ w1, keeps src w w1) w) as Hk by (intros src Hs; by apply handle_message_keeps).
  unfold post in Hk. destruct (handle_message m w) as [[] w1|e w1|].
  - destruct Hh as (msgs & tr & Hm & Htr & Hok & Hb). srun. unfold mret, M_ret.
    right. exists m, msgs, tr. split_and!; try done; [by apply balanced_within|].
    intros _. split_and!; try done. by eapply Hst.
  - destruct Hh as (msgs & tr & Hm & Htr & Hw). right. by exists m, msgs, tr.
  - exists data. split; [done|]. right. by exists m, r.
Qed.

(** The whole loop, from a state that satisfies the invariant, after the messages
    [ms0] were received and answered. *)
Definition conversed (ms0 : list RdowsMessage) tr0 out0 w : Prop :=
  talk ms0 tr0 out0 ∧ awaits (written ms0) (pending_op (session w)).
Lemma conversed_step ms0 tr0 out0 w m msgs tr w1 :
  conversed ms0 tr0 out0 w → exchange (asks (pending_op (session w)) m) tr msgs →
  (∀ src : Z → Z → Prop, (∀ h p, m = RdowsMessage.Write h p → src (wp_rkey p) (wp_remote_va p)) → keeps src w w1) →
  conversed (ms0 ++ [m]) (tr0 ++ tr) (out0 ++ msgs) w1.
Proof using All.
  intros [Ht Hp] Hx Hk. split; [by eapply talk_exchange|].
  apply (Hk (written (ms0 ++ [m]))); [|by eapply awaits_mono; [apply written_app|done]].
  intros h p ->. exists h, p. split; [set_solver|done].
Qed.

Lemma session_loop_result stream : ∀ w ms0 tr0 out0,
  session_ok (session w) → next_lkey (store w) + registrations stream < 2 ^ 32 - 1 → conversed ms0 tr0 out0 w →
  match session_loop stream w with
  | Ok _ w' => ∃ ms msgs tr, moves w w' msgs tr ∧ talk (ms0 ++ ms) (tr0 ++ tr) (out0 ++ msgs) ∧
      ms `prefix_of` omap decoded stream ∧ reg_ops tr ≤ registrations stream ∧ within w w' msgs
  | Err _ _ => False
  | Panic => ∃ w1 msgs tr data, moves w w1 msgs tr ∧ session_ok (session w1) ∧
      next_lkey (store w1) < 2 ^ 32 - 1 ∧ reg_ops tr ≤ registrations stream ∧
      WsBinary data ∈ stream ∧ fatal_frame w1 data
  end.
Proof using Type*.
  induction stream as [|item stream IH]; intros w ms0 tr0 out0 Ho Hl Hcv; cbn [session_loop].
  { exists [], [], []. rewrite !app_nil_r. split_and!; try done; [by apply moves_refl|apply Hcv|by apply within_refl]. }
  rewrite registrations_cons in Hl. rewrite registrations_cons. pose proof (registrations_nonneg stream) as Hrn.
  assert (0 ≤ from_option is_reg 0 (decoded item)) as Hin by (by destruct (decoded item) as [[]|]).
  pose proof (session_item_result w item Ho ltac:(lia)) as Hi. unfold mbind, M_bind. cbn [omap list_omap].
  destruct (session_item item w) as [stop w1|e w1|]; [|done|].
  2:{ destruct Hi as (data & -> & Hf). exists w, [], [], data.
      split_and!; [by apply moves_refl|done|lia|change (reg_ops []) with 0; lia|by apply elem_of_cons; left|done]. }
  destruct Hi as [[Hd ->]|(m & msgs & tr & Hd & Hm & Hx & Hk & Hw & Hgo)].
  - rewrite Hd in *. cbn [from_option] in *. destruct stop.
    { exists [], [], []. rewrite !app_nil_r. split_and!; [by apply moves_refl|apply Hcv|by apply prefix_nil|change (reg_ops []) with 0; lia|by apply within_refl]. }
    specialize (IH w ms0 tr0 out0 Ho ltac:(lia) Hcv). destruct (session_loop stream w); [done|done|].
    destruct IH as (w1 & msgs & tr & d & ? & ? & ? & ? & ? & ?). exists w1, msgs, tr, d.
    split_and!; try done. by apply elem_of_cons; right.
  - rewrite Hd in *. cbn [from_option] in *. pose proof (exchange_regs _ _ _ _ Hx) as [Hregs _].
    pose proof (conversed_step _ _ _ _ _ _ _ _ Hcv Hx Hk) as Hcv1. destruct stop.
    { exists [m], msgs, tr. split_and!; [done|apply Hcv1|by apply prefix_cons, prefix_nil|lia|done]. }
    destruct (Hgo eq_refl) as (Ho1 & Hb & Hst). pose proof (sm_lkey _ _ _ _ _ (mv_store _ _ _ _ Hm)) as Hlk.
    specialize (IH w1 _ _ _ Ho1 ltac:(lia) Hcv1). destruct (session_loop stream w1) as [u w'|e w'|]; [..|].
    + destruct IH as (ms & k & tr2 & ? & Ht & Hpre & ? & ?). exists (m :: ms), (msgs ++ k), (tr ++ tr2).
      rewrite <-!(assoc_L (++)) in Ht. rewrite reg_ops_app. cbn [app] in Ht.
      split_and!; [by eapply moves_trans|done|by apply prefix_cons|lia|by eapply within_trans].
    + done.
    + destruct IH as (w2 & k & tr2 & d & ? & ? & ? & ? & ? & ?).
      exists w2, (msgs ++ k), (tr ++ tr2), d. rewrite reg_ops_app.
      split_and!; try done; [by eapply moves_trans|lia|by apply elem_of_cons; right].
Qed.
End loop.

(** ** Whole sessions *)
Lemma spec_step_limits a op res a' :
  spec_step a op res a' → count_max a' = count_max a ∧ bytes_max a' = bytes_max a.
Proof.
  destruct 1 as [| | | | | | |r off d res a' Hw|r off len res a' Hw|r va ty o1 o2 res a' Hw]; cbn;
    try done.
  - unfold spec_write in Hw. by repeat case_match; simplify_eq.
  - unfold spec_read in Hw. by repeat case_match; simplify_eq.
  - unfold spec_atomic in Hw. by repeat case_match; simplify_eq.
Qed.
Lemma spec_steps_limits a tr a' :
  spec_steps a tr a' → count_max a' = count_max a ∧ bytes_max a' = bytes_max a.
Proof.
  induction 1 as [|a op res a' tr a'' Hs _ [IHc IHb]]; [done|].
  destruct (spec_step_limits _ _ _ _ Hs). split; congruence.
Qed.

Lemma total_lookup f msgs i m :
  (∀ j m', msgs !! j = Some m' → 0 ≤ f m') → msgs !! i = Some m → f m ≤ total f msgs.
Proof.
  intros Hpos Hi. apply list_elem_of_split_length in Hi as (l & k & -> & _).
  assert (∀ k', (∀ x, x ∈ k' → 0 ≤ f x) → 0 ≤ total f k') as Hn.
  { intros k' Hk. unfold total. induction k' as [|x k' IH]; cbn; [lia|].
    pose proof (Hk x ltac:(set_solver)). assert (∀ x, x ∈ k' → 0 ≤ f x) as Hk' by set_solver.
    specialize (IH Hk'). lia. }
  assert (∀ x, x ∈ l ++ m :: k → 0 ≤ f x) as Hall
    by (intros x (j & Hj)%list_elem_of_lookup; by eapply Hpos).
  rewrite total_app. change (total f (m :: k)) with (f m + total f k).
  pose proof (Hn l ltac:(set_solver)). pose proof (Hn k ltac:(set_solver)). lia.
Qed.

(** The session does not exhaust the 32-bit local keys. *)
Definition stream_fits `{BytesCrate, Profile} (stream : list WsItem) : Prop := registrations stream < 2 ^ 32 - 2.

Section sessions.
Context `{BytesCrateLaws, Profile, !OsRng, !OsRngLaws, WsSinkEnv, Clock}.
Context (c : ServerConfig) (stream : list WsItem) (Hc : config_ok c).

Lemma run_session_result :
  stream_fits stream →
  match run_session c stream with
  | Ok _ w' => ∃ ms msgs tr, moves (World_new c) w' msgs tr ∧ talk ms tr msgs ∧
      ms `prefix_of` omap decoded stream ∧ reg_ops tr ≤ registrations stream ∧ within (World_new c) w' msgs
  | Err _ _ => False
  | Panic => ∃ w1 msgs tr data, moves (World_new c) w1 msgs tr ∧ session_ok (session w1) ∧
      next_lkey (store w1) < 2 ^ 32 - 1 ∧ reg_ops tr ≤ registrations stream ∧
      WsBinary data ∈ stream ∧ fatal_frame w1 data
  end.
Proof using Type*.
  intros Hs. unfold stream_fits in Hs.
  apply (session_loop_result stream (World_new c) [] [] []); [by apply World_new_ok|cbn; lia|].
  split; [constructor|done].
Qed.
(** The store after a session, or at the frame that ends it. *)
Lemma session_spec_steps w' msgs tr :
  stream_fits stream → moves (World_new c) w' msgs tr → reg_ops tr ≤ registrations stream →
  spec_steps (abs (store (World_new c))) tr (abs (store w')).
Proof using Type*.
  intros Hs [_ [Hrun Ht _ _] _] Hr. unfold stream_fits in Hs.
  eapply run_ops_refine_aux; [done|apply (World_new_ok c Hc)|done|cbn; lia].
Qed.

(** C12: the frames a session sends, whatever the peer sends to it, are
    encodings of well-formed messages; their sequence numbers count up from zero
    modulo 2^32 without a gap, and all carry the session's identifier. *)
Theorem session_frames w' :
  stream_fits stream → run_session c stream = Ok tt w' →
  ∃ msgs, sink w' = RdowsMessage_encode <$> msgs ∧
    ∀ i m, msgs !! i = Some m →
      RdowsMessage_wf m ∧ fits_counts m ∧
      h_sequence (RdowsMessage_header m) = Z.of_nat i mod 2 ^ 32 ∧
      h_session_id (RdowsMessage_header m) = session_id (session w').
Proof using Type*.
  intros Hs Hr. pose proof (run_session_result Hs) as Hres. rewrite Hr in Hres.
  destruct Hres as (ms & msgs & tr & [[Hsink Hseq Hwf] _ _] & _). exists msgs. split; [done|].
  intros i m Hm. destruct (Hwf i m Hm) as (? & [? _] & Hi & ?).
  by split_and!; [..|rewrite Hi|].
Qed.
Lemma emits_framed w w' msgs : emits w w' msgs → Forall (λ m, RdowsMessage_wf m ∧ fits_counts m) msgs.
Proof using Type. intros [_ _ Hwf]. apply Forall_lookup. intros i m Hm. by destruct (Hwf i m Hm) as (? & [? _] & _). Qed.

(** C10: memory safety of a session.  What a session says about its memory is true of
    the abstract store: for the messages [ms] it received and the messages [out] it sent
    there is a run [tr] of the abstract store, from the empty one to the session's, such
    that every operation of [tr] is the one that the message at hand asked for, with its
    key, address and bytes, and its result is what the reply to that message says; a
    reply with keys, bytes, a word or a success always comes from such an operation.
    In particular the remote keys in the MR_REG_ACKs of a session are all different. *)
Theorem session_memory_refines w' :
  stream_fits stream → run_session c stream = Ok tt w' →
  ∃ ms tr out,
    sink w' = RdowsMessage_encode <$> out ∧ Forall (λ m, RdowsMessage_wf m ∧ fits_counts m) out ∧
    ms `prefix_of` omap decoded stream ∧ talk ms tr out ∧
    spec_steps (abs (MemoryStore_new (cfg_max_regions_per_session c) (cfg_max_total_bytes_per_session c)))
      tr (abs (store w')) ∧
    NoDup (acked_keys out).
Proof using Type*.
  intros Hs Hr. pose proof (run_session_result Hs) as Hres. rewrite Hr in Hres.
  destruct Hres as (ms & msgs & tr & Hm & Htalk & Hpre & Hregs & _).
  pose proof (session_spec_steps w' msgs tr Hs Hm Hregs) as Hspec. exists ms, tr, msgs.
  split_and!; try done; [apply Hm|by eapply emits_framed, Hm|].
  rewrite (talk_keys _ _ _ _ _ Htalk Hspec). by apply spec_issued_distinct in Hspec as [? _].
Qed.

(** C16: the causes of a panic of a session task: a frame that makes [decode] panic, an
    MR_REG whose length is within the byte limit of 2^64, a failing random source, or
    so many MR_REGs (2^32 - 2) that the counter of local keys overflows. *)
Theorem session_panic_cause :
  run_session c stream = Panic →
  (∃ data, WsBinary data ∈ stream ∧
     (underflow_input data ∨
      ∃ h p r, RdowsMessage_decode data = Ok (RdowsMessage.MrReg h p) r ∧
        2 ^ 64 - cfg_max_total_bytes_per_session c ≤ mr_region_len p)) ∨
  (∃ n, os_rng_fill n = None) ∨
  2 ^ 32 - 2 ≤ registrations stream.
Proof using Type*.
  intros Hp. destruct (Z.lt_ge_cases (registrations stream) (2 ^ 32 - 2)) as [Hs|]; [|by right; right].
  pose proof (run_session_result Hs) as Hres. rewrite Hp in Hres.
  destruct Hres as (w1 & msgs & tr & data & Hmv & Hok & _ & Hregs & Hin & [Hd|(m & r & Hd & Hm)]).
  { left. exists data. split; [done|]. left. by apply decode_Panic. }
  destruct m; try done. destruct Hm as [Hm|(i & _ & Hm)]; [left|right; left; by eexists].
  exists data. split; [done|]. right. exists h, p, r. split; [done|].
  pose proof (session_spec_steps w1 msgs tr Hs Hmv Hregs) as [_ Hmax]%spec_steps_limits.
  pose proof (ok_total_max _ (so_store _ Hok)). cbn in Hmax. lia.
Qed.

(** C30: receive accounting of a session: the SENDs it completes never exceed
    the posted receives, the credits it returns never exceed the SENDs it
    completed, and so a session configured with fewer than 16383 receives (the
    default has 128) never sends a CREDIT_UPDATE.  The messages are those that the
    frames encode: they are well formed, so each frame decodes to its message. *)
Theorem session_send_accounts w' :
  stream_fits stream → run_session c stream = Ok tt w' →
  ∃ msgs, sink w' = RdowsMessage_encode <$> msgs ∧ Forall (λ m, RdowsMessage_wf m ∧ fits_counts m) msgs ∧
    total completion_of msgs ≤ cfg_recv_queue_depth c ∧
    total credit_of msgs ≤ total completion_of msgs ∧
    (cfg_recv_queue_depth c < DEFAULT_ICC / 4 →
     Forall (λ m, opcode_of m ≠ Opcode.CreditUpdate) msgs).
Proof using Type*.
  intros Hs Hr. pose proof (run_session_result Hs) as Hres. rewrite Hr in Hres.
  destruct Hres as (ms & msgs & tr & [Hem _ _] & _ & _ & _ & [Hcr Hrv]). pose proof Hem as [Hsink _ Hwf].
  exists msgs. cbn in *.
  assert (total completion_of msgs ≤ cfg_recv_queue_depth c) as Hcomp
    by (destruct (pending_op (session w')); cbn in Hrv; lia).
  split_and!; [done|by eapply emits_framed|done|done|]. intros Hd. apply Forall_lookup. intros i m Hm.
  destruct (Hwf i m Hm) as (_ & [_ Hcm] & _). intros Hop. destruct m; try done.
  assert (credit_of (RdowsMessage.CreditUpdate h p) ≤ total credit_of msgs); [|cbn in *; lia].
  apply (total_lookup _ _ i); [|done]. intros j m' Hj. destruct (Hwf j m' Hj) as (_ & [_ Hc'] & _).
  destruct m'; cbn; try lia. change (DEFAULT_ICC / 4) with 16383 in Hc'. lia.
Qed.
End sessions.

(** ** The checks in front of every request *)

(** The peer's ERROR replies that refuse a message before it is dispatched. *)
Definition refusal (m : RdowsMessage) : Prop :=
  match m with
  | RdowsMessage.Error _ p => ep_error_code p = ErrSeqGap ∨ ep_error_code p = ErrPayloadSize
  | _ => False
  end.

(** The stream carries these messages. *)
Definition carries `{BytesCrate, Profile} : list WsItem → list RdowsMessage → Prop :=
  Forall2 (λ item m, ∃ data r, item = WsBinary data ∧ RdowsMessage_decode data = Ok m r).

Section checks.
Context `{BytesCrateLaws, Profile, !OsRng, !OsRngLaws, WsSinkEnv, Clock}.
Implicit Types (w : World) (m : RdowsMessage).

Lemma handle_message_ready w m e :
  session_state (session w) = Ready → expected_remote_seq (session w) = Some e →
  handle_message m w =
    let h := RdowsMessage_header m in
    if max_msg_size (session w) <? h_payload_length h then
      send_error ErrPayloadSize (h_sequence h)
        (lit "payload exceeds negotiated maximum message size") w
    else if h_sequence h =? e then
      handle_ready m (on_session (set_expected_remote_seq
                                    (Some (wrapping_add 32 (h_sequence h) 1))) w)
    else send_error ErrSeqGap (h_sequence h) (seq_gap_description e (h_sequence h)) w.
Proof using Type.
  intros Hst He. unfold handle_message. srun. rewrite Hst.
  rewrite (bool_decide_eq_true_2 _) by done. cbn [andb].
  destruct (_ <? _); [done|]. srun. rewrite He. by destruct (_ =? _).
Qed.

(** C29: the checks in front of every request of an established session, in order: a
    message longer than the negotiated size is answered with ERR_PAYLOAD_SIZE; any other
    that does not carry the expected sequence number is answered with ERR_SEQ_GAP,
    naming both numbers; neither changes anything else.  All others are dispatched, and
    the next number is expected. *)
Theorem sequence_check w m e :
  session_state (session w) = Ready → expected_remote_seq (session w) = Some e →
  let seq := h_sequence (RdowsMessage_header m) in
  let refuse code description :=
    finish (emit (RdowsMessage.Error (next_hdr Opcode.Error 0 w) (mkError code seq description)) w) in
  handle_message m w =
    if max_msg_size (session w) <? h_payload_length (RdowsMessage_header m) then
      refuse ErrPayloadSize (lit "payload exceeds negotiated maximum message size")
    else if seq =? e then
      handle_ready m (on_session (set_expected_remote_seq (Some (wrapping_add 32 e 1))) w)
    else refuse ErrSeqGap (seq_gap_description e seq).
Proof using Type.
  intros Hst He seq refuse. rewrite (handle_message_ready _ _ e) by done. cbn zeta. fold seq.
  destruct (_ <? _); [apply send_error_eq|].
  destruct (Z.eqb_spec seq e) as [->|]; [done|apply send_error_eq].
Qed.

Lemma refused_message w m e :
  session_state (session w) = Ready → expected_remote_seq (session w) = Some e →
  (max_msg_size (session w) < h_payload_length (RdowsMessage_header m) ∨
   h_sequence (RdowsMessage_header m) ≠ e) →
  ∃ err, refusal err ∧ handle_message m w = finish (emit err w).
Proof using Type.
  intros Hst He Hbad. rewrite (handle_message_ready _ _ e) by done. cbn zeta.
  destruct (Z.ltb_spec (max_msg_size (session w)) (h_payload_length (RdowsMessage_header m))).
  - rewrite send_error_eq. eexists. split; [|done]. by right.
  - destruct Hbad as [|Hne]; [lia|]. rewrite (proj2 (Z.eqb_neq _ _)) by done.
    rewrite send_error_eq. eexists. split; [|done]. by left.
Qed.

(** A stream of refused messages only adds ERROR replies. *)
Lemma refused_stream stream msgs e :
  (∀ log, ws_send_error log = None) → carries stream msgs → ∀ w,
  session_state (session w) = Ready → expected_remote_seq (session w) = Some e →
  Forall (λ m, max_msg_size (session w) < h_payload_length (RdowsMessage_header m) ∨
               h_sequence (RdowsMessage_header m) ≠ e) msgs →
  ∃ errs q, Forall refusal errs ∧ length errs = length msgs ∧
    session_loop stream w = Ok tt (mkWorld (set_next_seq q (session w))
      (sink w ++ (RdowsMessage_encode <$> errs)) (rng_draws w) (clock_reads w)).
Proof using Type.
  intros Hsink. induction 1 as [|item m stream msgs (data & r & -> & Hd) _ IH];
    intros w Hst He Hbad.
  { exists [], (next_seq (session w)). split_and!; [done|done|]. cbn. rewrite app_nil_r.
    by destruct w as [[]]. }
  apply Forall_cons in Hbad as [Hm Hbad]. destruct (refused_message w m e Hst He Hm) as (err & Hr & Hh).
  destruct (IH (emit err w) Hst He Hbad) as (errs & q & Hall & Hlen & Hrun).
  exists (err :: errs), q. split_and!; [by constructor|cbn; by f_equal|].
  cbn [session_loop session_item]. rewrite Hd, bind_assoc, attempt_bind, Hh. unfold finish.
  rewrite Hsink. srun. rewrite (bool_decide_eq_false_2 _) by (cbn; by rewrite Hst).
  rewrite Hrun. cbn. by rewrite <-app_assoc.
Qed.

(** C36: an oversized message is refused without advancing the expected
    sequence number.  A peer that numbers its messages consecutively, as the
    protocol demands, is then refused for the rest of the session: the oversized
    message and everything after it is answered with ERR_PAYLOAD_SIZE or
    ERR_SEQ_GAP, and neither the memory nor any other state changes. *)
Theorem oversized_message_wedges w e stream m0 msgs :
  (∀ log, ws_send_error log = None) →
  session_state (session w) = Ready → expected_remote_seq (session w) = Some e →
  carries stream (m0 :: msgs) →
  (∀ i m, (m0 :: msgs) !! i = Some m →
     h_sequence (RdowsMessage_header m) = wrapping_add 32 e (Z.of_nat i)) →
  zlen (m0 :: msgs) ≤ 2 ^ 32 → u32 e →
  max_msg_size (session w) < h_payload_length (RdowsMessage_header m0) →
  ∃ errs q, Forall refusal errs ∧ length errs = length (m0 :: msgs) ∧
    session_loop stream w = Ok tt (mkWorld (set_next_seq q (session w))
      (sink w ++ (RdowsMessage_encode <$> errs)) (rng_draws w) (clock_reads w)).
Proof using Type.
  intros Hsink Hst He Hcar Hseq Hn Hu Hbig.
  apply (refused_stream _ (m0 :: msgs) e); try done. constructor; [by left|].
  apply Forall_lookup. intros i m Hm. right. rewrite (Hseq (S i)) by done.
  apply lookup_lt_Some in Hm. rewrite zlen_cons in Hn. unfold zlen, uN, wrapping_add, wrap in *.
  destruct (Z.lt_ge_cases (e + Z.of_nat (S i)) (2 ^ 32)).
  - rewrite Z.mod_small by lia. lia.
  - rewrite <-(Z.mod_unique_pos _ (2 ^ 32) 1 (e + Z.of_nat (S i) - 2 ^ 32)) by lia. lia.
Qed.

(** Nothing happens before a CONNECT: a session whose first binary message
    is any other message, or does not decode, ends at once with nothing sent
    and nothing registered. *)
Theorem connect_first c data rest :
  (∀ h p r, RdowsMessage_decode data ≠ Ok (RdowsMessage.Connect h p) r) →
  RdowsMessage_decode data ≠ Panic →
  run_session c (WsBinary data :: rest) = Ok tt (World_new c).
Proof using Type.
  intros Hnc Hnp. unfold run_session. cbn [session_loop session_item].
  destruct (RdowsMessage_decode data) as [m r|e r|] eqn:Hd; [|done|done].
  rewrite bind_assoc, attempt_bind. unfold handle_message. srun.
  destruct m; try done. by destruct (Hnc h p r).
Qed.

(** The handshake: a CONNECT that decodes is always accepted, with the
    smaller of the two message sizes, and answered by one CONNECT_ACK that
    carries the peer's session identifier and sequence number zero; the session
    is then ready for the next sequence number.  In particular the version test
    of [handle_connect] never fires. *)
Theorem handshake c data h p r :
  (∀ log, ws_send_error log = None) →
  RdowsMessage_decode data = Ok (RdowsMessage.Connect h p) r →
  ∃ w', session_item (WsBinary data) (World_new c) = Ok false w' ∧
    sink w' = [RdowsMessage_encode (RdowsMessage.ConnectAck
      (RdowsHeader_new Opcode.ConnectAck (h_session_id h) 0 0)
      (mkConnect (cp_pd p) 0 (Z.min (cp_max_msg_size p) DEFAULT_MAX_MSG_SIZE) DEFAULT_ICC))] ∧
    session_state (session w') = Ready ∧
    max_msg_size (session w') = Z.min (cp_max_msg_size p) DEFAULT_MAX_MSG_SIZE ∧
    expected_remote_seq (session w') = Some (wrapping_add 32 (h_sequence h) 1) ∧
    store w' = store (World_new c).
Proof using Type*.
  intros Hsink Hd. destruct (decode_Ok_wf _ _ _ Hd) as [(_ & Hv & _) _].
  cbn [RdowsMessage_header] in Hv. exists (connected (World_new c) h p).
  split; [|by split_and!]. cbn [session_item]. rewrite Hd, attempt_bind.
  assert (handle_message (RdowsMessage.Connect h p) (World_new c) =
    Ok tt (connected (World_new c) h p)) as ->; [|done].
  transitivity (handle_connect (RdowsMessage.Connect h p) (World_new c)); [done|].
  rewrite handle_connect_eq by done. cbn zeta. by rewrite Hsink.
Qed.

(** A frame of another protocol version, or with an unknown opcode, ends
    the session without an ERROR reply, in every state. *)
Theorem bad_version_or_opcode_silent w data :
  HEADER_SIZE ≤ zlen data →
  field 0 1 data ≠ RDOWS_VERSION ∨ Opcode_try_from (field 1 1 data) = None →
  session_item (WsBinary data) w = Ok true w.
Proof using Type*.
  intros Hlen Hbad. cbn [session_item].
  assert (∃ e r, RdowsHeader_decode data = Err e r) as (e & r & Hh).
  { rewrite RdowsHeader_decode_eq. rewrite (proj2 (Z.ltb_ge _ _)) by done.
    destruct Hbad as [Hv|Ho]; [rewrite (proj2 (Z.eqb_neq _ _)) by done; by eexists _, _|].
    destruct (negb _); [by eexists _, _|]. rewrite Ho. by eexists _, _. }
  unfold RdowsMessage_decode. by rewrite (bind_Err _ _ _ _ _ Hh).
Qed.
End checks.

(** ** Requests *)
Section requests.
Context `{BytesCrateLaws, Profile, !OsRng, !OsRngLaws, WsSinkEnv, Clock}.
Context (w : World) (Ho : session_ok (session w)).
Context (e : Z) (Hst : session_state (session w) = Ready)
  (He : expected_remote_seq (session w) = Some e).

(** A message that passes the checks. *)
Definition accepted (m : RdowsMessage) : Prop :=
  h_sequence (RdowsMessage_header m) = e ∧
  h_payload_length (RdowsMessage_header m) ≤ max_msg_size (session w).

Lemma handle_message_accepted m :
  accepted m →
  handle_message m w =
    handle_ready m (on_session (set_expected_remote_seq (Some (wrapping_add 32 e 1))) w).
Proof using Hst He.
  intros [Hs Hlen]. rewrite (handle_message_ready _ _ e) by done. cbn zeta.
  rewrite (proj2 (Z.ltb_ge _ _)) by done. by rewrite Hs, Z.eqb_refl.
Qed.

(** The session after a WRITE was accepted. *)
Definition write_pending (h : RdowsHeader) (p : WritePayload) : World :=
  on_session (set_pending_op (AwaitingWriteData (h_wrid h) (wp_rkey p) (wp_remote_va p) (wp_length p)))
    (on_session (set_expected_remote_seq (Some (wrapping_add 32 e 1))) w).

(** A WRITE with a valid key only becomes the pending operation. *)
Lemma handle_write_accepted h p en :
  accepted (RdowsMessage.Write h p) → region_of (store w) (wp_rkey p) = Some en →
  AccessFlags_contains (e_access_flags en) REMOTE_WRITE = true →
  handle_message (RdowsMessage.Write h p) w = Ok tt (write_pending h p).
Proof using Type*.
  intros Hadm Hr Hf. rewrite (handle_message_accepted _ Hadm).
  cbn [handle_ready dispatch]. unfold handle_write. rewrite attempt_bind.
  unfold on_memory_store, zoom. cbn [session on_session memory_store set_expected_remote_seq].
  rewrite (validate_rkey_eq _ _ _ (so_store _ Ho)), Hr, Hf. done.
Qed.

(** The WRITE_DATA of a pending write. *)
Lemma handle_write_data_accepted h2 d wrid r va len en :
  store_ok (store w) → accepted (RdowsMessage.WriteData h2 d) → pending_op (session w) = AwaitingWriteData wrid r va len →
  0 ≤ va → region_of (store w) r = Some en →
  AccessFlags_contains (e_access_flags en) REMOTE_WRITE = true →
  va + zlen (dp_data d) ≤ zlen (e_data en) →
  handle_message (RdowsMessage.WriteData h2 d) w =
    finish (emit (RdowsMessage.WriteComp (next_hdr Opcode.WriteComp wrid w))
      (on_session (λ s, set_memory_store (put_contents (store w) r
                           (splice (e_data en) (Z.to_nat va) (dp_data d)))
         (set_pending_op NoPending (set_expected_remote_seq (Some (wrapping_add 32 e 1)) s))) w)).
Proof using Hst He.
  intros Hso Hadm Hp Hva Hr Hf Hb. rewrite (handle_message_accepted _ Hadm).
  cbn [handle_ready dispatch]. unfold handle_write_data, take_pending. srun.
  cbn [pending_op session on_session set_expected_remote_seq set_pending_op]. rewrite Hp.
  rewrite attempt_bind. unfold on_memory_store, zoom.
  cbn [session on_session memory_store set_pending_op set_expected_remote_seq set_memory_store].
  rewrite (write_region_eq _ _ _ _ Hso Hva), Hr, Hf. cbn [negb].
  rewrite (proj2 (Z.ltb_ge _ _)) by done. by rewrite (reply_eq _ _ RdowsMessage.WriteComp).
Qed.

(** A READ_REQ, on the success path. *)
Definition read_reply (h : RdowsHeader) (p : ReadReqPayload) (en : MemoryRegionEntry) : RdowsMessage :=
  RdowsMessage.ReadResp (next_hdr Opcode.ReadResp (h_wrid h) w)
    (mkReadResp 0 (take (Z.to_nat (rq_read_len p)) (drop (Z.to_nat (rq_remote_va p)) (e_data en)))).
Lemma handle_read_accepted h p en :
  accepted (RdowsMessage.ReadReq h p) → ReadReqPayload_typed p →
  0 < max_outstanding_reads (session w) →
  region_of (store w) (rq_rkey p) = Some en →
  AccessFlags_contains (e_access_flags en) REMOTE_READ = true →
  rq_remote_va p + rq_read_len p ≤ zlen (e_data en) →
  handle_message (RdowsMessage.ReadReq h p) w =
    finish (emit (read_reply h p en)
      (on_session (set_expected_remote_seq (Some (wrapping_add 32 e 1))) w)).
Proof using Type*.
  intros Hadm (_ & [Hva _] & [Hlen _] & _) Hmax Hr Hf Hb.
  rewrite (handle_message_accepted _ Hadm). cbn [handle_ready dispatch].
  set (w1 := on_session _ w). unfold handle_read_req. srun.
  change (outstanding_reads (session w1)) with (outstanding_reads (session w)).
  rewrite (so_reads _ Ho), (proj2 (Z.leb_gt _ _)) by done.
  unfold add_ovf, sub_ovf. rewrite ovf_bind by done. srun. rewrite attempt_bind.
  unfold on_memory_store, zoom. cbn [session on_session memory_store set_outstanding_reads w1
    set_expected_remote_seq].
  rewrite (read_region_eq _ _ _ _ (so_store _ Ho) Hva Hlen), Hr, Hf. cbn [negb].
  rewrite (proj2 (Z.ltb_ge _ _)) by done.
  rewrite (reply_attempt_bind _ _ (λ h, RdowsMessage.ReadResp h (mkReadResp 0 _))). cbn zeta.
  rewrite ovf_bind by done. srun.
  pose proof (outstanding_restored_emit w1 (0 + 1) Opcode.ReadResp (h_wrid h)
    (λ h, RdowsMessage.ReadResp h (mkReadResp 0 (take (Z.to_nat (rq_read_len p))
       (drop (Z.to_nat (rq_remote_va p)) (e_data en))))) (so_reads _ Ho)) as Hw.
  cbn beta zeta in Hw. change (0 + 1 - 1) with 0.
  change (read_reply h p en) with (RdowsMessage.ReadResp (next_hdr Opcode.ReadResp (h_wrid h) w1)
    (mkReadResp 0 (take (Z.to_nat (rq_read_len p)) (drop (Z.to_nat (rq_remote_va p)) (e_data en))))).
  rewrite <-Hw. unfold finish. cbn [sink on_session emit]. by destruct (ws_send_error _).
Qed.

(** C28: a READ_REQ on a live key that permits remote reads, within the region,
    is answered by exactly one READ_RESP that carries the bytes of the region at
    the requested address, in one piece whatever the negotiated message size;
    the memory does not change and no read stays outstanding. *)
Theorem read_request h p en :
  accepted (RdowsMessage.ReadReq h p) → ReadReqPayload_typed p →
  0 < max_outstanding_reads (session w) →
  region_of (store w) (rq_rkey p) = Some en →
  AccessFlags_contains (e_access_flags en) REMOTE_READ = true →
  rq_remote_va p + rq_read_len p ≤ zlen (e_data en) →
  ∃ w', handle_message (RdowsMessage.ReadReq h p) w = finish w' ∧
    store w' = store w ∧ outstanding_reads (session w') = 0 ∧
    sink w' = sink w ++ [RdowsMessage_encode (RdowsMessage.ReadResp
      (RdowsHeader_new Opcode.ReadResp (session_id (session w)) (next_seq (session w)) (h_wrid h))
      (mkReadResp 0 (take (Z.to_nat (rq_read_len p))
                       (drop (Z.to_nat (rq_remote_va p)) (e_data en)))))].
Proof using Type*. 
  intros Hadm Ht Hmax Hr Hf Hb. eexists.
  split; [by apply (handle_read_accepted h p en)|]. split_and!; [done|apply Ho|done].
 Qed.

(** C40: a SEND that finds the receive queue empty is answered with ERR_RNR and
    the SEND_DATA that follows it is dropped: no completion, no second error, and
    the queue stays as it was. *)
Theorem send_not_ready h p h2 d :
  (∀ log, ws_send_error log = None) →
  accepted (RdowsMessage.Send h p) → recv_queue_depth (session w) = 0 →
  h_sequence h2 = wrapping_add 32 e 1 → h_payload_length h2 ≤ max_msg_size (session w) →
  ∃ w', (_ ← handle_message (RdowsMessage.Send h p);
         handle_message (RdowsMessage.SendData h2 d)) w = Ok tt w' ∧
    sink w' = sink w ++ [RdowsMessage_encode (RdowsMessage.Error
      (RdowsHeader_new Opcode.Error (session_id (session w)) (next_seq (session w)) 0)
      (mkError ErrRnr (h_sequence h) (lit "receiver not ready")))] ∧
    pending_op (session w') = NoPending ∧ recv_queue_depth (session w') = 0 ∧
    store w' = store w.
Proof using Hst He.
  intros Hsink Hadm Hz Hs2 Hl2. unfold mbind, M_bind. rewrite (handle_message_accepted _ Hadm).
  cbn [handle_ready dispatch]. unfold handle_send. srun.
  cbn [session on_session recv_queue_depth set_expected_remote_seq]. rewrite Hz. cbn [Z.eqb].
  rewrite (finish_bind _ _ _ _ (send_error_eq _ _ _ _)), Hsink. unfold assign, modifyS.
  rewrite (handle_message_ready _ _ (wrapping_add 32 e 1)) by done. cbn zeta.
  cbn [RdowsMessage_header]. rewrite (proj2 (Z.ltb_ge _ _)) by done.
  rewrite Hs2, Z.eqb_refl. cbn [handle_ready dispatch]. unfold handle_send_data, take_pending. srun.
  cbn [pending_op session on_session set_expected_remote_seq set_pending_op].
  eexists. split_and!; done.
Qed.

(** The registration rate limit: once [mr_reg_rate_limit] registrations
    were attempted in the current one-second window, an MR_REG is answered with
    a failed acknowledgement (null keys, ERR_INTERNAL) and does not reach the
    memory store; a window older than a second is replaced by a new one. *)
Theorem mr_reg_rate_limited h p :
  accepted (RdowsMessage.MrReg h p) →
  let now := instant_now (clock_reads w) in
  mr_reg_count (session w) = mr_reg_rate_limit (session w) →
  duration_since now (mr_reg_window_start (session w)) < from_secs 1 →
  ∃ w', handle_message (RdowsMessage.MrReg h p) w = finish w' ∧
    store w' = store w ∧ rng_draws w' = rng_draws w ∧
    sink w' = sink w ++ [RdowsMessage_encode (RdowsMessage.MrRegAck
      (RdowsHeader_new Opcode.MrRegAck (session_id (session w)) (next_seq (session w)) (h_wrid h))
      (mkMrRegAck (mr_pd p) 0 0 (u16_from_ErrorCode ErrInternal)))].
Proof using Hst He.
  intros Hadm now Hcount Hwin. rewrite (handle_message_accepted _ Hadm).
  cbn [handle_ready dispatch]. unfold handle_mr_reg. srun.
  cbn [session on_session mr_reg_window_start mr_reg_count mr_reg_rate_limit clock_reads
    set_expected_remote_seq]. fold now.
  rewrite (proj2 (Z.leb_gt _ _)) by done. srun.
  cbn [session on_session mr_reg_window_start mr_reg_count mr_reg_rate_limit
    set_expected_remote_seq]. rewrite Hcount, Z.leb_refl.
  rewrite (reply_eq _ _ (λ h, RdowsMessage.MrRegAck h _)). eexists. by split_and!.
Qed.
End requests.

Section transactions.
Context `{BytesCrateLaws, Profile, !OsRng, !OsRngLaws, WsSinkEnv, Clock}.
Context (w : World) (Ho : session_ok (session w)).
Context (e : Z) (Hst : session_state (session w) = Ready)
  (He : expected_remote_seq (session w) = Some e).

(** C27: a WRITE and the WRITE_DATA after it: if the key is live and permits
    remote writes and the data fits the region, exactly the bytes of the data
    are stored at the WRITE's address (whatever length the WRITE announced), one
    WRITE_COMP with the WRITE's work request identifier is sent, and no
    operation stays pending. *)
Theorem write_transaction h p h2 d en :
  accepted w e (RdowsMessage.Write h p) → WritePayload_typed p →
  h_sequence h2 = wrapping_add 32 e 1 → h_payload_length h2 ≤ max_msg_size (session w) →
  region_of (store w) (wp_rkey p) = Some en →
  AccessFlags_contains (e_access_flags en) REMOTE_WRITE = true →
  wp_remote_va p + zlen (dp_data d) ≤ zlen (e_data en) →
  ∃ w', (_ ← handle_message (RdowsMessage.Write h p);
         handle_message (RdowsMessage.WriteData h2 d)) w = finish w' ∧
    store w' = put_contents (store w) (wp_rkey p)
      (splice (e_data en) (Z.to_nat (wp_remote_va p)) (dp_data d)) ∧
    sink w' = sink w ++ [RdowsMessage_encode (RdowsMessage.WriteComp
      (RdowsHeader_new Opcode.WriteComp (session_id (session w)) (next_seq (session w))
         (h_wrid h)))] ∧
    pending_op (session w') = NoPending ∧
    expected_remote_seq (session w') = Some (wrapping_add 32 (wrapping_add 32 e 1) 1).
Proof using Type*.
  intros Hadm (Hr32 & Hva & Hlen & _) Hs2 Hl2 Hr Hf Hb.
  rewrite (bind_Ok _ _ _ _ _ (handle_write_accepted _ Ho _ Hst He _ _ _ Hadm Hr Hf)).
  rewrite (handle_write_data_accepted (write_pending w e h p)) with (e := wrapping_add 32 e 1)
    (wrid := h_wrid h) (r := wp_rkey p) (va := wp_remote_va p) (len := wp_length p) (en := en);
    [eexists; by split_and!|..]; try done; [apply Ho|apply Hva].
Qed.
End transactions.
