(* ===== verification/SessionWitness.v ===== *)
(** * A session of the server, evaluated

    One conversation of a client with the server on concrete instances of the
    external interfaces: it shows what the session theorems say about it. *)

From S2P Require Import Prelude Externals Utf8 Core Frame Payloads Message MemoryStore.
From S2P Require Import StoreSpec ServerState Handler Session SessionFacts SessionTalk SessionProps.

Module SessionWitness.
Import Concrete.

Definition cfg : ServerConfig := mkConfig 1 4 64 2 8 3.
Definition hdr (op : Opcode) (seq wrid : Z) : RdowsHeader := RdowsHeader_new op 0xABCD seq wrid.
Definition frame (m : RdowsMessage) : WsItem := WsBinary (RdowsMessage_encode m).

Definition connect_msg := RdowsMessage.Connect (hdr Opcode.Connect 7 0) (mkConnect 1 0 1000 16).
Definition reg_msg := RdowsMessage.MrReg (hdr Opcode.MrReg 8 1) (mkMrReg 1 0x1e 16 None).
Definition write_payload := mkWrite 1 4 2 [].
Definition write_msg := RdowsMessage.Write (hdr Opcode.Write 9 2) write_payload.
Definition wdata_msg := RdowsMessage.WriteData (hdr Opcode.WriteData 10 2) (mkData [x0a; x0b]).
Definition read_payload := mkReadReq 1 3 4 0 0.
Definition read_msg := RdowsMessage.ReadReq (hdr Opcode.ReadReq 11 3) read_payload.
Definition send_msg seq := RdowsMessage.Send (hdr Opcode.Send seq 4) (mkSend []).
Definition sdata_msg seq := RdowsMessage.SendData (hdr Opcode.SendData seq 4) (mkData [x01]).
Definition conversation : list WsItem :=
  frame <$> [connect_msg; reg_msg; write_msg; wdata_msg; read_msg;
             send_msg 12; sdata_msg 13; send_msg 14; sdata_msg 15;
             RdowsMessage.Disconnect (hdr Opcode.Disconnect 16 0)].

(** The replies, in order. *)
Definition reply (op : Opcode) (seq wrid : Z) := RdowsHeader_new op 0xABCD seq wrid.
Definition replies : list RdowsMessage :=
  [RdowsMessage.ConnectAck (reply Opcode.ConnectAck 0 0) (mkConnect 1 0 1000 65535);
   RdowsMessage.MrRegAck (reply Opcode.MrRegAck 1 1) (mkMrRegAck 1 1 1 0);
   RdowsMessage.WriteComp (reply Opcode.WriteComp 2 2);
   RdowsMessage.ReadResp (reply Opcode.ReadResp 3 3) (mkReadResp 0 [x00; x0a; x0b; x00]);
   RdowsMessage.RecvComp (reply Opcode.RecvComp 4 4);
   RdowsMessage.Error (reply Opcode.Error 5 0) (mkError ErrRnr 14 (lit "receiver not ready"))].

Definition final_world : World :=
  match run_session cfg conversation with Ok _ w => w | _ => World_new cfg end.

Lemma conversation_runs : run_session cfg conversation = Ok tt final_world.
Proof. by vm_compute. Qed.
Lemma conversation_replies : sink final_world = RdowsMessage_encode <$> replies.
Proof. by vm_compute. Qed.
Lemma cfg_ok : config_ok cfg.
Proof. by split. Qed.
Lemma conversation_fits : stream_fits conversation.
Proof. by vm_compute. Qed.

Lemma session_frames_witness :
  ∃ msgs, sink final_world = RdowsMessage_encode <$> msgs ∧
    ∀ i m, msgs !! i = Some m →
      RdowsMessage_wf m ∧ fits_counts m ∧
      h_sequence (RdowsMessage_header m) = Z.of_nat i mod 2 ^ 32 ∧
      h_session_id (RdowsMessage_header m) = session_id (session final_world).
Proof.
  apply (session_frames cfg conversation cfg_ok final_world conversation_fits), conversation_runs.
Defined.

Lemma session_memory_refines_witness :
  ∃ ms tr out,
    sink final_world = RdowsMessage_encode <$> out ∧ Forall (λ m, RdowsMessage_wf m ∧ fits_counts m) out ∧
    ms `prefix_of` omap decoded conversation ∧ talk ms tr out ∧
    spec_steps (abs (MemoryStore_new 4 64)) tr (abs (store final_world)) ∧ NoDup (acked_keys out).
Proof.
  apply (session_memory_refines cfg conversation cfg_ok final_world conversation_fits), conversation_runs.
Defined.

(** A second registration, whose length makes the total overflow. *)
Definition huge_msg := RdowsMessage.MrReg (hdr Opcode.MrReg 9 1) (mkMrReg 1 0x1e (2 ^ 64 - 1) None).
Definition crash : list WsItem := frame <$> [connect_msg; reg_msg; huge_msg].
Lemma session_panic_cause_witness :
  run_session cfg crash = Panic ∧
  ∃ data, WsBinary data ∈ crash ∧
    (underflow_input data ∨
     ∃ h p r, RdowsMessage_decode data = Ok (RdowsMessage.MrReg h p) r ∧ 2 ^ 64 - 64 ≤ mr_region_len p).
Proof.
  assert (run_session cfg crash = Panic) as Hp by (vm_compute; reflexivity). split; [done|].
  destruct (session_panic_cause cfg crash cfg_ok Hp) as [Hd|[[n Hn]|Hr]]; [done|done|].
  assert (registrations crash = 2) as Hc by (vm_compute; reflexivity). rewrite Hc in Hr. lia.
Defined.

Lemma session_send_accounts_witness :
  ∃ msgs, sink final_world = RdowsMessage_encode <$> msgs ∧ Forall (λ m, RdowsMessage_wf m ∧ fits_counts m) msgs ∧
    total completion_of msgs ≤ 1 ∧ total credit_of msgs ≤ total completion_of msgs ∧
    (1 < DEFAULT_ICC / 4 → Forall (λ m, opcode_of m ≠ Opcode.CreditUpdate) msgs).
Proof.
  apply (session_send_accounts cfg conversation cfg_ok final_world conversation_fits), conversation_runs.
Defined.

(** An established session that expects sequence number 9 and holds the region
    of [StoreWitness], with [depth] receives left and [count] registrations in
    the current window. *)
Definition ready (depth count : Z) : World :=
  mkWorld (mkSession Ready 0xABCD 1 1000 2 StoreWitness.store1 NoPending depth (Some 9) 0
             DEFAULT_ICC 0 2 count 0 3) [] 1 2.
Lemma ready_ok depth count :
  0 ≤ depth < 2 ^ 32 → 0 ≤ count ≤ 3 → session_ok (session (ready depth count)).
Proof. intros. split; try done. apply StoreWitness.store1_ok. Qed.

Lemma sequence_check_witness :
  handle_message (sdata_msg 11) (ready 1 1) =
    finish (emit (RdowsMessage.Error (next_hdr Opcode.Error 0 (ready 1 1))
                    (mkError ErrSeqGap 11 (lit "expected seq 9, got 11"))) (ready 1 1)).
Proof. exact (sequence_check (ready 1 1) (sdata_msg 11) 9 eq_refl eq_refl). Defined.

(** An oversized SEND_DATA, then a DISCONNECT. *)
Definition big_msg := RdowsMessage.SendData (hdr Opcode.SendData 9 4) (mkData (replicate 1001 x00)).
Definition bye_msg := RdowsMessage.Disconnect (hdr Opcode.Disconnect 10 0).
Definition sized_header (m : RdowsMessage) : RdowsMessage :=
  set_header (with_payload_length (zlen (RdowsMessage_encode_payload m)) (RdowsMessage_header m)) m.

Lemma oversized_message_wedges_witness :
  ∃ errs q, Forall refusal errs ∧ length errs = 2%nat ∧
    session_loop [frame big_msg; frame bye_msg] (ready 1 1) =
      Ok tt (mkWorld (set_next_seq q (session (ready 1 1)))
               ([] ++ (RdowsMessage_encode <$> errs)) 1 2).
Proof.
  apply (oversized_message_wedges (ready 1 1) 9 [frame big_msg; frame bye_msg]
    (sized_header big_msg) [sized_header bye_msg]); try done.
  - repeat constructor; eexists _, []; (split; [reflexivity|by vm_compute]).
  - intros [|[|i]] m; [intros [= <-]; done..|by intros].
Defined.

Lemma connect_first_witness :
  run_session cfg (frame reg_msg :: conversation) = Ok tt (World_new cfg).
Proof.
  apply (connect_first cfg (RdowsMessage_encode reg_msg) conversation); [|by vm_compute].
  intros h p r. assert (∃ m r', RdowsMessage_decode (RdowsMessage_encode reg_msg) = Ok m r' ∧
    opcode_of m = Opcode.MrReg) as (m & r' & -> & Hop) by (eexists _, _; by vm_compute).
  intros [= -> _]. done.
Defined.

Lemma handshake_witness :
  ∃ w', session_item (frame connect_msg) (World_new cfg) = Ok false w' ∧
    sink w' = [RdowsMessage_encode (RdowsMessage.ConnectAck (reply Opcode.ConnectAck 0 0)
                 (mkConnect 1 0 1000 65535))] ∧
    session_state (session w') = Ready ∧ max_msg_size (session w') = 1000 ∧
    expected_remote_seq (session w') = Some 8 ∧ store w' = MemoryStore_new 4 64.
Proof.
  eapply (handshake cfg (RdowsMessage_encode connect_msg)
    (with_payload_length 16 (hdr Opcode.Connect 7 0)) (mkConnect 1 0 1000 16) []);
    [done|by vm_compute].
Defined.

Lemma bad_version_or_opcode_silent_witness :
  session_item (WsBinary (replicate 24 x02)) (ready 1 1) = Ok true (ready 1 1).
Proof.
  apply bad_version_or_opcode_silent; [done|]. left. by vm_compute.
Defined.

Lemma write_transaction_witness :
  ∃ w', (_ ← handle_message write_msg; handle_message wdata_msg) (ready 1 1) = finish w' ∧
    store w' = put_contents StoreWitness.store1 1 (splice (replicate 16 x00) 4 [x0a; x0b]).
Proof.
  assert (0 ≤ 1 < 2 ^ 32 ∧ 0 ≤ 1 ≤ 3) as [H1 H2] by lia.
  destruct (write_transaction (ready 1 1) (ready_ok 1 1 H1 H2) 9 eq_refl eq_refl
    (hdr Opcode.Write 9 2) write_payload (hdr Opcode.WriteData 10 2) (mkData [x0a; x0b])
    StoreWitness.entry1) as (w' & Hrun & Hst & _); try done.
  exists w'. by split.
Defined.

Lemma read_request_witness :
  ∃ w', handle_message (RdowsMessage.ReadReq (hdr Opcode.ReadReq 9 3) read_payload) (ready 1 1)
      = finish w' ∧
    sink w' = [RdowsMessage_encode (RdowsMessage.ReadResp (reply Opcode.ReadResp 2 3)
      (mkReadResp 0 [x00; x00; x00; x00]))].
Proof.
  assert (0 ≤ 1 < 2 ^ 32 ∧ 0 ≤ 1 ≤ 3) as [H1 H2] by lia.
  destruct (read_request (ready 1 1) (ready_ok 1 1 H1 H2) 9 eq_refl eq_refl
    (hdr Opcode.ReadReq 9 3) read_payload StoreWitness.entry1)
    as (w' & Hrun & _ & _ & Hs); try done.
  exists w'. by split.
Defined.

Lemma send_not_ready_witness :
  ∃ w', (_ ← handle_message (send_msg 9); handle_message (sdata_msg 10)) (ready 0 1) = Ok tt w' ∧
    sink w' = [RdowsMessage_encode (RdowsMessage.Error (reply Opcode.Error 2 0)
      (mkError ErrRnr 9 (lit "receiver not ready")))].
Proof.
  destruct (send_not_ready (ready 0 1) 9 eq_refl eq_refl (hdr Opcode.Send 9 4) (mkSend [])
    (hdr Opcode.SendData 10 4) (mkData [x01])) as (w' & Hrun & Hs & _); try done.
  exists w'. by split.
Defined.

Lemma mr_reg_rate_limited_witness :
  ∃ w', handle_message (RdowsMessage.MrReg (hdr Opcode.MrReg 9 1) (mkMrReg 1 0x1e 16 None))
      (ready 1 3) = finish w' ∧ store w' = StoreWitness.store1.
Proof.
  destruct (mr_reg_rate_limited (ready 1 3) 9 eq_refl eq_refl (hdr Opcode.MrReg 9 1)
    (mkMrReg 1 0x1e 16 None)) as (w' & Hrun & Hs & _); try done.
  exists w'. by split.
Defined.
End SessionWitness.
