(* ===== verification/Tracker.v ===== *)
(** * Accepting connections ([rdows-server/src/lib.rs])

    [run_server] spawns one task per TCP connection; the tasks share the table of
    session counts per address and interleave at their awaits.  The critical
    sections on the table are functions; the tasks are a step relation whose
    phases are the awaits of [handle_connection]. *)

From stdpp Require Import relations.
From S2P Require Import Prelude.
From S2P Require Import Externals.

(** Where a connection task waits: for the TLS handshake, for the WebSocket
    handshake, or for [run_session]; or how it ended. *)
Inductive Phase : Set := TlsAccept | WsAccept | Running | Returned | Panicked.
#[export] Instance Phase_eq_dec : EqDecision Phase.
Proof. solve_decision. Defined.

Section tracker.
Context `{Profile} {Ip : Type} `{Countable Ip}.

(** [HashMap<IpAddr, u32>] behind the mutex. *)
#[local] Abbreviation SessionTracker := (gmap Ip Z).

(** [let count = tracker.entry(ip).or_insert(0); if *count >= max { return Err }; *count += 1] *)
Definition enter_session (max_sessions_per_ip : Z) (ip : Ip) : M SessionTracker unit unit :=
  tracker ← getS;
  let count := default 0 (tracker !! ip) in
  _ ← modifyS (λ t, <[ip := count]> t);
  if max_sessions_per_ip <=? count then throw tt else
  count' ← add_ovf 32 count 1;
  modifyS (λ t, <[ip := count']> t).

(** [if let Some(count) = tracker.get_mut(&ip) { *count -= 1; if *count == 0 { remove } }] *)
Definition leave_session (ip : Ip) : M SessionTracker unit unit :=
  tracker ← getS;
  match tracker !! ip with
  | None => mret tt
  | Some count =>
      count' ← sub_ovf 32 count 1;
      if count' =? 0 then modifyS (λ t, delete ip t) else modifyS (λ t, <[ip := count']> t)
  end.

(** The table and the tasks spawned so far. *)
Record Accepting := mkAccepting { tracker : SessionTracker; tasks : list (Ip * Phase) }.

(** One step of some task.  A session that panics unwinds its task: the code
    after [run_session] does not run. *)
Inductive step (max : Z) : Accepting → Accepting → Prop :=
| step_enter ip t t' ts :
    enter_session max ip t = Ok tt t' →
    step max (mkAccepting t ts) (mkAccepting t' (ts ++ [(ip, TlsAccept)]))
| step_refuse ip t t' ts :
    enter_session max ip t = Err tt t' →
    step max (mkAccepting t ts) (mkAccepting t' (ts ++ [(ip, Returned)]))
| step_tls_ok i ip t ts :
    ts !! i = Some (ip, TlsAccept) →
    step max (mkAccepting t ts) (mkAccepting t (<[i := (ip, WsAccept)]> ts))
| step_tls_error i ip t t' ts :
    ts !! i = Some (ip, TlsAccept) → leave_session ip t = Ok tt t' →
    step max (mkAccepting t ts) (mkAccepting t' (<[i := (ip, Returned)]> ts))
| step_ws_ok i ip t ts :
    ts !! i = Some (ip, WsAccept) →
    step max (mkAccepting t ts) (mkAccepting t (<[i := (ip, Running)]> ts))
| step_ws_error i ip t t' ts :
    ts !! i = Some (ip, WsAccept) → leave_session ip t = Ok tt t' →
    step max (mkAccepting t ts) (mkAccepting t' (<[i := (ip, Returned)]> ts))
| step_session_end i ip t t' ts :
    ts !! i = Some (ip, Running) → leave_session ip t = Ok tt t' →
    step max (mkAccepting t ts) (mkAccepting t' (<[i := (ip, Returned)]> ts))
| step_session_panic i ip t ts :
    ts !! i = Some (ip, Running) →
    step max (mkAccepting t ts) (mkAccepting t (<[i := (ip, Panicked)]> ts)).

Definition Accepting_new : Accepting := mkAccepting ∅ [].
Definition reachable (max : Z) (st : Accepting) : Prop := rtc (step max) Accepting_new st.

(** ** Accounting *)

(** The tasks of an address that entered and did not leave. *)
Definition counted (ip : Ip) (t : Ip * Phase) : bool :=
  bool_decide (t.1 = ip) && negb (bool_decide (t.2 = Returned)).
Definition holders (ip : Ip) (ts : list (Ip * Phase)) : Z :=
  foldr (λ t n, (if counted ip t then 1 else 0) + n) 0 ts.
Arguments holders : simpl never.
Definition count_of (ip : Ip) (t : SessionTracker) : Z := default 0 (t !! ip).

Lemma holders_cons ip t l : holders ip (t :: l) = (if counted ip t then 1 else 0) + holders ip l.
Proof using Type. reflexivity. Qed.
Lemma holders_one ip t : holders ip [t] = if counted ip t then 1 else 0.
Proof using Type. rewrite holders_cons. unfold holders. cbn. lia. Qed.
Lemma holders_app ip l k : holders ip (l ++ k) = holders ip l + holders ip k.
Proof using Type. unfold holders. induction l as [|t l IH]; cbn; lia. Qed.
Lemma holders_nonneg ip l : 0 ≤ holders ip l.
Proof using Type. unfold holders. induction l as [|t l IH]; cbn; [lia|]. destruct (counted ip t); lia. Qed.
Lemma holders_insert ip ts i t t' :
  ts !! i = Some t →
  holders ip (<[i := t']> ts) + (if counted ip t then 1 else 0) =
  holders ip ts + (if counted ip t' then 1 else 0).
Proof using Type.
  intros Hi. rewrite <-(take_drop_middle ts i t Hi) at 2.
  rewrite insert_take_drop by (by eapply lookup_lt_Some). rewrite !holders_app, !holders_cons. lia.
Qed.

Lemma counted_same ip p : counted ip (ip, p) = negb (bool_decide (p = Returned)).
Proof using Type. unfold counted. cbn. by rewrite bool_decide_eq_true_2. Qed.
Lemma counted_other ip ip' p : ip ≠ ip' → counted ip' (ip, p) = false.
Proof using Type. intros. unfold counted. cbn. by rewrite bool_decide_eq_false_2. Qed.

(** The table counts exactly the tasks that entered and did not leave. *)
Record accounted (max : Z) (st : Accepting) : Prop := {
  ac_count ip : count_of ip (tracker st) = holders ip (tasks st);
  ac_max ip : count_of ip (tracker st) ≤ max;
}.

Lemma count_of_insert ip ip' v t :
  count_of ip' (<[ip := v]> t) = if decide (ip = ip') then v else count_of ip' t.
Proof using Type. unfold count_of. rewrite lookup_insert. by case_decide. Qed.
Lemma count_of_delete ip ip' t :
  count_of ip' (delete ip t) = if decide (ip = ip') then 0 else count_of ip' t.
Proof using Type. unfold count_of. rewrite lookup_delete. by case_decide. Qed.

(** [leave_session] takes one off a positive count and never underflows. *)
Lemma leave_session_eq ip t :
  0 < count_of ip t < 2 ^ 32 →
  ∃ t', leave_session ip t = Ok tt t' ∧
    ∀ ip', count_of ip' t' = if decide (ip = ip') then count_of ip t - 1 else count_of ip' t.
Proof using Type.
  intros Hc. unfold leave_session. rewrite (bind_Ok getS _ _ _ _ eq_refl).
  unfold count_of in Hc. destruct (t !! ip) as [n|] eqn:Hn; cbn in Hc; [|lia].
  unfold sub_ovf. rewrite ovf_bind by (unfold uN; lia).
  assert (count_of ip t = n) as Hct by (unfold count_of; by rewrite Hn).
  destruct (Z.eqb_spec (n - 1) 0); eexists; (split; [reflexivity|]); intros ip'.
  - rewrite count_of_delete. case_decide; [lia|done].
  - rewrite count_of_insert. case_decide; [lia|done].
Qed.
Lemma enter_session_eq max ip t :
  0 ≤ count_of ip t < 2 ^ 32 → max < 2 ^ 32 →
  match enter_session max ip t with
  | Ok _ t' => count_of ip t < max ∧
      ∀ ip', count_of ip' t' = if decide (ip = ip') then count_of ip t + 1 else count_of ip' t
  | Err _ t' => max ≤ count_of ip t ∧ ∀ ip', count_of ip' t' = count_of ip' t
  | Panic => False
  end.
Proof using Type.
  intros Hc Hm. unfold enter_session. rewrite (bind_Ok getS _ _ _ _ eq_refl).
  rewrite (bind_Ok (modifyS _) _ _ _ _ eq_refl). fold (count_of ip t).
  destruct (Z.leb_spec max (count_of ip t)).
  - split; [done|]. intros ip'. rewrite count_of_insert. by case_decide; subst.
  - unfold add_ovf. rewrite ovf_bind by (unfold uN; lia). split; [done|]. intros ip'.
    rewrite !count_of_insert. by case_decide.
Qed.

Lemma accounted_leave max t ts i ip p t' :
  p ≠ Returned → max < 2 ^ 32 → accounted max (mkAccepting t ts) → ts !! i = Some (ip, p) →
  leave_session ip t = Ok tt t' → accounted max (mkAccepting t' (<[i := (ip, Returned)]> ts)).
Proof using Type.
  intros Hp Hm [Hc Hmax] Hi Hl. cbn in *.
  assert (∀ ip', holders ip' (<[i := (ip, Returned)]> ts) =
    holders ip' ts - (if decide (ip = ip') then 1 else 0)) as Hh.
  { intros ip'. pose proof (holders_insert ip' ts i _ (ip, Returned) Hi) as He.
    case_decide; subst; [rewrite !counted_same in He|rewrite !counted_other in He by done]; [|lia].
    rewrite (bool_decide_eq_false_2 (p = _)), bool_decide_eq_true_2 in He by done. cbn in He. lia. }
  assert (0 < count_of ip t < 2 ^ 32) as Hr.
  { pose proof (Hmax ip) as Hle. pose proof (Hh ip) as Hhi. rewrite decide_True in Hhi by done.
    pose proof (holders_nonneg ip (<[i := (ip, Returned)]> ts)).
    rewrite Hc in Hle |- *. lia. }
  destruct (leave_session_eq ip t Hr) as (t1 & Hl1 & Hc1). rewrite Hl in Hl1. injection Hl1 as <-.
  split; cbn; intros ip'; rewrite Hc1; specialize (Hmax ip'); specialize (Hc ip');
    rewrite ?Hh; case_decide; subst; lia.
Qed.

Lemma accounted_move max t ts i ip p p' :
  p ≠ Returned → p' ≠ Returned → accounted max (mkAccepting t ts) → ts !! i = Some (ip, p) →
  accounted max (mkAccepting t (<[i := (ip, p')]> ts)).
Proof using Type.
  intros Hp Hp' [Hc Hmax] Hi. split; cbn in *; [|done]. intros ip'. rewrite Hc.
  pose proof (holders_insert ip' ts i _ (ip, p') Hi) as He.
  destruct (decide (ip = ip')) as [<-|]; [rewrite !counted_same in He|rewrite !counted_other in He by done]; [|lia].
  rewrite !bool_decide_eq_false_2 in He by done. cbn in He. lia.
Qed.

Lemma step_accounted max st st' :
  max < 2 ^ 32 → accounted max st → step max st st' → accounted max st'.
Proof using Type.
  intros Hm Ha Hs. destruct Hs as [ip t t' ts He|ip t t' ts He|i ip t ts Hi|i ip t t' ts Hi Hl
    |i ip t ts Hi|i ip t t' ts Hi Hl|i ip t t' ts Hi Hl|i ip t ts Hi];
    try (by eapply accounted_move; [| |exact Ha|exact Hi]);
    try (by eapply accounted_leave; [| |exact Ha|exact Hi|exact Hl]).
  - destruct Ha as [Hc Hmax]; cbn in *. pose proof (holders_nonneg ip ts).
    pose proof (enter_session_eq max ip t) as Hn. rewrite He in Hn.
    destruct Hn as [Hlt Hn]; [rewrite Hc; specialize (Hmax ip); rewrite Hc in Hmax; lia|done|].
    split; cbn; intros ip'; rewrite Hn; specialize (Hmax ip'); specialize (Hc ip');
      rewrite ?holders_app, ?holders_one; case_decide; subst;
      rewrite ?counted_same, ?counted_other by done; rewrite ?bool_decide_eq_false_2 by done; cbn; lia.
  - destruct Ha as [Hc Hmax]; cbn in *. pose proof (holders_nonneg ip ts).
    pose proof (enter_session_eq max ip t) as Hn. rewrite He in Hn.
    destruct Hn as [Hlt Hn]; [rewrite Hc; specialize (Hmax ip); rewrite Hc in Hmax; lia|done|].
    split; cbn; intros ip'; rewrite Hn; [|done]. rewrite holders_app, holders_one, Hc.
    unfold counted. cbn. rewrite andb_false_r. lia.
Qed.

Lemma reachable_accounted max st :
  0 ≤ max < 2 ^ 32 → reachable max st → accounted max st.
Proof using Type.
  intros Hm. unfold reachable. apply (rtc_ind_r (λ st, accounted max st)).
  - split; cbn; intros ip; unfold count_of, holders; rewrite lookup_empty; cbn; lia.
  - intros st1 st2 _ Hs Ha. eapply step_accounted; [lia|done|done].
Qed.

(** A panicked task is never resumed. *)
Definition panicked (ip : Ip) (ts : list (Ip * Phase)) : Z :=
  foldr (λ t n, (if bool_decide (t = (ip, Panicked)) then 1 else 0) + n) 0 ts.
Arguments panicked : simpl never.

Lemma panicked_app ip l k : panicked ip (l ++ k) = panicked ip l + panicked ip k.
Proof using Type. unfold panicked. induction l as [|t l IH]; cbn; lia. Qed.
Lemma panicked_cons ip t l :
  panicked ip (t :: l) = (if bool_decide (t = (ip, Panicked)) then 1 else 0) + panicked ip l.
Proof using Type. reflexivity. Qed.
Lemma panicked_insert ip ts i t t' :
  ts !! i = Some t → t.2 ≠ Panicked → panicked ip ts ≤ panicked ip (<[i := t']> ts).
Proof using Type.
  intros Hi Ht. rewrite <-(take_drop_middle ts i t Hi) at 1.
  rewrite insert_take_drop by (by eapply lookup_lt_Some). rewrite !panicked_app, !panicked_cons.
  rewrite (bool_decide_eq_false_2 (t = _)) by (intros ->; done). case_bool_decide; lia.
Qed.
Lemma panicked_le_holders ip ts : panicked ip ts ≤ holders ip ts.
Proof using Type.
  induction ts as [|t ts IH]; [done|]. rewrite panicked_cons, holders_cons.
  case_bool_decide as Ht; [subst; rewrite counted_same, bool_decide_eq_false_2 by done; cbn; lia|].
  destruct (counted ip t); lia.
Qed.
Lemma step_panicked max st st' ip :
  step max st st' → panicked ip (tasks st) ≤ panicked ip (tasks st').
Proof using Type.
  intros []; cbn; try (by eapply panicked_insert);
    rewrite panicked_app, panicked_cons; unfold panicked at 3; cbn; case_bool_decide; lia.
Qed.
Lemma steps_panicked max st st' ip :
  rtc (step max) st st' → panicked ip (tasks st) ≤ panicked ip (tasks st').
Proof using Type.
  induction 1 as [|st1 st2 st3 Hs _ IH]; [done|]. etrans; [by eapply step_panicked|done].
Qed.

(** Every task of [handle_connection] can always take its next step: the
    bookkeeping on leaving neither underflows nor panics. *)
Lemma leave_total max t ts i ip p :
  max < 2 ^ 32 → accounted max (mkAccepting t ts) → ts !! i = Some (ip, p) → p ≠ Returned →
  ∃ t', leave_session ip t = Ok tt t'.
Proof using Type.
  intros Hm [Hc Hmax] Hi Hp. cbn in *.
  pose proof (holders_insert ip ts i _ (ip, Returned) Hi) as He.
  rewrite !counted_same, bool_decide_eq_false_2, bool_decide_eq_true_2 in He by done. cbn in He.
  pose proof (holders_nonneg ip (<[i := (ip, Returned)]> ts)). specialize (Hc ip); specialize (Hmax ip).
  destruct (leave_session_eq ip t) as (t' & -> & _); [lia|by eexists].
Qed.

(** C21: however connections interleave, the table holds for each address exactly
    the number of tasks that were admitted and have not run their exit code, this
    number never exceeds the configured maximum, and the exit code of a task that
    is still alive always succeeds: the counter neither underflows nor overflows. *)
Theorem tracker_accounting max st :
  0 ≤ max < 2 ^ 32 → reachable max st →
  (∀ ip, count_of ip (tracker st) = holders ip (tasks st) ∧ holders ip (tasks st) ≤ max) ∧
  (∀ i ip p, tasks st !! i = Some (ip, p) → p ≠ Returned →
    ∃ t', leave_session ip (tracker st) = Ok tt t') ∧
  (∀ ip, match enter_session max ip (tracker st) with
         | Ok _ _ => holders ip (tasks st) < max
         | Err _ _ => holders ip (tasks st) = max
         | Panic => False
         end).
Proof using Type.
  intros Hm Hr. pose proof (reachable_accounted max st Hm Hr) as Ha.
  pose proof Ha as [Hc Hmax]. split; [|split].
  - intros ip. rewrite <-Hc. by split.
  - intros i ip p. destruct st. by apply leave_total with max; [lia|].
  - intros ip. specialize (Hc ip); specialize (Hmax ip). pose proof (holders_nonneg ip (tasks st)).
    pose proof (enter_session_eq max ip (tracker st)) as He.
    destruct (enter_session _ _ _); [destruct He; lia|destruct He; lia|apply He; lia].
Qed.

(** C38: a session task that panics keeps its slot: once [max] tasks of an address
    have panicked, every later connection from that address is refused, however
    many of its other sessions end. *)
Theorem panicked_sessions_lock_out max st ip :
  0 ≤ max < 2 ^ 32 → reachable max st → max ≤ panicked ip (tasks st) →
  ∀ st', rtc (step max) st st' → ∃ t', enter_session max ip (tracker st') = Err tt t'.
Proof using Type.
  intros Hm Hr Hp st' Hs. assert (reachable max st') as Hr' by (unfold reachable; by etrans).
  destruct (reachable_accounted max st' Hm Hr') as [Hc Hmax]. specialize (Hc ip); specialize (Hmax ip).
  pose proof (steps_panicked max st st' ip Hs). pose proof (panicked_le_holders ip (tasks st')).
  pose proof (holders_nonneg ip (tasks st')).
  pose proof (enter_session_eq max ip (tracker st')) as He.
  destruct (enter_session _ _ _) as [?|[] t'|]; [destruct He; lia|by eexists|exfalso; apply He; lia].
Qed.
End tracker.

(** ** Witnesses *)

Module TrackerWitness.
#[local] Existing Instance Concrete.debug_build.

(** With a limit of one: address 7 connects and its session panics. *)
Definition crashed : Accepting (Ip := Z) := mkAccepting {[ 7 := 1 ]} [(7, Panicked)].
Lemma crashed_reachable : reachable 1 crashed.
Proof.
  eapply rtc_l; [by apply (step_enter 1 7 ∅ {[ 7 := 1 ]})|].
  eapply rtc_l; [by apply (step_tls_ok 1 0 7)|].
  eapply rtc_l; [by apply (step_ws_ok 1 0 7)|].
  eapply rtc_l; [by apply (step_session_panic 1 0 7)|]. apply rtc_refl.
Qed.
Lemma tracker_accounting_witness :
  count_of 7 (tracker crashed) = holders 7 (tasks crashed) ∧
  holders 7 (tasks crashed) ≤ 1.
Proof. apply (tracker_accounting 1 crashed); [lia|apply crashed_reachable]. Defined.
Lemma panicked_sessions_lock_out_witness :
  ∃ t', enter_session 1 7 (tracker crashed) = Err tt t'.
Proof.
  apply (panicked_sessions_lock_out 1 crashed 7) with (st' := crashed);
    [lia|apply crashed_reachable|vm_compute; congruence|apply rtc_refl].
Defined.
End TrackerWitness.
