(* ===== verification/Client.v ===== *)
(** * The client connection ([rdows-client/src/lib.rs], [connection.rs], [completion.rs])

    The peer of a client is any state machine that reacts to the binary messages
    it is sent ([Peer]); what it answers waits in [inbox] until the client reads
    the stream.  A receive on an empty inbox whose stream has not ended never
    returns: this is the stop [Waiting], which no code of the client catches. *)

From S2P Require Import Prelude Externals Utf8 Core Frame Payloads Message.

(** The reaction of the other side to one [sink.send]: the error of the call, if
    any, the items that reach the stream, and whether the stream then ends. *)
Record Reaction (P : Type) := mkReaction {
  re_error : option (list byte);
  re_items : list WsItem;
  re_ended : bool;
  re_peer : P;
}.
Arguments mkReaction {P} _ _ _ _.
Arguments re_error {P} _.
Arguments re_items {P} _.
Arguments re_ended {P} _.
Arguments re_peer {P} _.
Class Peer (P : Type) : Type := peer_react : list byte → P → Reaction P.

(** Why a client call does not return a value. *)
Inductive Stop : Type :=
| Failed (e : RdowsError)
| Waiting.

(** ** [completion.rs] *)
Record CompletionQueue := mkCq { entries : list CompletionQueueEntry; capacity : Z }.

(** [VecDeque::with_capacity] of 24-byte entries. *)
Definition CompletionQueue_new {S E} (capacity : Z) : M S E CompletionQueue :=
  _ ← vec_with_capacity 24 capacity; mret (mkCq [] capacity).
Definition CompletionQueue_push (q : CompletionQueue) (cqe : CompletionQueueEntry)
    : bool * CompletionQueue :=
  if capacity q <=? zlen (entries q) then (false, q)
  else (true, mkCq (entries q ++ [cqe]) (capacity q)).
Definition CompletionQueue_poll_cq (q : CompletionQueue) (max : Z)
    : list CompletionQueueEntry * CompletionQueue :=
  let n := Z.to_nat (Z.min max (zlen (entries q))) in
  (take n (entries q), mkCq (drop n (entries q)) (capacity q)).
Definition CompletionQueue_len (q : CompletionQueue) : Z := zlen (entries q).
Definition CompletionQueue_is_empty (q : CompletionQueue) : bool :=
  match entries q with [] => true | _ => false end.
Definition CompletionQueue_is_full (q : CompletionQueue) : bool :=
  capacity q <=? zlen (entries q).

(** ** The state of a connection *)
Definition DEFAULT_CQ_CAPACITY : Z := 65536.

(** [struct MemoryRegionHandle] of [verbs.rs] *)
Record MemoryRegionHandle := mkHandle {
  mh_lkey : LKey;
  mh_rkey : RKey;
  mh_len : Z;
  mh_local_buf : list byte;
}.

(** [struct ConnectionParams] *)
Record ConnectionParams := mkParams {
  prm_session_id : Z;
  prm_pd : ProtectionDomain;
  prm_max_msg_size : Z;
  prm_initial_remote_seq : Z;
  prm_icc : Z;
}.

(** The fields of [struct RdowsConnection] other than its two stream halves. *)
Record RdowsConnection := mkConn {
  c_session_id : Z;
  c_pd : ProtectionDomain;
  c_max_msg_size : Z;
  c_next_seq : Z;
  c_expected_remote_seq : option Z;
  send_credits : Z;
  cq : CompletionQueue;
  local_mrs : gmap Z MemoryRegionHandle;
}.

(** The stream halves [sink] and [stream], and the peer behind them. *)
Record Wire (P : Type) := mkWire { inbox : list WsItem; ended : bool; wire_peer : P }.
Arguments mkWire {P} _ _ _.
Arguments inbox {P} _.
Arguments ended {P} _.
Arguments wire_peer {P} _.
Record Client (P : Type) := mkClient { conn : RdowsConnection; wire : Wire P }.
Arguments mkClient {P} _ _.
Arguments conn {P} _.
Arguments wire {P} _.

(** Assignments to the fields of [self]. *)
Definition set_c_next_seq v c :=
  mkConn (c_session_id c) (c_pd c) (c_max_msg_size c) v (c_expected_remote_seq c)
    (send_credits c) (cq c) (local_mrs c).
Definition set_c_expected v c :=
  mkConn (c_session_id c) (c_pd c) (c_max_msg_size c) (c_next_seq c) v
    (send_credits c) (cq c) (local_mrs c).
Definition set_credits v c :=
  mkConn (c_session_id c) (c_pd c) (c_max_msg_size c) (c_next_seq c) (c_expected_remote_seq c)
    v (cq c) (local_mrs c).
Definition set_cq v c :=
  mkConn (c_session_id c) (c_pd c) (c_max_msg_size c) (c_next_seq c) (c_expected_remote_seq c)
    (send_credits c) v (local_mrs c).
Definition set_local_mrs v c :=
  mkConn (c_session_id c) (c_pd c) (c_max_msg_size c) (c_next_seq c) (c_expected_remote_seq c)
    (send_credits c) (cq c) v.

Section wire.
Context `{BytesCrate, Profile} {P : Type} `{!Peer P}.

(** [connection::send_message] *)
Definition send_message (msg : RdowsMessage) : M (Wire P) Stop unit := λ w,
  let data := RdowsMessage_encode msg in
  let r := peer_react data (wire_peer w) in
  let w' := mkWire (inbox w ++ re_items r) (ended w || re_ended r) (re_peer r) in
  match re_error r with
  | Some e => Err (Failed (WebSocket e)) w'
  | None => Ok tt w'
  end.

(** [connection::recv_message]: the loop over the items that have arrived. *)
Fixpoint recv_items (p : P) (fin : bool) (items : list WsItem)
    : outcome (Wire P) Stop RdowsMessage :=
  match items with
  | [] => Err (if fin then Failed SessionClosed else Waiting) (mkWire [] fin p)
  | WsBinary data :: rest =>
      match RdowsMessage_decode data with
      | Ok m _ => Ok m (mkWire rest fin p)
      | Err e _ => Err (Failed e) (mkWire rest fin p)
      | Panic => Panic
      end
  | WsClose :: rest => Err (Failed SessionClosed) (mkWire rest fin p)
  | WsOther :: rest => recv_items p fin rest
  | WsError e :: rest => Err (Failed (WebSocket e)) (mkWire rest fin p)
  end.
Definition recv_message : M (Wire P) Stop RdowsMessage := λ w,
  recv_items (wire_peer w) (ended w) (inbox w).

(** The part of [connection::connect] that speaks the protocol, from the choice of
    a session identifier by the [n]-th draw of the random source. *)
Definition connect_session `{!OsRng} (n : nat) : M (Wire P) Stop ConnectionParams :=
  buf ← or_panic (os_rng_fill n);
  let session_id := be_value buf in
  let connect_header := RdowsHeader_new Opcode.Connect session_id 0 0 in
  let connect_payload := mkConnect 1 0 DEFAULT_MAX_MSG_SIZE DEFAULT_ICC in
  let connect_msg := RdowsMessage.Connect connect_header connect_payload in
  _ ← send_message connect_msg;
  ack ← recv_message;
  match ack with
  | RdowsMessage.ConnectAck ack_header payload =>
      let max_msg_size := Z.min (cp_max_msg_size payload) DEFAULT_MAX_MSG_SIZE in
      mret (mkParams session_id (cp_pd payload) max_msg_size
              (wrapping_add 32 (h_sequence ack_header) 1) (cp_icc payload))
  | RdowsMessage.Error _ err => throw (Failed (Protocol (ep_error_code err)))
  | other =>
      throw (Failed (UnexpectedMessage (lit "CONNECT_ACK") (h_opcode (RdowsMessage_header other))))
  end.

(** [connect_with_config] after [connection::connect] returned. *)
Definition open_connection (cq_capacity : Z) (params : ConnectionParams)
    : M (Wire P) Stop RdowsConnection :=
  q ← CompletionQueue_new cq_capacity;
  mret {| c_session_id := prm_session_id params;
          c_pd := prm_pd params;
          c_max_msg_size := prm_max_msg_size params;
          c_next_seq := 1;
          c_expected_remote_seq := Some (prm_initial_remote_seq params);
          send_credits := prm_icc params;
          cq := q;
          local_mrs := ∅ |}.
(** [connect_with_config] once the stream is open ([Negotiation.v] has the steps
    before). *)
Definition connect_with_config `{!OsRng} (n : nat) (cq_capacity : Z)
    : M (Wire P) Stop RdowsConnection :=
  params ← connect_session n;
  open_connection cq_capacity params.

(** *** Methods of [RdowsConnection] *)
Definition upd (f : RdowsConnection → RdowsConnection) : M (Client P) Stop unit :=
  modifyS (λ c, mkClient (f (conn c)) (wire c)).
Definition self {A} (f : RdowsConnection → A) : M (Client P) Stop A :=
  c ← getS; mret (f (conn c)).
Definition on_wire {A} (m : M (Wire P) Stop A) : M (Client P) Stop A :=
  zoom wire (λ w c, mkClient (conn c) w) m.

Definition next_header (opcode : Opcode) (wrid : Z) : M (Client P) Stop RdowsHeader :=
  seq ← self c_next_seq;
  _ ← upd (set_c_next_seq (wrapping_add 32 seq 1));
  sid ← self c_session_id;
  mret (RdowsHeader_new opcode sid seq wrid).

Definition disconnect : M (Client P) Stop unit :=
  header ← next_header Opcode.Disconnect 0;
  on_wire (send_message (RdowsMessage.Disconnect header)).

Definition poll_cq (max : Z) : M (Client P) Stop (list CompletionQueueEntry) :=
  q ← self cq;
  let '(out, q') := CompletionQueue_poll_cq q max in
  _ ← upd (set_cq q'); mret out.

Definition set_send_credits (credits : Z) : M (Client P) Stop unit := upd (set_credits credits).

Definition validate_remote_seq (msg : RdowsMessage) : M (Client P) Stop unit :=
  e ← self c_expected_remote_seq;
  let seq := h_sequence (RdowsMessage_header msg) in
  let continue := upd (set_c_expected (Some (wrapping_add 32 seq 1))) in
  match e with
  | Some expected =>
      if negb (seq =? expected) then throw (Failed (Protocol ErrSeqGap)) else continue
  | None => continue
  end.

(** One turn of the loop of [recv_app_message]: [None] is [continue]. *)
Definition recv_app_turn : M (Client P) Stop (option RdowsMessage) :=
  resp ← on_wire recv_message;
  _ ← validate_remote_seq resp;
  match resp with
  | RdowsMessage.CreditUpdate _ payload =>
      credits ← self send_credits;
      credits' ← add_ovf 32 credits (cu_credit_increment payload);
      _ ← upd (set_credits credits');
      mret None
  | other => mret (Some other)
  end.

(** [self.cq.push(cqe)], whose result the callers drop. *)
Definition cq_push (cqe : CompletionQueueEntry) : M (Client P) Stop unit :=
  q ← self cq; upd (set_cq (CompletionQueue_push q cqe).2).

(** Every turn consumes an item of the inbox or stops ([recv_app_turn_shrinks]), so
    the length of the inbox plus one is enough fuel; out of fuel is [Panic], which
    [recv_app_loop_fuel] excludes. *)
Fixpoint recv_app_loop (fuel : nat) : M (Client P) Stop RdowsMessage :=
  match fuel with
  | O => panic
  | S fuel' =>
      r ← recv_app_turn;
      match r with Some m => mret m | None => recv_app_loop fuel' end
  end.
Definition recv_app_message : M (Client P) Stop RdowsMessage := λ c,
  recv_app_loop (S (length (inbox (wire c)))) c.

Definition send_and_recv (msg : RdowsMessage) : M (Client P) Stop RdowsMessage :=
  _ ← on_wire (send_message msg);
  recv_app_message.
End wire.
