(* ===== verification/Verbs.v ===== *)
(** * The verbs of the client ([rdows-client/src/verbs.rs])

    One definition per verb; [?] on a [Result] is the bind, and a slice or
    addition that would panic is [or_panic] or [add_ovf]. *)

From S2P Require Import Prelude Externals Utf8 Core Frame Payloads Message Client.

Section verbs.
Context `{BytesCrate, Profile} {P : Type} `{!Peer P}.

Definition fail {A} (code : ErrorCode) : M (Client P) Stop A := throw (Failed (Protocol code)).
(** [ErrorCode::try_from(status).unwrap_or(ErrorCode::ErrInternal)] *)
Definition status_error (status : Z) : ErrorCode :=
  default ErrInternal (ErrorCode_try_from status).
Definition unexpected {A} (expected : list byte) (other : RdowsMessage) : M (Client P) Stop A :=
  throw (Failed (UnexpectedMessage expected (h_opcode (RdowsMessage_header other)))).

Definition reg_mr (access_flags : AccessFlags) (region_len : Z)
    : M (Client P) Stop MemoryRegionHandle :=
  header ← next_header Opcode.MrReg 0;
  pd ← self c_pd;
  let payload := mkMrReg pd access_flags region_len None in
  let msg := RdowsMessage.MrReg header payload in
  resp ← send_and_recv msg;
  match resp with
  | RdowsMessage.MrRegAck _ ack =>
      if negb (ra_status ack =? 0) then fail (status_error (ra_status ack)) else
      local_buf ← vec_zeroed region_len;
      mrs ← self local_mrs;
      _ ← upd (set_local_mrs
                 (<[ra_lkey ack := mkHandle (ra_lkey ack) (ra_rkey ack) region_len local_buf]> mrs));
      local_buf' ← vec_zeroed region_len;
      mret (mkHandle (ra_lkey ack) (ra_rkey ack) region_len local_buf')
  | RdowsMessage.Error _ err => fail (ep_error_code err)
  | other => unexpected (lit "MR_REG_ACK") other
  end.

Definition dereg_mr (lkey : LKey) : M (Client P) Stop unit :=
  header ← next_header Opcode.MrDereg 0;
  pd ← self c_pd;
  let payload := mkMrDereg pd lkey in
  let msg := RdowsMessage.MrDereg header payload in
  resp ← send_and_recv msg;
  match resp with
  | RdowsMessage.MrDeregAck _ ack =>
      if negb (da_status ack =? 0) then fail (status_error (da_status ack)) else
      mrs ← self local_mrs;
      upd (set_local_mrs (delete lkey mrs))
  | RdowsMessage.Error _ err => fail (ep_error_code err)
  | other => unexpected (lit "MR_DEREG_ACK") other
  end.

(** [for sg in sg_list { .. result.extend_from_slice(..) }] *)
Fixpoint gather_loop (sg_list : list ScatterGatherEntry) (result : list byte)
    : M (Client P) Stop (list byte) :=
  match sg_list with
  | [] => mret result
  | sg :: rest =>
      mrs ← self local_mrs;
      mr ← ok_or (mrs !! sg_lkey sg) (Failed (Protocol ErrInvalidLkey));
      let start := sg_offset sg in
      stop ← add_ovf 64 start (sg_length sg);
      if zlen (mh_local_buf mr) <? stop then fail ErrBounds else
      bytes ← or_panic (slice (mh_local_buf mr) start stop);
      gather_loop rest (result ++ bytes)
  end.
Definition gather_sg_data (sg_list : list ScatterGatherEntry) : M (Client P) Stop (list byte) :=
  gather_loop sg_list [].

Definition post_send (wrid : Z) (sg_list : list ScatterGatherEntry) : M (Client P) Stop unit :=
  q ← self cq;
  if CompletionQueue_is_full q then fail ErrCqOverflow else
  credits ← self send_credits;
  if credits =? 0 then throw (Failed SendCreditsExhausted) else
  data ← gather_sg_data sg_list;
  let total_len := wrap 32 (zlen data) in
  header ← next_header Opcode.Send wrid;
  let send_payload := mkSend sg_list in
  _ ← on_wire (send_message (RdowsMessage.Send header send_payload));
  data_header ← next_header Opcode.SendData wrid;
  let data_payload := mkData data in
  _ ← on_wire (send_message (RdowsMessage.SendData data_header data_payload));
  resp ← recv_app_message;
  match resp with
  | RdowsMessage.RecvComp _ =>
      credits ← self send_credits;
      credits' ← sub_ovf 32 credits 1;
      _ ← upd (set_credits credits');
      sid ← self c_session_id;
      cq_push (mkCqe wrid 0 Opcode.Send 0 total_len sid)
  | RdowsMessage.Error _ err =>
      sid ← self c_session_id;
      _ ← cq_push (mkCqe wrid (u16_from_ErrorCode (ep_error_code err)) Opcode.Send 0 0 sid);
      fail (ep_error_code err)
  | other => unexpected (lit "RECV_COMP") other
  end.

Definition rdma_write (wrid : Z) (rkey : RKey) (remote_va : Z) (sg_list : list ScatterGatherEntry)
    : M (Client P) Stop unit :=
  q ← self cq;
  if CompletionQueue_is_full q then fail ErrCqOverflow else
  data ← gather_sg_data sg_list;
  let total_len := zlen data in
  header ← next_header Opcode.Write wrid;
  let write_payload := mkWrite rkey remote_va total_len sg_list in
  _ ← on_wire (send_message (RdowsMessage.Write header write_payload));
  data_header ← next_header Opcode.WriteData wrid;
  let data_payload := mkData data in
  _ ← on_wire (send_message (RdowsMessage.WriteData data_header data_payload));
  resp ← recv_app_message;
  match resp with
  | RdowsMessage.WriteComp _ =>
      sid ← self c_session_id;
      cq_push (mkCqe wrid 0 Opcode.Write 0 (wrap 32 total_len) sid)
  | RdowsMessage.Error _ err =>
      sid ← self c_session_id;
      _ ← cq_push (mkCqe wrid (u16_from_ErrorCode (ep_error_code err)) Opcode.Write 0 0 sid);
      fail (ep_error_code err)
  | other => unexpected (lit "WRITE_COMP") other
  end.

Definition rdma_read (wrid : Z) (rkey : RKey) (remote_va read_len : Z) (local_lkey : LKey)
    (local_va : Z) : M (Client P) Stop unit :=
  q ← self cq;
  if CompletionQueue_is_full q then fail ErrCqOverflow else
  header ← next_header Opcode.ReadReq wrid;
  let payload := mkReadReq rkey remote_va read_len local_lkey local_va in
  _ ← on_wire (send_message (RdowsMessage.ReadReq header payload));
  resp ← recv_app_message;
  match resp with
  | RdowsMessage.ReadResp _ resp_payload =>
      mrs ← self local_mrs;
      mr ← ok_or (mrs !! local_lkey) (Failed (Protocol ErrInvalidLkey));
      let start := local_va in
      stop ← add_ovf 64 start (zlen (rr_data resp_payload));
      if zlen (mh_local_buf mr) <? stop then fail ErrBounds else
      buf ← or_panic (slice_copy (mh_local_buf mr) start stop (rr_data resp_payload));
      _ ← upd (set_local_mrs
                 (<[local_lkey := mkHandle (mh_lkey mr) (mh_rkey mr) (mh_len mr) buf]> mrs));
      sid ← self c_session_id;
      cq_push (mkCqe wrid 0 Opcode.ReadReq 0 (wrap 32 (zlen (rr_data resp_payload))) sid)
  | RdowsMessage.Error _ err =>
      sid ← self c_session_id;
      _ ← cq_push (mkCqe wrid (u16_from_ErrorCode (ep_error_code err)) Opcode.ReadReq 0 0 sid);
      fail (ep_error_code err)
  | other => unexpected (lit "READ_RESP") other
  end.

Definition post_atomic (wrid : Z) (rkey : RKey) (remote_va atomic_type operand1 operand2 : Z)
    : M (Client P) Stop Z :=
  q ← self cq;
  if CompletionQueue_is_full q then fail ErrCqOverflow else
  header ← next_header Opcode.AtomicReq wrid;
  let payload := mkAtomicReq rkey atomic_type remote_va operand1 operand2 in
  _ ← on_wire (send_message (RdowsMessage.AtomicReq header payload));
  resp ← recv_app_message;
  match resp with
  | RdowsMessage.AtomicResp _ resp_payload =>
      sid ← self c_session_id;
      _ ← cq_push (mkCqe wrid 0 Opcode.AtomicReq 0 8 sid);
      mret (ap_original_value resp_payload)
  | RdowsMessage.Error _ err =>
      sid ← self c_session_id;
      _ ← cq_push (mkCqe wrid (u16_from_ErrorCode (ep_error_code err)) Opcode.AtomicReq 0 0 sid);
      fail (ep_error_code err)
  | other => unexpected (lit "ATOMIC_RESP") other
  end.
Definition atomic_cas (wrid : Z) (rkey : RKey) (remote_va compare swap : Z)
    : M (Client P) Stop Z :=
  post_atomic wrid rkey remote_va ATOMIC_TYPE_CAS compare swap.
Definition atomic_faa (wrid : Z) (rkey : RKey) (remote_va addend : Z) : M (Client P) Stop Z :=
  post_atomic wrid rkey remote_va ATOMIC_TYPE_FAA addend 0.

Definition write_local_mr (lkey : LKey) (offset : Z) (data : list byte)
    : M (Client P) Stop unit :=
  mrs ← self local_mrs;
  mr ← ok_or (mrs !! lkey) (Failed (Protocol ErrInvalidLkey));
  stop ← add_ovf 64 offset (zlen data);
  if zlen (mh_local_buf mr) <? stop then fail ErrBounds else
  buf ← or_panic (slice_copy (mh_local_buf mr) offset stop data);
  upd (set_local_mrs (<[lkey := mkHandle (mh_lkey mr) (mh_rkey mr) (mh_len mr) buf]> mrs)).

Definition read_local_mr (lkey : LKey) (offset len : Z) : M (Client P) Stop (list byte) :=
  mrs ← self local_mrs;
  mr ← ok_or (mrs !! lkey) (Failed (Protocol ErrInvalidLkey));
  stop ← add_ovf 64 offset len;
  if zlen (mh_local_buf mr) <? stop then fail ErrBounds else
  or_panic (slice (mh_local_buf mr) offset stop).
End verbs.
