(* ===== verification/ClientFacts.v ===== *)
(** * Facts about the client

    Symbolic execution of the client's primitives, the fuel of the receive loop,
    and what every verb guarantees against an arbitrary peer. *)

From S2P Require Import Prelude Externals Utf8 Core Frame Payloads Message Client Verbs.

Section primitives.
Context `{BytesCrate, Profile} {P : Type} `{!Peer P}.
Implicit Types c : Client P.

Lemma self_bind {A B} (f : RdowsConnection → A) (k : A → M (Client P) Stop B) c :
  (self f ≫= k) c = k (f (conn c)) c.
Proof using Type. done. Qed.
Lemma upd_bind {B} f (k : unit → M (Client P) Stop B) c :
  (upd f ≫= k) c = k tt (mkClient (f (conn c)) (wire c)).
Proof using Type. done. Qed.

(** The header the next message gets, and the connection after it is taken. *)
Definition next_hdr (op : Opcode) (wrid : Z) (c : RdowsConnection) : RdowsHeader :=
  RdowsHeader_new op (c_session_id c) (c_next_seq c) wrid.
Definition bump (c : RdowsConnection) : RdowsConnection :=
  set_c_next_seq (wrapping_add 32 (c_next_seq c) 1) c.
Lemma next_header_bind {B} op wrid (k : RdowsHeader → M (Client P) Stop B) c :
  (next_header op wrid ≫= k) c = k (next_hdr op wrid (conn c)) (mkClient (bump (conn c)) (wire c)).
Proof using Type. done. Qed.

(** The wire after a message was sent. *)
Definition sent (m : RdowsMessage) (w : Wire P) : Wire P :=
  let r := peer_react (RdowsMessage_encode m) (wire_peer w) in
  mkWire (inbox w ++ re_items r) (ended w || re_ended r) (re_peer r).
Definition send_error_of (m : RdowsMessage) (w : Wire P) : option (list byte) :=
  re_error (peer_react (RdowsMessage_encode m) (wire_peer w)).
Lemma send_bind {B} m (k : unit → M (Client P) Stop B) c :
  (on_wire (send_message m) ≫= k) c =
    match send_error_of m (wire c) with
    | Some e => Err (Failed (WebSocket e)) (mkClient (conn c) (sent m (wire c)))
    | None => k tt (mkClient (conn c) (sent m (wire c)))
    end.
Proof using Type.
  unfold mbind, M_bind, on_wire, zoom, send_message, send_error_of, sent.
  by destruct (re_error _).
Qed.

(** *** The receive loop *)
Lemma recv_items_shrinks (p : P) fin items m w :
  recv_items p fin items = Ok m w → (length (inbox w) < length items)%nat.
Proof using Type.
  induction items as [|[data| | |e] items IH]; cbn; try done.
  - destruct (RdowsMessage_decode data); [|done|done]. intros [= _ <-]. cbn. lia.
  - intros Hi%IH. lia.
Qed.

Lemma recv_app_turn_shrinks c c' :
  recv_app_turn c = Ok None c' → (length (inbox (wire c')) < length (inbox (wire c)))%nat.
Proof using Type.
  unfold recv_app_turn. intros (m & c1 & Hr & Hrest)%bind_Ok_inv.
  assert (length (inbox (wire c1)) < length (inbox (wire c)))%nat as Hlt.
  { unfold on_wire, zoom, recv_message in Hr.
    destruct (recv_items _ _ _) as [m' w| |] eqn:Hi; try done. injection Hr as -> <-.
    by apply recv_items_shrinks in Hi. }
  apply bind_Ok_inv in Hrest as (u & c2 & Hv & Hk).
  assert (wire c2 = wire c1) as Hw.
  { unfold validate_remote_seq in Hv. rewrite self_bind in Hv. unfold upd, modifyS, throw in Hv.
    repeat case_match; by simplify_eq. }
  destruct m; try done. rewrite self_bind in Hk. apply bind_Ok_inv in Hk as (v & c3 & Ha & Hk).
  unfold add_ovf, ovf, mret, M_ret, panic in Ha.
  assert (c3 = c2) as -> by (repeat case_match; by simplify_eq).
  rewrite upd_bind in Hk. injection Hk as <-. cbn. by rewrite Hw.
Qed.

(** More fuel than items does not change the loop: it never runs out. *)
Lemma recv_app_loop_fuel f1 f2 c :
  (length (inbox (wire c)) < f1)%nat → (length (inbox (wire c)) < f2)%nat →
  recv_app_loop f1 c = recv_app_loop f2 c.
Proof using Type.
  revert f2 c. induction f1 as [|f1 IH]; intros [|f2] c H1 H2; try lia. cbn [recv_app_loop].
  unfold mbind, M_bind. destruct (recv_app_turn c) as [[m|] c'| |] eqn:Ht; try done.
  apply recv_app_turn_shrinks in Ht. apply IH; lia.
Qed.

(** One receive, as the loop of the source: read, check, and continue after a
    CREDIT_UPDATE. *)
Lemma recv_app_message_eq c :
  recv_app_message c =
    (r ← recv_app_turn; match r with Some m => mret m | None => recv_app_message end) c.
Proof using Type.
  unfold recv_app_message at 1. cbn [recv_app_loop]. unfold mbind, M_bind.
  destruct (recv_app_turn c) as [[m|] c'| |] eqn:Ht; try done.
  apply recv_app_turn_shrinks in Ht. unfold recv_app_message. apply recv_app_loop_fuel; lia.
Qed.

(** *** Frames *)

(** Calls that leave the completion queue, the regions and the identity alone. *)
Definition frame (c c' : Client P) : Prop :=
  cq (conn c') = cq (conn c) ∧ local_mrs (conn c') = local_mrs (conn c) ∧
  c_session_id (conn c') = c_session_id (conn c) ∧ c_pd (conn c') = c_pd (conn c).
#[export] Instance frame_preorder : PreOrder frame.
Proof. split; unfold frame; repeat intro; intuition congruence. Qed.

Lemma steps_self {A} (f : RdowsConnection → A) : steps frame (self f).
Proof using Type. unfold self. eauto with rdows_steps typeclass_instances. Qed.
Lemma steps_upd f : (∀ c : RdowsConnection, cq (f c) = cq c ∧ local_mrs (f c) = local_mrs c ∧
    c_session_id (f c) = c_session_id c ∧ c_pd (f c) = c_pd c) → steps frame (upd f).
Proof using Type. intros Hf. apply steps_modifyS. intros c. apply Hf. Qed.
Lemma steps_on_wire {A} (m : M (Wire P) Stop A) : steps frame (on_wire m).
Proof using Type.
  intros c. unfold post, on_wire, zoom. by destruct (m (wire c)).
Qed.
Lemma steps_frame_ovf w r : steps frame (ovf w r : M (Client P) Stop Z).
Proof using Type. apply steps_ovf, _. Qed.

(** Frame a monadic definition, primitive by primitive. *)
Ltac frame_tac :=
  repeat first
    [ apply steps_self | apply steps_on_wire | apply steps_frame_ovf | by apply steps_upd
    | apply steps_ret; apply _ | apply steps_throw; apply _ | apply steps_ok_or; apply _
    | apply steps_or_panic; apply _ | case_match
    | apply steps_bind; [apply _| |intros ?] ].

Lemma steps_next_header op wrid : steps frame (next_header op wrid).
Proof using Type. unfold next_header. frame_tac. Qed.
Lemma steps_validate m : steps frame (validate_remote_seq m).
Proof using Type. unfold validate_remote_seq. frame_tac. Qed.
Lemma steps_recv_app_turn : steps frame recv_app_turn.
Proof using Type.
  unfold recv_app_turn, add_ovf. apply steps_bind; [apply _|apply steps_on_wire|]. intros m.
  apply steps_bind; [apply _|apply steps_validate|]. intros []. frame_tac.
Qed.
Lemma steps_recv_app_message : steps frame recv_app_message.
Proof using Type.
  assert (∀ fuel, steps frame (recv_app_loop fuel)) as Hf; [|intros c; apply Hf].
  induction fuel as [|fuel IH]; [apply steps_panic|]. cbn [recv_app_loop].
  apply steps_bind; [apply _|apply steps_recv_app_turn|]. intros [m|]; [apply steps_ret; apply _|done].
Qed.
Lemma steps_gather sg_list : steps frame (gather_sg_data sg_list).
Proof using Type.
  unfold gather_sg_data. generalize (@nil byte). induction sg_list as [|sg l IH]; intros acc;
    cbn [gather_loop]; unfold add_ovf, fail; frame_tac. apply IH.
Qed.
End primitives.

Create HintDb client_frame.
#[export] Hint Resolve steps_self steps_next_header steps_on_wire steps_recv_app_message
  steps_gather steps_frame_ovf : client_frame.
