(* ===== verification/ClientProps.v ===== *)
(** * Theorems about the client

    What the verbs promise to the application against an arbitrary peer: one
    completion per completed work request, credits, sequence numbers, and the
    bounds of local memory. *)

From S2P Require Import Prelude Externals Utf8 Core Frame Payloads Message Client Verbs.
From S2P Require Import ClientFacts.

(** What a data verb does to the completion queue. *)
Definition completion_spec {P A} (wrid : Z) (op : Opcode) (c : Client P) (r : Stop + A)
    (c' : Client P) : Prop :=
  let before := entries (cq (conn c)) in
  let after := entries (cq (conn c')) in
  let sid := c_session_id (conn c) in
  capacity (cq (conn c')) = capacity (cq (conn c)) ∧
  (zlen before ≤ capacity (cq (conn c)) → zlen after ≤ capacity (cq (conn c'))) ∧
  match r with
  | inr _ => ∃ n, after = before ++ [mkCqe wrid 0 op 0 n sid]
  | inl (Failed (Protocol code)) =>
      after = before ∨ after = before ++ [mkCqe wrid (u16_from_ErrorCode code) op 0 0 sid]
  | inl _ => after = before
  end.

Section completions.
Context `{BytesCrate, Profile} {P : Type} `{!Peer P}.
Implicit Types c : Client P.

(** The queue and the identity as the verb found them. *)
Definition qframe (c c' : Client P) : Prop :=
  cq (conn c') = cq (conn c) ∧ c_session_id (conn c') = c_session_id (conn c).

(** A framed call, relative to the state the verb started in. *)
Lemma frame_bind {A B} (m : M (Client P) Stop A) (k : A → M (Client P) Stop B) Q c0 c :
  steps frame m → qframe c0 c →
  (∀ e c', qframe c0 c' → Q (inl e) c') → (∀ a c', qframe c0 c' → post (k a) Q c') →
  post (m ≫= k) Q c.
Proof using Type.
  intros Hm [Hq Hs] He Hk. eapply post_steps_bind; [exact Hm|..]; intros x c' (Hq' & _ & Hs' & _);
    [apply He|apply Hk]; split; congruence.
Qed.

Lemma completion_frame {A} wrid op c c' (e : Stop) :
  qframe c c' → completion_spec wrid op c (@inl Stop A e) c'.
Proof using Type.
  intros (Hq & _). unfold completion_spec. rewrite Hq. split_and!; [done|done|].
  by destruct e as [[]|]; try done; left.
Qed.

Lemma post_self {A B} (f : RdowsConnection → A) (k : A → M (Client P) Stop B) Q c :
  post (k (f (conn c))) Q c → post (self f ≫= k) Q c.
Proof using Type. done. Qed.

(** The push of a verb never finds the queue full. *)
Lemma post_push {A} wrid op st n (k : unit → M (Client P) Stop A) Q c0 c :
  qframe c0 c → CompletionQueue_is_full (cq (conn c0)) = false →
  (∀ c', cq (conn c') = mkCq (entries (cq (conn c0)) ++ [mkCqe wrid st op 0 n
           (c_session_id (conn c0))]) (capacity (cq (conn c0))) →
     (zlen (entries (cq (conn c'))) ≤ capacity (cq (conn c'))) → post (k tt) Q c') →
  post (sid ← self c_session_id; _ ← cq_push (mkCqe wrid st op 0 n sid); k tt) Q c.
Proof using Type.
  intros (Hq & Hs) Hfull Hk. unfold post. rewrite self_bind. unfold cq_push.
  rewrite bind_assoc, self_bind, upd_bind. unfold CompletionQueue_is_full in Hfull.
  apply Hk; cbn; unfold CompletionQueue_push; rewrite Hq, ?Hs, Hfull; [done|].
  apply Z.leb_gt in Hfull. cbn. rewrite zlen_app. unfold zlen in *. cbn. lia.
Qed.

(** The end of every data verb when the peer answers with an ERROR. *)
Lemma post_error_reply {A} wrid op code c0 c :
  qframe c0 c → CompletionQueue_is_full (cq (conn c0)) = false →
  post (sid ← self c_session_id;
        _ ← cq_push (mkCqe wrid (u16_from_ErrorCode code) op 0 0 sid);
        (fail code : M (Client P) Stop A)) (completion_spec wrid op c0) c.
Proof using Type.
  intros Hf Hfull. apply (post_push _ _ _ _ (λ _, fail code) _ c0); [done|done|].
  intros c' Hq Hcap. apply post_throw. unfold completion_spec. rewrite Hq in *. by split_and!; [..|right].
Qed.
Lemma post_success {A} wrid op n (a : A) c0 c :
  qframe c0 c → CompletionQueue_is_full (cq (conn c0)) = false →
  post (sid ← self c_session_id; _ ← cq_push (mkCqe wrid 0 op 0 n sid); mret a)
    (completion_spec wrid op c0) c.
Proof using Type.
  intros Hf Hfull. apply (post_push _ _ _ _ (λ _, mret a) _ c0); [done|done|].
  intros c' Hq Hcap. apply post_ret. unfold completion_spec. rewrite Hq in *. by split_and!; [..|eexists].
Qed.
Lemma post_unexpected {A} wrid op name m c0 c :
  qframe c0 c → post (unexpected name m : M (Client P) Stop A) (completion_spec wrid op c0) c.
Proof using Type. intros Hf. apply post_throw. by apply completion_frame. Qed.

(** One framed step of a verb. *)
Ltac verb_step Hf c :=
  eapply frame_bind; [auto with client_frame|exact Hf|by intros; apply completion_frame|];
  clear Hf; intros ? c Hf.

(** C19: against any peer, a data verb that returns success has added exactly one
    completion, with the caller's work request identifier, status 0 and its own
    opcode; a verb that fails has added none, or one whose status is the error it
    returns.  No completion is dropped and the queue never exceeds its capacity. *)
Theorem verbs_complete wrid c :
  (∀ sg_list, post (post_send wrid sg_list) (completion_spec wrid Opcode.Send c) c) ∧
  (∀ rkey va sg_list, post (rdma_write wrid rkey va sg_list) (completion_spec wrid Opcode.Write c) c) ∧
  (∀ rkey va len lkey lva,
     post (rdma_read wrid rkey va len lkey lva) (completion_spec wrid Opcode.ReadReq c) c) ∧
  (∀ rkey va ty o1 o2,
     post (post_atomic wrid rkey va ty o1 o2) (completion_spec wrid Opcode.AtomicReq c) c).
Proof using Type.
  assert (qframe c c) as Hf by done.
  split_and!; intros *; [unfold post_send|unfold rdma_write|unfold rdma_read|unfold post_atomic];
    apply post_self; destruct (CompletionQueue_is_full (cq (conn c))) eqn:Hfull;
    try (by apply post_throw, completion_frame).
  - apply post_self. destruct (send_credits (conn c) =? 0); [by apply post_throw, completion_frame|].
    verb_step Hf c1. verb_step Hf c2. verb_step Hf c3. verb_step Hf c4. verb_step Hf c5.
    verb_step Hf c6. destruct a4; try (by apply post_unexpected); [|by apply post_error_reply].
    unfold sub_ovf. verb_step Hf c7. verb_step Hf c8.
    eapply frame_bind; [by apply steps_upd|exact Hf|by intros; apply completion_frame|].
    intros [] c9 Hf9. by apply (post_success _ _ _ tt).
  - verb_step Hf c1. verb_step Hf c2. verb_step Hf c3. verb_step Hf c4. verb_step Hf c5.
    verb_step Hf c6. destruct a4; try (by apply post_unexpected); [|by apply post_error_reply].
    by apply (post_success _ _ _ tt).
  - verb_step Hf c1. verb_step Hf c2. verb_step Hf c3.
    destruct a1; try (by apply post_unexpected); [|by apply post_error_reply].
    apply post_self. eapply frame_bind;
      [apply steps_ok_or, _|exact Hf|by intros; apply completion_frame|]. clear Hf. intros mr c4 Hf.
    unfold add_ovf. verb_step Hf c5. case_match; [by apply post_throw, completion_frame|].
    eapply frame_bind; [apply steps_or_panic, _|exact Hf|by intros; apply completion_frame|].
    clear Hf. intros buf c6 [Hq Hs]. unfold post at 1. rewrite upd_bind.
    by apply (post_success _ _ _ tt).
  - verb_step Hf c1. verb_step Hf c2. verb_step Hf c3.
    destruct a1; try (by apply post_unexpected); [|by apply post_error_reply].
    by apply post_success.
Qed.
End completions.

(** ** Credits *)

(** The credits granted by the frames of a stream prefix. *)
Definition item_credit `{BytesCrate, Profile} (item : WsItem) : Z :=
  match item with
  | WsBinary data =>
      match RdowsMessage_decode data with
      | Ok (RdowsMessage.CreditUpdate _ p) _ => cu_credit_increment p
      | _ => 0
      end
  | _ => 0
  end.
Definition credits_in `{BytesCrate, Profile} (items : list WsItem) : Z :=
  foldr (λ i n, item_credit i + n) 0 items.

Section credits.
Context `{BytesCrate, Profile} {P : Type} `{!Peer P}.
Implicit Types c : Client P.

Lemma credits_in_app l k : credits_in (l ++ k) = credits_in l + credits_in k.
Proof using Type. unfold credits_in. induction l as [|i l IH]; cbn; lia. Qed.

Lemma credits_in_skipped k : credits_in (replicate k WsOther) = 0.
Proof using Type. unfold credits_in. induction k as [|k IH]; cbn; lia. Qed.

Lemma recv_message_Ok (w w' : Wire P) m :
  recv_message w = Ok m w' →
  ∃ k data r, inbox w = replicate k WsOther ++ WsBinary data :: inbox w' ∧
    RdowsMessage_decode data = Ok m r ∧ ended w' = ended w ∧ wire_peer w' = wire_peer w.
Proof using Type.
  unfold recv_message. destruct w as [items fin p]. cbn [inbox ended wire_peer].
  induction items as [|[data| | |e] items IH]; cbn [recv_items]; try done.
  - destruct (RdowsMessage_decode data) as [m' r| |] eqn:Hd; try done. intros [= -> <-].
    by exists 0%nat, data, r.
  - intros (k & data & r & Hi & ?)%IH. exists (S k), data, r. cbn. by rewrite Hi.
Qed.

(** The effect of [credits += g] in both build profiles. *)
Definition credited (before g after : Z) : Prop :=
  after = wrap 32 (before + g) ∧ (overflow_checks = true → after = before + g).

Lemma credited_0 v : u32 v → credited v 0 v.
Proof using Type. intros Hv. split; [by rewrite Z.add_0_r, wrap_id|lia]. Qed.
Lemma credited_trans a g b h d : credited a g b → credited b h d → credited a (g + h) d.
Proof using Type.
  intros [-> Hg] [-> Hh]. split.
  - unfold wrap. rewrite Z.add_mod_idemp_l by done. f_equal. lia.
  - intros Hp. rewrite (Hh Hp), (Hg Hp). lia.
Qed.
Lemma credited_u32 a g b : credited a g b → u32 b.
Proof using Type. intros [-> _]. by apply wrap_range. Qed.

(** One turn of the receive loop. *)
Lemma recv_app_turn_Ok c r c' :
  u32 (send_credits (conn c)) → recv_app_turn c = Ok r c' →
  ∃ pre, inbox (wire c) = pre ++ inbox (wire c') ∧
    credited (send_credits (conn c)) (credits_in pre) (send_credits (conn c')) ∧
    match r with Some m => opcode_of m ≠ Opcode.CreditUpdate | None => True end.
Proof using Type.
  intros Hu. unfold recv_app_turn. intros (m & c1 & Hr & Hrest)%bind_Ok_inv.
  unfold on_wire, zoom in Hr. destruct (recv_message (wire c)) as [m' w1| |] eqn:Hm; try done.
  injection Hr as -> <-. apply recv_message_Ok in Hm as (k & data & r0 & Hi & Hd & _).
  apply bind_Ok_inv in Hrest as (u & c2 & Hv & Hk).
  assert (wire c2 = w1 ∧ send_credits (conn c2) = send_credits (conn c)) as [Hw2 Hc2].
  { unfold validate_remote_seq in Hv. rewrite self_bind in Hv. unfold upd, modifyS, throw in Hv.
    repeat case_match; by simplify_eq. }
  exists (replicate k WsOther ++ [WsBinary data]).
  assert (credits_in (replicate k WsOther ++ [WsBinary data]) =
    match m with RdowsMessage.CreditUpdate _ p => cu_credit_increment p | _ => 0 end) as ->.
  { rewrite credits_in_app, credits_in_skipped. cbn. rewrite Hd. destruct m; cbn; lia. }
  destruct m; try (unfold mret, M_ret in Hk; simplify_eq; rewrite Hi, Hc2, <-app_assoc;
    by split_and!; [|apply credited_0|]).
  rewrite self_bind in Hk. unfold add_ovf, ovf in Hk.
  apply bind_Ok_inv in Hk as (v & c3 & Ha & Hk). rewrite upd_bind in Hk. injection Hk as <- <-.
  assert (c3 = c2 ∧ credited (send_credits (conn c2)) (cu_credit_increment p) v) as [-> Hcr].
  { unfold credited. destruct (decide _) as [Hin|_]; [|destruct overflow_checks]; try done;
      unfold mret, M_ret in Ha; simplify_eq; (split; [done|]); [by rewrite wrap_id|done]. }
  cbn. rewrite Hi, Hw2, <-app_assoc, <-Hc2. done.
Qed.

Lemma recv_app_message_Ok c m c' :
  u32 (send_credits (conn c)) → recv_app_message c = Ok m c' →
  ∃ pre, inbox (wire c) = pre ++ inbox (wire c') ∧
    credited (send_credits (conn c)) (credits_in pre) (send_credits (conn c')) ∧
    opcode_of m ≠ Opcode.CreditUpdate.
Proof using Type.
  unfold recv_app_message. generalize (S (length (inbox (wire c)))). intros fuel.
  revert c. induction fuel as [|fuel IH]; intros c Hu; cbn [recv_app_loop]; [done|].
  intros (r & c1 & Ht & Hk)%bind_Ok_inv.
  destruct (recv_app_turn_Ok c r c1 Hu Ht) as (pre & Hi & Hc & Hop).
  destruct r as [m1|]; [injection Hk as <- <-; by exists pre|].
  destruct (IH c1 (credited_u32 _ _ _ Hc) Hk) as (pre2 & Hi2 & Hc2 & Hop2).
  exists (pre ++ pre2). rewrite Hi, Hi2, credits_in_app, <-app_assoc.
  split_and!; [done|by eapply credited_trans|done].
Qed.

(** Gathering reads local memory only. *)
Lemma gather_loop_state sg_list acc c d c' :
  gather_loop sg_list acc c = Ok d c' → c' = c.
Proof using Type.
  revert acc. induction sg_list as [|sg l IH]; intros acc; cbn [gather_loop].
  { by intros [= _ <-]. }
  rewrite self_bind. intros (mr & c1 & Hl & Hk)%bind_Ok_inv.
  assert (c1 = c) as -> by (unfold ok_or, mret, M_ret, throw in Hl; case_match; by simplify_eq).
  apply bind_Ok_inv in Hk as (stop & c2 & Ha & Hk).
  assert (c2 = c) as -> by (unfold add_ovf, ovf, mret, M_ret, panic in Ha; repeat case_match; by simplify_eq).
  case_match; [done|]. apply bind_Ok_inv in Hk as (b & c3 & Hb & Hk).
  assert (c3 = c) as -> by (unfold or_panic, mret, M_ret, panic in Hb; case_match; by simplify_eq).
  by eapply IH.
Qed.

(** C31: flow control of SENDs.  Without credit nothing is sent and the state is
    unchanged.  A SEND that succeeds had a credit, and afterwards the credits are
    the old ones plus those granted by the frames read meanwhile, less exactly one
    (exactly in debug builds, modulo 2^32 in release builds). *)
Theorem post_send_credits wrid sg_list c :
  u32 (send_credits (conn c)) →
  (send_credits (conn c) = 0 → CompletionQueue_is_full (cq (conn c)) = false →
   post_send wrid sg_list c = Err (Failed SendCreditsExhausted) c) ∧
  (∀ c', post_send wrid sg_list c = Ok tt c' →
   ∃ d pre, gather_sg_data sg_list c = Ok d c ∧ 0 < send_credits (conn c) ∧
     let w1 := sent (RdowsMessage.Send (next_hdr Opcode.Send wrid (conn c)) (mkSend sg_list))
                 (wire c) in
     let w2 := sent (RdowsMessage.SendData (next_hdr Opcode.SendData wrid (bump (conn c)))
                 (mkData d)) w1 in
     inbox w2 = pre ++ inbox (wire c') ∧
     credited (send_credits (conn c)) (credits_in pre - 1) (send_credits (conn c'))).
Proof using Type.
  intros Hu. split.
  - intros Hz Hfull. unfold post_send. rewrite self_bind, Hfull, self_bind, Hz. done.
  - intros c'. unfold post_send. rewrite self_bind. destruct (CompletionQueue_is_full _); [done|].
    rewrite self_bind. destruct (Z.eqb_spec (send_credits (conn c)) 0); [done|].
    intros (d & c1 & Hg & Hk)%bind_Ok_inv. assert (c1 = c) as -> by (by eapply gather_loop_state).
    rewrite next_header_bind, send_bind in Hk. destruct (send_error_of _ _); [done|].
    rewrite next_header_bind, send_bind in Hk. cbn [conn wire] in Hk.
    destruct (send_error_of _ _); [done|]. apply bind_Ok_inv in Hk as (m & c2 & Hr & Hk).
    apply recv_app_message_Ok in Hr as (pre & Hi & Hc & _); [|done].
    exists d, pre. destruct m; try done.
    rewrite self_bind in Hk. apply bind_Ok_inv in Hk as (v & c3 & Ha & Hk).
    assert (c3 = c2 ∧ credited (send_credits (conn c2)) (-1) v) as [-> Hcr].
    { unfold sub_ovf, ovf, credited, mret, M_ret, panic in *.
      destruct (decide _) as [Hin|_]; [|destruct overflow_checks]; simplify_eq;
        (split; [done|]); [by rewrite wrap_id|done]. }
    rewrite upd_bind, self_bind in Hk. unfold cq_push in Hk. rewrite self_bind in Hk.
    injection Hk as <-. split_and!; [done|unfold uN in Hu; lia|done|].
    cbn [send_credits conn set_cq set_credits]. rewrite <-Z.add_opp_r. by eapply credited_trans.
Qed.
End credits.

(** ** Receiving *)
Section receiving.
Context `{BytesCrate, Profile} {P : Type} `{!Peer P}.
Implicit Types c : Client P.

(** A message carries the number that the client expects, if it expects one. *)
Definition in_order (cn : RdowsConnection) (m : RdowsMessage) : bool :=
  match c_expected_remote_seq cn with Some e => h_sequence (RdowsMessage_header m) =? e | None => true end.
Definition expect_next (m : RdowsMessage) (cn : RdowsConnection) : RdowsConnection :=
  set_c_expected (Some (wrapping_add 32 (h_sequence (RdowsMessage_header m)) 1)) cn.

(** Receiving in one pass over the items that have arrived: other messages are skipped,
    CREDIT_UPDATEs add to the credits, every message is checked for its number, and the
    first one that is not a CREDIT_UPDATE is returned. *)
Fixpoint receive (p : P) (fin : bool) (cn : RdowsConnection) (items : list WsItem)
    : outcome (Client P) Stop RdowsMessage :=
  let stop e rest := Err e (mkClient cn (mkWire rest fin p)) in
  match items with
  | [] => stop (if fin then Failed SessionClosed else Waiting) []
  | WsOther :: rest => receive p fin cn rest
  | WsClose :: rest => stop (Failed SessionClosed) rest
  | WsError e :: rest => stop (Failed (WebSocket e)) rest
  | WsBinary data :: rest =>
      match RdowsMessage_decode data with
      | Panic => Panic
      | Err e _ => stop (Failed e) rest
      | Ok m _ =>
          if in_order cn m then
            match m with
            | RdowsMessage.CreditUpdate _ pl =>
                let sum := send_credits cn + cu_credit_increment pl in
                if decide (u32 sum) then receive p fin (set_credits sum (expect_next m cn)) rest
                else if overflow_checks then Panic
                else receive p fin (set_credits (wrap 32 sum) (expect_next m cn)) rest
            | _ => Ok m (mkClient (expect_next m cn) (mkWire rest fin p))
            end
          else stop (Failed (Protocol ErrSeqGap)) rest
      end
  end.

Lemma recv_app_turn_other cn items fin (p : P) :
  recv_app_message (mkClient cn (mkWire (WsOther :: items) fin p)) =
  recv_app_message (mkClient cn (mkWire items fin p)).
Proof using Type. rewrite !recv_app_message_eq. done. Qed.
Lemma validate_eq m c :
  validate_remote_seq m c =
    if in_order (conn c) m then Ok tt (mkClient (expect_next m (conn c)) (wire c))
    else Err (Failed (Protocol ErrSeqGap)) c.
Proof using Type.
  unfold validate_remote_seq, in_order, expect_next. rewrite self_bind.
  destruct (c_expected_remote_seq (conn c)) as [e|]; [|done]. by destruct (_ =? e).
Qed.

(** C32: what [recv_app_message] does with whatever has arrived, in one pass: the two
    nested loops of the client ([recv_message] inside [recv_app_message]) return the
    first message that is neither another kind of WebSocket message nor a CREDIT_UPDATE,
    add the credits of every CREDIT_UPDATE before it, refuse the first message that is
    out of sequence, and report the end of the stream, a close, an error or a frame that
    does not decode when they meet it; only when nothing else is left do they wait. *)
Theorem recv_app_message_one_pass c :
  recv_app_message c = receive (wire_peer (wire c)) (ended (wire c)) (conn c) (inbox (wire c)).
Proof using Type.
  destruct c as [cn [items fin p]]. cbn [conn wire inbox ended wire_peer]. revert cn.
  induction items as [|[data| | |e] items IH]; intros cn; cbn [receive]; [done| |done|by rewrite recv_app_turn_other|done].
  rewrite recv_app_message_eq. unfold recv_app_turn. rewrite !bind_assoc.
  unfold mbind at 1, M_bind at 1, on_wire, zoom, recv_message. cbn [wire inbox recv_items wire_peer ended].
  destruct (RdowsMessage_decode data) as [m r|e r|]; [|done|done]. cbn beta iota. cbn [conn].
  rewrite bind_assoc. unfold mbind at 1, M_bind at 1. rewrite validate_eq. cbn [conn wire].
  destruct (in_order cn m); [|done]. destruct m; try done.
  rewrite bind_assoc, self_bind. cbn [conn expect_next set_c_expected send_credits]. unfold add_ovf, ovf.
  destruct (decide _) as [Hu|Hu]; [|destruct overflow_checks; [done|]];
    rewrite bind_assoc, ret_bind, bind_assoc, upd_bind, ret_bind; apply IH.
Qed.
End receiving.
