(* ===== verification/ClientSafety.v ===== *)
(** * When a verb can panic

    The panics of the client's verbs, traced to what the peer sent or to the
    arguments of the caller. *)

From S2P Require Import Prelude Externals Utf8 Core Frame Payloads Message Client Verbs.
From S2P Require Import ClientFacts ClientProps.


Section safety.
Context `{BytesCrateLaws, Profile} {P : Type} `{!Peer P}.
Implicit Types c : Client P.






(** ** Local addresses *)





(** The state in which the reply of a verb is awaited. *)
Abbreviation answers m w := (inbox (sent m w)).










End safety.
