(* ===== verification/Negotiation.v ===== *)
(** * Opening a connection ([rdows-client/src/connection.rs], [rdows-server/src/lib.rs])

    The steps of [connect] before the protocol starts, and the subprotocol check on
    both sides of the WebSocket upgrade.  The HTTP library, the network and TLS are
    parameters: [HttpHeaders] is the header map of the [http] crate, [Net] the
    outcome of each step. *)

From S2P Require Import Prelude Externals Utf8 Core Frame Payloads Message Client.

(** ** Strings of the standard library *)

(** [s.split(',')] *)
Fixpoint split_on (sep : byte) (s : list byte) : list (list byte) :=
  match s with
  | [] => [[]]
  | b :: rest =>
      if bool_decide (b = sep) then [] :: split_on sep rest
      else match split_on sep rest with
           | [] => [[b]]
           | item :: items => (b :: item) :: items
           end
  end.
(** [s.trim()], on an ASCII string *)
Definition is_whitespace (b : byte) : bool :=
  ((9 <=? Z_of_byte b) && (Z_of_byte b <=? 13)) || (Z_of_byte b =? 32).
Fixpoint trim_start (s : list byte) : list byte :=
  match s with
  | [] => []
  | b :: rest => if is_whitespace b then trim_start rest else s
  end.
Definition trim_end (s : list byte) : list byte := rev (trim_start (rev s)).
Definition trim (s : list byte) : list byte := trim_end (trim_start s).
(** [s.starts_with(p)] *)
Definition starts_with (s p : list byte) : bool := bool_decide (take (length p) s = p).

(** ** The [http] crate *)
Class HttpHeaders (HM : Type) : Type := {
  hm_get_all : HM → list byte → list (list byte);
  hm_get : HM → list byte → option (list byte);
  hm_insert : HM → list byte → list byte → HM;
  hv_to_str : list byte → option (list byte);
}.
(** What its documentation says: [insert] replaces the values of the name, [get] is
    the first of [get_all], and [to_str] is the value itself when it consists of
    visible ASCII characters and is defined on ASCII values only. *)
Class HttpHeadersLaws (HM : Type) `{!HttpHeaders HM} : Prop := {
  hm_get_all_insert h name v : hm_get_all (hm_insert h name v) name = [v];
  hm_get_first h name : hm_get h name = head (hm_get_all h name);
  hv_to_str_visible v : Forall (λ b, 32 ≤ Z_of_byte b < 127) v → hv_to_str v = Some v;
  hv_to_str_ascii v s : hv_to_str v = Some s → s = v ∧ Forall (λ b, Z_of_byte b < 128) v;
}.

Definition PROTOCOL_HEADER : list byte := lit "Sec-WebSocket-Protocol".

Section negotiation.
Context {HM : Type} `{!HttpHeaders HM}.

(** [s.split(',').any(|p| p.trim() == SUBPROTOCOL)] *)
Definition lists_subprotocol (s : list byte) : bool :=
  existsb (λ p, bool_decide (trim p = SUBPROTOCOL)) (split_on x2c s).

(** *** The server *)
Inductive HttpStatus : Set := BAD_REQUEST.
Record ErrorResponse := mkErrorResponse { er_status : HttpStatus; er_body : list byte }.

Definition check_subprotocol (req resp : HM) : ErrorResponse + HM :=
  let has_rdows := existsb (λ v, match hv_to_str v with
                                 | Some s => lists_subprotocol s
                                 | None => false
                                 end) (hm_get_all req PROTOCOL_HEADER) in
  if negb has_rdows then inl (mkErrorResponse BAD_REQUEST (lit "missing rdows.v1 subprotocol"))
  else inr (hm_insert resp PROTOCOL_HEADER SUBPROTOCOL).

(** *** The client *)
Definition echoes_subprotocol (response : HM) : bool :=
  match hm_get response PROTOCOL_HEADER ≫= hv_to_str with
  | Some s => lists_subprotocol s
  | None => false
  end.

(** The request that an URL is turned into, and what happens to it. *)
Record Net := {
  Uri : Type;
  into_client_request : list byte → list byte + (HM * Uri);
  uri_host : Uri → option (list byte);
  uri_port : Uri → option Z;
  tcp_connect : list byte → option (list byte);
  server_name_error : list byte → option (list byte);
  tls_connect : list byte → option (list byte);
  client_async : HM → list byte + HM;
}.
Context (net : Net).

(** [connect] up to the split of the stream; the value is the response of the
    server to the upgrade. *)
Definition connect_stream (url : list byte) : RdowsError + HM :=
  if starts_with url (lit "ws://") then inl (ConnectionRejected (lit "TLS required: use wss:// not ws://")) else
  match into_client_request net url with
  | inl e => inl (WebSocket e)
  | inr (headers, uri) =>
      let request := hm_insert headers PROTOCOL_HEADER SUBPROTOCOL in
      match uri_host net uri with
      | None => inl (ConnectionRejected (lit "no host in URL"))
      | Some host =>
          let port := default 443 (uri_port net uri) in
          match tcp_connect net (host ++ lit ":" ++ dec_display port) with
          | Some e => inl (WebSocket (lit "TCP connect: " ++ e))
          | None =>
              match server_name_error net host with
              | Some e => inl (Tls (lit "invalid server name: " ++ e))
              | None =>
                  match tls_connect net host with
                  | Some e => inl (Tls (lit "TLS handshake: " ++ e))
                  | None =>
                      match client_async net request with
                      | inl e => inl (WebSocket (lit "WS upgrade: " ++ e))
                      | inr response =>
                          if negb (echoes_subprotocol response) then
                            inl (ConnectionRejected (lit "server did not echo rdows.v1 subprotocol"))
                          else inr response
                      end
                  end
              end
          end
      end
  end.

Section connect.
Context `{BytesCrate, Profile, OsRng} {P : Type} `{!Peer P}.

(** [connection::connect] *)
Definition connect (url : list byte) (n : nat) : M (Wire P) Stop ConnectionParams :=
  match connect_stream url with
  | inl e => throw (Failed e)
  | inr _ => connect_session n
  end.
(** [RdowsConnection::connect_with_config] and [RdowsConnection::connect] *)
Definition RdowsConnection_connect_with_config (url : list byte) (n : nat) (cq_capacity : Z)
    : M (Wire P) Stop RdowsConnection :=
  params ← connect url n;
  open_connection cq_capacity params.
Definition ConnectConfig_default : Z := DEFAULT_CQ_CAPACITY.
Definition RdowsConnection_connect (url : list byte) (n : nat) : M (Wire P) Stop RdowsConnection :=
  RdowsConnection_connect_with_config url n ConnectConfig_default.
End connect.
End negotiation.
