(* ===== verification/NegotiationProps.v ===== *)
(** * The subprotocol negotiation

    What [check_subprotocol] and the check of the client accept, stated without
    splitting and trimming, and that the two sides agree. *)

From S2P Require Import Prelude Externals Utf8 Core Frame Payloads Message Client Negotiation.

(** ** Splitting and trimming *)
Definition left_end (sep : byte) (pre : list byte) : Prop := pre = [] ∨ ∃ p, pre = p ++ [sep].
Definition right_end (sep : byte) (post : list byte) : Prop := post = [] ∨ ∃ q, post = sep :: q.

Lemma split_on_eq sep s :
  ((sep ∉ s) ∧ split_on sep s = [s]) ∨
  ∃ a b, s = a ++ sep :: b ∧ (sep ∉ a) ∧ split_on sep s = a :: split_on sep b.
Proof.
  induction s as [|x s IH]; cbn [split_on]; [left; by split; [apply not_elem_of_nil|]|].
  case_bool_decide as Hx.
  { right. subst. exists [], s. by split_and!; [|apply not_elem_of_nil|]. }
  destruct IH as [(Hn & ->)|(a & b & -> & Hn & ->)].
  - left. by rewrite not_elem_of_cons.
  - right. exists (x :: a), b. rewrite not_elem_of_cons. done.
Qed.
Lemma split_on_none sep s : sep ∉ s → split_on sep s = [s].
Proof.
  intros Hn. destruct (split_on_eq sep s) as [(_ & ->)|(a & b & -> & _ & _)]; [done|]. set_solver.
Qed.
Lemma split_on_app sep a b : split_on sep (a ++ sep :: b) = split_on sep a ++ split_on sep b.
Proof.
  induction a as [|x a IH]; cbn [split_on app].
  - by rewrite bool_decide_eq_true_2.
  - rewrite IH. case_bool_decide; [done|]. by destruct (split_on_eq sep a) as [(_ & ->)|(? & ? & _ & _ & ->)].
Qed.

(** The items are the maximal parts without a separator. *)
Lemma elem_of_split_on sep s item :
  item ∈ split_on sep s ↔
  ∃ pre post, s = pre ++ item ++ post ∧ (sep ∉ item) ∧ left_end sep pre ∧ right_end sep post.
Proof.
  split.
  - remember (length s) as n eqn:Hlen. assert ((length s ≤ n)%nat) as Hle by lia. clear Hlen.
    revert s Hle item. induction n as [n IH] using lt_wf_ind. intros s Hle item.
    destruct (split_on_eq sep s) as [(Hn & ->)|(a & b & -> & Hn & ->)].
    { intros ->%list_elem_of_singleton. exists [], []. rewrite app_nil_r. split_and!; by try left. }
    rewrite length_app in Hle. cbn in Hle. intros [->|Hi]%elem_of_cons.
    { exists [], (sep :: b). split_and!; [done|done|by left|right; by exists b]. }
    destruct (IH (length b) ltac:(lia) b ltac:(lia) item Hi) as (pre & post & -> & Hni & Hl & Hr).
    exists (a ++ sep :: pre), post. split_and!; [by rewrite <-(assoc_L (++))|done| |done].
    right. destruct Hl as [->|(p & ->)]; [by exists a|]. exists (a ++ sep :: p). by rewrite <-(assoc_L (++)).
  - intros (pre & post & -> & Hn & Hl & Hr).
    assert (item ∈ split_on sep (item ++ post)) as Hi.
    { destruct Hr as [->|(q & ->)]; [|rewrite split_on_app];
        rewrite ?app_nil_r, split_on_none by done; set_solver. }
    destruct Hl as [->|(p & ->)]; [done|]. rewrite <-(assoc_L (++)). cbn [app].
    rewrite split_on_app. set_solver.
Qed.

Definition blank (s : list byte) : Prop := Forall (λ b, is_whitespace b = true) s.

Lemma trim_start_eq s : ∃ a, s = a ++ trim_start s ∧ blank a.
Proof.
  induction s as [|b s (a & Hs & Ha)]; cbn [trim_start]; [by exists []; split; [|constructor]|].
  destruct (is_whitespace b) eqn:Hb; [|by exists []; split; [|constructor]].
  exists (b :: a). split; [cbn; by f_equal|by constructor].
Qed.
Lemma trim_start_app a s : blank a → trim_start (a ++ s) = trim_start s.
Proof. induction 1 as [|b a Hb Ha IH]; [done|]. cbn. by rewrite Hb. Qed.
Lemma blank_rev s : blank s → blank (rev s).
Proof. unfold blank. intros Hs. rewrite rev_alt. by apply (Forall_reverse _ s). Qed.

(** A string trims to the subprotocol when it is that, padded. *)
Lemma trim_subprotocol s :
  trim s = SUBPROTOCOL ↔ ∃ a b, s = a ++ SUBPROTOCOL ++ b ∧ blank a ∧ blank b.
Proof.
  unfold trim, trim_end. split.
  - intros Ht. destruct (trim_start_eq s) as (a & Hs & Ha).
    destruct (trim_start_eq (rev (trim_start s))) as (b & Hb & Hbb).
    exists a, (rev b). split_and!; [|done|by apply blank_rev]. rewrite Hs at 1. f_equal.
    rewrite <-Ht, <-rev_app_distr, <-Hb. by rewrite rev_involutive.
  - intros (a & b & -> & Ha & Hb). rewrite (trim_start_app _ _ Ha).
    change (trim_start (SUBPROTOCOL ++ b)) with (SUBPROTOCOL ++ b).
    rewrite rev_app_distr, (trim_start_app _ _ (blank_rev _ Hb)).
    change (trim_start (rev SUBPROTOCOL)) with (rev SUBPROTOCOL). apply rev_involutive.
Qed.

(** The value of a header offers the subprotocol: it is one of the items between
    commas, up to white space. *)
Definition offers (s : list byte) : Prop :=
  ∃ pre a b post, s = pre ++ (a ++ SUBPROTOCOL ++ b) ++ post ∧ blank a ∧ blank b ∧
    left_end x2c pre ∧ right_end x2c post.

Lemma blank_no_comma a : blank a → x2c ∉ a.
Proof. intros Ha Hc. unfold blank in Ha. rewrite Forall_forall in Ha. by specialize (Ha _ Hc). Qed.

Lemma lists_subprotocol_iff s : lists_subprotocol s = true ↔ offers s.
Proof.
  unfold lists_subprotocol, offers. rewrite existsb_exists. split.
  - intros (p & Hp & Ht). apply list_elem_of_In, elem_of_split_on in Hp as (pre & post & -> & _ & Hl & Hr).
    apply bool_decide_eq_true, trim_subprotocol in Ht as (a & b & -> & Ha & Hb). by exists pre, a, b, post.
  - intros (pre & a & b & post & -> & Ha & Hb & Hl & Hr). exists (a ++ SUBPROTOCOL ++ b). split.
    + apply list_elem_of_In, elem_of_split_on. exists pre, post. split_and!; try done.
      rewrite !not_elem_of_app. split_and!; [by apply blank_no_comma| |by apply blank_no_comma].
      apply (bool_decide_unpack _). by vm_compute.
    + apply bool_decide_eq_true, trim_subprotocol. by exists a, b.
Qed.
Lemma offers_subprotocol : offers SUBPROTOCOL.
Proof. exists [], [], [], []. split; [done|]. split; [constructor|]. split; [constructor|]. split; by left. Qed.

Section checks.
Context {HM : Type} `{!HttpHeaders HM, !HttpHeadersLaws HM}.

Lemma subprotocol_readable : hv_to_str (HM := HM) SUBPROTOCOL = Some SUBPROTOCOL.
Proof using Type*. apply hv_to_str_visible. by repeat constructor. Qed.

(** A readable value of the header offers the subprotocol. *)
Definition offered (h : HM) : Prop :=
  ∃ v, v ∈ hm_get_all h PROTOCOL_HEADER ∧ is_Some (hv_to_str (HM := HM) v) ∧ offers v.

(** C23: the server accepts exactly the upgrades that offer [rdows.v1]: some
    readable [Sec-WebSocket-Protocol] header lists it between commas, white space
    aside.  It then echoes the subprotocol alone, and otherwise answers 400. *)
Theorem check_subprotocol_exact req resp :
  match check_subprotocol req resp with
  | inr resp' => offered req ∧ hm_get_all resp' PROTOCOL_HEADER = [SUBPROTOCOL]
  | inl e => ¬ offered req ∧ e = mkErrorResponse BAD_REQUEST (lit "missing rdows.v1 subprotocol")
  end.
Proof using Type*.
  unfold check_subprotocol. set (f := λ v, match hv_to_str v with Some s => lists_subprotocol s | None => false end).
  assert (existsb f (hm_get_all req PROTOCOL_HEADER) = true ↔ offered req) as Hiff.
  { rewrite existsb_exists. unfold offered, f. split.
    - intros (v & Hv & Hs). exists v. rewrite list_elem_of_In. destruct (hv_to_str v) as [s|] eqn:Hr; [|done].
      destruct (hv_to_str_ascii _ _ Hr) as [-> _]. split_and!; [done|done|by apply lists_subprotocol_iff].
    - intros (v & Hv & [s Hr] & Ho). exists v. rewrite <-list_elem_of_In, Hr. split; [done|].
      destruct (hv_to_str_ascii _ _ Hr) as [-> _]. by apply lists_subprotocol_iff. }
  destruct (existsb f _) eqn:He; cbn [negb].
  - split; [by apply Hiff|apply hm_get_all_insert].
  - split; [|done]. intros Ho%Hiff. congruence.
Qed.

Lemma echoes_iff h :
  echoes_subprotocol h = true ↔
  ∃ v, head (hm_get_all h PROTOCOL_HEADER) = Some v ∧ is_Some (hv_to_str (HM := HM) v) ∧ offers v.
Proof using Type*.
  unfold echoes_subprotocol. rewrite hm_get_first. destruct (head _) as [v|]; cbn.
  - destruct (hv_to_str v) as [s|] eqn:Hr.
    + destruct (hv_to_str_ascii _ _ Hr) as [-> _]. rewrite lists_subprotocol_iff. split.
      * intros Ho. by exists v.
      * by intros (? & [= <-] & _ & ?).
    + split; [done|]. intros (? & [= <-] & [s Hs] & _). congruence.
  - split; [done|]. by intros (? & ? & _).
Qed.

(** *** Both sides *)
Context (net : Net (HM := HM)).

(** The network gets the client's request to a server that runs
    [check_subprotocol] and its answer back, with the values of the header. *)
Definition upgrades : Prop :=
  ∀ request, ∃ req resp, hm_get_all req PROTOCOL_HEADER = hm_get_all request PROTOCOL_HEADER ∧
    match check_subprotocol req resp with
    | inr resp' => ∃ response, client_async net request = inr response ∧
        hm_get_all response PROTOCOL_HEADER = hm_get_all resp' PROTOCOL_HEADER
    | inl _ => ∃ e, client_async net request = inl e
    end.
(** The steps before the upgrade succeed. *)
Definition tls_reachable (url : list byte) : Prop :=
  starts_with url (lit "ws://") = false ∧
  ∃ headers uri host, into_client_request net url = inr (headers, uri) ∧ uri_host net uri = Some host ∧
    tcp_connect net (host ++ lit ":" ++ dec_display (default 443 (uri_port net uri))) = None ∧
    server_name_error net host = None ∧ tls_connect net host = None.

Section connect.
Context `{BytesCrate, Profile, OsRng} {P : Type} `{!Peer P}.

(** The two sides agree on the subprotocol: over a TLS connection to a server
    that runs [check_subprotocol], the upgrade is accepted, the client accepts the
    echo, and opening a connection by its URL is the protocol's handshake
    ([connect_with_config], whose success against the server is
    [connect_establishes]). *)
Theorem negotiation_agrees url n (w : Wire P) :
  tls_reachable url → upgrades →
  RdowsConnection_connect net url n w = connect_with_config n DEFAULT_CQ_CAPACITY w.
Proof using Type*.
  intros (Hws & headers & uri & host & Hreq & Hhost & Htcp & Hname & Htls) Hup.
  unfold RdowsConnection_connect, RdowsConnection_connect_with_config, connect, connect_stream.
  rewrite Hws, Hreq, Hhost. cbn zeta. rewrite Htcp, Hname, Htls.
  destruct (Hup (hm_insert headers PROTOCOL_HEADER SUBPROTOCOL)) as (req & resp & Hsame & Hcheck).
  rewrite hm_get_all_insert in Hsame. pose proof subprotocol_readable as Hread.
  unfold check_subprotocol in Hcheck. rewrite Hsame in Hcheck. cbn [existsb] in Hcheck. rewrite Hread in Hcheck.
  rewrite (proj2 (lists_subprotocol_iff _) offers_subprotocol) in Hcheck. cbn [orb negb] in Hcheck.
  destruct Hcheck as (response & -> & Hresp). rewrite hm_get_all_insert in Hresp.
  assert (echoes_subprotocol response = true) as ->; [|done].
  apply echoes_iff. exists SUBPROTOCOL. rewrite Hresp, Hread.
  split_and!; [done|by eexists|apply offers_subprotocol].
Qed.

(** C22: the client does not speak without TLS and the subprotocol.  Whatever the
    network does, [connect] sends its first message only after TLS was set up and
    the server's answer listed [rdows.v1]; otherwise it fails and the wire is as
    before. In particular an [ws://] URL is refused at once. *)
Theorem connect_guarded url n (w : Wire P) :
  (∃ e, connect net url n w = Err (Failed e) w) ∨
  (connect net url n w = connect_session n w ∧ starts_with url (lit "ws://") = false ∧
   ∃ headers uri host response v,
     into_client_request net url = inr (headers, uri) ∧ uri_host net uri = Some host ∧
     tls_connect net host = None ∧
     client_async net (hm_insert headers PROTOCOL_HEADER SUBPROTOCOL) = inr response ∧
     head (hm_get_all response PROTOCOL_HEADER) = Some v ∧ offers v).
Proof using Type*.
  unfold connect, connect_stream. destruct (starts_with url (lit "ws://")); [by left; eexists|].
  destruct (into_client_request net url) as [e|[headers uri]]; [by left; eexists|].
  destruct (uri_host net uri) as [host|] eqn:Hhost; [|by left; eexists]. cbn zeta.
  destruct (tcp_connect net _); [by left; eexists|].
  destruct (server_name_error net host); [by left; eexists|].
  destruct (tls_connect net host) eqn:Htls; [by left; eexists|].
  destruct (client_async net _) as [e|response] eqn:Hws; [by left; eexists|].
  destruct (echoes_subprotocol response) eqn:He; cbn [negb]; [|by left; eexists].
  right. apply echoes_iff in He as (v & Hv & _ & Ho). split_and!; try done.
  by exists headers, uri, host, response, v.
Qed.
End connect.
End checks.

Module NegotiationWitness.
Import Concrete.

(** Headers as a list of names and values. *)
Definition Headers : Type := list (list byte * list byte).
Definition no_headers : Headers := [].
Fixpoint values_of (h : Headers) (name : list byte) : list (list byte) :=
  match h with
  | [] => []
  | (n, v) :: rest => if decide (n = name) then v :: values_of rest name else values_of rest name
  end.
Fixpoint without (h : Headers) (name : list byte) : Headers :=
  match h with
  | [] => []
  | (n, v) :: rest => if decide (n = name) then without rest name else (n, v) :: without rest name
  end.
#[export] Instance list_headers : HttpHeaders Headers := {|
  hm_get_all := values_of;
  hm_get h name := head (values_of h name);
  hm_insert h name v := (name, v) :: without h name;
  hv_to_str v := if decide (Forall (λ b, 32 ≤ Z_of_byte b < 127) v) then Some v else None;
|}.
Lemma values_without h name : values_of (without h name) name = [].
Proof.
  induction h as [|[n v] h IH]; [done|]. cbn. case_decide as Hn; [done|]. cbn. by rewrite decide_False.
Qed.
#[export] Instance list_headers_laws : HttpHeadersLaws Headers.
Proof.
  split; cbn.
  - intros h name v. by rewrite decide_True, values_without.
  - done.
  - intros v Hv. by rewrite decide_True.
  - intros v s. case_decide as Hv; [|done]. intros [= <-]. split; [done|].
    eapply Forall_impl; [exact Hv|]. cbn. lia.
Qed.

(** A network that delivers to the server of the source. *)
Definition server_net : Net (HM := Headers) := {|
  Uri := unit;
  into_client_request _ := inr ([], tt);
  uri_host _ := Some (lit "localhost");
  uri_port _ := None;
  tcp_connect _ := None;
  server_name_error _ := None;
  tls_connect _ := None;
  client_async request :=
    match check_subprotocol request no_headers with inl e => inl (er_body e) | inr resp => inr resp end;
|}.

(** One of several offers is accepted and echoed; a longer name is not. *)
Lemma check_subprotocol_exact_witness :
  check_subprotocol [(PROTOCOL_HEADER, lit "chat, rdows.v1")] no_headers = inr [(PROTOCOL_HEADER, SUBPROTOCOL)] ∧
  ¬ offered [(PROTOCOL_HEADER, lit "rdows.v10")].
Proof.
  split; [by vm_compute|].
  exact (proj1 (check_subprotocol_exact [(PROTOCOL_HEADER, lit "rdows.v10")] no_headers)).
Defined.

(** A peer that never answers. *)
#[local] Instance silent : Peer unit := λ _ p, mkReaction None [] false p.
Lemma negotiation_agrees_witness :
  RdowsConnection_connect server_net (lit "wss://localhost/rdows") 0 (mkWire [] false tt) =
    connect_with_config 0 DEFAULT_CQ_CAPACITY (mkWire [] false tt).
Proof.
  apply (negotiation_agrees server_net).
  - split; [by vm_compute|]. exists [], tt, (lit "localhost"). done.
  - intros request. exists request, no_headers. split; [done|].
    change (client_async server_net request) with (match check_subprotocol request no_headers with
      inl e => inl (er_body e) | inr resp => inr resp end : list byte + Headers).
    destruct (check_subprotocol request no_headers) as [e|resp]; by eexists.
Defined.
Lemma connect_guarded_witness :
  (∃ e, connect server_net (lit "ws://localhost/rdows") 0 (mkWire [] false tt) =
     Err (Failed e) (mkWire [] false tt)) ∧
  ∃ response v, client_async server_net (hm_insert no_headers PROTOCOL_HEADER SUBPROTOCOL) = inr response ∧
    head (hm_get_all response PROTOCOL_HEADER) = Some v ∧ offers v.
Proof.
  split.
  - destruct (connect_guarded server_net (lit "ws://localhost/rdows") 0 (mkWire [] false tt)) as [He|(_ & Hws & _)];
      [exact He|by vm_compute in Hws].
  - destruct (connect_guarded server_net (lit "wss://localhost/rdows") 0 (mkWire [] false tt))
      as [(e & He)|(_ & _ & h & u & host & response & v & [= <- <-] & _ & _ & Hr & Hv & Ho)];
      [by vm_compute in He|by exists response, v].
Defined.
End NegotiationWitness.
