(* ===== verification/Cli.v ===== *)
(** * Command lines and TLS configurations

    The argument parsers of the three binaries and the functions that build their
    TLS configurations ([rdows-server/src/main.rs] and [lib.rs],
    [rdows-client/src/main.rs], [rdows-kv/src/main.rs]).  The file system, the PEM
    parser and the TLS library are the parameter [TlsLib]. *)

From S2P Require Import Prelude Externals Utf8 Core ServerState.

(** ** The standard library *)

(** [str::parse] of an unsigned integer of [w] bits: an optional plus sign and at
    least one digit. *)
Definition is_digit_b (b : byte) : bool := (48 <=? Z_of_byte b) && (Z_of_byte b <=? 57).
Fixpoint parse_digits (w : Z) (l : list byte) (v : Z) : option Z :=
  match l with
  | [] => Some v
  | b :: rest =>
      if is_digit_b b then
        let v' := 10 * v + (Z_of_byte b - 48) in
        if v' <? 2 ^ w then parse_digits w rest v' else None
      else None
  end.
Definition parse_unsigned (w : Z) (s : list byte) : option Z :=
  match s with
  | [] => None
  | b :: rest =>
      if Z_of_byte b =? 43 then match rest with [] => None | _ => parse_digits w rest 0 end
      else parse_digits w s 0
  end.

(** [fn get_arg]: the argument after the first occurrence of the flag. *)
Fixpoint position (flag : list byte) (args : list (list byte)) : option nat :=
  match args with
  | [] => None
  | a :: rest => if bool_decide (a = flag) then Some O else S <$> position flag rest
  end.
Definition get_arg (args : list (list byte)) (flag : list byte) : option (list byte) :=
  i ← position flag args; args !! (S i).

(** ** [rdows-kv]: [parse_args] *)
Record Args := mkArgs {
  http_port : Z;
  rdows_port : Z;
  remote : option (list byte);
  cert : option (list byte);
  insecure : bool;
}.
Definition set_http_port v a := mkArgs v (rdows_port a) (remote a) (cert a) (insecure a).
Definition set_rdows_port v a := mkArgs (http_port a) v (remote a) (cert a) (insecure a).
Definition set_remote v a := mkArgs (http_port a) (rdows_port a) v (cert a) (insecure a).
Definition set_cert v a := mkArgs (http_port a) (rdows_port a) (remote a) v (insecure a).
Definition set_insecure v a := mkArgs (http_port a) (rdows_port a) (remote a) (cert a) v.

(** The local variables of [parse_args] are the state, the code of
    [std::process::exit] is the error. *)
Definition args_default : Args := mkArgs 8080 9443 None None false.

(** [while i < args.len()]: every turn increases [i], so [args.len()] turns are
    enough ([parse_loop_structural]); out of fuel is the exit code -1, which the
    program does not use. *)
Fixpoint parse_loop (fuel : nat) (args : list (list byte)) (i : nat) : M Args Z unit :=
  if (length args <=? i)%nat then mret tt else
  match fuel with
  | O => throw (-1)
  | S fuel' =>
      arg ← or_panic (args !! i);
      i ← (if bool_decide (arg = lit "--http-port") then
             v ← or_panic (args !! S i);
             p ← or_panic (parse_unsigned 16 v);
             _ ← modifyS (set_http_port p); mret (S i)
           else if bool_decide (arg = lit "--rdows-port") then
             v ← or_panic (args !! S i);
             p ← or_panic (parse_unsigned 16 v);
             _ ← modifyS (set_rdows_port p); mret (S i)
           else if bool_decide (arg = lit "--remote") then
             v ← or_panic (args !! S i);
             _ ← modifyS (set_remote (Some v)); mret (S i)
           else if bool_decide (arg = lit "--cert") then
             v ← or_panic (args !! S i);
             _ ← modifyS (set_cert (Some v)); mret (S i)
           else if bool_decide (arg = lit "--insecure") then
             _ ← modifyS (set_insecure true); mret i
           else throw 1);
      parse_loop fuel' args (S i)
  end.
Definition parse_args (args : list (list byte)) : outcome Args Z unit :=
  parse_loop (length args) args 1 args_default.

(** ** [rdows-server]: the arguments of [main] *)
Record ServerArgs := mkServerArgs {
  sa_bind : list byte;
  sa_cert_path : list byte;
  sa_key_path : list byte;
  sa_config : ServerConfig;
}.
(** [None] is a failed [expect]. *)
Definition server_args (args : list (list byte)) : option ServerArgs :=
  let bind := default (lit "0.0.0.0:9443") (get_arg args (lit "--bind")) in
  cert_path ← get_arg args (lit "--cert");
  key_path ← get_arg args (lit "--key");
  recv_queue_depth ← (match get_arg args (lit "--recv-queue-depth") with
                      | Some s => parse_unsigned 32 s
                      | None => Some 128
                      end);
  let d := ServerConfig_default in
  Some (mkServerArgs bind cert_path key_path
    (mkConfig recv_queue_depth (cfg_max_regions_per_session d) (cfg_max_total_bytes_per_session d)
       (cfg_max_outstanding_reads d) (cfg_max_sessions_per_ip d) (cfg_mr_reg_rate_limit d))).

(** ** TLS configurations *)
Class TlsLib : Type := {
  Certificate : Type;
  PrivateKey : Type;
  fs_read : list byte → list byte + list byte;
  pemfile_certs : list byte → list (list byte + Certificate);
  pemfile_private_key : list byte → list byte + option PrivateKey;
  root_store_rejects : Certificate → option (list byte);
  native_certs : list Certificate;
  single_cert_error : list Certificate → PrivateKey → option (list byte);
  (** the verification of an end-entity certificate for the name [localhost], the
      only name the repository connects to, against these roots *)
  chain_verifies : list Certificate → Certificate → bool;
}.

Section tls.
Context `{TlsLib}.

(** [.collect::<Result<Vec<_>, _>>()] *)
Fixpoint collect_results {E A} (l : list (E + A)) : E + list A :=
  match l with
  | [] => inr []
  | inl e :: _ => inl e
  | inr a :: rest => match collect_results rest with inl e => inl e | inr as_ => inr (a :: as_) end
  end.

(** How a client checks the server's certificate. *)
Inductive Verifier : Type :=
| RootCertificates (root_store : list Certificate)
| InsecureVerifier.
Record ClientConfig := mkClientConfig { cc_verifier : Verifier; cc_key_log_file : bool }.
Record TlsServerConfig := mkTlsServerConfig {
  sc_certs : list Certificate; sc_key : PrivateKey; sc_key_log_file : bool;
}.

(** [for cert in certs { root_store.add(cert)?; }] *)
Fixpoint add_all (root_store certs : list Certificate) : list byte + list Certificate :=
  match certs with
  | [] => inr root_store
  | c :: rest =>
      match root_store_rejects c with
      | Some e => inl e
      | None => add_all (root_store ++ [c]) rest
      end
  end.
(** [for cert in native.certs { let _ = root_store.add(cert); }] *)
Fixpoint add_some (root_store certs : list Certificate) : list Certificate :=
  match certs with
  | [] => root_store
  | c :: rest =>
      match root_store_rejects c with
      | Some _ => add_some root_store rest
      | None => add_some (root_store ++ [c]) rest
      end
  end.

(** [rdows-client]: [build_tls_config] *)
Definition build_tls_config (cert_path : option (list byte)) : list byte + ClientConfig :=
  match cert_path with
  | Some path =>
      match fs_read path with
      | inl e => inl e
      | inr pem =>
          match collect_results (pemfile_certs pem) with
          | inl e => inl e
          | inr certs =>
              match add_all [] certs with
              | inl e => inl e
              | inr root_store => inr (mkClientConfig (RootCertificates root_store) true)
              end
          end
      end
  | None => inr (mkClientConfig (RootCertificates (add_some [] native_certs)) true)
  end.

(** [rdows-kv] *)
Definition build_remote_tls_config (cert_path : option (list byte)) (insecure : bool)
    : list byte + ClientConfig :=
  if insecure then inr (mkClientConfig InsecureVerifier false) else
  match cert_path with
  | Some path =>
      match fs_read path with
      | inl e => inl e
      | inr pem =>
          match collect_results (pemfile_certs pem) with
          | inl e => inl e
          | inr certs =>
              match add_all [] certs with
              | inl e => inl e
              | inr root_store => inr (mkClientConfig (RootCertificates root_store) true)
              end
          end
      end
  | None => inr (mkClientConfig (RootCertificates (add_some [] native_certs)) true)
  end.

(** [rdows-server] *)
Definition build_server_tls_config (cert_pem key_pem : list byte) : list byte + TlsServerConfig :=
  match collect_results (pemfile_certs cert_pem) with
  | inl e => inl e
  | inr certs =>
      match pemfile_private_key key_pem with
      | inl e => inl e
      | inr None => inl (lit "no private key found")
      | inr (Some key) =>
          match single_cert_error certs key with
          | Some e => inl e
          | None => inr (mkTlsServerConfig certs key true)
          end
      end
  end.

(** The check of the server's certificate; [InsecureVerifier] accepts every
    certificate, and every signature. *)
Definition verify_server_cert (v : Verifier) (end_entity : Certificate) : bool :=
  match v with
  | RootCertificates root_store => chain_verifies root_store end_entity
  | InsecureVerifier => true
  end.

(** [start_embedded] of [rdows-kv]: the configurations of the two sides, from a
    generated certificate. *)
Definition start_embedded_tls (generated : list byte + Certificate * PrivateKey)
    : list byte + TlsServerConfig * ClientConfig :=
  match generated with
  | inl e => inl e
  | inr (cert, key) =>
      match single_cert_error [cert] key with
      | Some e => inl e
      | None =>
          match root_store_rejects cert with
          | Some e => inl e
          | None => inr (mkTlsServerConfig [cert] key true, mkClientConfig (RootCertificates [cert]) true)
          end
      end
  end.

(** The configuration with which [main] of [rdows-kv] connects: to the server named
    by [--remote], or to one of its own. *)
Definition kv_client_config (a : Args) (generated : list byte + Certificate * PrivateKey)
    : list byte + ClientConfig :=
  match remote a with
  | Some _ => build_remote_tls_config (cert a) (insecure a)
  | None => match start_embedded_tls generated with inl e => inl e | inr (_, config) => inr config end
  end.
End tls.
