(* ===== verification/CliProps.v ===== *)
(** * Theorems about command lines and TLS configurations *)

From S2P Require Import Prelude Externals Utf8 Core ServerState SessionProps Cli.

(** ** [parse_args] terminates *)

(** The same parser by structural recursion on the arguments that are left. *)
Definition port_of (v : list byte) : M Args Z Z := or_panic (parse_unsigned 16 v).
Fixpoint parse_list (args : list (list byte)) : M Args Z unit :=
  match args with
  | [] => mret tt
  | arg :: rest =>
      let with_value (f : list byte → M Args Z unit) : M Args Z unit :=
        match rest with [] => panic | v :: rest' => f v ≫= λ _, parse_list rest' end in
      if bool_decide (arg = lit "--http-port") then with_value (λ v, p ← port_of v; modifyS (set_http_port p))
      else if bool_decide (arg = lit "--rdows-port") then with_value (λ v, p ← port_of v; modifyS (set_rdows_port p))
      else if bool_decide (arg = lit "--remote") then with_value (λ v, modifyS (set_remote (Some v)))
      else if bool_decide (arg = lit "--cert") then with_value (λ v, modifyS (set_cert (Some v)))
      else if bool_decide (arg = lit "--insecure") then _ ← modifyS (set_insecure true); parse_list rest
      else throw 1
  end.

(** Each turn of the loop moves on in the list. *)
Lemma parse_loop_structural fuel : ∀ args i a,
  (length args ≤ i + fuel)%nat → parse_loop fuel args i a = parse_list (drop i args) a.
Proof.
  induction fuel as [|fuel IH]; intros args i a Hf; cbn [parse_loop].
  { rewrite (proj2 (Nat.leb_le _ _)) by lia. by rewrite drop_ge by lia. }
  destruct (Nat.leb_spec (length args) i) as [Hi|Hi]; [by rewrite drop_ge by lia|].
  apply lookup_lt_is_Some in Hi as [arg Harg]. rewrite Harg, (drop_S _ _ _ Harg). cbn [parse_list].
  rewrite or_panic_bind.
  assert (args !! S i = None ∧ drop (S i) args = [] ∨
    ∃ v, args !! S i = Some v ∧ drop (S i) args = v :: drop (S (S i)) args) as Hnext.
  { destruct (args !! S i) as [v|] eqn:Hv; [right; exists v; split; [done|by apply drop_S]|left].
    split; [done|]. apply drop_ge. by apply lookup_ge_None. }
  assert (∀ a', parse_loop fuel args (S (S i)) a' = parse_list (drop (S (S i)) args) a') as IH2
    by (intros a'; apply IH; lia).
  repeat case_bool_decide;
    try (destruct Hnext as [(-> & ->)|(v & -> & ->)]; [done|]; rewrite bind_assoc, or_panic_bind).
  1,2: unfold port_of; destruct (parse_unsigned 16 v); [|done].
  1-4: apply IH2.
  - apply IH. lia.
  - done.
Qed.

(** C33: the parser of [rdows-kv] terminates: the loop over the index takes at most
    as many turns as there are arguments, and computes what one pass over the list
    of arguments computes. *)
Theorem parse_args_terminates args : parse_args args = parse_list (drop 1 args) args_default.
Proof. apply parse_loop_structural. lia. Qed.

(** ** Numbers *)
Lemma parse_digits_value w l : ∀ v,
  0 ≤ v → Forall is_digit l → v * 10 ^ zlen l + dec_value l < 2 ^ w →
  parse_digits w l v = Some (v * 10 ^ zlen l + dec_value l).
Proof.
  induction l as [|b l IH]; intros v Hv Hl Hb; cbn [parse_digits].
  { f_equal. unfold dec_value, zlen. cbn. lia. }
  inversion Hl as [|? ? Hd Hl']; subst. unfold is_digit in Hd. unfold is_digit_b.
  rewrite (proj2 (Z.leb_le _ _)), (proj2 (Z.leb_le _ _)) by lia. cbn [andb].
  assert (v * 10 ^ zlen (b :: l) + dec_value (b :: l) =
    (10 * v + (Z_of_byte b - 48)) * 10 ^ zlen l + dec_value l) as Heq.
  { unfold dec_value at 1. cbn [fold_left]. rewrite dec_value_acc, zlen_cons.
    rewrite Z.pow_add_r by (try apply zlen_nonneg; lia). ring. }
  rewrite Heq in Hb |- *. assert (0 ≤ dec_value l) as Hdv.
  { clear -Hl'. unfold dec_value. assert (∀ v, 0 ≤ v → 0 ≤ fold_left (λ v b, 10 * v + (Z_of_byte b - 48)) l v) as Hx;
      [|by apply Hx]. induction Hl' as [|b l Hd Hl IH]; [done|]. intros v Hv. cbn. apply IH. unfold is_digit in Hd. lia. }
  assert (1 ≤ 10 ^ zlen l) by (pose proof (Z.pow_pos_nonneg 10 (zlen l) ltac:(lia) (zlen_nonneg l)); lia).
  rewrite (proj2 (Z.ltb_lt _ _)) by nia. apply IH; [lia|done|done].
Qed.
Lemma dec_digits_nonempty fuel n acc : dec_digits (S fuel) n acc ≠ [].
Proof.
  revert n acc. induction fuel as [|fuel IH]; intros n acc; cbn [dec_digits]; [by destruct (n <? 10)|].
  destruct (n <? 10); [done|]. apply IH.
Qed.

Lemma parse_digits_range w l : ∀ v n, 0 ≤ v < 2 ^ w → parse_digits w l v = Some n → 0 ≤ n < 2 ^ w.
Proof.
  induction l as [|b l IH]; intros v n Hv; cbn [parse_digits]; [by intros [= <-]|].
  destruct (is_digit_b b) eqn:Hd; [|done]. unfold is_digit_b in Hd.
  destruct (Z.ltb_spec (10 * v + (Z_of_byte b - 48)) (2 ^ w)); [|done]. apply IH.
  apply andb_true_iff in Hd as [Hd%Z.leb_le _]. lia.
Qed.
Lemma parse_unsigned_range w s n : 0 ≤ w → parse_unsigned w s = Some n → 0 ≤ n < 2 ^ w.
Proof.
  intros Hw. pose proof (Z.pow_pos_nonneg 2 w ltac:(lia) Hw). unfold parse_unsigned. destruct s as [|b l]; [done|].
  destruct (Z_of_byte b =? 43); [destruct l; [done|]|]; apply parse_digits_range; lia.
Qed.

(** A number that was printed is read back. *)
Lemma parse_dec_display w n : 0 ≤ n < 2 ^ w → 0 ≤ w ≤ 64 → parse_unsigned w (dec_display n) = Some n.
Proof.
  intros Hn Hw. assert (2 ^ w ≤ 2 ^ 64) as Hp by (apply Z.pow_le_mono_r; lia).
  assert (Forall is_digit (dec_display n)) as Hd by (apply dec_digits_ascii; constructor).
  pose proof (dec_digits_nonempty 19 n []) as Hne. change (dec_digits 20 n []) with (dec_display n) in Hne.
  pose proof (dec_display_value n) as Hv. unfold uN in Hv. specialize (Hv ltac:(lia)).
  destruct (dec_display n) as [|b l] eqn:Hl; [done|]. cbn [parse_unsigned].
  assert (is_digit b) as Hb by (by inversion Hd). unfold is_digit in Hb.
  rewrite (proj2 (Z.eqb_neq _ _)) by lia. rewrite parse_digits_value; [f_equal|done|done|]; rewrite Hv; lia.
Qed.

(** ** Round trip *)
Definition flag_value (flag : list byte) (v : option (list byte)) : list (list byte) :=
  match v with Some v => [flag; v] | None => [] end.
(** A command line with these settings. *)
Definition render (a : Args) : list (list byte) :=
  [lit "--http-port"; dec_display (http_port a); lit "--rdows-port"; dec_display (rdows_port a)] ++
  flag_value (lit "--remote") (remote a) ++ flag_value (lit "--cert") (cert a) ++
  (if insecure a then [lit "--insecure"] else []).

Lemma parse_http_port v p rest a :
  parse_unsigned 16 v = Some p → parse_list (lit "--http-port" :: v :: rest) a = parse_list rest (set_http_port p a).
Proof. intros Hp. cbn [parse_list]. rewrite bool_decide_eq_true_2 by done. unfold port_of. by rewrite Hp. Qed.
Lemma parse_rdows_port v p rest a :
  parse_unsigned 16 v = Some p → parse_list (lit "--rdows-port" :: v :: rest) a = parse_list rest (set_rdows_port p a).
Proof.
  intros Hp. cbn [parse_list]. rewrite bool_decide_eq_false_2, bool_decide_eq_true_2 by done.
  unfold port_of. by rewrite Hp.
Qed.
Lemma parse_remote v rest a :
  parse_list (flag_value (lit "--remote") v ++ rest) a =
    parse_list rest (set_remote (match v with Some _ => v | None => remote a end) a).
Proof. destruct v as [v|]; [done|]. by destruct a. Qed.
Lemma parse_cert v rest a :
  parse_list (flag_value (lit "--cert") v ++ rest) a =
    parse_list rest (set_cert (match v with Some _ => v | None => cert a end) a).
Proof. destruct v as [v|]; [done|]. by destruct a. Qed.

(** Every setting can be given on the command line: the program started with
    the flags for [a] runs with exactly the settings [a]. *)
Theorem parse_args_render program a :
  u16 (http_port a) → u16 (rdows_port a) → parse_args (program :: render a) = Ok tt a.
Proof.
  intros Hh Hr. unfold parse_args. rewrite parse_loop_structural by lia. rewrite skipn_cons.
  unfold uN in *. rewrite drop_0. unfold render. cbn [app].
  rewrite (parse_http_port _ _ _ _ (parse_dec_display 16 (http_port a) ltac:(lia) ltac:(lia))).
  rewrite (parse_rdows_port _ _ _ _ (parse_dec_display 16 (rdows_port a) ltac:(lia) ltac:(lia))).
  rewrite parse_remote, parse_cert. destruct a as [hp rp [u|] [f|] []]; done.
Qed.
Lemma parse_args_render_witness :
  parse_args [lit "rdows-kv"; lit "--http-port"; lit "80"; lit "--rdows-port"; lit "0";
              lit "--remote"; lit "wss://h/rdows"; lit "--insecure"] =
    Ok tt (mkArgs 80 0 (Some (lit "wss://h/rdows")) None true).
Proof.
  apply (parse_args_render (lit "rdows-kv") (mkArgs 80 0 (Some (lit "wss://h/rdows")) None true)); done.
Defined.

(** ** Certificates *)
Section tls.
Context `{TlsLib}.

Lemma add_all_spec certs : ∀ rs,
  match add_all rs certs with
  | inr rs' => rs' = rs ++ certs ∧ Forall (λ c, root_store_rejects c = None) certs
  | inl e => ∃ c, c ∈ certs ∧ root_store_rejects c = Some e
  end.
Proof using Type.
  induction certs as [|c certs IH]; intros rs; cbn [add_all]; [by rewrite app_nil_r|].
  destruct (root_store_rejects c) as [e|] eqn:Hc; [exists c; split; [by left|done]|].
  specialize (IH (rs ++ [c])). destruct (add_all _ _) as [e|rs'].
  - destruct IH as (c' & ? & ?). exists c'. split; [by right|done].
  - destruct IH as [-> Hf]. split; [by rewrite <-(assoc_L (++))|by constructor].
Qed.
Lemma collect_results_spec {E A} (l : list (E + A)) :
  match collect_results l with inr as_ => l = inr <$> as_ | inl e => inl e ∈ l end.
Proof using Type.
  induction l as [|[e|x] l IH]; cbn [collect_results]; [done|by left|].
  destruct (collect_results l) as [e|as_]; [by right|]. cbn. by rewrite <-IH.
Qed.

(** The flag is only set by its argument. *)
Lemma parse_list_insecure args : ∀ a a',
  parse_list args a = Ok tt a' → insecure a' = true → insecure a = true ∨ lit "--insecure" ∈ args.
Proof using Type.
  remember (length args) as n eqn:Hn. revert args Hn.
  induction n as [n IH] using lt_wf_ind. intros [|arg rest] Hn a a' Hp Hi; [injection Hp as <-; by left|].
  cbn [parse_list length] in *.
  assert (∀ (f : list byte → M Args Z unit),
    (∀ v a b, f v a = Ok tt b → insecure b = insecure a) →
    match rest with [] => panic | v :: rest' => f v ≫= λ _, parse_list rest' end a = Ok tt a' →
    insecure a = true ∨ lit "--insecure" ∈ arg :: rest) as Hval.
  { intros f Hf Hr. destruct rest as [|v rest']; [done|]. apply bind_Ok_inv in Hr as ([] & b & Hfv & Hr).
    cbn in Hn. destruct (IH (length rest') ltac:(lia) rest' eq_refl b a' Hr Hi) as [Hb|Hin].
    - left. by rewrite <-(Hf _ _ _ Hfv).
    - right. by do 2 right. }
  repeat case_bool_decide.
  1,2: eapply Hval; [|exact Hp]; intros v b b' Hb; unfold port_of in Hb;
    destruct (parse_unsigned 16 v); [|done]; by injection Hb as <-.
  1,2: eapply Hval; [|exact Hp]; intros v b b' Hb; by injection Hb as <-.
  - right. subst. by left.
  - done.
Qed.

(** The roots a client trusts: all certificates of the file, or those of the system. *)
Definition trusts (cert_path : option (list byte)) (config : ClientConfig) : Prop :=
  ∃ roots, cc_verifier config = RootCertificates roots ∧
    match cert_path with
    | Some path => ∃ pem, fs_read path = inr pem ∧ pemfile_certs pem = inr <$> roots
    | None => roots = add_some [] native_certs
    end.
Lemma build_tls_config_trusts cert_path config :
  build_tls_config cert_path = inr config → trusts cert_path config.
Proof using Type.
  unfold build_tls_config, trusts. intros Hb. destruct cert_path as [path|]; [|injection Hb as <-; by eexists].
  destruct (fs_read path) as [e|pem] eqn:Hr; [done|].
  pose proof (collect_results_spec (pemfile_certs pem)) as Hc.
  destruct (collect_results _) as [e|certs]; [done|]. pose proof (add_all_spec certs []) as Ha.
  destruct (add_all [] certs) as [e|roots]; [done|]. injection Hb as <-. destruct Ha as [-> _].
  exists ([] ++ certs). split; [done|by exists pem].
Qed.
(** Without [--insecure] the store builds the configuration of the client binary. *)
Lemma build_remote_secure cert_path : build_remote_tls_config cert_path false = build_tls_config cert_path.
Proof using Type. done. Qed.

(** The server presents all certificates of its file, with a key from its file. *)
Lemma build_server_tls_config_exact cert_pem key_pem config :
  build_server_tls_config cert_pem key_pem = inr config →
  pemfile_certs cert_pem = inr <$> sc_certs config ∧ pemfile_private_key key_pem = inr (Some (sc_key config)) ∧
  single_cert_error (sc_certs config) (sc_key config) = None.
Proof using Type.
  unfold build_server_tls_config. pose proof (collect_results_spec (pemfile_certs cert_pem)) as Hc.
  destruct (collect_results _) as [e|certs]; [done|]. destruct (pemfile_private_key key_pem) as [e|[key|]]; [done| |done].
  destruct (single_cert_error certs key) eqn:Hs; [done|]. by intros [= <-].
Qed.
(** An embedded server's one certificate is the one root its client trusts. *)
Lemma start_embedded_trusts generated srv cli :
  start_embedded_tls generated = inr (srv, cli) →
  ∃ c key, generated = inr (c, key) ∧ sc_certs srv = [c] ∧ cc_verifier cli = RootCertificates [c].
Proof using Type.
  unfold start_embedded_tls. destruct generated as [e|[c key]]; [done|].
  destruct (single_cert_error [c] key); [done|]. destruct (root_store_rejects c); [done|].
  intros [= <- <-]. by exists c, key.
Qed.

(** C25: certificate checks are off only on request.  If the store, started with
    some command line, accepts a server certificate, then it verified the
    certificate against the certificates of the given file (or, without one, those
    of the system that the TLS library takes), or it runs the server itself and
    verified against the certificate it generated for it, or [--insecure] is one of
    its arguments. *)
Theorem unverified_only_insecure args a generated config c :
  parse_args args = Ok tt a → kv_client_config a generated = inr config →
  verify_server_cert (cc_verifier config) c = true →
  (∃ roots, cc_verifier config = RootCertificates roots ∧ chain_verifies roots c = true ∧
     (trusts (cert a) config ∨ ∃ own key, remote a = None ∧ generated = inr (own, key) ∧ roots = [own])) ∨
  lit "--insecure" ∈ args.
Proof using Type.
  unfold parse_args. rewrite parse_loop_structural by lia. intros Hp Hb Hv. unfold kv_client_config in Hb.
  destruct (remote a) as [url|].
  - destruct (insecure a) eqn:Hi.
    + right. destruct (parse_list_insecure _ _ _ Hp Hi) as [|Hin]; [done|].
      destruct args as [|x args]; [done|]. by right.
    + left. rewrite build_remote_secure in Hb. pose proof (build_tls_config_trusts _ _ Hb) as Ht.
      pose proof Ht as (roots & Hr & _). exists roots. rewrite Hr in Hv. split_and!; [done|done|by left].
  - left. destruct (start_embedded_tls generated) as [e|[srv cli]] eqn:Hs; [done|]. injection Hb as ->.
    destruct (start_embedded_trusts _ _ _ Hs) as (own & key & -> & _ & Hr). exists [own]. rewrite Hr in Hv.
    split_and!; [done|done|right; by exists own, key].
Qed.
End tls.

(** The settings of the server binary: it starts only with a certificate and a
    key, binds to the address given or to 0.0.0.0:9443, and runs with the default
    limits except for the number of receives, which is the one given if it is a
    32-bit number; and that configuration satisfies the server's invariant. *)
Theorem server_args_config args sa :
  server_args args = Some sa →
  get_arg args (lit "--cert") = Some (sa_cert_path sa) ∧ get_arg args (lit "--key") = Some (sa_key_path sa) ∧
  sa_bind sa = default (lit "0.0.0.0:9443") (get_arg args (lit "--bind")) ∧
  config_ok (sa_config sa) ∧
  (∀ n, u32 n → get_arg args (lit "--recv-queue-depth") = Some (dec_display n) →
     cfg_recv_queue_depth (sa_config sa) = n).
Proof.
  unfold server_args. intros (cp & Hc & (kp & Hk & (d & Hd & [= <-])%bind_Some)%bind_Some)%bind_Some.
  cbn [sa_bind sa_cert_path sa_key_path sa_config cfg_recv_queue_depth].
  assert (u32 d) as Hu.
  { destruct (get_arg args (lit "--recv-queue-depth")) as [v|]; [|by injection Hd as <-].
    unfold uN. by apply (parse_unsigned_range 32 v). }
  split_and!; try done.
  intros n Hn Hg. rewrite Hg in Hd. unfold uN in Hn. rewrite parse_dec_display in Hd by lia. by injection Hd.
Qed.

Module CliWitness.
(** Certificates are their bytes, one per file, and a chain is a root. *)
#[local] Instance plain_tls : TlsLib := {|
  Certificate := list byte;
  PrivateKey := list byte;
  fs_read path := inr path;
  pemfile_certs pem := [inr pem];
  pemfile_private_key pem := inr (Some pem);
  root_store_rejects _ := None;
  native_certs := [];
  single_cert_error _ _ := None;
  chain_verifies roots c := bool_decide (c ∈ roots);
|}.
Definition ca : Certificate := lit "ca.pem".
Definition trusting : ClientConfig := mkClientConfig (RootCertificates [ca]) true.
Lemma unverified_only_insecure_witness :
  verify_server_cert (cc_verifier trusting) ca = true ∧ ∃ roots, chain_verifies roots ca = true.
Proof.
  split; [by vm_compute|].
  destruct (unverified_only_insecure [lit "rdows-kv"; lit "--remote"; lit "wss://h"; lit "--cert"; lit "ca.pem"]
    (mkArgs 8080 9443 (Some (lit "wss://h")) (Some (lit "ca.pem")) false) (inl []) trusting ca)
    as [(roots & _ & Hv & _)|Hin];
    [by vm_compute|by vm_compute|by vm_compute|by exists roots|by exists [ca]; vm_compute].
Defined.

Lemma server_args_config_witness :
  ∃ sa, server_args [lit "rdows-server"; lit "--key"; lit "k"; lit "--cert"; lit "c"; lit "--recv-queue-depth"; lit "2"]
      = Some sa ∧ config_ok (sa_config sa) ∧ cfg_recv_queue_depth (sa_config sa) = 2.
Proof.
  eexists. split; [by vm_compute|].
  destruct (server_args_config [lit "rdows-server"; lit "--key"; lit "k"; lit "--cert"; lit "c";
    lit "--recv-queue-depth"; lit "2"] _ eq_refl) as (_ & _ & _ & Hok & Hn).
  split; [exact Hok|]. by apply (Hn 2).
Defined.
End CliWitness.
