(* ===== verification/Replies.v ===== *)
(** * The server's replies on every branch

    [SessionProps.v] has the requests that succeed; here every request of an
    established session is one or two emissions after at most one operation on
    the store, whatever that operation returns. *)

From S2P Require Import Prelude Externals Utf8 Core Frame Payloads Message MemoryStore StoreSpec.
From S2P Require Import ServerState Handler Session SessionFacts SessionProps.

(** The session updates between a request and its reply: the store moves, the
    rest of what later requests depend on stays. *)
Record served `{Profile, OsRng} (w w1 : World) (tr : list (StoreOp * (ErrorCode + Reply))) : Prop := {
  sd_quiet : quiet w w1 tr;
  sd_state : session_state (session w1) = session_state (session w);
  sd_reads : max_outstanding_reads (session w1) = max_outstanding_reads (session w);
  sd_recv : recv_queue_depth (session w1) = recv_queue_depth (session w);
  sd_pending : pending_op (session w1) = pending_op (session w);
  sd_exp : expected_remote_seq (session w1) = expected_remote_seq (session w);
  sd_limit : mr_reg_rate_limit (session w1) = mr_reg_rate_limit (session w);
  sd_count : mr_reg_count (session w1) ≤ mr_reg_count (session w) + reg_ops tr;
}.

(** The result of an operation as the specification has it. *)
Definition res_map {A} (rep : A → Reply) (res : ErrorCode + A) : ErrorCode + Reply :=
  match res with inl code => inl code | inr a => inr (rep a) end.

Section served.
Context `{BytesCrate, Profile, !OsRng, !OsRngLaws, WsSinkEnv, Clock}.
Implicit Types w : World.

Lemma served_refl w : session_ok (session w) → served w w [].
Proof using Type. intros Ho. split; try done; [by apply quiet_refl|cbn; lia]. Qed.

(** A call on the store inside a handler. *)
Lemma attempt_store {A} (m : M (MemoryStore * nat) ErrorCode A) op (rep : A → Reply)
    (call : M World ErrorCode A) (k : ErrorCode + A → M World RdowsError unit) w :
  (∀ st, run_op op st = (a ← m; mret (rep a)) st) →
  call w = match m (store w, rng_draws w) with
           | Ok a (s', n') => Ok a (with_store s' n' w)
           | Err e (s', n') => Err e (with_store s' n' w)
           | Panic => Panic
           end →
  session_ok (session w) → op_typed op → next_lkey (store w) + 1 < 2 ^ 32 →
  ¬ register_panics op (store w) (rng_draws w) →
  ∃ res w2, (res ← attempt call; k res) w = k res w2 ∧ served w w2 [(op, res_map rep res)] ∧
    (∀ a, res = inr a → m (store w, rng_draws w) = Ok a (store w2, rng_draws w2)) ∧
    mr_reg_count (session w2) = mr_reg_count (session w).
Proof using Type*.
  intros Hop Hcall Ho Ht Hl Hp.
  pose proof (store_call m op rep (store w) (rng_draws w) Hop (so_store _ Ho) Ht Hl) as Hm.
  rewrite attempt_bind, Hcall.
  destruct (m (store w, rng_draws w)) as [a [s' n']|code [s' n']|]; [| |done].
  - exists (inr a), (with_store s' n' w). split_and!; [done| |by intros a' [= ->]|done].
    split; try done; [apply quiet_store; [by apply quiet_refl|done|done]|destruct op; cbn; lia].
  - exists (inl code), (with_store s' n' w). split_and!; [done| |done|done].
    split; try done; [apply quiet_store; [by apply quiet_refl|done|done]|destruct op; cbn; lia].
Qed.
End served.

Section replies.
Context `{BytesCrateLaws, Profile, !OsRng, !OsRngLaws, WsSinkEnv, Clock}.
Context (w : World) (Ho : session_ok (session w)).
Context (e : Z) (Hst : session_state (session w) = Ready)
  (He : expected_remote_seq (session w) = Some e) (Heu : u32 e).
Context (Hl : next_lkey (store w) + 1 < 2 ^ 32).

(** The session after the sequence check. *)
Definition checked : World := on_session (set_expected_remote_seq (Some (wrapping_add 32 e 1))) w.
Lemma checked_ok : session_ok (session checked).
Proof using Ho. destruct Ho. split; try done. by apply wrapping_add_range. Qed.

Lemma checked_quiet w1 tr : quiet checked w1 tr → quiet w w1 tr.
Proof using Type. intros []. by split. Qed.

(** [rep] answers the request [m] after the operations [tr]. *)
Definition replied (m rep : RdowsMessage) (w1 : World)
    (tr : list (StoreOp * (ErrorCode + Reply))) : Prop :=
  handle_message m w = finish (emit rep w1) ∧ served checked w1 tr ∧ reply_ok w1 rep ∧
  opcode_of rep ≠ Opcode.CreditUpdate.

Definition error_reply (w1 : World) (code : ErrorCode) (seq : Z) (d : list byte) : RdowsMessage :=
  RdowsMessage.Error (next_hdr Opcode.Error 0 w1) (mkError code seq d).
Lemma error_reply_ok w1 code seq d :
  session_ok (session w1) → u32 seq → valid_utf8 d → u16 (zlen d) →
  reply_ok w1 (error_reply w1 code seq d).
Proof using Type. intros. by apply (reply_ok_of _ _ Opcode.Error 0). Qed.

(** MR_DEREG *)
Definition status_of {A} (res : ErrorCode + A) : Z :=
  match res with inr _ => 0 | inl code => u16_from_ErrorCode code end.
Lemma mr_dereg_replied h p :
  accepted w e (RdowsMessage.MrDereg h p) → u64 (h_wrid h) → MrDeregPayload_typed p →
  ∃ (res : ErrorCode + unit) w1, replied (RdowsMessage.MrDereg h p)
    (RdowsMessage.MrDeregAck (next_hdr Opcode.MrDeregAck (h_wrid h) w1) (mkMrDeregAck (status_of res)))
    w1 [(OpDeregister (md_pd p) (md_lkey p), res_map (λ _, RDone) res)].
Proof using Type*.
  intros Hadm Hw Ht. unfold replied. rewrite (handle_message_accepted w e Hst He _ Hadm).
  fold checked. cbn [handle_ready dispatch]. unfold handle_mr_dereg.
  edestruct (attempt_store (on_store (deregister (md_pd p) (md_lkey p)))
    (OpDeregister (md_pd p) (md_lkey p)) (λ _, RDone)) as (res & w1 & Hrun & Hsd & _);
    [done|apply on_memory_store_eq|apply checked_ok|apply Ht|done|by intros []|].
  exists res, w1. rewrite Hrun. rewrite (reply_eq _ _ (λ h, RdowsMessage.MrDeregAck h _)).
  split_and!; try done. apply (reply_ok_of _ _ Opcode.MrDeregAck (h_wrid h)); try done; [apply Hsd|].
  destruct res; [apply u16_from_ErrorCode_range|done].
Qed.

(** ATOMIC_REQ of a type the code knows *)
Lemma atomic_replied h p :
  accepted w e (RdowsMessage.AtomicReq h p) → RdowsHeader_typed h → AtomicReqPayload_typed p →
  aq_atomic_type p = ATOMIC_TYPE_CAS ∨ aq_atomic_type p = ATOMIC_TYPE_FAA →
  ∃ (res : ErrorCode + Z) w1, replied (RdowsMessage.AtomicReq h p)
    (match res with
     | inr v => RdowsMessage.AtomicResp (next_hdr Opcode.AtomicResp (h_wrid h) w1) (mkAtomicResp v 0)
     | inl code => error_reply w1 code (h_sequence h) []
     end) w1
    [(OpAtomic (aq_rkey p) (aq_remote_va p) (aq_atomic_type p) (aq_operand1 p) (aq_operand2 p),
      res_map RWord res)].
Proof using Type*.
  intros Hadm (_ & _ & _ & Hseq & Hw & _) Ht Hty. unfold replied.
  rewrite (handle_message_accepted w e Hst He _ Hadm).
  fold checked. cbn [handle_ready dispatch]. unfold handle_atomic_req.
  assert (negb (aq_atomic_type p =? ATOMIC_TYPE_CAS) && negb (aq_atomic_type p =? ATOMIC_TYPE_FAA)
    = false) as -> by (by destruct Hty as [->| ->]).
  edestruct (attempt_store (on_store (atomic_op (aq_rkey p) (aq_remote_va p) (aq_atomic_type p)
      (aq_operand1 p) (aq_operand2 p)))
    (OpAtomic (aq_rkey p) (aq_remote_va p) (aq_atomic_type p) (aq_operand1 p) (aq_operand2 p)) RWord)
    as (res & w1 & Hrun & Hsd & Hval & _);
    [done|apply on_memory_store_eq|apply checked_ok| |done|by intros []|].
  { destruct Ht as (? & ? & ? & ? & ?). done. }
  exists res, w1. rewrite Hrun. destruct res as [code|v].
  - rewrite send_error_eq. split_and!; try done. apply error_reply_ok; try done. apply Hsd.
  - rewrite (reply_eq _ _ (λ h, RdowsMessage.AtomicResp h _)). split_and!; try done.
    apply (reply_ok_of _ _ Opcode.AtomicResp (h_wrid h)); try done; [apply Hsd|].
    specialize (Hval v eq_refl). unfold on_store, zoom in Hval. cbn [fst] in Hval.
    rewrite (atomic_op_eq _ _ _ _ _ _ (so_store _ checked_ok)) in Hval by apply Ht.
    repeat case_match; simplify_eq. split; [apply (be_value_take 8)|done].
Qed.

(** READ_REQ when reads are allowed at all *)
Lemma read_replied h p :
  accepted w e (RdowsMessage.ReadReq h p) → RdowsHeader_typed h → ReadReqPayload_typed p →
  0 < max_outstanding_reads (session w) →
  ∃ (res : ErrorCode + list byte) w1, replied (RdowsMessage.ReadReq h p)
    (match res with
     | inr d => RdowsMessage.ReadResp (next_hdr Opcode.ReadResp (h_wrid h) w1) (mkReadResp 0 d)
     | inl code => error_reply w1 code (h_sequence h) []
     end) w1
    [(OpRead (rq_rkey p) (rq_remote_va p) (rq_read_len p), res_map RBytes res)].
Proof using Type*.
  intros Hadm (_ & _ & _ & Hseq & Hw & _) (Hr & Hva & Hlen & _) Hmax. unfold replied.
  rewrite (handle_message_accepted w e Hst He _ Hadm).
  fold checked. cbn [handle_ready dispatch]. unfold handle_read_req. srun.
  pose proof checked_ok as Hco. rewrite (so_reads _ Hco).
  change (max_outstanding_reads (session checked)) with (max_outstanding_reads (session w)).
  rewrite (proj2 (Z.leb_gt _ _)) by done. unfold add_ovf, sub_ovf. rewrite ovf_bind by done. srun.
  pose proof (store_call (on_store (read_region (rq_rkey p) (rq_remote_va p) (rq_read_len p)))
    (OpRead (rq_rkey p) (rq_remote_va p) (rq_read_len p)) RBytes (store checked) (rng_draws checked)
    ltac:(done) (so_store _ Hco) ltac:(done) Hl) as Hc.
  set (w0 := on_session (set_outstanding_reads (0 + 1)) checked).
  rewrite attempt_bind. unfold on_memory_store, zoom. change (store w0) with (store checked).
  unfold on_store, zoom in Hc. cbn [fst] in Hc. unfold uN in Hva, Hlen.
  assert (∀ tr, store_moves (store checked) (rng_draws checked) tr (store checked) (rng_draws checked) →
    zlen tr ≤ 1 → served checked checked tr) as Hsd.
  { intros tr Hs Hn. destruct Hco. split; try done.
    pose proof (reg_ops_range tr). lia. }
  assert (∃ res, match read_region (rq_rkey p) (rq_remote_va p) (rq_read_len p) (store checked) with
    | Ok d s' => res = inr d ∧ s' = store checked | Err code s' => res = inl code ∧ s' = store checked
    | Panic => False end) as [res Hres].
  { rewrite (read_region_eq _ _ _ _ (so_store _ Hco)) by lia. 
    destruct (region_of _ _); [|by exists (inl ErrInvalidMkey)].
    destruct (negb _); [by exists (inl ErrAccessDenied)|].
    destruct (_ <? _); [by exists (inl ErrBounds)|by eexists (inr _)]. }
  exists res, checked.
  destruct (read_region _ _ _ (store checked)) as [d s'|code s'|]; [..|done]; destruct Hres as [-> ->];
    cbn beta iota; change (on_session (set_memory_store (store checked)) w0) with w0.
  - rewrite (reply_attempt_bind _ _ (λ h, RdowsMessage.ReadResp h (mkReadResp 0 d))). cbn zeta.
    rewrite ovf_bind by done. srun. change (0 + 1 - 1) with 0.
    pose proof (outstanding_restored_emit checked (0 + 1) Opcode.ReadResp (h_wrid h)
      (λ h, RdowsMessage.ReadResp h (mkReadResp 0 d)) (so_reads _ Hco)) as Hrest.
    cbn beta zeta in Hrest. fold w0 in Hrest. rewrite Hrest. split; [|split; [by apply Hsd|split; [|done]]].
    + unfold finish. change (sink (emit (RdowsMessage.ReadResp (next_hdr Opcode.ReadResp (h_wrid h) w0)
        (mkReadResp 0 d)) w0)) with (sink (emit (RdowsMessage.ReadResp
        (next_hdr Opcode.ReadResp (h_wrid h) checked) (mkReadResp 0 d)) checked)).
      by destruct (ws_send_error _).
    + by apply (reply_ok_of _ _ Opcode.ReadResp (h_wrid h)).
  - rewrite ovf_bind by done. srun. change (0 + 1 - 1) with 0. unfold w0.
    rewrite outstanding_restored by apply Hco. rewrite send_error_eq.
    split; [done|split; [by apply Hsd|split; [by apply error_reply_ok|done]]].
Qed.

(** MR_REG: the store's answer, or a refusal by the rate limit *)
Definition reg_ack (w1 : World) (wrid : Z) (pd : ProtectionDomain) (res : ErrorCode + (Z * Z))
    : RdowsMessage :=
  RdowsMessage.MrRegAck (next_hdr Opcode.MrRegAck wrid w1)
    match res with
    | inr (l, r) => mkMrRegAck pd l r 0
    | inl code => mkMrRegAck pd 0 0 (u16_from_ErrorCode code)
    end.
Lemma reg_ack_ok w1 wrid pd (res : ErrorCode + (Z * Z)) :
  session_ok (session w1) → u64 wrid → u32 pd →
  (∀ l r, res = inr (l, r) → u32 l ∧ u32 r) → reply_ok w1 (reg_ack w1 wrid pd res).
Proof using Type.
  intros Ho1 Hw Hpd Hk. apply (reply_ok_of _ _ Opcode.MrRegAck wrid); try done.
  destruct res as [code|[l r]].
  - split_and!; try done. apply u16_from_ErrorCode_range.
  - destruct (Hk l r eq_refl). by split_and!.
Qed.

Lemma mr_reg_replied h p :
  accepted w e (RdowsMessage.MrReg h p) → u64 (h_wrid h) → MrRegPayload_typed p →
  ¬ register_panics (OpRegister (mr_pd p) (mr_access_flags p) (mr_region_len p)) (store w) (rng_draws w) →
  ∃ (res : ErrorCode + (Z * Z)) w1 tr,
    replied (RdowsMessage.MrReg h p) (reg_ack w1 (h_wrid h) (mr_pd p) res) w1 tr ∧
    (tr = [(OpRegister (mr_pd p) (mr_access_flags p) (mr_region_len p), res_map (λ '(l, r), RKeys l r) res)]
     ∨ tr = [] ∧ res = inl ErrInternal).
Proof using Type*.
  intros Hadm Hw (Hpd & Hfl & Hlen & _) Hnp. unfold replied.
  rewrite (handle_message_accepted w e Hst He _ Hadm).
  fold checked. cbn [handle_ready dispatch]. unfold handle_mr_reg. srun. cbn [session].
  pose proof checked_ok as Hco.
  set (now := instant_now (clock_reads checked)).
  set (start := mr_reg_window_start (session checked)).
  set (late := from_secs 1 <=? duration_since now start).
  set (count := if late then 0 else mr_reg_count (session checked)).
  set (w0 c := mkWorld (set_mr_reg_count c (set_mr_reg_window_start (if late then now else start)
    (session checked))) (sink checked) (rng_draws checked) (S (clock_reads checked))).
  assert (0 ≤ count ≤ mr_reg_rate_limit (session checked)) as Hcount
    by (unfold count; pose proof (so_count _ Hco); destruct late; lia).
  match goal with |- ∃ _ _ _, ((?m ≫= ?k) ?w' = _ ∧ _) ∧ _ =>
    assert ((m ≫= k) w' = k tt (w0 count)) as -> end.
  { unfold w0, count. destruct late; [done|]. unfold start, checked. by destruct w as [[]]. }
  assert (count ≤ mr_reg_count (session checked)) as Hcount'
    by (unfold count; pose proof (so_count _ Hco); destruct late; lia).
  assert (∀ c, 0 ≤ c ≤ mr_reg_rate_limit (session checked) → c ≤ count → served checked (w0 c) []) as Hq
    by (intros c Hc Hc'; split; try done; [by apply (quiet_window checked Hco)|cbn; cbn in Hcount'; lia]).
  srun. change (mr_reg_count (session (w0 count))) with count.
  change (mr_reg_rate_limit (session (w0 count))) with (mr_reg_rate_limit (session checked)).
  destruct (Z.leb_spec (mr_reg_rate_limit (session checked)) count).
  { exists (inl ErrInternal), (w0 count), []. rewrite (reply_eq _ _ (λ h, RdowsMessage.MrRegAck h _)).
    split; [|by right]. split; [done|]. split; [apply Hq; lia|]. split; [|done].
    apply reg_ack_ok; try done. apply Hq; lia. }
  pose proof (so_limit _ Hco) as Hlim. unfold uN in Hlim.
  unfold add_ovf. rewrite ovf_bind by (unfold uN; lia). srun.
  change (on_session _ (w0 count)) with (w0 (count + 1)).
  assert (quiet checked (w0 (count + 1)) []) as Hq1 by (apply (quiet_window checked Hco); lia).
  edestruct (attempt_store (register (mr_pd p) (mr_access_flags p) (mr_region_len p))
    (OpRegister (mr_pd p) (mr_access_flags p) (mr_region_len p)) (λ '(l, r), RKeys l r))
    as (res & w1 & Hrun & Hsd & Hval & Hcnt);
    [|apply on_memory_store_rng_eq|apply Hq1|done|exact Hl|exact Hnp|].
  { intros st. cbn [run_op]. unfold mbind, M_bind. by destruct (register _ _ _ _) as [[]| |]. }
  eexists res, w1, _. rewrite Hrun. split; [|by left]. split.
  { by destruct res as [code|[l r]]; rewrite (reply_eq _ _ (λ h, RdowsMessage.MrRegAck h _)). }
  split; [destruct Hsd as [[]]; split; try done; rewrite Hcnt; cbn in Hcount' |- *; lia|]. split; [|done].
  apply reg_ack_ok; try done; [apply Hsd|]. intros l r ->. specialize (Hval _ eq_refl).
  pose proof (register_spec (store w) (rng_draws w) (mr_pd p) (mr_access_flags p) (mr_region_len p)
    (so_store _ Ho) Hlen Hl) as Hs.
  change (store (w0 (count + 1))) with (store w) in Hval.
  change (rng_draws (w0 (count + 1))) with (rng_draws w) in Hval. rewrite Hval in Hs.
  destruct Hs as (_ & _ & -> & Hrr & _). pose proof (ok_next _ (so_store _ Ho)). unfold uN. lia.
Qed.
End replies.

(** ** The two-message requests *)

(** A completed SEND is counted, and every [DEFAULT_ICC / 4]-th one makes the server
    grant the credits back. *)
Definition credit_due (w : World) : bool := DEFAULT_ICC / 4 <=? sends_since_last_credit (session w) + 1.
Definition grant_msg (w : World) : RdowsMessage :=
  RdowsMessage.CreditUpdate (next_hdr Opcode.CreditUpdate 0 w)
    (mkCredit (sends_since_last_credit (session w) + 1)).
Definition counted `{BytesCrate} (w : World) : World :=
  if credit_due w then on_session (set_sends_since_last_credit 0) (emit (grant_msg w) w)
  else on_session (set_sends_since_last_credit (sends_since_last_credit (session w) + 1)) w.

Section pairs.
Context `{BytesCrateLaws, Profile, !OsRng, !OsRngLaws, WsSinkEnv, Clock}.
Context (Hsink : ∀ log, ws_send_error log = None).
Context (w : World) (e : Z) (Hst : session_state (session w) = Ready)
  (He : expected_remote_seq (session w) = Some e).

Definition pending_is (p : PendingOp) (w : World) : World := on_session (set_pending_op p) w.

(** SEND: a receive is taken, or ERR_RNR is sent and the data will be dropped. *)
Lemma send_taken h p :
  accepted w e (RdowsMessage.Send h p) → 0 < recv_queue_depth (session w) →
  u32 (recv_queue_depth (session w)) →
  handle_message (RdowsMessage.Send h p) w = Ok tt (pending_is (AwaitingSendData (h_wrid h))
    (on_session (set_recv_queue_depth (recv_queue_depth (session w) - 1)) (checked w e))).
Proof using Hst He.
  intros Hadm Hd Hu. rewrite (handle_message_accepted w e Hst He _ Hadm). fold (checked w e).
  cbn [handle_ready dispatch]. unfold handle_send. srun.
  change (recv_queue_depth (session (checked w e))) with (recv_queue_depth (session w)).
  rewrite (proj2 (Z.eqb_neq _ _)) by lia. unfold sub_ovf. unfold uN in Hu.
  rewrite ovf_bind by (unfold uN; lia). by srun.
Qed.
Definition rnr_error (h : RdowsHeader) : RdowsMessage :=
  error_reply (checked w e) ErrRnr (h_sequence h) (lit "receiver not ready").
Lemma send_refused h p :
  accepted w e (RdowsMessage.Send h p) → recv_queue_depth (session w) = 0 →
  handle_message (RdowsMessage.Send h p) w =
    Ok tt (pending_is DiscardingSendData (emit (rnr_error h) (checked w e))).
Proof using Hst He Hsink.
  intros Hadm Hz. rewrite (handle_message_accepted w e Hst He _ Hadm). fold (checked w e).
  cbn [handle_ready dispatch]. unfold handle_send. srun.
  change (recv_queue_depth (session (checked w e))) with (recv_queue_depth (session w)).
  rewrite Hz. cbn [Z.eqb]. by rewrite (finish_bind _ _ _ _ (send_error_eq _ _ _ _)), Hsink.
Qed.
(** SEND_DATA after each of them. *)
Lemma send_data_completes h d wrid :
  accepted w e (RdowsMessage.SendData h d) → pending_op (session w) = AwaitingSendData wrid →
  icc (session w) = DEFAULT_ICC → 0 ≤ sends_since_last_credit (session w) < DEFAULT_ICC / 4 →
  let w0 := pending_is NoPending (checked w e) in
  handle_message (RdowsMessage.SendData h d) w =
    Ok tt (counted (emit (RdowsMessage.RecvComp (next_hdr Opcode.RecvComp wrid w0)) w0)).
Proof using Hst He Hsink.
  intros Hadm Hp Hicc Hn w0. rewrite (handle_message_accepted w e Hst He _ Hadm).
  fold (checked w e). cbn [handle_ready dispatch]. unfold handle_send_data, take_pending. srun.
  change (pending_op (session (checked w e))) with (pending_op (session w)). rewrite Hp.
  change (on_session (set_pending_op NoPending) (checked w e)) with w0.
  rewrite (reply_bind _ _ RdowsMessage.RecvComp). cbn zeta. rewrite Hsink. srun.
  set (w1 := emit _ w0). unfold counted, credit_due.
  change (sends_since_last_credit (session w1)) with (sends_since_last_credit (session w)).
  change (DEFAULT_ICC / 4) with 16383 in *.
  unfold add_ovf. rewrite ovf_bind by (unfold uN; lia). srun.
  change (icc (session (on_session _ w1))) with (icc (session w)). rewrite Hicc.
  change (DEFAULT_ICC / 4) with 16383. destruct (16383 <=? _); [|done].
  rewrite (reply_bind _ _ (λ h, RdowsMessage.CreditUpdate h _)). cbn zeta. rewrite Hsink. by srun.
Qed.
Lemma send_data_dropped h d :
  accepted w e (RdowsMessage.SendData h d) → pending_op (session w) = DiscardingSendData →
  handle_message (RdowsMessage.SendData h d) w = Ok tt (pending_is NoPending (checked w e)).
Proof using Hst He.
  intros Hadm Hp. rewrite (handle_message_accepted w e Hst He _ Hadm).
  fold (checked w e). cbn [handle_ready dispatch]. unfold handle_send_data, take_pending. srun.
  change (pending_op (session (checked w e))) with (pending_op (session w)). by rewrite Hp.
Qed.

(** WRITE: the key check of the specification decides. *)
Lemma write_checked h p :
  store_ok (store w) → accepted w e (RdowsMessage.Write h p) →
  handle_message (RdowsMessage.Write h p) w =
    Ok tt (match access (abs (store w)) (wp_rkey p) REMOTE_WRITE with
           | inr _ => pending_is (AwaitingWriteData (h_wrid h) (wp_rkey p) (wp_remote_va p) (wp_length p))
                        (checked w e)
           | inl code => emit (error_reply (checked w e) code (h_sequence h) []) (checked w e)
           end).
Proof using Type*.
  intros Hso Hadm. rewrite (handle_message_accepted w e Hst He _ Hadm).
  fold (checked w e). cbn [handle_ready dispatch]. unfold handle_write. rewrite attempt_bind.
  unfold on_memory_store, zoom. change (memory_store (session (checked w e))) with (store w).
  rewrite (validate_rkey_eq _ _ _ Hso), access_abs.
  assert (on_session (set_memory_store (store w)) (checked w e) = checked w e) as Hid
    by (apply (on_session_store_id (checked w e))).
  destruct (region_of _ _) as [en|]; [destruct (AccessFlags_contains _ _)|]; cbn beta iota; rewrite Hid;
    [done|..]; rewrite send_error_eq; unfold finish; by rewrite Hsink.
Qed.

(** WRITE_DATA after an accepted WRITE, and after a refused one. *)
Lemma write_data_replied h d wrid r va len :
  session_ok (session w) → next_lkey (store w) + 1 < 2 ^ 32 →
  accepted w e (RdowsMessage.WriteData h d) →
  pending_op (session w) = AwaitingWriteData wrid r va len →
  ∃ (res : ErrorCode + unit) w1,
    let rep := match res with
               | inr _ => RdowsMessage.WriteComp (next_hdr Opcode.WriteComp wrid w1)
               | inl code => error_reply w1 code 0 []
               end in
    handle_message (RdowsMessage.WriteData h d) w = Ok tt (emit rep w1) ∧ reply_ok w1 rep ∧
    served (pending_is NoPending (checked w e)) w1
      [(OpWrite r va (dp_data d), res_map (λ _, RDone) res)].
Proof using Type*.
  intros Ho Hl Hadm Hp. rewrite (handle_message_accepted w e Hst He _ Hadm).
  fold (checked w e). cbn [handle_ready dispatch]. unfold handle_write_data, take_pending. srun.
  change (pending_op (session (checked w e))) with (pending_op (session w)). rewrite Hp.
  fold (pending_is NoPending (checked w e)). pose proof (so_pending _ Ho) as Hpt. rewrite Hp in Hpt.
  destruct Hpt as (Hw & Hr & Hva & _).
  edestruct (attempt_store (on_store (write_region r va (dp_data d))) (OpWrite r va (dp_data d))
    (λ _, RDone) (on_memory_store (write_region r va (dp_data d)))) with
    (w := pending_is NoPending (checked w e)) as (res & w1 & Hrun & Hsd & _);
    [done|apply on_memory_store_eq| |done|exact Hl|by intros []|].
  { destruct (checked_ok w Ho e). by split. }
  exists res, w1. cbn zeta. rewrite Hrun. destruct res as [code|u].
  - rewrite send_error_eq. unfold finish. rewrite Hsink. split; [done|]. split; [|done].
    apply error_reply_ok; try done. apply Hsd.
  - rewrite (reply_eq _ _ RdowsMessage.WriteComp). unfold finish. rewrite Hsink.
    split; [done|]. split; [|done].
    apply (reply_ok_of _ _ Opcode.WriteComp wrid); try done. apply Hsd.
Qed.
Definition orphan_reply : RdowsMessage :=
  error_reply (pending_is NoPending (checked w e)) ErrUnknownOpcode 0
    (lit "unexpected WRITE_DATA without preceding WRITE").
Lemma write_data_unexpected h d :
  accepted w e (RdowsMessage.WriteData h d) → pending_op (session w) = NoPending →
  handle_message (RdowsMessage.WriteData h d) w =
    Ok tt (emit orphan_reply (pending_is NoPending (checked w e))).
Proof using Hst He Hsink.
  intros Hadm Hp. rewrite (handle_message_accepted w e Hst He _ Hadm). fold (checked w e).
  cbn [handle_ready dispatch]. unfold handle_write_data, take_pending. srun.
  change (pending_op (session (checked w e))) with (pending_op (session w)). rewrite Hp, send_error_eq.
  unfold finish. by rewrite Hsink.
Qed.
End pairs.
