(* ===== verification/EndToEnd.v ===== *)
(** * The client against the server

    The server session of [Session.v] as the peer of the client of [Verbs.v]:
    every message the client sends is one item of the session's stream, and the
    frames the session submits reach the client's inbox, both through a WebSocket
    with tungstenite's default limit on the size of a frame.  [linked] is the state of
    an established connection with nothing in flight; the verbs keep it. *)

From S2P Require Import Prelude Externals Utf8 Core Frame Payloads Message MemoryStore StoreSpec.
From S2P Require Import ServerState Handler Session SessionFacts SessionProps Replies.
From S2P Require Import Client Verbs ClientFacts.

(** The server side of a connection: the session and whether its task runs. *)
Record Server := mkServer { srv_world : World; srv_alive : bool }.

#[export] Instance server_peer `{BytesCrate, Profile, OsRng, WsSinkEnv, Clock} : Peer Server :=
  λ data srv,
    let w := srv_world srv in
    if srv_alive srv then
      match session_item (over_ws data) w with
      | Ok stop w' =>
          mkReaction None (over_ws <$> drop (length (sink w)) (sink w')) stop
            (mkServer w' (negb stop))
      | _ => mkReaction None [] true (mkServer w false)
      end
    else mkReaction None [] true srv.

Abbreviation server c := (srv_world (wire_peer (wire c))).

(** A message as the other side decodes it. *)
Definition sized_msg `{BytesCrate} (m : RdowsMessage) : RdowsMessage :=
  set_header (with_payload_length (zlen (RdowsMessage_encode_payload m)) (RdowsMessage_header m)) m.
(** The longest payload that fits one WebSocket frame, and the longest a session
    accepts.  The negotiated size counts the payload alone, so at its default it
    is the larger of the two. *)
Definition MAX_FRAME_PAYLOAD : Z := WS_MAX_FRAME_SIZE - HEADER_SIZE.
Definition one_frame `{BytesCrate} (m : RdowsMessage) : Prop :=
  zlen (RdowsMessage_encode_payload m) ≤ MAX_FRAME_PAYLOAD.
Definition room_of (mx : Z) : Z := Z.min mx MAX_FRAME_PAYLOAD.
Definition room (w : World) : Z := room_of (max_msg_size (session w)).
Definition sendable `{BytesCrate} (m : RdowsMessage) : Prop :=
  RdowsMessage_wf m ∧ fits_counts m ∧ one_frame m.

Record linked (c : Client Server) : Prop := {
  lk_alive : srv_alive (wire_peer (wire c)) = true;
  lk_ok : session_ok (session (server c));
  lk_ready : session_state (session (server c)) = Ready;
  lk_exp : expected_remote_seq (session (server c)) = Some (c_next_seq (conn c));
  lk_client_exp : c_expected_remote_seq (conn c) = Some (next_seq (session (server c)));
  lk_sid : c_session_id (conn c) = session_id (session (server c));
  lk_seq : u32 (c_next_seq (conn c));
  lk_inbox : inbox (wire c) = [];
  lk_open : ended (wire c) = false;
}.

Section exchange.
Context `{BytesCrateLaws, Profile, !OsRng, !OsRngLaws, WsSinkEnv, Clock}.
Implicit Types (c : Client Server) (w : World).

(** A message of one frame arrives as it was sent. *)
Lemma one_frame_u32 m : one_frame m → u32 (zlen (RdowsMessage_encode_payload m)).
Proof using Type.
  unfold one_frame, MAX_FRAME_PAYLOAD, WS_MAX_FRAME_SIZE, HEADER_SIZE, uN. intros Hm.
  pose proof (zlen_nonneg (RdowsMessage_encode_payload m)). lia.
Qed.
Lemma over_ws_message m : one_frame m → over_ws (RdowsMessage_encode m) = WsBinary (RdowsMessage_encode m).
Proof using Type*.
  intros Hm. apply over_ws_short. rewrite (proj1 (encode_length m (one_frame_u32 m Hm))).
  unfold one_frame, MAX_FRAME_PAYLOAD in Hm. lia.
Qed.
Lemma over_ws_messages msgs :
  Forall one_frame msgs →
  over_ws <$> (RdowsMessage_encode <$> msgs) = WsBinary <$> (RdowsMessage_encode <$> msgs).
Proof using Type*.
  induction 1 as [|m msgs Hm _ IH]; [done|]. cbn. rewrite (over_ws_message m Hm). f_equal. apply IH.
Qed.

(** The session's reaction to a message it handles without ending. *)
Lemma server_reacts m w w' msgs :
  sendable m → handle_message (sized_msg m) w = Ok tt w' →
  session_state (session w') ≠ Closed → sink w' = sink w ++ (RdowsMessage_encode <$> msgs) →
  Forall one_frame msgs →
  peer_react (RdowsMessage_encode m) (mkServer w true) =
    mkReaction None (WsBinary <$> (RdowsMessage_encode <$> msgs)) false (mkServer w' true).
Proof using Type*.
  intros (Hwf & Hf & Hu) Hh Hst Hs Hmsgs. unfold peer_react, server_peer.
  cbn [srv_world srv_alive]. rewrite (over_ws_message m Hu). cbn [session_item].
  rewrite (decode_encode m Hwf Hf (one_frame_u32 m Hu)), attempt_bind. unfold sized_msg in Hh. rewrite Hh. srun.
  rewrite (bool_decide_eq_false_2 _) by done. cbn. by rewrite Hs, drop_app_length, over_ws_messages.
Qed.

(** A message whose payload leaves no room for the 24-byte header in a frame, as
    one of the negotiated maximum size does, ends the session without an answer. *)
Theorem full_size_message_lost m w :
  MAX_FRAME_PAYLOAD < zlen (RdowsMessage_encode_payload m) →
  u32 (zlen (RdowsMessage_encode_payload m)) →
  peer_react (RdowsMessage_encode m) (mkServer w true) = mkReaction None [] true (mkServer w false).
Proof using Type*.
  intros Hm Hu. unfold peer_react, server_peer, over_ws. cbn [srv_world srv_alive].
  rewrite (proj1 (encode_length m Hu)). unfold MAX_FRAME_PAYLOAD in Hm. rewrite (proj2 (Z.ltb_lt _ _)) by lia.
  cbn. by rewrite drop_all.
Qed.

(** The client's receive of a reply in sequence. *)
Lemma client_receives c m rest :
  sendable m → opcode_of m ≠ Opcode.CreditUpdate →
  inbox (wire c) = WsBinary (RdowsMessage_encode m) :: rest →
  c_expected_remote_seq (conn c) = Some (h_sequence (RdowsMessage_header m)) →
  recv_app_message c = Ok (sized_msg m)
    (mkClient (set_c_expected (Some (wrapping_add 32 (h_sequence (RdowsMessage_header m)) 1)) (conn c))
       (mkWire rest (ended (wire c)) (wire_peer (wire c)))).
Proof using Type*.
  intros (Hwf & Hf & Hu) Hop Hi He. rewrite recv_app_message_eq. unfold recv_app_turn.
  rewrite !bind_assoc. unfold mbind at 1, M_bind at 1, on_wire, zoom, recv_message.
  rewrite Hi. cbn [recv_items]. rewrite (decode_encode m Hwf Hf (one_frame_u32 m Hu)). cbn beta iota.
  rewrite bind_assoc. unfold validate_remote_seq. rewrite bind_assoc, self_bind.
  cbn [conn]. rewrite He.
  assert (h_sequence (RdowsMessage_header (sized_msg m)) = h_sequence (RdowsMessage_header m)) as Hs
    by (unfold sized_msg; by destruct m).
  unfold sized_msg in Hs. rewrite Hs, Z.eqb_refl. cbn [negb]. rewrite upd_bind. cbn [conn].
  unfold sized_msg. by destruct m.
Qed.

Lemma linked_wire c : linked c → wire c = mkWire [] false (mkServer (server c) true).
Proof using Type.
  intros Hl. destruct c as [cn [ib en [w alive]]]. destruct Hl; cbn in *. by subst.
Qed.

(** Sending on an open connection. *)
Lemma sent_reacts ib w w' m frames :
  peer_react (RdowsMessage_encode m) (mkServer w true) =
    mkReaction None (WsBinary <$> frames) false (mkServer w' true) →
  send_error_of m (mkWire ib false (mkServer w true)) = None ∧
  sent m (mkWire ib false (mkServer w true)) = mkWire (ib ++ (WsBinary <$> frames)) false (mkServer w' true).
Proof using Type. intros Hr. unfold send_error_of, sent. cbn [wire_peer inbox ended]. by rewrite Hr. Qed.

(** A request of the client, as the session sees it. *)
Lemma request_hdr_typed op wrid c :
  linked c → u64 wrid → RdowsHeader_typed (next_hdr op wrid (conn c)).
Proof using Type.
  intros Hl Hw. split_and!; try done; [|apply Hl]. cbn. rewrite (lk_sid _ Hl). apply (lk_ok _ Hl).
Qed.
Lemma request_sendable c m op wrid :
  linked c → u64 wrid → RdowsMessage_header m = next_hdr op wrid (conn c) → opcode_of m = op →
  payload_typed m → fits_counts m →
  zlen (RdowsMessage_encode_payload m) ≤ room (server c) →
  sendable m ∧ accepted (server c) (c_next_seq (conn c)) (sized_msg m).
Proof using Type.
  intros Hl Hw Hh Hop Ht Hf Hn. unfold room, room_of in Hn. split.
  - split_and!; [|done|unfold one_frame; lia]. unfold RdowsMessage_wf. rewrite Hh, Hop.
    split_and!; try done. by apply request_hdr_typed.
  - unfold accepted, sized_msg. rewrite Hh. destruct m; cbn in *; split; done || lia.
Qed.
(** Small messages. *)
Lemma small_frame m : zlen (RdowsMessage_encode_payload m) ≤ 4096 → one_frame m.
Proof using Type. unfold one_frame, MAX_FRAME_PAYLOAD, WS_MAX_FRAME_SIZE, HEADER_SIZE. lia. Qed.
Lemma small_room n w : n ≤ max_msg_size (session w) → n ≤ 4096 → n ≤ room w.
Proof using Type. unfold room, room_of, MAX_FRAME_PAYLOAD, WS_MAX_FRAME_SIZE, HEADER_SIZE. lia. Qed.
Lemma reply_sendable w m : reply_ok w m → one_frame m → sendable m.
Proof using Type. intros (? & [? _] & _) ?. by split_and!. Qed.
End exchange.

(** The connection after a successful verb: the completion is queued. *)
Definition pushed (cqe : CompletionQueueEntry) (q : CompletionQueue) : CompletionQueue :=
  mkCq (entries q ++ [cqe]) (capacity q).

Section verbs.
Context `{BytesCrateLaws, Profile, !OsRng, !OsRngLaws, WsSinkEnv, Clock}.
Context (Hsink : ∀ log, ws_send_error log = None).
Implicit Types (c : Client Server) (w : World).

(** The two messages of an RDMA Write fit the negotiated size and a frame. *)
Definition write_fits (c : Client Server) (sg_list : list ScatterGatherEntry) (d : list byte) : Prop :=
  Forall ScatterGatherEntry_typed sg_list ∧
  WRITE_HEADER_SIZE + zlen sg_list * SG_ENTRY_SIZE ≤ room (server c) ∧
  zlen d ≤ room (server c).
Definition write_msg c wrid rkey va (d : list byte) sg_list : RdowsMessage :=
  RdowsMessage.Write (next_hdr Opcode.Write wrid (conn c)) (mkWrite rkey va (zlen d) sg_list).
Definition write_data_msg c wrid d : RdowsMessage :=
  RdowsMessage.WriteData (next_hdr Opcode.WriteData wrid (bump (conn c))) (mkData d).

Lemma write_msg_ok c wrid rkey va d sg_list :
  linked c → u64 wrid → u32 rkey → u64 va → write_fits c sg_list d →
  sendable (write_msg c wrid rkey va d sg_list) ∧
  accepted (server c) (c_next_seq (conn c)) (sized_msg (write_msg c wrid rkey va d sg_list)).
Proof using Type*.
  intros Hl Hw Hr Hva (Hsg & Hn1 & Hn2).
  pose proof (so_max _ (lk_ok _ Hl)) as Hmax. unfold DEFAULT_MAX_MSG_SIZE in Hmax.
  apply (request_sendable c _ Opcode.Write wrid Hl Hw); try done.
  - split_and!; try done. unfold uN. cbn. pose proof (zlen_nonneg d). unfold room, room_of in *. lia.
  - unfold write_msg. cbn [RdowsMessage_encode_payload]. by rewrite WritePayload_length.
Qed.
Lemma write_data_msg_ok c wrid d :
  linked c → u64 wrid → zlen d ≤ room (server c) →
  sendable (write_data_msg c wrid d) ∧
  h_sequence (RdowsMessage_header (sized_msg (write_data_msg c wrid d))) =
    wrapping_add 32 (c_next_seq (conn c)) 1 ∧
  h_payload_length (RdowsMessage_header (sized_msg (write_data_msg c wrid d))) = zlen d.
Proof using Type*.
  intros Hl Hw Hn.
  assert (zlen (RdowsMessage_encode_payload (write_data_msg c wrid d)) = zlen d) as Hz
    by (unfold write_data_msg; cbn [RdowsMessage_encode_payload]; unfold DataPayload_encode; by put_laws).
  split_and!; [|done|done]. split_and!; [|done|unfold one_frame; rewrite Hz; unfold room, room_of in Hn; lia].
  split_and!; try done. split_and!; try done; [|by apply wrapping_add_range].
  cbn. rewrite (lk_sid _ Hl). apply (lk_ok _ Hl).
Qed.

Lemma write_pending_ok w e h p :
  session_ok (session w) → session_state (session w) = Ready → u32 e → RdowsHeader_typed h →
  WritePayload_typed p → session_ok (session (write_pending w e h p)).
Proof using Type.
  intros [] Hst He (_ & _ & _ & _ & Hw & _) (? & ? & ? & _). split; try done.
  by apply wrapping_add_range.
Qed.

(** What a verb leaves alone on the server. *)
Definition same_server (w w' : World) : Prop :=
  max_msg_size (session w') = max_msg_size (session w) ∧
  max_outstanding_reads (session w') = max_outstanding_reads (session w) ∧
  session_id (session w') = session_id (session w).

(** The server's side of an RDMA Write on a live key. *)
Lemma write_reactions c wrid rkey va sg_list d en :
  linked c → u64 wrid → u32 rkey → u64 va → write_fits c sg_list d →
  region_of (store (server c)) rkey = Some en →
  AccessFlags_contains (e_access_flags en) REMOTE_WRITE = true →
  va + zlen d ≤ zlen (e_data en) →
  let rep := RdowsMessage.WriteComp (SessionFacts.next_hdr Opcode.WriteComp wrid (server c)) in
  ∃ w1 w2,
    peer_react (RdowsMessage_encode (write_msg c wrid rkey va d sg_list)) (mkServer (server c) true) =
      mkReaction None (WsBinary <$> []) false (mkServer w1 true) ∧
    peer_react (RdowsMessage_encode (write_data_msg c wrid d)) (mkServer w1 true) =
      mkReaction None (WsBinary <$> [RdowsMessage_encode rep]) false (mkServer w2 true) ∧
    session_ok (session w2) ∧ session_state (session w2) = Ready ∧ same_server (server c) w2 ∧
    expected_remote_seq (session w2) =
      Some (wrapping_add 32 (wrapping_add 32 (c_next_seq (conn c)) 1) 1) ∧
    next_seq (session w2) = wrapping_add 32 (next_seq (session (server c))) 1 ∧
    store w2 = put_contents (store (server c)) rkey (splice (e_data en) (Z.to_nat va) d).
Proof using Type*.
  intros Hl Hw Hr Hva Hfit Hreg Hf Hb rep. pose proof (lk_ok _ Hl) as Ho.
  destruct (write_msg_ok c wrid rkey va d sg_list) as [Hs1 Ha1]; try done.
  destruct (write_data_msg_ok c wrid d) as (Hs2 & Hq2 & Hp2); try done; [apply Hfit|].
  set (e := c_next_seq (conn c)) in *. destruct Hs1 as ((Hh & _ & _ & Ht) & Hc1 & Hu1).
  pose proof (handle_write_accepted (server c) Ho e (lk_ready _ Hl) (lk_exp _ Hl) _ _ _ Ha1 Hreg Hf) as Hh1.
  set (w1 := write_pending _ _ _ _) in Hh1.
  assert (session_ok (session w1)) as Ho1.
  { apply write_pending_ok; try done; [apply (lk_ready _ Hl)|apply (lk_seq _ Hl)|].
    by apply with_payload_length_typed; [|apply one_frame_u32]. }
  set (w2 := on_session (λ s, set_memory_store (put_contents (store w1) rkey
      (splice (e_data en) (Z.to_nat va) d)) (set_pending_op NoPending
      (set_expected_remote_seq (Some (wrapping_add 32 (wrapping_add 32 e 1) 1)) s))) w1).
  assert (handle_message (sized_msg (write_data_msg c wrid d)) w1 = Ok tt (emit rep w2)) as Hh2.
  { transitivity (finish (emit rep w2)); [|unfold finish; by rewrite Hsink].
    apply (handle_write_data_accepted w1 (wrapping_add 32 e 1)) with (len := zlen d); try done;
      [apply (lk_ready _ Hl)|apply Ho1| |apply Hva].
    split; [done|]. eapply Z.le_trans; [apply Z.eq_le_incl; exact Hp2|].
    eapply Z.le_trans; [apply Hfit|apply Z.le_min_l]. }
  assert (session_ok (session w2)) as Ho2.
  { destruct Ho1. split; try done; [|by apply wrapping_add_range].
    apply (put_contents_ok _ _ _ _ so_store Hreg). unfold zlen in *. unfold uN in Hva.
    rewrite length_splice; [done|lia]. }
  assert (session_state (session w1) = Ready) as Hr1 by exact (lk_ready _ Hl).
  exists w1, (emit rep w2). split_and!; try done; [..|by apply emit_ok].
  - apply (server_reacts _ _ _ []); [by split_and!|done|by rewrite Hr1|by rewrite app_nil_r|done].
  - apply (server_reacts _ _ _ [rep]); [done|done| |done|by repeat constructor].
    change (session_state (session (emit rep w2))) with (session_state (session w1)). by rewrite Hr1.
Qed.

(** RDMA Write on a live key: the bytes gathered locally are stored remotely. *)
Lemma rdma_write_linked c wrid rkey va sg_list d en :
  linked c → CompletionQueue_is_full (cq (conn c)) = false →
  gather_sg_data sg_list c = Ok d c →
  u64 wrid → u32 rkey → u64 va → write_fits c sg_list d →
  region_of (store (server c)) rkey = Some en →
  AccessFlags_contains (e_access_flags en) REMOTE_WRITE = true →
  va + zlen d ≤ zlen (e_data en) →
  ∃ c', rdma_write wrid rkey va sg_list c = Ok tt c' ∧ linked c' ∧
    store (server c') = put_contents (store (server c)) rkey (splice (e_data en) (Z.to_nat va) d) ∧
    same_server (server c) (server c') ∧
    local_mrs (conn c') = local_mrs (conn c) ∧
    cq (conn c') = pushed (mkCqe wrid 0 Opcode.Write 0 (wrap 32 (zlen d)) (c_session_id (conn c)))
                     (cq (conn c)).
Proof using Type*.
  intros Hl Hfull Hg Hw Hr Hva Hfit Hreg Hf Hb. pose proof (lk_ok _ Hl) as Ho.
  destruct (write_reactions c wrid rkey va sg_list d en) as
    (w1 & w2 & Hre1 & Hre2 & Ho2 & Hr2 & Hsame & He2 & Hq2 & Hst2); try done.
  set (rep := RdowsMessage.WriteComp _) in *.
  destruct (sent_reacts [] _ _ _ _ Hre1) as [Hse1 Hsn1].
  destruct (sent_reacts [] _ _ _ _ Hre2) as [Hse2 Hsn2].
  unfold rdma_write. rewrite self_bind, Hfull, (bind_Ok _ _ _ _ _ Hg).
  rewrite next_header_bind, send_bind. cbn [conn wire]. rewrite (linked_wire c Hl).
  fold (write_msg c wrid rkey va d sg_list). rewrite Hse1, Hsn1. cbn [app fmap list_fmap].
  rewrite next_header_bind, send_bind. cbn [conn wire].
  fold (write_data_msg c wrid d). rewrite Hse2, Hsn2. cbn [app fmap list_fmap].
  erewrite bind_Ok; [|apply (client_receives _ rep []); try done].
  2:{ by apply reply_sendable with (server c); [apply (reply_ok_of _ _ Opcode.WriteComp wrid)|]. }
  2:{ apply (lk_client_exp _ Hl). }
  cbn [sized_msg set_header rep]. rewrite self_bind. unfold cq_push. rewrite self_bind.
  eexists. split; [reflexivity|]. destruct Hsame as (Hm & Hmr & Hid). split_and!; try done.
  - split; try done; cbn.
    + by rewrite Hq2.
    + rewrite Hid. apply (lk_sid _ Hl).
    + by apply wrapping_add_range.
  - cbn. unfold CompletionQueue_push. unfold CompletionQueue_is_full in Hfull. by rewrite Hfull.
Qed.

(** The server's side of an RDMA Read on a live key. *)
Definition read_msg c wrid (p : ReadReqPayload) : RdowsMessage :=
  RdowsMessage.ReadReq (next_hdr Opcode.ReadReq wrid (conn c)) p.
Definition read_resp c wrid data : RdowsMessage :=
  RdowsMessage.ReadResp (SessionFacts.next_hdr Opcode.ReadResp wrid (server c)) (mkReadResp 0 data).
Lemma read_resp_one_frame c wrid data : 8 + zlen data ≤ MAX_FRAME_PAYLOAD → one_frame (read_resp c wrid data).
Proof using Type*.
  intros Hd. unfold one_frame, read_resp. cbn [RdowsMessage_encode_payload]. by rewrite ReadRespPayload_length.
Qed.

Lemma read_reactions c wrid p en :
  linked c → u64 wrid → ReadReqPayload_typed p →
  READ_REQ_SIZE ≤ max_msg_size (session (server c)) →
  0 < max_outstanding_reads (session (server c)) →
  region_of (store (server c)) (rq_rkey p) = Some en →
  AccessFlags_contains (e_access_flags en) REMOTE_READ = true →
  rq_remote_va p + rq_read_len p ≤ zlen (e_data en) → 8 + rq_read_len p ≤ MAX_FRAME_PAYLOAD →
  let data := take (Z.to_nat (rq_read_len p)) (drop (Z.to_nat (rq_remote_va p)) (e_data en)) in
  ∃ w1, peer_react (RdowsMessage_encode (read_msg c wrid p)) (mkServer (server c) true) =
      mkReaction None (WsBinary <$> [RdowsMessage_encode (read_resp c wrid data)]) false
        (mkServer w1 true) ∧
    session_ok (session w1) ∧ session_state (session w1) = Ready ∧ same_server (server c) w1 ∧
    expected_remote_seq (session w1) = Some (wrapping_add 32 (c_next_seq (conn c)) 1) ∧
    next_seq (session w1) = wrapping_add 32 (next_seq (session (server c))) 1 ∧
    store w1 = store (server c).
Proof using Type*.
  intros Hl Hw Ht Hmax Hrd Hreg Hf Hb Hfit data. pose proof (lk_ok _ Hl) as Ho.
  destruct (request_sendable c (read_msg c wrid p) Opcode.ReadReq wrid Hl Hw) as [Hs Ha]; try done.
  { apply small_room; unfold read_msg; cbn [RdowsMessage_encode_payload]; unfold ReadReqPayload_encode;
      put_laws; unfold READ_REQ_SIZE in Hmax; zlen_lia. }
  pose proof (handle_read_accepted (server c) Ho (c_next_seq (conn c)) (lk_ready _ Hl) (lk_exp _ Hl)
    _ p en Ha Ht Hrd Hreg Hf Hb) as Hh.
  set (w1 := on_session _ _) in Hh. unfold finish in Hh. rewrite Hsink in Hh.
  assert (session_ok (session w1)) as Ho1 by (destruct Ho; split; try done; by apply wrapping_add_range).
  assert (session_state (session w1) = Ready) as Hr1 by exact (lk_ready _ Hl).
  exists (emit (read_resp c wrid data) w1). split_and!; try done; [|by apply emit_ok].
  apply (server_reacts _ _ _ [read_resp c wrid data]); [done|done| |done|].
  - change (session_state (session w1) ≠ Closed). by rewrite Hr1.
  - constructor; [|done]. apply read_resp_one_frame. unfold data, zlen in *.
    destruct Ht as (_ & [? _] & [? _] & _). rewrite length_take. lia.
Qed.

(** RDMA Read on a live key: the remote bytes arrive in the local region. *)
Lemma rdma_read_linked c wrid rkey va len lk lva en mr :
  linked c → CompletionQueue_is_full (cq (conn c)) = false →
  u64 wrid → ReadReqPayload_typed (mkReadReq rkey va len lk lva) →
  READ_REQ_SIZE ≤ max_msg_size (session (server c)) →
  0 < max_outstanding_reads (session (server c)) →
  region_of (store (server c)) rkey = Some en →
  AccessFlags_contains (e_access_flags en) REMOTE_READ = true →
  va + len ≤ zlen (e_data en) → 8 + len ≤ MAX_FRAME_PAYLOAD →
  local_mrs (conn c) !! lk = Some mr → lva + len ≤ zlen (mh_local_buf mr) < 2 ^ 64 →
  let data := take (Z.to_nat len) (drop (Z.to_nat va) (e_data en)) in
  ∃ c', rdma_read wrid rkey va len lk lva c = Ok tt c' ∧ linked c' ∧
    store (server c') = store (server c) ∧ same_server (server c) (server c') ∧
    cq (conn c') = pushed (mkCqe wrid 0 Opcode.ReadReq 0 (wrap 32 len) (c_session_id (conn c)))
                     (cq (conn c)) ∧
    local_mrs (conn c') = <[lk := mkHandle (mh_lkey mr) (mh_rkey mr) (mh_len mr)
      (splice (mh_local_buf mr) (Z.to_nat lva) data)]> (local_mrs (conn c)).
Proof using Type*.
  intros Hl Hfull Hw Ht Hmax Hrd Hreg Hf Hb Hfit Hmr Hlb data.
  destruct (read_reactions c wrid (mkReadReq rkey va len lk lva) en) as
    (w1 & Hre & Ho1 & Hr1 & (Hm & Hmr' & Hid) & He1 & Hq1 & Hst1); try done.
  destruct Ht as (_ & [Hva _] & [Hlen _] & _ & [Hlva _]). cbn [rq_remote_va rq_read_len rq_local_va] in *.
  fold data in Hre. set (rep := read_resp c wrid data) in *.
  assert (zlen data = len) as Hd by (unfold data, zlen in *; rewrite length_take, length_drop; lia).
  destruct (sent_reacts [] _ _ _ _ Hre) as [Hse Hsn].
  unfold rdma_read. rewrite self_bind, Hfull, next_header_bind, send_bind. cbn [conn wire].
  rewrite (linked_wire c Hl). fold (read_msg c wrid (mkReadReq rkey va len lk lva)).
  rewrite Hse, Hsn. cbn [app fmap list_fmap].
  erewrite bind_Ok; [|apply (client_receives _ rep []); try done].
  2:{ apply reply_sendable with (server c).
      - by apply (reply_ok_of _ _ Opcode.ReadResp wrid); [apply (lk_ok _ Hl)|..].
      - apply read_resp_one_frame. by rewrite Hd. }
  2:{ apply (lk_client_exp _ Hl). }
  cbn [sized_msg set_header rep read_resp rr_data]. rewrite self_bind.
  cbn [conn local_mrs set_c_expected bump set_c_next_seq]. rewrite Hmr, ok_or_bind.
  unfold add_ovf. rewrite ovf_bind by (unfold uN; lia). rewrite Hd, (proj2 (Z.ltb_ge _ _)) by lia.
  rewrite slice_copy_Some, or_panic_bind, upd_bind by lia. rewrite self_bind. unfold cq_push.
  rewrite self_bind. eexists. split; [reflexivity|]. split_and!; try done.
  - split; try done; cbn.
    + by rewrite Hq1.
    + rewrite Hid. apply (lk_sid _ Hl).
    + by apply wrapping_add_range.
  - cbn. unfold CompletionQueue_push. unfold CompletionQueue_is_full in Hfull. by rewrite Hfull.
Qed.

Lemma read_local_mr_eq c lk off len mr :
  local_mrs (conn c) !! lk = Some mr → 0 ≤ off → 0 ≤ len → off + len ≤ zlen (mh_local_buf mr) < 2 ^ 64 →
  read_local_mr lk off len c = Ok (take (Z.to_nat len) (drop (Z.to_nat off) (mh_local_buf mr))) c.
Proof using Type.
  intros Hmr Ho Hl Hb. unfold read_local_mr. rewrite self_bind, Hmr, ok_or_bind.
  unfold add_ovf. rewrite ovf_bind by (unfold uN; lia). rewrite (proj2 (Z.ltb_ge _ _)) by lia.
  rewrite slice_Some by lia. by rewrite Z.add_simpl_l.
Qed.

(** End to end, client and server together: on an established connection an
    RDMA Write of gathered local bytes to a live region that permits it, followed
    by an RDMA Read of the same range into any local region, succeeds and brings
    back exactly the bytes written; the connection stays established. *)
Theorem remote_write_read c wrid wrid' rkey va sg_list d en lk lva mr :
  linked c → zlen (entries (cq (conn c))) + 2 ≤ capacity (cq (conn c)) →
  gather_sg_data sg_list c = Ok d c → u64 wrid → u64 wrid' → write_fits c sg_list d →
  ReadReqPayload_typed (mkReadReq rkey va (zlen d) lk lva) →
  READ_REQ_SIZE ≤ max_msg_size (session (server c)) →
  0 < max_outstanding_reads (session (server c)) →
  region_of (store (server c)) rkey = Some en →
  AccessFlags_contains (e_access_flags en) REMOTE_WRITE = true →
  AccessFlags_contains (e_access_flags en) REMOTE_READ = true →
  va + zlen d ≤ zlen (e_data en) → 8 + zlen d ≤ MAX_FRAME_PAYLOAD →
  local_mrs (conn c) !! lk = Some mr → lva + zlen d ≤ zlen (mh_local_buf mr) < 2 ^ 64 →
  ∃ c', (_ ← rdma_write wrid rkey va sg_list; rdma_read wrid' rkey va (zlen d) lk lva) c = Ok tt c' ∧
    linked c' ∧ read_local_mr lk lva (zlen d) c' = Ok d c'.
Proof using Type*.
  intros Hl Hcap Hg Hw Hw' Hfit Ht Hsz Hrd Hreg Hfw Hfr Hb Hfd Hmr Hlb.
  pose proof (so_store _ (lk_ok _ Hl)) as Hso.
  assert (u32 rkey ∧ u64 va ∧ u64 (zlen d) ∧ u64 lva) as (Hr & Hva & Hlen & Hlva)
    by (destruct Ht as (? & ? & ? & _ & ?); done).
  destruct (rdma_write_linked c wrid rkey va sg_list d en) as
    (c1 & Hrun1 & Hl1 & Hst1 & (Hm1 & Hmr1 & _) & Hloc1 & Hcq1); try done.
  { apply Z.leb_gt. lia. }
  set (d' := splice (e_data en) (Z.to_nat va) d) in *.
  assert (zlen d' = zlen (e_data en)) as Hd'
    by (unfold d', zlen, uN in *; rewrite length_splice; [done|lia]).
  destruct (rdma_read_linked c1 wrid' rkey va (zlen d) lk lva (set_data d' en) mr) as
    (c2 & Hrun2 & Hl2 & _ & _ & _ & Hloc2); try done; rewrite ?Hm1, ?Hmr1, ?Hloc1; try done.
  { apply Z.leb_gt. rewrite Hcq1. cbn. rewrite zlen_app. unfold zlen in *. cbn. lia. }
  { rewrite Hst1, (region_of_put _ _ _ _ _ Hso Hreg). by rewrite decide_True. }
  { cbn. by rewrite Hd'. }
  exists c2. split_and!; [by rewrite (bind_Ok _ _ _ _ _ Hrun1)|done|]. cbn [e_data set_data] in Hloc2.
  assert (take (Z.to_nat (zlen d)) (drop (Z.to_nat va) d') = d) as Hback.
  { unfold d', zlen, uN in *. rewrite Nat2Z.id. apply take_drop_splice. lia. }
  rewrite Hback, Hloc1 in Hloc2.
  rewrite (read_local_mr_eq c2 lk lva (zlen d) (mkHandle (mh_lkey mr) (mh_rkey mr) (mh_len mr)
    (splice (mh_local_buf mr) (Z.to_nat lva) d))); cbn [mh_local_buf]; unfold zlen, uN in *.
  - rewrite Nat2Z.id, take_drop_splice by lia. done.
  - rewrite Hloc2. apply lookup_insert_eq.
  - lia.
  - lia.
  - rewrite length_splice; lia.
Qed.

(** *** Establishing a connection *)
Definition connect_msg (sid : Z) : RdowsMessage :=
  RdowsMessage.Connect (RdowsHeader_new Opcode.Connect sid 0 0)
    (mkConnect 1 0 DEFAULT_MAX_MSG_SIZE DEFAULT_ICC).
Definition fresh_server (cfg : ServerConfig) : Wire Server :=
  mkWire [] false (mkServer (World_new cfg) true).

Lemma connect_payload_length p : zlen (ConnectPayload_encode p []) = CONNECT_PAYLOAD_SIZE.
Proof using Type*. unfold ConnectPayload_encode, CONNECT_PAYLOAD_SIZE. put_laws. zlen_lia. Qed.
Lemma connect_msg_sendable sid : u32 sid → sendable (connect_msg sid).
Proof using Type*.
  intros Hs. split_and!; try done. unfold one_frame, connect_msg. cbn [RdowsMessage_encode_payload].
  by rewrite connect_payload_length.
Qed.

(** The handshake leaves the configured limits alone. *)
Definition same_limits (w w' : World) : Prop :=
  max_outstanding_reads (session w') = max_outstanding_reads (session w) ∧
  mr_reg_rate_limit (session w') = mr_reg_rate_limit (session w) ∧
  mr_reg_count (session w') = mr_reg_count (session w) ∧
  recv_queue_depth (session w') = recv_queue_depth (session w) ∧
  sends_since_last_credit (session w') = sends_since_last_credit (session w) ∧
  pending_op (session w') = pending_op (session w).

(** The server's side of the handshake. *)
Lemma connect_reaction cfg sid :
  config_ok cfg → u32 sid →
  let ack := RdowsMessage.ConnectAck (RdowsHeader_new Opcode.ConnectAck sid 0 0)
               (mkConnect 1 0 DEFAULT_MAX_MSG_SIZE DEFAULT_ICC) in
  ∃ w1, peer_react (RdowsMessage_encode (connect_msg sid)) (mkServer (World_new cfg) true) =
      mkReaction None (WsBinary <$> [RdowsMessage_encode ack]) false (mkServer w1 true) ∧
    sendable ack ∧ session_ok (session w1) ∧ session_state (session w1) = Ready ∧
    expected_remote_seq (session w1) = Some 1 ∧ next_seq (session w1) = 1 ∧
    session_id (session w1) = sid ∧ max_msg_size (session w1) = DEFAULT_MAX_MSG_SIZE ∧
    same_limits (World_new cfg) w1 ∧ store w1 = store (World_new cfg).
Proof using Type*.
  intros Hc Hs ack. pose proof (connect_msg_sendable sid Hs) as Hsend.
  set (h := with_payload_length (zlen (RdowsMessage_encode_payload (connect_msg sid)))
    (RdowsHeader_new Opcode.Connect sid 0 0)).
  set (p := mkConnect 1 0 DEFAULT_MAX_MSG_SIZE DEFAULT_ICC).
  assert (handle_message (sized_msg (connect_msg sid)) (World_new cfg) =
    Ok tt (connected (World_new cfg) h p)) as Hh.
  { transitivity (handle_connect (RdowsMessage.Connect h p) (World_new cfg)); [done|].
    rewrite handle_connect_eq by done. cbn zeta. by rewrite Hsink. }
  assert (RdowsMessage_wf (sized_msg (connect_msg sid))) as Hwf.
  { split_and!; try done. apply (with_payload_length_typed _ _ (proj1 (proj1 Hsend))). apply one_frame_u32, Hsend. }
  destruct (handle_message_handled (World_new cfg) (sized_msg (connect_msg sid))) as [Hd _];
    [by apply World_new_ok|done|done|]. rewrite Hh in Hd. destruct Hd as (_ & _ & _ & _ & Hok & _).
  exists (connected (World_new cfg) h p). split_and!; try done.
  - apply (server_reacts _ _ _ [ack]); try done. constructor; [|done]. unfold one_frame, ack. cbn
    [RdowsMessage_encode_payload]. by rewrite connect_payload_length.
  - split_and!; try done. unfold one_frame, ack. cbn [RdowsMessage_encode_payload].
    by rewrite connect_payload_length.
Qed.

Lemma connect_linked cfg n b cap :
  config_ok cfg → os_rng_fill n = Some b → 0 ≤ cap ≤ 2 ^ 32 →
  ∃ cn wr, connect_with_config n cap (fresh_server cfg) = Ok cn wr ∧ linked (mkClient cn wr) ∧
    c_session_id cn = be_value b ∧ send_credits cn = DEFAULT_ICC ∧
    c_max_msg_size cn = max_msg_size (session (srv_world (wire_peer wr))) ∧
    cq cn = mkCq [] cap ∧ local_mrs cn = ∅ ∧ c_pd cn = 1 ∧
    max_msg_size (session (srv_world (wire_peer wr))) = DEFAULT_MAX_MSG_SIZE ∧
    same_limits (World_new cfg) (srv_world (wire_peer wr)) ∧
    store (srv_world (wire_peer wr)) = store (World_new cfg).
Proof using Type*.
  intros Hc Hb Hcap. assert (u32 (be_value b)) as Hs.
  { pose proof (be_value_range b) as Hr. unfold zlen in Hr. by rewrite (os_rng_fill_length n b Hb) in Hr. }
  destruct (connect_reaction cfg (be_value b) Hc Hs) as
    (w1 & Hre & (Hwf & Hfits & Hu) & Ho1 & Hr1 & He1 & Hq1 & Hid1 & Hm1 & Hlim1 & Hst1).
  set (ack := RdowsMessage.ConnectAck _ _) in *.
  unfold connect_with_config, connect_session. rewrite Hb, !bind_assoc, or_panic_bind, bind_assoc.
  rewrite (bind_Ok _ _ _ tt (mkWire [WsBinary (RdowsMessage_encode ack)] false (mkServer w1 true))).
  2:{ unfold send_message, fresh_server. cbn [wire_peer inbox ended].
      fold (connect_msg (be_value b)). rewrite Hre. done. }
  rewrite bind_assoc, (bind_Ok _ _ _ (sized_msg ack) (mkWire [] false (mkServer w1 true))).
  2:{ unfold recv_message. cbn [inbox recv_items wire_peer ended].
      by rewrite (decode_encode ack Hwf Hfits (one_frame_u32 _ Hu)). }
  cbn [sized_msg set_header ack]. rewrite ret_bind. unfold open_connection, CompletionQueue_new.
  rewrite bind_assoc, vec_with_capacity_bind, ret_bind by (unfold isize_max; lia).
  eexists _, _. split; [reflexivity|]. split_and!; try done.
  by split; try done; cbn; rewrite ?Hq1, ?Hid1.
Qed.

(** The client's handshake with a fresh server session succeeds and
    establishes the connection: both sides expect each other's next sequence
    number, agree on the session identifier and the message size, and the client
    starts with the server's initial credits. *)
Theorem connect_establishes cfg n b cap :
  config_ok cfg → os_rng_fill n = Some b → 0 ≤ cap ≤ 2 ^ 32 →
  ∃ cn wr, connect_with_config n cap (fresh_server cfg) = Ok cn wr ∧ linked (mkClient cn wr) ∧
    c_session_id cn = be_value b ∧ send_credits cn = DEFAULT_ICC ∧
    c_max_msg_size cn = max_msg_size (session (srv_world (wire_peer wr))) ∧
    cq cn = mkCq [] cap ∧ local_mrs cn = ∅ ∧
    store (srv_world (wire_peer wr)) = store (World_new cfg).
Proof using Type*.
  intros Hc Hb Hcap. destruct (connect_linked cfg n b cap Hc Hb Hcap)
    as (cn & wr & Hrun & Hl & Hid & Hcr & Hm & Hq & Hmr & _ & _ & _ & Hst).
  exists cn, wr. by split_and!.
Qed.

(** *** A refused RDMA Write *)

(** The two ERROR replies of the server to an RDMA Write refused for its key, and
    the session after the first. *)
Definition key_error c (code : ErrorCode) : RdowsMessage :=
  error_reply (checked (server c) (c_next_seq (conn c))) code (c_next_seq (conn c)) [].
Definition refusing c (code : ErrorCode) : World :=
  emit (key_error c code) (checked (server c) (c_next_seq (conn c))).
Definition orphan_error c (code : ErrorCode) : RdowsMessage :=
  orphan_reply (refusing c code) (wrapping_add 32 (c_next_seq (conn c)) 1).

Lemma error_reply_one_frame w1 code seq d : u16 (zlen d) → one_frame (error_reply w1 code seq d).
Proof using Type*.
  intros Hd. unfold one_frame, error_reply. cbn [RdowsMessage_encode_payload]. rewrite ErrorPayload_length.
  unfold ErrorPayload_encoded_len, ERROR_FIXED_SIZE, MAX_FRAME_PAYLOAD, WS_MAX_FRAME_SIZE, HEADER_SIZE, uN in *.
  cbn. lia.
Qed.
Lemma error_reply_sendable w1 code seq d :
  session_ok (session w1) → u32 seq → valid_utf8 d → u16 (zlen d) → sendable (error_reply w1 code seq d).
Proof using Type*.
  intros. apply (reply_sendable w1); [by apply error_reply_ok|by apply error_reply_one_frame].
Qed.
Lemma key_error_sendable c code : linked c → sendable (key_error c code).
Proof using Type*.
  intros Hl. apply error_reply_sendable; try done; [apply checked_ok, Hl|apply (lk_seq _ Hl)].
Qed.
Lemma orphan_error_sendable c code : linked c → sendable (orphan_error c code).
Proof using Type*.
  intros Hl. apply error_reply_sendable; try done.
  assert (session_ok (session (checked (refusing c code) (wrapping_add 32 (c_next_seq (conn c)) 1)))) as Ho
    by (apply checked_ok, emit_ok, checked_ok, Hl).
  destruct Ho. by split.
Qed.

Lemma refused_write_reactions c wrid rkey va sg_list d code :
  linked c → pending_op (session (server c)) = NoPending →
  u64 wrid → u32 rkey → u64 va → write_fits c sg_list d →
  access (abs (store (server c))) rkey REMOTE_WRITE = inl code →
  ∃ w2,
    peer_react (RdowsMessage_encode (write_msg c wrid rkey va d sg_list)) (mkServer (server c) true) =
      mkReaction None (WsBinary <$> [RdowsMessage_encode (key_error c code)]) false
        (mkServer (refusing c code) true) ∧
    peer_react (RdowsMessage_encode (write_data_msg c wrid d)) (mkServer (refusing c code) true) =
      mkReaction None (WsBinary <$> [RdowsMessage_encode (orphan_error c code)]) false (mkServer w2 true).
Proof using Type*.
  intros Hl Hp Hw Hr Hva Hfit Hacc. pose proof (lk_ok _ Hl) as Ho.
  destruct (write_msg_ok c wrid rkey va d sg_list) as [Hs1 Ha1]; try done.
  destruct (write_data_msg_ok c wrid d) as (Hs2 & Hq2 & Hp2); try done; [apply Hfit|].
  pose proof (write_checked Hsink (server c) _ (lk_ready _ Hl) (lk_exp _ Hl) _ _ (so_store _ Ho) Ha1) as Hh1.
  cbn [wp_rkey] in Hh1. rewrite Hacc in Hh1.
  assert (accepted (refusing c code) (wrapping_add 32 (c_next_seq (conn c)) 1)
    (sized_msg (write_data_msg c wrid d))) as Ha2.
  { split; [done|]. rewrite Hp2. eapply Z.le_trans; [apply Hfit|apply Z.le_min_l]. }
  pose proof (write_data_unexpected Hsink (refusing c code) _ (lk_ready _ Hl) eq_refl _ _ Ha2 Hp) as Hh2.
  eexists. split.
  - apply (server_reacts _ _ _ [key_error c code]); [done|exact Hh1|cbn; by rewrite (lk_ready _ Hl)|done|].
    repeat constructor. by apply key_error_sendable.
  - apply (server_reacts _ _ _ [orphan_error c code]); [done|exact Hh2|cbn; by rewrite (lk_ready _ Hl)|done|].
    repeat constructor. by apply orphan_error_sendable.
Qed.

Lemma access_refusals a r fl code : access a r fl = inl code → code = ErrInvalidMkey ∨ code = ErrAccessDenied.
Proof using Type. unfold access. intros Ha. repeat case_match; simplify_eq; (by left) || (by right). Qed.

(** The client after the refused write: the second ERROR is left in its inbox. *)
Lemma refused_write_leftover c wrid rkey va sg_list d code :
  linked c → pending_op (session (server c)) = NoPending →
  CompletionQueue_is_full (cq (conn c)) = false →
  gather_sg_data sg_list c = Ok d c → u64 wrid → u32 rkey → u64 va → write_fits c sg_list d →
  access (abs (store (server c))) rkey REMOTE_WRITE = inl code →
  ∃ c1, rdma_write wrid rkey va sg_list c = Err (Failed (Protocol code)) c1 ∧
    inbox (wire c1) = [WsBinary (RdowsMessage_encode (orphan_error c code))] ∧
    c_expected_remote_seq (conn c1) = Some (wrapping_add 32 (next_seq (session (server c))) 1) ∧
    cq (conn c1) = pushed (mkCqe wrid (u16_from_ErrorCode code) Opcode.Write 0 0
                             (c_session_id (conn c))) (cq (conn c)).
Proof using Type*.
  intros Hl Hp Hfull Hg Hw Hr Hva Hfit Hacc.
  destruct (refused_write_reactions c wrid rkey va sg_list d code) as (w2 & Hre1 & Hre2); try done.
  destruct (sent_reacts [] _ _ _ _ Hre1) as [Hse1 Hsn1].
  destruct (sent_reacts [WsBinary (RdowsMessage_encode (key_error c code))] _ _ _ _ Hre2) as [Hse2 Hsn2].
  unfold rdma_write. rewrite self_bind, Hfull, (bind_Ok _ _ _ _ _ Hg).
  rewrite next_header_bind, send_bind. cbn [conn wire]. rewrite (linked_wire c Hl).
  fold (write_msg c wrid rkey va d sg_list). rewrite Hse1, Hsn1. cbn [app fmap list_fmap].
  rewrite next_header_bind, send_bind. cbn [conn wire].
  fold (write_data_msg c wrid d). rewrite Hse2, Hsn2. cbn [app fmap list_fmap].
  erewrite bind_Ok; [|apply (client_receives _ (key_error c code)); try done].
  2:{ by apply key_error_sendable. }
  2:{ apply (lk_client_exp _ Hl). }
  cbn [sized_msg set_header key_error error_reply ep_error_code]. rewrite self_bind. unfold cq_push.
  rewrite bind_assoc, self_bind, upd_bind. unfold CompletionQueue_push.
  cbn [conn cq bump set_c_next_seq set_c_expected]. unfold CompletionQueue_is_full in Hfull.
  rewrite Hfull. eexists. split; [reflexivity|]. by split_and!.
Qed.

(** The server side of a connection never refuses the bytes. *)
Lemma server_send_error m (wr : Wire Server) : send_error_of m wr = None.
Proof using Type.
  unfold send_error_of, peer_react, server_peer. by repeat case_match.
Qed.

(** C34: an RDMA Write that the server refuses for its key leaves client and
    server out of step.  The server answers both the WRITE and the WRITE_DATA with
    an ERROR, the client reads only the first: the write fails with the reason the
    key was refused for, ERR_INVALID_MKEY or ERR_ACCESS_DENIED, as it should, but
    the next operation, here any atomic, fails with the left-over
    ERR_UNKNOWN_OPCODE whatever the server does with it. *)
Theorem refused_write_desynchronises c wrid rkey va sg_list d code :
  linked c → pending_op (session (server c)) = NoPending →
  zlen (entries (cq (conn c))) + 2 ≤ capacity (cq (conn c)) →
  gather_sg_data sg_list c = Ok d c → u64 wrid → u32 rkey → u64 va → write_fits c sg_list d →
  access (abs (store (server c))) rkey REMOTE_WRITE = inl code →
  (code = ErrInvalidMkey ∨ code = ErrAccessDenied) ∧
  ∃ c1, rdma_write wrid rkey va sg_list c = Err (Failed (Protocol code)) c1 ∧
    ∀ wrid' rkey' va' ty o1 o2, ∃ c2,
      post_atomic wrid' rkey' va' ty o1 o2 c1 = Err (Failed (Protocol ErrUnknownOpcode)) c2.
Proof using Type*.
  intros Hl Hp Hcap Hg Hw Hr Hva Hfit Hacc. split; [by apply access_refusals in Hacc|].
  destruct (refused_write_leftover c wrid rkey va sg_list d code) as (c1 & Hrun & Hi & He & Hq); try done.
  { apply Z.leb_gt. lia. }
  exists c1. split; [done|]. intros wrid' rkey' va' ty o1 o2.
  unfold post_atomic. rewrite self_bind.
  assert (CompletionQueue_is_full (cq (conn c1)) = false) as ->.
  { rewrite Hq. apply Z.leb_gt. cbn. rewrite zlen_app. unfold zlen in *. cbn. lia. }
  rewrite next_header_bind, send_bind, server_send_error. cbn [conn wire].
  erewrite bind_Ok; [|apply (client_receives _ (orphan_error c code)); try done].
  2:{ by apply orphan_error_sendable. }
  2:{ unfold sent. cbn [wire inbox]. by rewrite Hi. }
  cbn [sized_msg set_header orphan_error orphan_reply error_reply ep_error_code]. rewrite self_bind.
  unfold cq_push. rewrite bind_assoc, self_bind, upd_bind. by eexists.
Qed.
End verbs.
