(* ===== verification/EndToEndWitness.v ===== *)
(** * A connection, evaluated

    A client linked to the session of [SessionWitness], on the concrete instances
    of the external interfaces. *)

From S2P Require Import Prelude Externals Utf8 Core Frame Payloads Message MemoryStore StoreSpec.
From S2P Require Import ServerState Handler Session SessionFacts SessionProps SessionWitness.
From S2P Require Import Client Verbs ClientFacts ClientProps ClientSafety EndToEnd.

Module EndToEndWitness.
Import Concrete.

(** A client with 16 local bytes registered as region 1, linked to a server that
    holds a region of 16 zero bytes under remote key 1. *)
Definition local_buf : list byte := [x01; x02; x03; x04] ++ replicate 12 x00.
Definition handle : MemoryRegionHandle := mkHandle 1 1 16 local_buf.
Definition client : Client Server :=
  mkClient (mkConn 0xABCD 1 1000 9 (Some 2) 16 (mkCq [] 4) {[1 := handle]})
    (mkWire [] false (mkServer (SessionWitness.ready 1 1) true)).

Lemma client_linked : linked client.
Proof. split; try done. by apply SessionWitness.ready_ok. Qed.

Definition sg : list ScatterGatherEntry := [mkSge 1 0 4].
Lemma client_gathers : gather_sg_data sg client = Ok [x01; x02; x03; x04] client.
Proof. by vm_compute. Qed.
Lemma client_fits : write_fits client sg [x01; x02; x03; x04].
Proof. split_and!; [by repeat constructor|done|done]. Qed.

Lemma post_send_credits_witness :
  send_credits (conn client) = 16 ∧
  (∀ c', post_send 5 sg client = Ok tt c' →
   ∃ pre, credited 16 (credits_in pre - 1) (send_credits (conn c'))).
Proof.
  split; [done|]. intros c' Hrun.
  assert (u32 (send_credits (conn client))) as Hu by done.
  destruct (post_send_credits 5 sg client Hu) as [_ Hok].
  destruct (Hok c' Hrun) as (d & pre & _ & _ & _ & Hc). by exists pre.
Defined.

(** The run that the witness above speaks about exists, and takes one credit. *)
Lemma post_send_runs :
  ∃ c', post_send 5 sg client = Ok tt c' ∧ send_credits (conn c') = 15 ∧
    entries (cq (conn c')) = [mkCqe 5 0 Opcode.Send 0 4 0xABCD].
Proof. eexists. split; [by vm_compute|]. by vm_compute. Qed.


Lemma remote_write_read_witness :
  ∃ c', (_ ← rdma_write 5 1 4 sg; rdma_read 6 1 4 4 1 8) client = Ok tt c' ∧
    linked c' ∧ read_local_mr 1 8 4 c' = Ok [x01; x02; x03; x04] c'.
Proof.
  apply (remote_write_read (λ _, eq_refl) client 5 6 1 4 sg [x01; x02; x03; x04]
    StoreWitness.entry1 1 8 handle);
    [apply client_linked|done|apply client_gathers|done|done|apply client_fits|done..].
Defined.

Lemma connect_establishes_witness :
  ∃ cn wr, connect_with_config 0 8 (fresh_server SessionWitness.cfg) = Ok cn wr ∧
    linked (mkClient cn wr) ∧ c_session_id cn = 1.
Proof.
  destruct (connect_establishes (λ _, eq_refl) SessionWitness.cfg 0 [x00; x00; x00; x01] 8)
    as (cn & wr & Hrun & Hl & Hid & _); [apply SessionWitness.cfg_ok|done|done|].
  by exists cn, wr.
Defined.

Lemma refused_write_desynchronises_witness :
  ∃ c1, rdma_write 5 77 4 sg client = Err (Failed (Protocol ErrInvalidMkey)) c1 ∧
    ∃ c2, post_atomic 6 1 8 ATOMIC_TYPE_FAA 1 0 c1 = Err (Failed (Protocol ErrUnknownOpcode)) c2 ∧
      word_at (from_option e_data [] (region_of (store (server c2)) 1)) 8 = 1.
Proof.
  destruct (refused_write_desynchronises (λ _, eq_refl) client 5 77 4 sg [x01; x02; x03; x04]
    ErrInvalidMkey) as (_ & c1 & Hrun & Hnext);
    [apply client_linked|done|done|apply client_gathers|done|done|done|apply client_fits|done|].
  exists c1. split; [done|]. destruct (Hnext 6 1 8 ATOMIC_TYPE_FAA 1 0) as (c2 & Hc2).
  exists c2. split; [done|].
  revert Hc2. assert (rdma_write 5 77 4 sg client = Err (Failed (Protocol ErrInvalidMkey)) c1) as Hr by done.
  vm_compute in Hr. injection Hr as <-. intros Hc2. vm_compute in Hc2. by injection Hc2 as <-.
Defined.
End EndToEndWitness.
