(* ===== verification/Registration.v ===== *)
(** * Registering memory end to end

    The success path of MR_REG on the server, and [reg_mr] of the client over the
    link of [EndToEnd.v]. *)

From S2P Require Import Prelude Externals Utf8 Core Frame Payloads Message MemoryStore StoreSpec.
From S2P Require Import ServerState Handler Session SessionFacts SessionProps.
From S2P Require Import Client Verbs ClientFacts EndToEnd.

Section register.
Context `{Profile, !OsRng, !OsRngLaws}.

(** The random source does not fail, and one of its next thousand draws is a key
    that can be issued. *)
Definition can_draw (used : gset Z) (n : nat) : Prop :=
  (∀ i, os_rng_fill (n + i) ≠ None) ∧
  ∃ i b, (i < 1000)%nat ∧ os_rng_fill (n + i) = Some b ∧ be_value b ≠ 0 ∧ be_value b ∉ used.

Lemma register_succeeds s n pd fl len :
  store_ok s → u64 len → next_lkey s + 1 < 2 ^ 32 →
  Z.of_nat (size (regions s)) < max_regions s →
  total_registered_bytes s + len ≤ max_total_bytes s → can_draw (used_rkeys s) n →
  ∃ r n', register pd fl len (s, n) = Ok (next_lkey s, r) (registered s pd fl len r, n') ∧
    0 < r < 2 ^ 32 ∧ r ∉ used_rkeys s.
Proof using Type*.
  intros Hok Hlen Hnext Hsize Htot [Hne (i & b & Hi & Hb & Hz & Hu)].
  pose proof (register_spec s n pd fl len Hok Hlen Hnext) as Hs.
  pose proof (ok_total_max _ Hok) as Hmax. unfold isize_max in Hmax.
  destruct (register pd fl len (s, n)) as [[l r] [s' n']|e [s' n']|].
  - destruct Hs as (_ & _ & -> & Hr & Hru & ->). by exists r, n'.
  - exfalso. destruct Hs as [(_ & ? & _)|[(_ & ? & _)|(_ & _ & _ & Hall)]]; [lia|lia|].
    destruct (Hall i Hi) as (b' & Hb' & Hbad). rewrite Hb in Hb'. injection Hb' as <-. tauto.
  - exfalso. destruct Hs as [?|(j & _ & Hj)]; [lia|by apply (Hne j)].
Qed.
End register.

Section server.
Context `{BytesCrateLaws, Profile, !OsRng, !OsRngLaws, WsSinkEnv, Clock}.
Context (w : World) (Ho : session_ok (session w)).
Context (e : Z) (Hst : session_state (session w) = Ready)
  (He : expected_remote_seq (session w) = Some e).

(** An MR_REG below the rate limit that the store accepts. *)
Lemma handle_mr_reg_accepted h p r n' :
  accepted w e (RdowsMessage.MrReg h p) →
  mr_reg_count (session w) < mr_reg_rate_limit (session w) →
  register (mr_pd p) (mr_access_flags p) (mr_region_len p) (store w, rng_draws w) =
    Ok (next_lkey (store w), r)
      (registered (store w) (mr_pd p) (mr_access_flags p) (mr_region_len p) r, n') →
  ∃ w1, handle_message (RdowsMessage.MrReg h p) w =
      finish (emit (RdowsMessage.MrRegAck (SessionFacts.next_hdr Opcode.MrRegAck (h_wrid h) w)
        (mkMrRegAck (mr_pd p) (next_lkey (store w)) r 0)) w1) ∧
    sink w1 = sink w ∧
    store w1 = registered (store w) (mr_pd p) (mr_access_flags p) (mr_region_len p) r ∧
    session_state (session w1) = Ready ∧ same_peer (session w) (session w1) ∧
    next_seq (session w1) = next_seq (session w) ∧
    expected_remote_seq (session w1) = Some (wrapping_add 32 e 1) ∧
    max_outstanding_reads (session w1) = max_outstanding_reads (session w) ∧
    mr_reg_rate_limit (session w1) = mr_reg_rate_limit (session w) ∧
    mr_reg_count (session w1) ≤ mr_reg_count (session w) + 1.
Proof using Type*.
  intros Hadm Hcount Hreg. rewrite (handle_message_accepted w e Hst He _ Hadm).
  cbn [handle_ready dispatch]. set (w0 := on_session _ w). unfold handle_mr_reg. srun. cbn [session].
  set (now := instant_now (clock_reads w0)). set (start := mr_reg_window_start (session w0)).
  set (late := from_secs 1 <=? duration_since now start).
  set (count := if late then 0 else mr_reg_count (session w)).
  set (w2 c := mkWorld (set_mr_reg_count c (set_mr_reg_window_start (if late then now else start)
    (session w0))) (sink w) (rng_draws w) (S (clock_reads w))).
  match goal with |- ∃ _, (?m ≫= ?k) ?w0 = _ ∧ _ => assert ((m ≫= k) w0 = k tt (w2 count)) as -> end.
  { unfold w2, count. destruct late; [done|]. unfold w0, start. by destruct w as [[]]. }
  pose proof (so_count _ Ho). pose proof (so_limit _ Ho) as Hlim. unfold uN in Hlim.
  assert (0 ≤ count ≤ mr_reg_count (session w)) as Hc by (unfold count; destruct late; lia).
  srun. change (mr_reg_count (session (w2 count))) with count.
  change (mr_reg_rate_limit (session (w2 count))) with (mr_reg_rate_limit (session w)).
  rewrite (proj2 (Z.leb_gt _ _)) by lia.
  unfold add_ovf. rewrite ovf_bind by (unfold uN; lia). srun.
  change (on_session _ (w2 count)) with (w2 (count + 1)). rewrite attempt_bind.
  rewrite on_memory_store_rng_eq. cbn [w2 session memory_store rng_draws set_mr_reg_count
    set_mr_reg_window_start w0 on_session set_expected_remote_seq]. rewrite Hreg. cbn beta iota.
  rewrite (reply_eq _ _ (λ h, RdowsMessage.MrRegAck h _)). eexists. split; [reflexivity|].
  split_and!; try done. cbn. lia.
Qed.
End server.

Section client.
Context `{BytesCrateLaws, Profile, !OsRng, !OsRngLaws, WsSinkEnv, Clock}.
Context (Hsink : ∀ log, ws_send_error log = None).
Implicit Types (c : Client Server).

Definition reg_msg c (fl : AccessFlags) (len : Z) : RdowsMessage :=
  RdowsMessage.MrReg (next_hdr Opcode.MrReg 0 (conn c)) (mkMrReg (c_pd (conn c)) fl len None).
Lemma reg_msg_ok c fl len :
  linked c → u32 (c_pd (conn c)) → u32 fl → u64 len → 16 ≤ max_msg_size (session (server c)) →
  sendable (reg_msg c fl len) ∧
  accepted (server c) (c_next_seq (conn c)) (sized_msg (reg_msg c fl len)).
Proof using Type*.
  intros Hl Hpd Hfl Hlen Hm. apply (request_sendable c _ Opcode.MrReg 0 Hl); try done.
  apply small_room; unfold reg_msg; cbn [RdowsMessage_encode_payload]; by rewrite MrRegPayload_length.
Qed.

(** What the server needs to grant a registration. *)
Record grantable (w : World) (len : Z) : Prop := {
  gr_rate : mr_reg_count (session w) < mr_reg_rate_limit (session w);
  gr_lkey : next_lkey (store w) + 1 < 2 ^ 32;
  gr_regions : Z.of_nat (size (regions (store w))) < max_regions (store w);
  gr_bytes : total_registered_bytes (store w) + len ≤ max_total_bytes (store w);
  gr_draw : can_draw (used_rkeys (store w)) (rng_draws w);
}.

(** The server's side of a registration. *)
Lemma reg_reaction c fl len :
  linked c → u32 (c_pd (conn c)) → u32 fl → u64 len → 16 ≤ max_msg_size (session (server c)) →
  grantable (server c) len →
  ∃ r w1, let ack := RdowsMessage.MrRegAck (SessionFacts.next_hdr Opcode.MrRegAck 0 (server c))
               (mkMrRegAck (c_pd (conn c)) (next_lkey (store (server c))) r 0) in
    peer_react (RdowsMessage_encode (reg_msg c fl len)) (mkServer (server c) true) =
      mkReaction None (WsBinary <$> [RdowsMessage_encode ack]) false (mkServer w1 true) ∧
    sendable ack ∧ session_ok (session w1) ∧ session_state (session w1) = Ready ∧
    expected_remote_seq (session w1) = Some (wrapping_add 32 (c_next_seq (conn c)) 1) ∧
    next_seq (session w1) = wrapping_add 32 (next_seq (session (server c))) 1 ∧
    same_server (server c) w1 ∧ 0 < r < 2 ^ 32 ∧ (r ∉ used_rkeys (store (server c))) ∧
    store w1 = registered (store (server c)) (c_pd (conn c)) fl len r ∧
    mr_reg_rate_limit (session w1) = mr_reg_rate_limit (session (server c)) ∧
    mr_reg_count (session w1) ≤ mr_reg_count (session (server c)) + 1.
Proof using Type*.
  intros Hl Hpd Hfl Hlen Hm [Hrate Hlk Hsz Htot Hdraw]. pose proof (lk_ok _ Hl) as Ho.
  destruct (reg_msg_ok c fl len) as [Hs Ha]; try done.
  destruct (register_succeeds (store (server c)) (rng_draws (server c)) (c_pd (conn c)) fl len)
    as (r & n' & Hreg & Hr & Hu); try done; [apply Ho|].
  destruct (handle_mr_reg_accepted (server c) Ho _ (lk_ready _ Hl) (lk_exp _ Hl) _
    (mkMrReg (c_pd (conn c)) fl len None) r n' Ha Hrate Hreg)
    as (w1 & Hh & Hsink1 & Hst1 & Hr1 & (Hid & _ & Hmax) & Hq1 & He1 & Hrd1 & Hlim1 & Hc1).
  set (ack := RdowsMessage.MrRegAck _ _) in Hh. unfold finish in Hh. rewrite Hsink in Hh.
  assert (session_ok (session (emit ack w1))) as Hok1.
  { destruct (handle_message_handled (server c) (sized_msg (reg_msg c fl len)) Ho Hlk) as [Hd _].
    - split_and!; try done.
      apply (with_payload_length_typed _ _ (proj1 (proj1 Hs))). apply one_frame_u32, Hs.
    - change (handle_message (sized_msg (reg_msg c fl len)) (server c) = Ok tt (emit ack w1)) in Hh.
      rewrite Hh in Hd. by destruct Hd as (_ & _ & _ & _ & ? & _). }
  assert (one_frame ack) as Hone.
  { apply small_frame. cbn [RdowsMessage_encode_payload ack]. unfold MrRegAckPayload_encode. put_laws. zlen_lia. }
  exists r, (emit ack w1). cbn zeta. split_and!; try done.
  - apply (server_reacts _ _ _ [ack]); [done|exact Hh| | |by repeat constructor].
    + change (session_state (session w1) ≠ Closed). by rewrite Hr1.
    + cbn. by rewrite Hsink1.
  - pose proof (ok_next _ (so_store _ Ho)). unfold sendable. split_and!; try done.
    split_and!; try done; [split_and!; try done; apply Ho|]. unfold payload_typed, MrRegAckPayload_typed, uN.
    cbn. unfold uN in Hpd. lia.
  - cbn. by rewrite Hq1.
  - apply Hr.
  - apply Hr.
Qed.

(** [reg_mr] on an established connection: the server allocates a zeroed region,
    the client mirrors it, and both keys are new. *)
Lemma reg_mr_linked c fl len :
  linked c → u32 (c_pd (conn c)) → u32 fl → 0 ≤ len ≤ isize_max →
  16 ≤ max_msg_size (session (server c)) → grantable (server c) len →
  ∃ r c', let l := next_lkey (store (server c)) in
    let h := mkHandle l r len (replicate (Z.to_nat len) x00) in
    reg_mr fl len c = Ok h c' ∧ linked c' ∧ 0 < r < 2 ^ 32 ∧ (r ∉ used_rkeys (store (server c))) ∧
    store (server c') = registered (store (server c)) (c_pd (conn c)) fl len r ∧
    same_server (server c) (server c') ∧
    mr_reg_rate_limit (session (server c')) = mr_reg_rate_limit (session (server c)) ∧
    mr_reg_count (session (server c')) ≤ mr_reg_count (session (server c)) + 1 ∧
    local_mrs (conn c') = <[l := h]> (local_mrs (conn c)) ∧ cq (conn c') = cq (conn c) ∧
    c_pd (conn c') = c_pd (conn c) ∧ c_session_id (conn c') = c_session_id (conn c).
Proof using Type*.
  intros Hl Hpd Hfl Hlen Hm Hg. unfold isize_max in Hlen.
  destruct (reg_reaction c fl len) as (r & w1 & Hre & Hsend & Hok1 & Hr1 & He1 & Hq1 & Hsame & Hr & Hu & Hst
    & Hlim & Hcnt); try done; [unfold uN; lia|].
  set (ack := RdowsMessage.MrRegAck _ _) in *. cbn zeta.
  destruct (sent_reacts [] _ _ _ _ Hre) as [Hse Hsn].
  eexists r, _. split.
  { unfold reg_mr. rewrite next_header_bind, self_bind. cbn [conn bump c_pd set_c_next_seq].
    unfold send_and_recv. rewrite bind_assoc, send_bind. cbn [conn wire]. rewrite (linked_wire c Hl).
    fold (reg_msg c fl len). rewrite Hse, Hsn. cbn [app fmap list_fmap].
    erewrite bind_Ok; [|apply (client_receives _ ack []); try done; apply (lk_client_exp _ Hl)].
    cbn [sized_msg set_header ack ra_status negb Z.eqb ra_lkey ra_rkey].
    unfold vec_zeroed. rewrite (proj2 (Z.leb_le _ _)) by (unfold isize_max; lia).
    rewrite ret_bind, self_bind, upd_bind, ret_bind. reflexivity. }
  split_and!; try done; [|by apply Hr..]. split; try done; cbn.
  - by rewrite Hq1.
  - destruct Hsame as (_ & _ & ->). apply (lk_sid _ Hl).
  - by apply wrapping_add_range.
Qed.
End client.
