(* ===== verification/Service.v ===== *)
(** * The service a connection provides

    What an application can rely on, without messages, sequence numbers or
    sessions: a remote memory ([StoreSpec]), the local regions, a completion
    queue and the receives left on the other side.  Send credits are not part of it:
    the server grants them back in time, so an application never runs out of them.
    [serve] is the specification of one call of the interface of [RdowsConnection];
    [Link.v] proves that client and server together implement it. *)

From S2P Require Import Prelude Externals Utf8 Core Frame Payloads Message MemoryStore StoreSpec.
From S2P Require Import Client Verbs.

(** ** Calls *)

(** The public methods of [RdowsConnection] that an application calls on an
    established connection.  Not among them are [disconnect], which consumes the
    connection ([ProgramProps.v] has it), and [set_send_credits], which overrides the
    flow control of the protocol and which only tests call ([post_send_credits] says
    what a client without credits does). *)
Inductive Request : Type :=
| RegMr (access_flags : AccessFlags) (region_len : Z)
| DeregMr (lkey : LKey)
| PostSend (wrid : Z) (sg_list : list ScatterGatherEntry)
| RdmaWrite (wrid : Z) (rkey : RKey) (remote_va : Z) (sg_list : list ScatterGatherEntry)
| RdmaRead (wrid : Z) (rkey : RKey) (remote_va read_len : Z) (local_lkey : LKey) (local_va : Z)
| AtomicCas (wrid : Z) (rkey : RKey) (remote_va compare swap : Z)
| AtomicFaa (wrid : Z) (rkey : RKey) (remote_va addend : Z)
| WriteLocal (lkey : LKey) (offset : Z) (data : list byte)
| ReadLocal (lkey : LKey) (offset len : Z)
| PollCq (max : Z).

Inductive Value : Type :=
| VKeys (lkey : LKey) (rkey : RKey)
| VUnit
| VWord (w : Z)
| VBytes (d : list byte)
| VCqes (l : list CompletionQueueEntry).

Abbreviation Answer := (RdowsError + Value)%type.

Section calls.
Context `{BytesCrate, Profile} {P : Type} `{!Peer P}.

Definition call (r : Request) : M (Client P) Stop Value :=
  match r with
  | RegMr fl len => h ← reg_mr fl len; mret (VKeys (mh_lkey h) (mh_rkey h))
  | DeregMr lk => _ ← dereg_mr lk; mret VUnit
  | PostSend wrid sg => _ ← post_send wrid sg; mret VUnit
  | RdmaWrite wrid rkey va sg => _ ← rdma_write wrid rkey va sg; mret VUnit
  | RdmaRead wrid rkey va len lk lva => _ ← rdma_read wrid rkey va len lk lva; mret VUnit
  | AtomicCas wrid rkey va o1 o2 => w ← atomic_cas wrid rkey va o1 o2; mret (VWord w)
  | AtomicFaa wrid rkey va o => w ← atomic_faa wrid rkey va o; mret (VWord w)
  | WriteLocal lk off d => _ ← write_local_mr lk off d; mret VUnit
  | ReadLocal lk off len => d ← read_local_mr lk off len; mret (VBytes d)
  | PollCq max => l ← poll_cq max; mret (VCqes l)
  end.

(** The application sees the [Result]; a call that never returns ([Waiting]) or
    panics does not give one. *)
Definition answer (r : Request) : M (Client P) Stop Answer := λ c,
  match call r c with
  | Ok v c' => Ok (inr v) c'
  | Err (Failed e) c' => Ok (inl e) c'
  | Err Waiting c' => Err Waiting c'
  | Panic => Panic
  end.
End calls.

(** ** The specification *)

(** What does not change during a connection. *)
Record Endpoint := mkEndpoint { ep_capacity : Z; ep_sid : Z; ep_pd : ProtectionDomain }.

Record Service := mkService {
  sv_mem : AState;
  sv_local : gmap Z (list byte);
  sv_cq : list CompletionQueueEntry;
  sv_receives : Z;
}.
Definition set_mem m s := mkService m (sv_local s) (sv_cq s) (sv_receives s).
Definition set_local l s := mkService (sv_mem s) l (sv_cq s) (sv_receives s).
Definition set_queue q s := mkService (sv_mem s) (sv_local s) q (sv_receives s).
Definition take_receive s :=
  mkService (sv_mem s) (sv_local s) (sv_cq s) (sv_receives s - 1).

(** The bytes a scatter/gather list selects from the local regions. *)
Fixpoint gather (local : gmap Z (list byte)) (sg : list ScatterGatherEntry) : ErrorCode + list byte :=
  match sg with
  | [] => inr []
  | e :: rest =>
      match local !! sg_lkey e with
      | None => inl ErrInvalidLkey
      | Some buf =>
          if zlen buf <? sg_offset e + sg_length e then inl ErrBounds
          else match gather local rest with
               | inl code => inl code
               | inr d => inr (take (Z.to_nat (sg_length e)) (drop (Z.to_nat (sg_offset e)) buf) ++ d)
               end
      end
  end.

(** The local region after remote bytes arrived in it. *)
Definition deliver (local : gmap Z (list byte)) (lk : LKey) (off : Z) (d : list byte)
    : ErrorCode + gmap Z (list byte) :=
  match local !! lk with
  | None => inl ErrInvalidLkey
  | Some buf =>
      if zlen buf <? off + zlen d then inl ErrBounds
      else inr (<[lk := splice buf (Z.to_nat off) d]> local)
  end.

(** The work requests, which end in a completion. *)
Definition work_request (r : Request) : Prop :=
  match r with
  | PostSend _ _ | RdmaWrite _ _ _ _ | RdmaRead _ _ _ _ _ _ | AtomicCas _ _ _ _ _
  | AtomicFaa _ _ _ _ => True
  | _ => False
  end.

(** An atomic operation as one message carries it. *)
Definition atomic_args (r : Request) : option (Z * RKey * Z * Z * Z * Z) :=
  match r with
  | AtomicCas wrid rkey va compare swap => Some (wrid, rkey, va, ATOMIC_TYPE_CAS, compare, swap)
  | AtomicFaa wrid rkey va addend => Some (wrid, rkey, va, ATOMIC_TYPE_FAA, addend, 0)
  | _ => None
  end.

Section serve.
Context (ep : Endpoint).

Definition full (s : Service) : Prop := ep_capacity ep ≤ zlen (sv_cq s).
(** A completion is queued. *)
Definition complete (wrid : Z) (op : Opcode) (status n : Z) (s : Service) : Service :=
  set_queue (sv_cq s ++ [mkCqe wrid status op 0 n (ep_sid ep)]) s.
Definition complete_ok wrid op n s := complete wrid op 0 n s.
Definition complete_err wrid op code s := complete wrid op (u16_from_ErrorCode code) 0 s.

Inductive serve (s : Service) : Request → Answer → Service → Prop :=
| serve_reg fl len l r m' :
    spec_step (sv_mem s) (OpRegister (ep_pd ep) fl len) (inr (RKeys l r)) m' →
    serve s (RegMr fl len) (inr (VKeys l r))
      (set_local (<[l := replicate (Z.to_nat len) x00]> (sv_local s)) (set_mem m' s))
| serve_reg_err fl len code m' :
    spec_step (sv_mem s) (OpRegister (ep_pd ep) fl len) (inl code) m' →
    serve s (RegMr fl len) (inl (Protocol code)) (set_mem m' s)
| serve_dereg l m' :
    spec_step (sv_mem s) (OpDeregister (ep_pd ep) l) (inr RDone) m' →
    serve s (DeregMr l) (inr VUnit) (set_local (delete l (sv_local s)) (set_mem m' s))
| serve_dereg_err l code m' :
    spec_step (sv_mem s) (OpDeregister (ep_pd ep) l) (inl code) m' →
    serve s (DeregMr l) (inl (Protocol code)) (set_mem m' s)
| serve_full r : work_request r → full s → serve s r (inl (Protocol ErrCqOverflow)) s
| serve_send wrid sg d :
    ¬ full s → gather (sv_local s) sg = inr d → 0 < sv_receives s →
    serve s (PostSend wrid sg) (inr VUnit)
      (complete_ok wrid Opcode.Send (zlen d) (take_receive s))
| serve_send_gather wrid sg code :
    ¬ full s → gather (sv_local s) sg = inl code →
    serve s (PostSend wrid sg) (inl (Protocol code)) s
| serve_send_rnr wrid sg d :
    ¬ full s → gather (sv_local s) sg = inr d → sv_receives s = 0 →
    serve s (PostSend wrid sg) (inl (Protocol ErrRnr)) (complete_err wrid Opcode.Send ErrRnr s)
| serve_write wrid rkey va sg d m' :
    ¬ full s → gather (sv_local s) sg = inr d →
    spec_step (sv_mem s) (OpWrite rkey va d) (inr RDone) m' →
    serve s (RdmaWrite wrid rkey va sg) (inr VUnit)
      (complete_ok wrid Opcode.Write (zlen d) (set_mem m' s))
| serve_write_gather wrid rkey va sg code :
    ¬ full s → gather (sv_local s) sg = inl code →
    serve s (RdmaWrite wrid rkey va sg) (inl (Protocol code)) s
| serve_write_err wrid rkey va sg d code :
    ¬ full s → gather (sv_local s) sg = inr d →
    spec_step (sv_mem s) (OpWrite rkey va d) (inl code) (sv_mem s) →
    serve s (RdmaWrite wrid rkey va sg) (inl (Protocol code)) (complete_err wrid Opcode.Write code s)
| serve_read wrid rkey va len lk lva d local' :
    ¬ full s → spec_step (sv_mem s) (OpRead rkey va len) (inr (RBytes d)) (sv_mem s) →
    deliver (sv_local s) lk lva d = inr local' →
    serve s (RdmaRead wrid rkey va len lk lva) (inr VUnit)
      (complete_ok wrid Opcode.ReadReq (zlen d) (set_local local' s))
| serve_read_local wrid rkey va len lk lva d code :
    ¬ full s → spec_step (sv_mem s) (OpRead rkey va len) (inr (RBytes d)) (sv_mem s) →
    deliver (sv_local s) lk lva d = inl code →
    serve s (RdmaRead wrid rkey va len lk lva) (inl (Protocol code)) s
| serve_read_err wrid rkey va len lk lva code :
    ¬ full s → spec_step (sv_mem s) (OpRead rkey va len) (inl code) (sv_mem s) →
    serve s (RdmaRead wrid rkey va len lk lva) (inl (Protocol code))
      (complete_err wrid Opcode.ReadReq code s)
| serve_atomic r wrid rkey va ty o1 o2 w m' :
    atomic_args r = Some (wrid, rkey, va, ty, o1, o2) → ¬ full s → spec_step (sv_mem s) (OpAtomic rkey va ty o1 o2) (inr (RWord w)) m' →
    serve s r (inr (VWord w)) (complete_ok wrid Opcode.AtomicReq 8 (set_mem m' s))
| serve_atomic_err r wrid rkey va ty o1 o2 code :
    atomic_args r = Some (wrid, rkey, va, ty, o1, o2) → ¬ full s → spec_step (sv_mem s) (OpAtomic rkey va ty o1 o2) (inl code) (sv_mem s) →
    serve s r (inl (Protocol code)) (complete_err wrid Opcode.AtomicReq code s)
| serve_write_local lk off d local' :
    deliver (sv_local s) lk off d = inr local' →
    serve s (WriteLocal lk off d) (inr VUnit) (set_local local' s)
| serve_write_local_err lk off d code :
    deliver (sv_local s) lk off d = inl code → serve s (WriteLocal lk off d) (inl (Protocol code)) s
| serve_read_mr lk off len d :
    gather (sv_local s) [mkSge lk off len] = inr d →
    serve s (ReadLocal lk off len) (inr (VBytes d)) s
| serve_read_mr_err lk off len code :
    gather (sv_local s) [mkSge lk off len] = inl code →
    serve s (ReadLocal lk off len) (inl (Protocol code)) s
| serve_poll max n :
    n = Z.to_nat (Z.min max (zlen (sv_cq s))) →
    serve s (PollCq max) (inr (VCqes (take n (sv_cq s)))) (set_queue (drop n (sv_cq s)) s).

Inductive serves : Service → list (Request * Answer) → Service → Prop :=
| serves_nil s : serves s [] s
| serves_snoc s tr s1 r a s2 :
    serves s tr s1 → serve s1 r a s2 → serves s (tr ++ [(r, a)]) s2.
End serve.

(** ** Applications *)

(** An application chooses its next call from the calls it made and what they
    returned; [None] is the end of the program. *)
Definition Application : Type := list (Request * Answer) → option Request.

(** The one answer after which client and server are out of step
    ([refused_write_desynchronises]): a write refused for its key. *)
Definition write_refused (r : Request) (a : Answer) : bool :=
  match r, a with
  | RdmaWrite _ _ _ _, inl (Protocol ErrInvalidMkey) => true
  | RdmaWrite _ _ _ _, inl (Protocol ErrAccessDenied) => true
  | _, _ => false
  end.

Section applications.
Context `{BytesCrate, Profile} {P : Type} `{!Peer P}.

(** The first [n] calls of an application, up to and including a write refused for
    its key: what the connection does after that one is not the service any more. *)
Fixpoint run_app (n : nat) (app : Application) (tr : list (Request * Answer))
    : M (Client P) Stop (list (Request * Answer)) :=
  match n, app tr with
  | S n', Some r =>
      a ← answer r;
      if write_refused r a then mret (tr ++ [(r, a)]) else run_app n' app (tr ++ [(r, a)])
  | _, _ => mret tr
  end.
End applications.

(** ** The abstraction of a connection *)
Definition local_view (mrs : gmap Z MemoryRegionHandle) : gmap Z (list byte) := mh_local_buf <$> mrs.

Lemma local_view_insert mrs lk h :
  local_view (<[lk := h]> mrs) = <[lk := mh_local_buf h]> (local_view mrs).
Proof. apply fmap_insert. Qed.
Lemma local_view_delete mrs lk : local_view (delete lk mrs) = delete lk (local_view mrs).
Proof. apply fmap_delete. Qed.
Lemma local_view_lookup mrs lk : local_view mrs !! lk = mh_local_buf <$> mrs !! lk.
Proof. apply lookup_fmap. Qed.
