(* ===== verification/Credits.v ===== *)
(** * CREDIT_UPDATEs that wait

    The server grants credits with a CREDIT_UPDATE of its own accord; the client sees
    it when it next receives ([recv_app_message]), not before.  [absorbs c c0] says
    that a CREDIT_UPDATE waits at the head of the inbox of [c] and that [c0] is the
    client that has taken it.  Every call treats the two alike: either it receives, and
    then they do the same, or it does not, and the CREDIT_UPDATE goes on waiting. *)

From stdpp Require Import relations.
From S2P Require Import Prelude Externals Utf8 Core Frame Payloads Message MemoryStore StoreSpec.
From S2P Require Import Client Verbs ClientFacts Service.

Section credits.
Context `{BytesCrate, Profile} {P : Type} `{!Peer P}.
Implicit Types c : Client P.

(** The connection after a CREDIT_UPDATE. *)
Definition granted (h : RdowsHeader) (p : CreditUpdatePayload) (cn : RdowsConnection) : RdowsConnection :=
  set_credits (send_credits cn + cu_credit_increment p)
    (set_c_expected (Some (wrapping_add 32 (h_sequence h) 1)) cn).

Inductive absorbs : Client P → Client P → Prop :=
| absorbs_intro cn data h p s rest fin peer :
    RdowsMessage_decode data = Ok (RdowsMessage.CreditUpdate h p) s →
    c_expected_remote_seq cn = Some (h_sequence h) →
    0 < send_credits cn → 0 ≤ cu_credit_increment p → send_credits cn + cu_credit_increment p < 2 ^ 32 →
    absorbs (mkClient cn (mkWire (WsBinary data :: rest) fin peer))
            (mkClient (granted h p cn) (mkWire rest fin peer)).

(** Outcomes that agree, the CREDIT_UPDATE still waiting in the first. *)
Definition still_waits {A} (o o0 : outcome (Client P) Stop A) : Prop :=
  match o0 with
  | Ok a c0' => ∃ c', o = Ok a c' ∧ absorbs c' c0'
  | Err e c0' => ∃ c', o = Err e c' ∧ absorbs c' c0'
  | Panic => o = Panic
  end.
(** Calls that do not receive, calls that receive first, and calls that do either. *)
Definition lazy {A} (m : M (Client P) Stop A) : Prop := ∀ c c0, absorbs c c0 → still_waits (m c) (m c0).
Definition eager {A} (m : M (Client P) Stop A) : Prop := ∀ c c0, absorbs c c0 → m c = m c0.
Definition absorbing {A} (m : M (Client P) Stop A) : Prop :=
  ∀ c c0, absorbs c c0 → m c = m c0 ∨ still_waits (m c) (m c0).

Lemma lazy_absorbing {A} (m : M (Client P) Stop A) : lazy m → absorbing m.
Proof using Type. intros Hm c c0 Hc. right. by apply Hm. Qed.
Lemma eager_absorbing {A} (m : M (Client P) Stop A) : eager m → absorbing m.
Proof using Type. intros Hm c c0 Hc. left. by apply Hm. Qed.
Lemma eager_bind {A B} (m : M (Client P) Stop A) (f : A → M (Client P) Stop B) : eager m → eager (m ≫= f).
Proof using Type. intros Hm c c0 Hc. unfold mbind, M_bind. by rewrite (Hm c c0 Hc). Qed.
Lemma lazy_bind {A B} (m : M (Client P) Stop A) (f : A → M (Client P) Stop B) :
  lazy m → (∀ a, lazy (f a)) → lazy (m ≫= f).
Proof using Type.
  intros Hm Hf c c0 Hc. specialize (Hm c c0 Hc). unfold still_waits in Hm. unfold mbind, M_bind.
  destruct (m c0) as [a c0'|e c0'|].
  - destruct Hm as (c' & -> & Hc'). by apply Hf.
  - destruct Hm as (c' & -> & Hc'). by exists c'.
  - by rewrite Hm.
Qed.
Lemma absorbing_bind {A B} (m : M (Client P) Stop A) (f : A → M (Client P) Stop B) :
  lazy m → (∀ a, absorbing (f a)) → absorbing (m ≫= f).
Proof using Type.
  intros Hm Hf c c0 Hc. specialize (Hm c c0 Hc). unfold still_waits in Hm. unfold mbind, M_bind.
  destruct (m c0) as [a c0'|e c0'|].
  - destruct Hm as (c' & -> & Hc'). by apply Hf.
  - destruct Hm as (c' & -> & Hc'). right. by exists c'.
  - rewrite Hm. by left.
Qed.

Lemma lazy_ret {A} (a : A) : lazy (mret a).
Proof using Type. intros c c0 Hc. by exists c. Qed.
Lemma lazy_throw {A} e : lazy (throw (A := A) e).
Proof using Type. intros c c0 Hc. by exists c. Qed.
Lemma lazy_panic {A} : lazy (A := A) panic.
Proof using Type. by intros c c0 Hc. Qed.
Lemma lazy_ok_or {A} (o : option A) e : lazy (ok_or o e).
Proof using Type. destruct o; [apply lazy_ret|apply lazy_throw]. Qed.
Lemma lazy_or_panic {A} (o : option A) : lazy (or_panic o).
Proof using Type. destruct o; [apply lazy_ret|apply lazy_panic]. Qed.
Lemma lazy_ovf w r : lazy (ovf w r).
Proof using Type. unfold ovf. repeat case_match; first [apply lazy_ret|apply lazy_panic]. Qed.

(** Fields that a CREDIT_UPDATE does not touch. *)
Lemma lazy_self {A} (f : RdowsConnection → A) : (∀ h p cn, f (granted h p cn) = f cn) → lazy (self f).
Proof using Type.
  intros Hf c c0 Hc. exists c. split; [|done]. destruct Hc. unfold self. cbn. by rewrite Hf.
Qed.
Lemma lazy_upd g :
  (∀ h p cn, g (granted h p cn) = granted h p (g cn)) →
  (∀ cn, c_expected_remote_seq (g cn) = c_expected_remote_seq cn ∧ send_credits (g cn) = send_credits cn) →
  lazy (upd g).
Proof using Type.
  intros Hg Hk c c0 Hc. destruct Hc as [cn data h p s rest fin peer Hd He Hp Hi Hb]. destruct (Hk cn) as [Hk1 Hk2].
  eexists. split; [reflexivity|]. cbn. rewrite Hg. eapply absorbs_intro; rewrite ?Hk1, ?Hk2; done.
Qed.
Lemma lazy_next_header op wrid : lazy (next_header op wrid).
Proof using Type.
  intros c c0 Hc. destruct Hc as [cn data h p s rest fin peer Hd He Hp Hi Hb].
  eexists. split; [reflexivity|]. cbn. by eapply (absorbs_intro (bump cn)).
Qed.
Lemma lazy_send m : lazy (on_wire (send_message m)).
Proof using Type.
  intros c c0 Hc. destruct Hc as [cn data h p s rest fin peer Hd He Hp Hi Hb].
  unfold still_waits, on_wire, zoom, send_message. cbn [wire wire_peer inbox ended conn].
  destruct (re_error _); eexists; (split; [reflexivity|]); by eapply absorbs_intro.
Qed.

(** Receiving takes the CREDIT_UPDATE first. *)
Lemma eager_recv : eager recv_app_message.
Proof using Type.
  intros c c0 Hc. destruct Hc as [cn data h p s rest fin peer Hd He Hp Hi Hb].
  rewrite recv_app_message_eq. unfold recv_app_turn. rewrite !bind_assoc. unfold mbind at 1, M_bind at 1, on_wire, zoom, recv_message.
  cbn [wire inbox recv_items wire_peer ended]. rewrite Hd. cbn beta iota. cbn [conn].
  rewrite bind_assoc. unfold validate_remote_seq. rewrite bind_assoc, self_bind. cbn [conn]. rewrite He.
  cbn [RdowsMessage_header]. rewrite Z.eqb_refl. cbn [negb]. rewrite upd_bind. cbn [conn wire].
  rewrite bind_assoc, self_bind, bind_assoc. unfold add_ovf. rewrite ovf_bind by (unfold uN; cbn; lia).
  rewrite bind_assoc, upd_bind. cbn [conn wire]. rewrite ret_bind. done.
Qed.

(** The test for a credit: there is one before and after. *)
Lemma absorbing_credits {A} e (m : M (Client P) Stop A) :
  absorbing m → absorbing (credits ← self send_credits; if credits =? 0 then throw e else m).
Proof using Type.
  intros Hm c c0 Hc. rewrite !self_bind. pose proof (Hm c c0 Hc) as Hmc.
  destruct Hc as [cn data h p s rest fin peer Hd He Hp Hi Hb]. cbn [conn granted send_credits set_credits set_c_expected] in *.
  by rewrite !(proj2 (Z.eqb_neq _ _)) by lia.
Qed.

(** A call, primitive by primitive. *)
Ltac lazy_tac :=
  lazymatch goal with
  | |- lazy (next_header _ _) => apply lazy_next_header
  | |- lazy (on_wire (send_message _)) => apply lazy_send
  | |- lazy (self _) => apply lazy_self; reflexivity
  | |- lazy (upd _) => apply lazy_upd; [reflexivity|intros ?; split; reflexivity]
  | |- lazy (ovf _ _) => apply lazy_ovf
  | |- lazy (add_ovf _ _ _) => apply lazy_ovf
  | |- lazy (mret _) => apply lazy_ret
  | |- lazy (throw _) => apply lazy_throw
  | |- lazy (fail _) => apply lazy_throw
  | |- lazy panic => apply lazy_panic
  | |- lazy (ok_or _ _) => apply lazy_ok_or
  | |- lazy (or_panic _) => apply lazy_or_panic
  | |- lazy (_ ≫= _) => apply lazy_bind; [lazy_tac|intros ?; lazy_tac]
  | |- lazy (match ?x with _ => _ end) => destruct x; lazy_tac
  | |- _ => idtac
  end.
Lemma lazy_gather sg : lazy (gather_sg_data sg).
Proof using Type.
  unfold gather_sg_data. generalize (@nil byte). induction sg as [|g sg IH]; intros acc; cbn [gather_loop]; lazy_tac.
  apply IH.
Qed.
Ltac absorb_tac :=
  lazymatch goal with
  | |- absorbing (recv_app_message ≫= _) => apply eager_absorbing, eager_bind, eager_recv
  | |- absorbing (gather_sg_data _ ≫= _) => apply absorbing_bind; [apply lazy_gather|intros ?; absorb_tac]
  | |- absorbing (self send_credits ≫= _) => apply absorbing_credits; absorb_tac
  | |- absorbing (_ ≫= _) => apply absorbing_bind; [lazy_tac|intros ?; absorb_tac]
  | |- absorbing (match ?x with _ => _ end) => destruct x; absorb_tac
  | |- absorbing _ => apply lazy_absorbing; lazy_tac
  end.

Lemma absorbing_map {A B} (m : M (Client P) Stop A) (g : A → B) : absorbing m → absorbing (a ← m; mret (g a)).
Proof using Type.
  intros Hm c c0 Hc. unfold mbind, M_bind. destruct (Hm c c0 Hc) as [Heq|Hw]; [left; by rewrite Heq|right].
  unfold still_waits in *. destruct (m c0) as [a c0'|e c0'|].
  - destruct Hw as (c' & -> & ?). by exists c'.
  - destruct Hw as (c' & -> & ?). by exists c'.
  - by rewrite Hw.
Qed.

Lemma absorbing_send_and_recv {A} m (f : RdowsMessage → M (Client P) Stop A) : absorbing (send_and_recv m ≫= f).
Proof using Type.
  intros c c0 Hc. unfold send_and_recv. rewrite !bind_assoc. revert c c0 Hc.
  change (absorbing (on_wire (send_message m) ≫= λ _, recv_app_message ≫= f)).
  apply absorbing_bind; [apply lazy_send|]. intros _. apply eager_absorbing, eager_bind, eager_recv.
Qed.

Lemma reg_mr_absorbing fl len : absorbing (reg_mr fl len).
Proof using Type.
  unfold reg_mr. do 2 (apply absorbing_bind; [lazy_tac|intros ?]). apply absorbing_send_and_recv.
Qed.
(** Every call of an application. *)
Lemma call_absorbing r : absorbing (call r).
Proof using Type.
  destruct r; cbn [call]; apply absorbing_map.
  - apply reg_mr_absorbing.
  - unfold dereg_mr. do 2 (apply absorbing_bind; [lazy_tac|intros ?]). apply absorbing_send_and_recv.
  - unfold post_send. absorb_tac.
  - unfold rdma_write. absorb_tac.
  - unfold rdma_read. absorb_tac.
  - unfold atomic_cas, post_atomic. absorb_tac.
  - unfold atomic_faa, post_atomic. absorb_tac.
  - unfold write_local_mr. absorb_tac.
  - unfold read_local_mr. absorb_tac.
  - unfold poll_cq, CompletionQueue_poll_cq. absorb_tac.
Qed.
Lemma lazy_disconnect : lazy disconnect.
Proof using Type. unfold disconnect. lazy_tac. Qed.
Lemma answer_absorbing r : absorbing (answer r).
Proof using Type.
  intros c c0 Hc. unfold answer. destruct (call_absorbing r c c0 Hc) as [Heq|Hw]; [left; by rewrite Heq|right].
  unfold still_waits in *. destruct (call r c0) as [v c0'|[e|] c0'|].
  - destruct Hw as (c' & -> & ?). by exists c'.
  - destruct Hw as (c' & -> & ?). by exists c'.
  - destruct Hw as (c' & -> & ?). by exists c'.
  - by rewrite Hw.
Qed.

(** ** Any number of them *)

Lemma absorbed_call {A} (m : M (Client P) Stop A) c c0 a c0' :
  absorbing m → rtc absorbs c c0 → m c0 = Ok a c0' → ∃ c', m c = Ok a c' ∧ rtc absorbs c' c0'.
Proof using Type.
  intros Hm Hc Hrun. induction Hc as [c|c c1 c0 Hs _ IH]; [by exists c0'|].
  destruct (IH Hrun) as (c1' & Hc1 & Hr). destruct (Hm c c1 Hs) as [Heq|Hw].
  - exists c1'. by rewrite Heq.
  - unfold still_waits in Hw. rewrite Hc1 in Hw. destruct Hw as (c' & Hc' & Hs').
    exists c'. split; [done|]. by eapply rtc_l.
Qed.

(** What they do not touch. *)
Lemma absorbed_same {A} (f : Client P → A) c c0 :
  (∀ c1 c2, absorbs c1 c2 → f c1 = f c2) → rtc absorbs c c0 → f c = f c0.
Proof using Type. intros Hf. induction 1 as [|c c1 c0 Hs _ IH]; [done|]. by rewrite (Hf _ _ Hs). Qed.
End credits.
(** [absorbed c c0]: [c0] has taken the CREDIT_UPDATEs that wait in [c]. *)
Abbreviation absorbed := (rtc absorbs).
