(* ===== verification/ServiceFacts.v ===== *)
(** * Outcomes of calls

    What a program can conclude from the specification in [Service.v] when it knows
    the regions it registered: the calls that must succeed, and with which result. *)

From S2P Require Import Prelude Externals Utf8 Core Frame Payloads Message MemoryStore StoreSpec.
From S2P Require Import Client Verbs Service.

(** ** What a program knows of its regions *)

(** The region behind a handle: its bytes on the server and its local copy. *)
Record owned (ep : Endpoint) (s : Service) (h : MemoryRegionHandle) (fl : AccessFlags)
    (d buf : list byte) : Prop := {
  ow_remote : live (sv_mem s) !! mh_rkey h = Some (mkRegion (ep_pd ep) (mh_lkey h) fl d);
  ow_local : sv_local s !! mh_lkey h = Some buf;
  ow_lkey : u32 (mh_lkey h);
  ow_rkey : u32 (mh_rkey h);
}.
Definition apart (h h' : MemoryRegionHandle) : Prop :=
  mh_lkey h ≠ mh_lkey h' ∧ mh_rkey h ≠ mh_rkey h'.

(** The call succeeded and ended in this state. *)
Definition yields (ep : Endpoint) (s : Service) (r : Request) (v : Value) (s' : Service) : Prop :=
  ∀ a s'', serve ep s r a s'' → a = inr v ∧ s'' = s'.

(** Case analysis on a call, and on the operation of the store behind it. *)
Ltac serve_cases Hs := inversion Hs; simplify_eq; try done.
Ltac spec_cases :=
  match goal with
  | H : spec_step _ (OpWrite _ _ _) _ _ |- _ => inversion H; subst; clear H
  | H : spec_step _ (OpRead _ _ _) _ _ |- _ => inversion H; subst; clear H
  | H : spec_step _ (OpAtomic _ _ _ _ _) _ _ |- _ => inversion H; subst; clear H
  end.

Create HintDb rdows_owned.

Section outcomes.
Context (ep : Endpoint) (s : Service).

Lemma access_owned h fl d buf flag :
  owned ep s h fl d buf → AccessFlags_contains fl flag = true →
  access (sv_mem s) (mh_rkey h) flag = inr (mkRegion (ep_pd ep) (mh_lkey h) fl d).
Proof using Type. intros [Hr _ _ _] Hf. unfold access. rewrite Hr. cbn. by rewrite Hf. Qed.
Lemma gather_owned h fl d buf off len :
  owned ep s h fl d buf → off + len ≤ zlen buf →
  gather (sv_local s) [mkSge (mh_lkey h) off len] =
    inr (take (Z.to_nat len) (drop (Z.to_nat off) buf)).
Proof using Type.
  intros [_ Hl _ _] Hb. cbn. rewrite Hl. rewrite (proj2 (Z.ltb_ge _ _)) by done. by rewrite app_nil_r.
Qed.
Lemma deliver_owned h fl d buf off bytes :
  owned ep s h fl d buf → off + zlen bytes ≤ zlen buf →
  deliver (sv_local s) (mh_lkey h) off bytes =
    inr (<[mh_lkey h := splice buf (Z.to_nat off) bytes]> (sv_local s)).
Proof using Type.
  intros [_ Hl _ _] Hb. unfold deliver. rewrite Hl. by rewrite (proj2 (Z.ltb_ge _ _)).
Qed.

(** The bytes of one region replaced. *)
Definition put_remote (h : MemoryRegionHandle) (fl : AccessFlags) (d : list byte) (s : Service) : Service :=
  set_mem (with_live (<[mh_rkey h := mkRegion (ep_pd ep) (mh_lkey h) fl d]> (live (sv_mem s))) (sv_mem s)) s.
Definition put_copy (h : MemoryRegionHandle) (buf : list byte) (s : Service) : Service :=
  set_local (<[mh_lkey h := buf]> (sv_local s)) s.

Lemma owned_put_remote h fl d buf d' :
  owned ep s h fl d buf → owned ep (put_remote h fl d' s) h fl d' buf.
Proof using Type. intros []. split; try done. cbn. apply lookup_insert_eq. Qed.
Lemma owned_put_copy h fl d buf buf' :
  owned ep s h fl d buf → owned ep (put_copy h buf' s) h fl d buf'.
Proof using Type. intros []. split; try done. cbn. apply lookup_insert_eq. Qed.
Lemma owned_apart_remote h h' fl fl' d d' buf' :
  apart h h' → owned ep s h' fl' d' buf' → owned ep (put_remote h fl d s) h' fl' d' buf'.
Proof using Type. intros [_ Hr] []. split; try done. cbn. by rewrite lookup_insert_ne. Qed.
Lemma owned_apart_copy h h' fl' d' buf buf' :
  apart h h' → owned ep s h' fl' d' buf' → owned ep (put_copy h buf s) h' fl' d' buf'.
Proof using Type. intros [Hl _] []. split; try done. cbn. by rewrite lookup_insert_ne. Qed.
Lemma owned_complete h fl d buf wrid op st n :
  owned ep s h fl d buf → owned ep (complete ep wrid op st n s) h fl d buf.
Proof using Type. by intros []. Qed.

Lemma write_local_yields h fl d buf off bytes :
  owned ep s h fl d buf → off + zlen bytes ≤ zlen buf →
  yields ep s (WriteLocal (mh_lkey h) off bytes) VUnit (put_copy h (splice buf (Z.to_nat off) bytes) s).
Proof using Type.
  intros Ho Hb a s'' Hs. pose proof (deliver_owned _ _ _ _ _ _ Ho Hb) as Hd.
  serve_cases Hs. all: match goal with H : deliver _ _ _ _ = _ |- _ => rewrite Hd in H end; by simplify_eq.
Qed.
Lemma read_local_yields h fl d buf off len :
  owned ep s h fl d buf → off + len ≤ zlen buf →
  yields ep s (ReadLocal (mh_lkey h) off len)
    (VBytes (take (Z.to_nat len) (drop (Z.to_nat off) buf))) s.
Proof using Type.
  intros Ho Hb a s'' Hs. pose proof (gather_owned _ _ _ _ _ _ Ho Hb) as Hg.
  serve_cases Hs. all: match goal with H : gather _ _ = _ |- _ => rewrite Hg in H end; by simplify_eq.
Qed.
Lemma write_yields h fl d buf wrid va sg bytes :
  owned ep s h fl d buf → AccessFlags_contains fl REMOTE_WRITE = true → ¬ full ep s →
  gather (sv_local s) sg = inr bytes → va + zlen bytes ≤ zlen d →
  yields ep s (RdmaWrite wrid (mh_rkey h) va sg) VUnit
    (complete_ok ep wrid Opcode.Write (zlen bytes) (put_remote h fl (splice d (Z.to_nat va) bytes) s)).
Proof using Type.
  intros Ho Hf Hnf Hg Hb a s'' Hs. pose proof (access_owned _ _ _ _ _ Ho Hf) as Ha.
  assert (spec_write (sv_mem s) (mh_rkey h) va bytes = (inr RDone,
    sv_mem (put_remote h fl (splice d (Z.to_nat va) bytes) s))) as Hw.
  { unfold spec_write. rewrite Ha. cbn [rg_bytes]. by rewrite (proj2 (Z.ltb_ge _ _)). }
  serve_cases Hs.
  all: match goal with H : gather _ _ = _ |- _ => rewrite Hg in H end; simplify_eq.
  all: spec_cases; match goal with H : spec_write _ _ _ _ = _ |- _ => rewrite Hw in H end; by simplify_eq.
Qed.

Lemma read_yields h h' fl fl' d d' buf buf' wrid va len lva :
  owned ep s h fl d buf → owned ep s h' fl' d' buf' → AccessFlags_contains fl REMOTE_READ = true →
  ¬ full ep s → 0 ≤ va → 0 ≤ len → va + len ≤ zlen d → lva + len ≤ zlen buf' →
  let bytes := take (Z.to_nat len) (drop (Z.to_nat va) d) in
  yields ep s (RdmaRead wrid (mh_rkey h) va len (mh_lkey h') lva) VUnit
    (complete_ok ep wrid Opcode.ReadReq len (put_copy h' (splice buf' (Z.to_nat lva) bytes) s)).
Proof using Type.
  intros Ho Ho' Hf Hnf Hva Hlen Hb Hb' bytes a s'' Hs. pose proof (access_owned _ _ _ _ _ Ho Hf) as Ha.
  assert (zlen bytes ≤ len ∧ len ≤ zlen bytes) as Hz
    by (unfold bytes, zlen in *; rewrite length_take, length_drop; lia).
  assert (spec_read (sv_mem s) (mh_rkey h) va len = (inr (RBytes bytes), sv_mem s)) as Hr.
  { unfold spec_read. rewrite Ha. cbn [rg_bytes]. by rewrite (proj2 (Z.ltb_ge _ _)). }
  pose proof (deliver_owned h' fl' d' buf' lva bytes Ho' ltac:(lia)) as Hd.
  serve_cases Hs.
  all: spec_cases; match goal with H : spec_read _ _ _ _ = _ |- _ => rewrite Hr in H end; simplify_eq.
  all: match goal with H : deliver _ _ _ _ = _ |- _ => rewrite Hd in H end; simplify_eq.
  by replace (zlen (take _ _)) with len by lia.
Qed.

Lemma faa_yields h fl d buf wrid va addend :
  owned ep s h fl d buf → AccessFlags_contains fl REMOTE_ATOMIC = true → ¬ full ep s →
  va mod 8 = 0 → va + 8 ≤ zlen d →
  let w := word_at d va in
  yields ep s (AtomicFaa wrid (mh_rkey h) va addend) (VWord w)
    (complete_ok ep wrid Opcode.AtomicReq 8
       (put_remote h fl (splice d (Z.to_nat va) (be_bytes 8 (wrapping_add 64 w addend))) s)).
Proof using Type.
  intros Ho Hf Hnf Hal Hb w a s'' Hs. pose proof (access_owned _ _ _ _ _ Ho Hf) as Ha.
  assert (spec_atomic (sv_mem s) (mh_rkey h) va ATOMIC_TYPE_FAA addend 0 = (inr (RWord w),
    sv_mem (put_remote h fl (splice d (Z.to_nat va) (be_bytes 8 (wrapping_add 64 w addend))) s))) as Hr.
  { unfold spec_atomic. rewrite Ha. cbn [rg_bytes]. rewrite Hal. cbn [Z.eqb negb].
    by rewrite (proj2 (Z.ltb_ge _ _)). }
  serve_cases Hs.
  all: match goal with H : atomic_args _ = _ |- _ => cbn in H end; simplify_eq.
  all: spec_cases; match goal with H : spec_atomic _ _ _ _ _ _ = _ |- _ => rewrite Hr in H end; by simplify_eq.
Qed.

(** A send takes a receive of the other side or is told that there is none. *)
Lemma send_outcome wrid sg bytes a s' :
  serve ep s (PostSend wrid sg) a s' → ¬ full ep s →
  gather (sv_local s) sg = inr bytes → 0 ≤ sv_receives s →
  (0 < sv_receives s ∧ a = inr VUnit ∧ s' = complete_ok ep wrid Opcode.Send (zlen bytes) (take_receive s)) ∨
  (sv_receives s = 0 ∧ a = inl (Protocol ErrRnr) ∧ s' = complete_err ep wrid Opcode.Send ErrRnr s).
Proof using Type.
  intros Hs Hnf Hg Hrv. serve_cases Hs.
  all: match goal with H : gather _ _ = _ |- _ => rewrite Hg in H end; simplify_eq.
  - by left.
  - by right.
Qed.

Lemma poll_yields max :
  zlen (sv_cq s) ≤ max → yields ep s (PollCq max) (VCqes (sv_cq s)) (set_queue [] s).
Proof using Type.
  intros Hm a s'' Hs. serve_cases Hs. rewrite Z.min_r by done. unfold zlen.
  rewrite Nat2Z.id, take_ge, drop_ge by done. done.
Qed.
(** A granted registration. *)
Definition with_region (fl len l r : Z) : Service :=
  let zeros := replicate (Z.to_nat len) x00 in
  let a := sv_mem s in
  set_local (<[l := zeros]> (sv_local s))
    (set_mem (mkAState (<[r := mkRegion (ep_pd ep) l fl zeros]> (live a)) ({[r]} ∪ issued a)
                (count a + 1) (bytes a + len) (count_max a) (bytes_max a)) s).
Lemma reg_outcome fl len l r s' :
  serve ep s (RegMr fl len) (inr (VKeys l r)) s' →
  s' = with_region fl len l r ∧ (r ∉ issued (sv_mem s)) ∧
  ∀ r' g, live (sv_mem s) !! r' = Some g → rg_lkey g ≠ l.
Proof using Type.
  intros Hs. serve_cases Hs.
  match goal with H : spec_step _ _ _ _ |- _ => inversion H; by subst end.
Qed.

Lemma owned_queue h fl d buf q : owned ep s h fl d buf → owned ep (set_queue q s) h fl d buf.
Proof using Type. by intros []. Qed.
Lemma owned_receive h fl d buf : owned ep s h fl d buf → owned ep (take_receive s) h fl d buf.
Proof using Type. by intros []. Qed.
End outcomes.
#[export] Hint Resolve owned_put_remote owned_put_copy owned_apart_remote owned_apart_copy
  owned_complete owned_queue owned_receive : rdows_owned.
