(* ===== verification/Link.v ===== *)
(** * Client and server implement the service

    Every call of an application over an established connection, on every branch:
    the pair of client and server does what [Service.v] specifies, the call
    returns, and the connection is established again afterwards, the one exception
    being a write refused for its key. *)

From S2P Require Import Prelude Externals Utf8 Core Frame Payloads Message MemoryStore StoreSpec.
From S2P Require Import ServerState Handler Session SessionFacts SessionProps Replies.
From S2P Require Import Client Verbs ClientFacts EndToEnd Registration Service Credits.

(** What the application sees of a connection. *)
Definition service_of (c : Client Server) : Service :=
  mkService (abs (store (server c))) (local_view (local_mrs (conn c))) (entries (cq (conn c)))
    (recv_queue_depth (session (server c))).
Definition endpoint_of (c : Client Server) : Endpoint :=
  mkEndpoint (capacity (cq (conn c))) (c_session_id (conn c)) (c_pd (conn c)).

(** An established connection with nothing pending, good for [n] more calls: the
    local keys last that long.  The credits of the client and the sends that the
    server will account for in its next CREDIT_UPDATE have a constant sum, so a
    CREDIT_UPDATE comes before the credits run out. *)
Record settled (mx : Z) (n : nat) (c : Client Server) : Prop := {
  st_linked : linked c;
  st_idle : pending_op (session (server c)) = NoPending;
  st_max : max_msg_size (session (server c)) = mx;
  st_reads : 0 < max_outstanding_reads (session (server c));
  st_lkeys : next_lkey (store (server c)) + Z.of_nat n < 2 ^ 32;
  st_credits : DEFAULT_ICC / 4 <
    send_credits (conn c) + sends_since_last_credit (session (server c)) < 2 ^ 32;
  st_pd : u32 (c_pd (conn c));
}.

(** Arguments of the types of the code whose messages fit the negotiated size
    [mx] and, as the answer to a read, one WebSocket frame, and whose address
    ranges end below 2^64. *)
Definition sg_ok (mx : Z) (sg_list : list ScatterGatherEntry) : Prop :=
  Forall (λ g, ScatterGatherEntry_typed g ∧ sg_offset g + sg_length g < 2 ^ 64) sg_list ∧
  WRITE_HEADER_SIZE + zlen sg_list * SG_ENTRY_SIZE ≤ room_of mx ∧
  foldr (λ g n, sg_length g + n) 0 sg_list ≤ room_of mx ∧ u16 (zlen sg_list).
Definition request_ok (mx : Z) (r : Request) : Prop :=
  match r with
  | RegMr fl len => u32 fl ∧ 0 ≤ len ≤ isize_max
  | DeregMr lk => u32 lk
  | PostSend wrid sg => u64 wrid ∧ sg_ok mx sg
  | RdmaWrite wrid rkey va sg => u64 wrid ∧ u32 rkey ∧ u64 va ∧ sg_ok mx sg
  | RdmaRead wrid rkey va len lk lva =>
      u64 wrid ∧ ReadReqPayload_typed (mkReadReq rkey va len lk lva) ∧
      lva + len < 2 ^ 64 ∧ 8 + len ≤ MAX_FRAME_PAYLOAD
  | AtomicCas wrid rkey va o1 o2 => u64 wrid ∧ u32 rkey ∧ u64 va ∧ u64 o1 ∧ u64 o2
  | AtomicFaa wrid rkey va o => u64 wrid ∧ u32 rkey ∧ u64 va ∧ u64 o
  | WriteLocal lk off d => 0 ≤ off ∧ off + zlen d < 2 ^ 64
  | ReadLocal lk off len => 0 ≤ off ∧ 0 ≤ len ∧ off + len < 2 ^ 64
  | PollCq max => 0 ≤ max
  end.

Section settled.
Implicit Types c : Client Server.

Lemma settled_less mx n c : settled mx (S n) c → settled mx n c.
Proof. intros []. split; try done. lia. Qed.
Lemma settled_one mx n c : settled mx (S n) c → settled mx 1 c.
Proof. intros []. split; try done. lia. Qed.

(** Fields of the connection that the protocol does not use. *)
Lemma settled_conn mx n c cn :
  settled mx n c → c_next_seq cn = c_next_seq (conn c) →
  c_expected_remote_seq cn = c_expected_remote_seq (conn c) →
  c_session_id cn = c_session_id (conn c) → c_pd cn = c_pd (conn c) →
  send_credits cn = send_credits (conn c) → settled mx n (mkClient cn (wire c)).
Proof.
  intros [[]] Hn He Hs Hp Hc. split; try done; [|by cbn; rewrite Hc|by cbn; rewrite Hp].
  split; try done; cbn; by rewrite ?Hn, ?He, ?Hs.
Qed.
(** The client has a credit. *)
Lemma settled_credits mx n c : settled mx n c → 0 < send_credits (conn c) < 2 ^ 32.
Proof.
  intros [Hl _ _ _ _ Hcr _]. pose proof (so_credit _ (lk_ok _ Hl)) as Hs. rewrite (so_icc _ (lk_ok _ Hl)) in Hs. lia.
Qed.
End settled.

Section basics.
Context `{BytesCrateLaws, Profile, !OsRng, !OsRngLaws, WsSinkEnv, Clock} (mx : Z).
Implicit Types (c : Client Server) (n : nat).

(** The registrations that count for the server's rate limit. *)
Definition paced (regs : Z) c c' : Prop :=
  mr_reg_rate_limit (session (server c')) = mr_reg_rate_limit (session (server c)) ∧
  mr_reg_count (session (server c')) ≤ mr_reg_count (session (server c)) + regs.
(** Nothing is pending again after the call. *)
Definition resumed n (regs : Z) c c' : Prop := settled mx n c' ∧ paced regs c c'.
(** A connection on which nothing is pending but CREDIT_UPDATEs. *)
Definition established n c : Prop := ∃ c0, absorbed c c0 ∧ settled mx n c0.
Lemma settled_established n c : settled mx n c → established n c.
Proof using Type. intros Hc. by exists c. Qed.
(** Neither the server nor what the application sees depends on them. *)
Lemma absorbed_view c c0 :
  absorbed c c0 → service_of c = service_of c0 ∧ endpoint_of c = endpoint_of c0 ∧ server c = server c0.
Proof using Type.
  intros Hc. split_and!; [apply (absorbed_same service_of)|apply (absorbed_same endpoint_of)|
    apply (absorbed_same (λ c, server c))]; try done; intros c1 c2 Hs; by destruct Hs.
Qed.
Lemma paced_absorbed k c c0 c' c0' : absorbed c c0 → absorbed c' c0' → paced k c0 c0' → paced k c c'.
Proof using Type.
  intros Hc Hc'. unfold paced. destruct (absorbed_view _ _ Hc) as (_ & _ & ->).
  by destruct (absorbed_view _ _ Hc') as (_ & _ & ->).
Qed.
Lemma resumed_idle n c : settled mx (S n) c → resumed n 0 c c.
Proof using Type. intros Hc. split; [by apply settled_less|]. split; [done|lia]. Qed.
Lemma resumed_weaken n k k' c c' : k ≤ k' → resumed n k c c' → resumed n k' c c'.
Proof using Type. intros Hk [? [? ?]]. split; [done|]. split; [done|lia]. Qed.
Definition regs_of (r : Request) : Z := match r with RegMr _ _ => 1 | _ => 0 end.

(** A call that does what the service specifies. *)
Definition simulated n c (r : Request) : Prop :=
  ∃ a c', answer r c = Ok a c' ∧ serve (endpoint_of c) (service_of c) r a (service_of c') ∧
    endpoint_of c' = endpoint_of c ∧ (write_refused r a = false → established n c' ∧ paced (regs_of r) c c').

(** CREDIT_UPDATEs may wait before the call, and after it. *)
Lemma simulated_absorbed n c c0 r : absorbed c c0 → simulated n c0 r → simulated n c r.
Proof using Type.
  intros Hc (a & c0' & Hrun & Hs & He & Hr). destruct (absorbed_call _ _ _ _ _ (answer_absorbing r) Hc Hrun)
    as (c' & Hrun' & Hc'). destruct (absorbed_view _ _ Hc) as (Hv1 & Hv2 & _).
  destruct (absorbed_view _ _ Hc') as (Hv1' & Hv2' & _). exists a, c'. rewrite Hv1, Hv2, Hv1', Hv2'.
  split_and!; try done. intros Href. destruct (Hr Href) as [(c1 & Hc1 & Hst) Hp].
  split; [|by eapply paced_absorbed]. exists c1. split; [by etransitivity|done].
Qed.
Lemma simulated_Ok n c r v c' :
  call r c = Ok v c' → serve (endpoint_of c) (service_of c) r (inr v) (service_of c') →
  endpoint_of c' = endpoint_of c → resumed n (regs_of r) c c' → simulated n c r.
Proof using Type.
  intros Hc Hs He [Hst Hp]. exists (inr v), c'. unfold answer. rewrite Hc. split_and!; try done.
  intros _. split; [by apply settled_established|done].
Qed.
Lemma simulated_Err n c r e c' :
  call r c = Err (Failed e) c' → serve (endpoint_of c) (service_of c) r (inl e) (service_of c') →
  endpoint_of c' = endpoint_of c → (write_refused r (inl e) = false → resumed n (regs_of r) c c') →
  simulated n c r.
Proof using Type.
  intros Hc Hs He Hst. exists (inl e), c'. unfold answer. rewrite Hc. split_and!; try done.
  intros Hr. destruct (Hst Hr). split; [by apply settled_established|done].
Qed.

(** The operations of a reply are steps of the abstract store. *)
Lemma served_steps w w0 w1 tr :
  session_ok (session w) → store w = store w0 → rng_draws w = rng_draws w0 →
  next_lkey (store w) + 1 < 2 ^ 32 → served w0 w1 tr →
  spec_steps (abs (store w)) tr (abs (store w1)) ∧ next_lkey (store w1) ≤ next_lkey (store w) + 1.
Proof using Type*.
  intros Ho Hs Hd Hl [[_ _ _ _ _ _ [Hrun Ht _ Hk] Hone] _]. rewrite <-Hs in *. rewrite <-Hd in Hrun.
  pose proof (reg_ops_range tr). split; [|lia]. eapply run_ops_refine_aux; [done|apply Ho|done|]. lia.
Qed.

(** The connection after a reply was received. *)
Definition after (cn : RdowsConnection) (w : World) : Client Server :=
  mkClient (set_c_expected (Some (next_seq (session w))) cn) (mkWire [] false (mkServer w true)).

(** Receiving the last reply of a verb. *)
Lemma reply_received {B} cn w1 rep (k : RdowsMessage → M (Client Server) Stop B) :
  session_ok (session w1) → reply_ok w1 rep → one_frame rep →
  opcode_of rep ≠ Opcode.CreditUpdate →
  c_expected_remote_seq cn = Some (next_seq (session w1)) →
  (recv_app_message ≫= k)
    (mkClient cn (mkWire [WsBinary (RdowsMessage_encode rep)] false (mkServer (emit rep w1) true))) =
  k (sized_msg rep) (after cn (emit rep w1)).
Proof using Type*.
  intros Ho Hr Hu Hop He. pose proof (reply_sendable w1 rep Hr Hu) as Hs.
  destruct Hr as (_ & _ & Hseq & _).
  erewrite bind_Ok; [|apply (client_receives _ rep []); try done; by rewrite Hseq].
  unfold after. by rewrite Hseq.
Qed.

(** The client in its next idle state. *)
Lemma settled_after n c cn w1 rep :
  settled mx (S n) c → session_ok (session w1) → session_state (session w1) = Ready →
  expected_remote_seq (session w1) = Some (c_next_seq cn) → u32 (c_next_seq cn) →
  c_session_id cn = c_session_id (conn c) → c_pd cn = c_pd (conn c) →
  same_peer (session (server c)) (session w1) →
  max_outstanding_reads (session w1) = max_outstanding_reads (session (server c)) →
  pending_op (session w1) = NoPending → next_lkey (store w1) ≤ next_lkey (store (server c)) + 1 →
  send_credits cn + sends_since_last_credit (session w1) =
    send_credits (conn c) + sends_since_last_credit (session (server c)) →
  settled mx n (after cn (emit rep w1)).
Proof using Type*.
  intros [Hl Hi Hm Hrd Hk Hcr Hpd] Ho Hst He Hu Hs Hp (Hid & _ & Hmax) Hrd1 Hi1 Hk1 Hcr1.
  split; try done; cbn.
  - split; try done; cbn; [by apply (emit_ok rep)|]. rewrite Hs, Hid. apply Hl.
  - by rewrite Hmax.
  - by rewrite Hrd1.
  - lia.
  - by rewrite Hcr1.
  - by rewrite Hp.
Qed.

(** Completions. *)
Definition completed (cqe : CompletionQueueEntry) c : Client Server :=
  mkClient (set_cq (pushed cqe (cq (conn c))) (conn c)) (wire c).
Lemma cq_push_bind {B} cqe (k : unit → M (Client Server) Stop B) c :
  CompletionQueue_is_full (cq (conn c)) = false → (cq_push cqe ≫= k) c = k tt (completed cqe c).
Proof using Type.
  intros Hf. unfold cq_push. rewrite bind_assoc, self_bind, upd_bind. unfold CompletionQueue_push.
  unfold CompletionQueue_is_full in Hf. by rewrite Hf.
Qed.
Lemma cq_push_eq cqe c :
  CompletionQueue_is_full (cq (conn c)) = false → cq_push cqe c = Ok tt (completed cqe c).
Proof using Type.
  intros Hf. unfold cq_push. rewrite self_bind. unfold CompletionQueue_push.
  unfold CompletionQueue_is_full in Hf. by rewrite Hf.
Qed.
Lemma resumed_conn n k c c1 cn :
  resumed n k c c1 → c_next_seq cn = c_next_seq (conn c1) →
  c_expected_remote_seq cn = c_expected_remote_seq (conn c1) →
  c_session_id cn = c_session_id (conn c1) → c_pd cn = c_pd (conn c1) →
  send_credits cn = send_credits (conn c1) →
  resumed n k c (mkClient cn (wire c1)).
Proof using Type. intros [Hc Hp]. split; [by apply (settled_conn mx n c1)|done]. Qed.
Lemma resumed_completed n k c c1 cqe : resumed n k c c1 → resumed n k c (completed cqe c1).
Proof using Type. intros Hc. by apply (resumed_conn n k c c1). Qed.
Lemma resumed_local n k c c1 mrs :
  resumed n k c c1 → resumed n k c (mkClient (set_local_mrs mrs (conn c1)) (wire c1)).
Proof using Type. intros Hc. by apply (resumed_conn n k c c1). Qed.

Lemma service_completed c c1 wrid op st len :
  service_of (completed (mkCqe wrid st op 0 len (c_session_id (conn c))) c1) =
    complete (endpoint_of c) wrid op st len (service_of c1).
Proof using Type. done. Qed.

(** The service after a reply that took no receive. *)
Lemma service_after c w :
  recv_queue_depth (session w) = recv_queue_depth (session (server c)) →
  service_of (after (bump (conn c)) w) = set_mem (abs (store w)) (service_of c).
Proof using Type. intros Hr. unfold service_of, set_mem. cbn. by rewrite Hr. Qed.
Lemma set_mem_id c : set_mem (abs (store (server c))) (service_of c) = service_of c.
Proof using Type. done. Qed.

Lemma full_spec c :
  if CompletionQueue_is_full (cq (conn c)) then full (endpoint_of c) (service_of c)
  else ¬ full (endpoint_of c) (service_of c).
Proof using Type.
  unfold CompletionQueue_is_full, full. cbn. destruct (Z.leb_spec (capacity (cq (conn c))) (zlen (entries (cq (conn c))))); lia.
Qed.
(** A work request on a full queue. *)
Lemma full_simulated n c r :
  settled mx (S n) c → work_request r → CompletionQueue_is_full (cq (conn c)) = true →
  call r c = Err (Failed (Protocol ErrCqOverflow)) c → simulated n c r.
Proof using Type.
  intros Hc Hr Hf Hcall. pose proof (full_spec c) as Hfull. rewrite Hf in Hfull.
  eapply simulated_Err; [done|by apply serve_full|done|]. intros _. destruct r; try done; by apply resumed_idle.
Qed.

End basics.

Section link.
Context `{BytesCrateLaws, Profile, !OsRng, !OsRngLaws, WsSinkEnv, Clock}.
Context (Hsink : ∀ log, ws_send_error log = None) (mx : Z) (Hmx : 64 ≤ mx).
Implicit Types (c : Client Server) (n : nat).

(** A request with one message and one reply. *)
Lemma request_answered n c m rep w1 tr :
  settled mx (S n) c → sendable m →
  replied (server c) (c_next_seq (conn c)) (sized_msg m) rep w1 tr →
  one_frame rep →
  let c1 := after (bump (conn c)) (emit rep w1) in
  (∀ B (k : RdowsMessage → M (Client Server) Stop B),
     (_ ← on_wire (send_message m); resp ← recv_app_message; k resp) (mkClient (bump (conn c)) (wire c)) =
     k (sized_msg rep) c1) ∧
  resumed mx n (reg_ops tr) c c1 ∧ spec_steps (abs (store (server c))) tr (abs (store (server c1))) ∧
  recv_queue_depth (session (server c1)) = recv_queue_depth (session (server c)).
Proof using Type*.
  intros Hc Hs (Hrun & Hsd & Hr & Hop) Hu c1. pose proof Hc as [Hl Hi Hm Hrd Hk Hcr Hpd].
  pose proof (lk_ok _ Hl) as Ho. unfold finish in Hrun. rewrite Hsink in Hrun.
  destruct (served_steps (server c) (checked (server c) (c_next_seq (conn c))) w1 tr Ho eq_refl eq_refl ltac:(lia) Hsd) as [Hsteps Hk1].
  pose proof Hsd as [[Ho1 Hsink1 Hq1 Hp1 Hsc1 _ _ _] Hst1 Hrd1 Hrc1 Hpe1 He1 Hli1 Hcn1].
  cbn in Hsink1, Hq1, Hsc1, Hst1, Hrd1, Hrc1, Hpe1, He1. rewrite (lk_ready _ Hl) in Hst1.
  destruct Hp1 as [Hp1 _]; [cbn; by rewrite (lk_ready _ Hl)|].
  assert (peer_react (RdowsMessage_encode m) (mkServer (server c) true) =
    mkReaction None (WsBinary <$> [RdowsMessage_encode rep]) false (mkServer (emit rep w1) true)) as Hre.
  { apply (server_reacts _ _ _ [rep]); [done|done| |cbn; by rewrite Hsink1|by repeat constructor]. cbn. by rewrite Hst1. }
  destruct (sent_reacts [] _ _ _ _ Hre) as [Hse Hsn].
  split; [|split; [split; [apply (settled_after mx n c (bump (conn c)) w1 rep Hc); try done|by split]|done]].
  - intros B k. rewrite send_bind. cbn [conn wire]. rewrite (linked_wire c Hl), Hse, Hsn. cbn [app fmap list_fmap].
    apply reply_received; try done. rewrite Hq1. apply (lk_client_exp _ Hl).
  - by apply wrapping_add_range.
  - by rewrite Hpe1.
  - by rewrite Hsc1.
Qed.

(** *** Memory registration *)
Definition dereg_msg c (lk : LKey) : RdowsMessage :=
  RdowsMessage.MrDereg (next_hdr Opcode.MrDereg 0 (conn c)) (mkMrDereg (c_pd (conn c)) lk).

Lemma spec_steps_one a op res a' : spec_steps a [(op, res)] a' → spec_step a op res a'.
Proof using Type. inversion_clear 1 as [|? ? ? ? ? ? Hs Hn]. by inversion Hn; subst. Qed.
Lemma spec_steps_none a a' : spec_steps a [] a' → a' = a.
Proof using Type. by inversion 1. Qed.
Lemma status_of_error code : code ≠ Success →
  (u16_from_ErrorCode code =? 0) = false ∧ status_error (u16_from_ErrorCode code) = code.
Proof using Type. by destruct code. Qed.
Lemma data_error_unchanged a op code a' :
  spec_step a op (inl code) a' → a' = a.
Proof using Type.
  inversion 1 as [| | | | | | |? ? ? ? ? Hw|? ? ? ? ? Hw|? ? ? ? ? ? ? Hw]; try done;
    unfold spec_write, spec_read, spec_atomic, access in Hw; repeat case_match; by simplify_eq.
Qed.

Lemma dereg_simulated n c lk :
  settled mx (S n) c → request_ok mx (DeregMr lk) → simulated mx n c (DeregMr lk).
Proof using Type*.
  intros Hc Hlk. pose proof Hc as [Hl Hi Hm Hrd Hk Hcr Hpd]. pose proof (lk_ok _ Hl) as Ho.
  destruct (request_sendable c (dereg_msg c lk) Opcode.MrDereg 0 Hl) as [Hs Ha]; try done.
  { apply small_room; unfold dereg_msg; cbn [RdowsMessage_encode_payload]; unfold MrDeregPayload_encode;
      put_laws; zlen_lia. }
  destruct (mr_dereg_replied (server c) Ho _ (lk_ready _ Hl) (lk_exp _ Hl) (lk_seq _ Hl) ltac:(lia) _
    (mkMrDereg (c_pd (conn c)) lk) Ha) as (res & w1 & Hrep); [done|done|].
  destruct (request_answered n c (dereg_msg c lk) _ _ _ Hc Hs Hrep)
    as (Hrun & Hc1 & Hst & Hrc).
  { apply small_frame. cbn [RdowsMessage_encode_payload]. unfold MrDeregAckPayload_encode. put_laws. zlen_lia. }
  set (c1 := after _ _) in *. apply spec_steps_one in Hst.
  assert (dereg_mr lk c = (match res with
      | inr _ => mrs ← self local_mrs; upd (set_local_mrs (delete lk mrs))
      | inl code => fail code end) c1) as Hrd1.
  { unfold dereg_mr. rewrite next_header_bind, self_bind. cbn [conn bump c_pd set_c_next_seq].
    unfold send_and_recv. rewrite bind_assoc. fold (dereg_msg c lk). rewrite Hrun.
    cbn [sized_msg set_header da_status]. destruct res as [code|u]; cbn [status_of]; [|done].
    cbn [res_map] in Hst. pose proof (spec_error_ne_success _ _ _ _ Hst) as Hne.
    by destruct (status_of_error code Hne) as [-> ->]. }
  destruct res as [code|u]; cbn [res_map] in Hst.
  - apply (simulated_Err mx n c _ (Protocol code) c1); [|..|done|done].
    + cbn [call]. by rewrite (bind_Err _ _ _ _ _ Hrd1).
    + unfold service_of. rewrite Hrc. by apply (serve_dereg_err (endpoint_of c) (service_of c)).
  - rewrite self_bind in Hrd1. eapply simulated_Ok; [cbn [call]; by rewrite (bind_Ok _ _ _ _ _ Hrd1)|..].
    + unfold service_of at 2. cbn [conn local_mrs set_local_mrs cq send_credits wire].
      rewrite Hrc, local_view_delete. by apply (serve_dereg (endpoint_of c) (service_of c)).
    + done.
    + by apply resumed_local.
Qed.

(** *** Atomics *)
Definition atomic_msg c wrid p : RdowsMessage :=
  RdowsMessage.AtomicReq (next_hdr Opcode.AtomicReq wrid (conn c)) p.

Lemma atomic_simulated n c r wrid rkey va ty o1 o2 :
  settled mx (S n) c → u64 wrid → AtomicReqPayload_typed (mkAtomicReq rkey ty va o1 o2) →
  atomic_args r = Some (wrid, rkey, va, ty, o1, o2) → simulated mx n c r.
Proof using Type*.
  intros Hc Hw Ht Hr. pose proof Hc as [Hl Hi Hm Hrd Hk Hcr Hpd]. pose proof (lk_ok _ Hl) as Ho.
  assert (call r c = (w ← post_atomic wrid rkey va ty o1 o2; mret (VWord w)) c ∧ work_request r ∧
    regs_of r = 0) as (Hcall & Hwr & Hregs)
    by (destruct r; cbn in Hr; by simplify_eq).
  destruct (CompletionQueue_is_full (cq (conn c))) eqn:Hfull.
  { apply full_simulated; try done. rewrite Hcall. unfold post_atomic. by rewrite bind_assoc, self_bind, Hfull. }
  pose proof (full_spec c) as Hnf. rewrite Hfull in Hnf.
  set (p := mkAtomicReq rkey ty va o1 o2) in *.
  destruct (request_sendable c (atomic_msg c wrid p) Opcode.AtomicReq wrid Hl) as [Hs Ha]; try done.
  { apply small_room; unfold atomic_msg; cbn [RdowsMessage_encode_payload]; unfold AtomicReqPayload_encode;
      put_laws; zlen_lia. }
  destruct (atomic_replied (server c) Ho _ (lk_ready _ Hl) (lk_exp _ Hl) (lk_seq _ Hl) ltac:(lia) _ p Ha)
    as (res & w1 & Hrep).
  { apply (with_payload_length_typed _ _ (proj1 (proj1 Hs))). apply one_frame_u32, Hs. }
  { done. }
  { destruct r; cbn in Hr; simplify_eq; [by left|by right]. }
  destruct (request_answered n c (atomic_msg c wrid p) _ _ _ Hc Hs Hrep) as (Hrun & Hc1 & Hst & Hrc).
  { destruct res; [by apply error_reply_one_frame|]. apply small_frame. cbn [RdowsMessage_encode_payload].
    unfold AtomicRespPayload_encode. put_laws. zlen_lia. }
  apply spec_steps_one in Hst. cbn [p aq_rkey aq_remote_va aq_atomic_type aq_operand1 aq_operand2] in Hst.
  set (c1 := after _ _) in *. pose proof (service_after c (server c1) Hrc) as Hsv.
  assert (service_of c1 = set_mem (abs (store (server c1))) (service_of c)) as Hsv1 by exact Hsv.
  assert (post_atomic wrid rkey va ty o1 o2 c = match res with
    | inr v => Ok v (completed (mkCqe wrid 0 Opcode.AtomicReq 0 8 (c_session_id (conn c))) c1)
    | inl code => Err (Failed (Protocol code)) (completed (mkCqe wrid (u16_from_ErrorCode code)
        Opcode.AtomicReq 0 0 (c_session_id (conn c))) c1) end) as Hpost.
  { unfold post_atomic. rewrite self_bind, Hfull, next_header_bind. fold p (atomic_msg c wrid p).
    rewrite Hrun. destruct res as [code|v]; cbn [sized_msg set_header error_reply ep_error_code];
      by rewrite self_bind, cq_push_bind. }
  destruct res as [code|v]; cbn [res_map] in Hst.
  - eapply simulated_Err; [rewrite Hcall; by rewrite (bind_Err _ _ _ _ _ Hpost)| |done|].
    + rewrite service_completed, Hsv1. pose proof (data_error_unchanged _ _ _ _ Hst) as Hsame.
      rewrite Hsame in Hst |- *. eapply serve_atomic_err; [done|done|exact Hst].
    + intros _. rewrite Hregs. by apply resumed_completed.
  - eapply simulated_Ok; [rewrite Hcall; by rewrite (bind_Ok _ _ _ _ _ Hpost)| |done|].
    + rewrite service_completed, Hsv1. eapply serve_atomic; [done|done|exact Hst].
    + rewrite Hregs. by apply resumed_completed.
Qed.

(** *** RDMA Read *)
Lemma spec_read_done a r off len d a' :
  spec_step a (OpRead r off len) (inr (RBytes d)) a' → 0 ≤ off → 0 ≤ len → zlen d = len ∧ a' = a.
Proof using Type.
  intros Hs Hoff Hlen. inversion Hs as [| | | | | | | |? ? ? ? ? Hr|]; subst. unfold spec_read in Hr.
  destruct (access a r REMOTE_READ) as [|g]; [done|].
  destruct (Z.ltb_spec (zlen (rg_bytes g)) (off + len)) as [|Hb]; [done|]. simplify_eq. split; [|done].
  unfold zlen in *. rewrite length_take, length_drop. lia.
Qed.

(** Bytes copied into a local region. *)
Definition put_handle (off : Z) (d : list byte) (mr : MemoryRegionHandle) : MemoryRegionHandle :=
  mkHandle (mh_lkey mr) (mh_rkey mr) (mh_len mr) (splice (mh_local_buf mr) (Z.to_nat off) d).
Definition put_local (lk : LKey) (off : Z) (d : list byte) c : Client Server :=
  mkClient (set_local_mrs (alter (put_handle off d) lk (local_mrs (conn c))) (conn c)) (wire c).

Lemma alter_present {A} (f : A → A) (m : gmap Z A) i x :
  m !! i = Some x → alter f i m = <[i := f x]> m.
Proof using Type.
  intros Hi. apply map_eq. intros j. destruct (decide (i = j)) as [->|Hne].
  - by rewrite lookup_alter_eq, lookup_insert_eq, Hi.
  - by rewrite lookup_alter_ne, lookup_insert_ne.
Qed.
Lemma write_local_eq c lk off d :
  0 ≤ off → off + zlen d < 2 ^ 64 →
  write_local_mr lk off d c =
    match deliver (local_view (local_mrs (conn c))) lk off d with
    | inl code => Err (Failed (Protocol code)) c
    | inr _ => Ok tt (put_local lk off d c)
    end.
Proof using Type.
  intros Hoff Hb. pose proof (zlen_nonneg d). unfold write_local_mr, deliver, put_local.
  rewrite self_bind, local_view_lookup.
  destruct (local_mrs (conn c) !! lk) as [mr|] eqn:Hmr; cbn [fmap option_fmap option_map]; [|done].
  rewrite ok_or_bind. unfold add_ovf. rewrite ovf_bind by (unfold uN; lia).
  destruct (Z.ltb_spec (zlen (mh_local_buf mr)) (off + zlen d)); [done|].
  rewrite slice_copy_Some, or_panic_bind by lia.
  by rewrite (alter_present (put_handle off d) _ _ _ Hmr).
Qed.
Lemma deliver_view mrs lk off d local' :
  deliver (local_view mrs) lk off d = inr local' →
  local_view (alter (put_handle off d) lk mrs) = local'.
Proof using Type.
  unfold deliver. rewrite local_view_lookup.
  destruct (mrs !! lk) as [mr|] eqn:Hmr; cbn [fmap option_fmap option_map]; [|done].
  case_match; [done|]. intros [= <-]. rewrite (alter_present (put_handle off d) _ _ _ Hmr).
  by rewrite local_view_insert.
Qed.

(** [rdma_read] copies the reply as [write_local_mr] does. *)
Lemma rdma_copy_eq {B} lk off d (k : M (Client Server) Stop B) c :
  (mrs ← self local_mrs;
   mr ← ok_or (mrs !! lk) (Failed (Protocol ErrInvalidLkey));
   stop ← add_ovf 64 off (zlen d);
   if zlen (mh_local_buf mr) <? stop then fail ErrBounds else
   buf ← or_panic (slice_copy (mh_local_buf mr) off stop d);
   _ ← upd (set_local_mrs (<[lk := mkHandle (mh_lkey mr) (mh_rkey mr) (mh_len mr) buf]> mrs)); k) c =
  (_ ← write_local_mr lk off d; k) c.
Proof using Type.
  unfold write_local_mr. rewrite bind_assoc, !self_bind. destruct (_ !! lk) as [mr|]; [|done].
  rewrite bind_assoc, !ok_or_bind. unfold mbind, M_bind. destruct (add_ovf 64 off (zlen d) c) as [stop c'| |]; try done.
  destruct (_ <? stop); [done|]. by destruct (slice_copy _ off stop d).
Qed.

Lemma read_msg_ok c wrid p :
  settled mx 1 c → u64 wrid → ReadReqPayload_typed p →
  sendable (read_msg c wrid p) ∧ accepted (server c) (c_next_seq (conn c)) (sized_msg (read_msg c wrid p)).
Proof using Type*.
  intros [Hl _ Hm _ _ _ _] Hw Ht. apply (request_sendable c _ Opcode.ReadReq wrid Hl Hw); try done.
  apply small_room; unfold read_msg; cbn [RdowsMessage_encode_payload]; unfold ReadReqPayload_encode;
    put_laws; zlen_lia.
Qed.

(** What [rdma_read] does with the reply. *)
Definition read_completion (wrid : Z) (lk : LKey) (lva : Z) (res : ErrorCode + list byte)
    : M (Client Server) Stop unit :=
  match res with
  | inr d => _ ← write_local_mr lk lva d; sid ← self c_session_id;
             cq_push (mkCqe wrid 0 Opcode.ReadReq 0 (wrap 32 (zlen d)) sid)
  | inl code => sid ← self c_session_id;
      _ ← cq_push (mkCqe wrid (u16_from_ErrorCode code) Opcode.ReadReq 0 0 sid); fail code
  end.

(** The exchange: the server answers with the bytes of its store or an error, and
    the client goes on from there. *)
Lemma read_exchanged n c wrid rkey va len lk lva :
  settled mx (S n) c → request_ok mx (RdmaRead wrid rkey va len lk lva) →
  CompletionQueue_is_full (cq (conn c)) = false →
  ∃ res w, let c1 := after (bump (conn c)) w in
    rdma_read wrid rkey va len lk lva c = read_completion wrid lk lva res c1 ∧
    spec_step (abs (store (server c))) (OpRead rkey va len) (res_map RBytes res) (abs (store w)) ∧
    service_of c1 = set_mem (abs (store w)) (service_of c) ∧ resumed mx n 0 c c1.
Proof using Type*.
  intros Hc (Hw & Ht & Hend & Hfit) Hfull. pose proof Hc as [Hl Hi Hm Hrd Hk Hcr Hpd].
  pose proof (lk_ok _ Hl) as Ho. set (p := mkReadReq rkey va len lk lva) in *.
  destruct (read_msg_ok c wrid p) as [Hs Ha]; [split; try done; lia|done|done|].
  destruct (read_replied (server c) Ho _ (lk_ready _ Hl) (lk_exp _ Hl) (lk_seq _ Hl) ltac:(lia) _ p Ha)
    as (res & w1 & Hrep); [|done|done|].
  { apply (with_payload_length_typed _ _ (proj1 (proj1 Hs))). apply one_frame_u32, Hs. }
  destruct Ht as (_ & [Hva _] & [Hlen _] & _ & [Hlva _]). cbn [p rq_remote_va rq_read_len rq_local_va] in *.
  destruct (served_steps (server c) (checked (server c) (c_next_seq (conn c))) w1 _ Ho eq_refl eq_refl
    ltac:(lia) (proj1 (proj2 Hrep))) as [Hst _]. apply spec_steps_one in Hst.
  cbn [p rq_rkey rq_remote_va rq_read_len] in Hst.
  destruct (request_answered n c (read_msg c wrid p) _ _ _ Hc Hs Hrep) as (Hrun & Hc1 & _ & Hrc).
  { destruct res as [|d]; [by apply error_reply_one_frame|]. unfold one_frame. cbn [RdowsMessage_encode_payload].
    rewrite ReadRespPayload_length. unfold ReadRespPayload_encoded_len. cbn [rr_data].
    destruct (spec_read_done _ _ _ _ _ _ Hst Hva Hlen). lia. }
  match type of Hc1 with resumed _ _ _ _ (after _ ?w) => exists res, w end. cbn zeta.
  split; [|split; [exact Hst|split; [exact (service_after c _ Hrc)|exact Hc1]]].
  unfold rdma_read. rewrite self_bind, Hfull, next_header_bind. fold p (read_msg c wrid p).
  rewrite Hrun. destruct res as [code|d]; cbn [sized_msg set_header error_reply ep_error_code rr_data];
    [done|]. apply (rdma_copy_eq lk lva d).
Qed.

Lemma read_simulated n c wrid rkey va len lk lva :
  let r := RdmaRead wrid rkey va len lk lva in
  settled mx (S n) c → request_ok mx r → simulated mx n c r.
Proof using Type*.
  intros r Hc Hok. pose proof Hok as (_ & Ht & Hend & Hfit).
  destruct (CompletionQueue_is_full (cq (conn c))) eqn:Hfull.
  { apply full_simulated; try done. cbn [r call]. unfold rdma_read. by rewrite bind_assoc, self_bind, Hfull. }
  pose proof (full_spec c) as Hnf. rewrite Hfull in Hnf.
  destruct (read_exchanged n c wrid rkey va len lk lva Hc Hok Hfull) as (res & w & Hread & Hst & Hsv & Hc1).
  set (c1 := after _ _) in *. destruct Ht as (_ & [Hva _] & [Hlen _] & _ & [Hlva _]).
  cbn [rq_remote_va rq_read_len rq_local_va] in *. destruct res as [code|d]; cbn [res_map read_completion] in *.
  - rewrite self_bind, cq_push_bind in Hread by done.
    eapply simulated_Err; [cbn [r call]; by rewrite (bind_Err _ _ _ _ _ Hread)| |done|].
    + rewrite (service_completed c), Hsv. pose proof (data_error_unchanged _ _ _ _ Hst) as Hsame.
      rewrite Hsame in Hst |- *. apply serve_read_err; [done|exact Hst].
    + intros _. by apply resumed_completed.
  - destruct (spec_read_done _ _ _ _ _ _ Hst Hva Hlen) as [Hd Hsame]. rewrite Hsame in Hsv, Hst.
    rewrite set_mem_id in Hsv. pose proof (write_local_eq c1 lk lva d Hlva ltac:(lia)) as Hwl.
    change (local_mrs (conn c1)) with (local_mrs (conn c)) in Hwl.
    destruct (deliver (local_view (local_mrs (conn c))) lk lva d) as [code|local'] eqn:Hdel.
    + rewrite (bind_Err _ _ _ _ _ Hwl) in Hread.
      eapply simulated_Err; [cbn [r call]; by rewrite (bind_Err _ _ _ _ _ Hread)| |done|done].
      rewrite Hsv. by eapply serve_read_local.
    + rewrite (bind_Ok _ _ _ _ _ Hwl), self_bind, cq_push_eq in Hread by done.
      eapply simulated_Ok; [cbn [r call]; by rewrite (bind_Ok _ _ _ _ _ Hread)| |done|].
      * rewrite (service_completed c).
        assert (service_of (put_local lk lva d c1) = set_local local' (service_of c)) as ->.
        { rewrite <-Hsv, <-(deliver_view _ _ _ _ _ Hdel). done. }
        rewrite (wrap_id 32) by (unfold uN, MAX_FRAME_PAYLOAD, WS_MAX_FRAME_SIZE, HEADER_SIZE in *; lia).
        by eapply serve_read.
      * by apply resumed_completed, resumed_local.
Qed.

(** *** [reg_mr] *)
Section register.
Context (Hrng : ∀ i, os_rng_fill i ≠ None).

Lemma rate_limited_step a pd fl len : spec_step a (OpRegister pd fl len) (inl ErrInternal) a.
Proof using Type.
  destruct (Z.lt_ge_cases (count a) (count_max a)); [by apply spec_register_no_key|by apply spec_register_full].
Qed.

Lemma reg_simulated n c fl len :
  settled mx (S n) c → request_ok mx (RegMr fl len) → simulated mx n c (RegMr fl len).
Proof using Type*.
  intros Hc [Hfl Hlen]. pose proof Hc as [Hl Hi Hm Hrd Hk Hcr Hpd]. pose proof (lk_ok _ Hl) as Ho.
  assert (u64 len) as Hlen64 by (unfold isize_max, uN in *; lia).
  destruct (reg_msg_ok c fl len) as [Hs Ha]; try done; [lia|].
  destruct (mr_reg_replied (server c) Ho _ (lk_ready _ Hl) (lk_exp _ Hl) (lk_seq _ Hl) ltac:(lia) _
    (mkMrReg (c_pd (conn c)) fl len None) Ha) as (res & w1 & tr & Hrep & Htr); [done|done| |].
  { pose proof (ok_total_max _ (so_store _ Ho)) as Hmax. unfold isize_max in *. cbn. intros [?|(i & _ & Hi')]; [lia|].
    by apply (Hrng _ Hi'). }
  destruct (request_answered n c (reg_msg c fl len) _ _ _ Hc Hs Hrep) as (Hrun & Hc1 & Hst & Hrc).
  { apply small_frame. unfold reg_ack. cbn [RdowsMessage_encode_payload]. unfold MrRegAckPayload_encode.
    put_laws. zlen_lia. }
  set (c1 := after _ _) in *.
  assert (service_of c1 = set_mem (abs (store (server c1))) (service_of c)) as Hsv by exact (service_after c _ Hrc).
  assert (spec_step (abs (store (server c))) (OpRegister (c_pd (conn c)) fl len)
    (res_map (λ '(l, r), RKeys l r) res) (abs (store (server c1)))) as Hstep.
  { destruct Htr as [-> |[-> ->]]; [by apply spec_steps_one|]. rewrite (spec_steps_none _ _ Hst). apply rate_limited_step. }
  apply (resumed_weaken mx n _ 1) in Hc1; [|by destruct Htr as [-> |[-> _]]].
  assert (reg_mr fl len c = match res with
    | inr (l, r) => let h := mkHandle l r len (replicate (Z.to_nat len) x00) in
        Ok h (mkClient (set_local_mrs (<[l := h]> (local_mrs (conn c1))) (conn c1)) (wire c1))
    | inl code => Err (Failed (Protocol code)) c1 end) as Hreg.
  { unfold reg_mr. rewrite next_header_bind, self_bind. cbn [conn bump c_pd set_c_next_seq].
    unfold send_and_recv. rewrite bind_assoc. fold (reg_msg c fl len). rewrite Hrun.
    unfold reg_ack. cbn [sized_msg set_header]. destruct res as [code|[l r]]; cbn [res_map ra_status ra_lkey ra_rkey] in *.
    - pose proof (spec_error_ne_success _ _ _ _ Hstep) as Hne. by destruct (status_of_error code Hne) as [-> ->].
    - cbn [Z.eqb negb]. unfold vec_zeroed. rewrite (proj2 (Z.leb_le _ _)) by lia.
      by rewrite ret_bind, self_bind, upd_bind, ret_bind. }
  destruct res as [code|[l r]]; cbn [res_map] in Hstep.
  - eapply simulated_Err; [cbn [call]; by rewrite (bind_Err _ _ _ _ _ Hreg)| |done|done].
    rewrite Hsv. by apply serve_reg_err.
  - cbn zeta in Hreg. eapply simulated_Ok; [cbn [call]; by rewrite (bind_Ok _ _ _ _ _ Hreg)| |done|by apply resumed_local].
    cbn [mh_lkey mh_rkey]. unfold service_of at 2. cbn [conn local_mrs set_local_mrs cq send_credits wire].
    rewrite local_view_insert, Hrc. by apply (serve_reg (endpoint_of c) (service_of c)).
Qed.

End register.

(** *** Local calls *)
Lemma write_local_simulated n c lk off d :
  settled mx (S n) c → request_ok mx (WriteLocal lk off d) → simulated mx n c (WriteLocal lk off d).
Proof using Type.
  intros Hc%resumed_idle [Hoff Hb]. pose proof (write_local_eq c lk off d Hoff Hb) as Hwl.
  destruct (deliver _ lk off d) as [code|local'] eqn:Hdel.
  - eapply simulated_Err; [cbn [call]; by rewrite (bind_Err _ _ _ _ _ Hwl)| |done|done].
    by apply serve_write_local_err.
  - eapply simulated_Ok; [cbn [call]; by rewrite (bind_Ok _ _ _ _ _ Hwl)| |done|by apply resumed_local].
    assert (service_of (put_local lk off d c) = set_local local' (service_of c)) as ->
      by (by rewrite <-(deliver_view _ _ _ _ _ Hdel)).
    by apply serve_write_local.
Qed.

Lemma read_local_eq c lk off len :
  0 ≤ off → 0 ≤ len → off + len < 2 ^ 64 →
  read_local_mr lk off len c =
    match gather (local_view (local_mrs (conn c))) [mkSge lk off len] with
    | inl code => Err (Failed (Protocol code)) c
    | inr d => Ok d c
    end.
Proof using Type.
  intros Hoff Hlen Hb. unfold read_local_mr. cbn [gather sg_lkey sg_offset sg_length].
  rewrite self_bind, local_view_lookup. destruct (local_mrs (conn c) !! lk) as [mr|]; [|done].
  cbn [fmap option_fmap option_map]. rewrite ok_or_bind. unfold add_ovf. rewrite ovf_bind by (unfold uN; lia).
  destruct (Z.ltb_spec (zlen (mh_local_buf mr)) (off + len)); [done|].
  rewrite slice_Some by lia. by rewrite Z.add_simpl_l, app_nil_r.
Qed.
Lemma read_local_simulated n c lk off len :
  settled mx (S n) c → request_ok mx (ReadLocal lk off len) → simulated mx n c (ReadLocal lk off len).
Proof using Type.
  intros Hc%resumed_idle (Hoff & Hlen & Hb). pose proof (read_local_eq c lk off len Hoff Hlen Hb) as Hrl.
  destruct (gather _ _) as [code|d] eqn:Hg.
  - eapply simulated_Err; [cbn [call]; by rewrite (bind_Err _ _ _ _ _ Hrl)| |done|done].
    by apply serve_read_mr_err.
  - eapply simulated_Ok; [cbn [call]; by rewrite (bind_Ok _ _ _ _ _ Hrl)| |done|done].
    by apply serve_read_mr.
Qed.
Lemma poll_simulated n c max : settled mx (S n) c → simulated mx n c (PollCq max).
Proof using Type.
  intros Hc%resumed_idle. eapply simulated_Ok; [done|..].
  - by apply (serve_poll (endpoint_of c) (service_of c)).
  - done.
  - by apply (resumed_conn mx n 0 c c).
Qed.
End link.
