(* ===== verification/LinkPairs.v ===== *)
(** * Sends and writes over the link

    The verbs that take two messages, SEND with SEND_DATA and WRITE with
    WRITE_DATA, on every branch; the branches that leave nothing in flight keep
    the connection established. *)

From S2P Require Import Prelude Externals Utf8 Core Frame Payloads Message MemoryStore StoreSpec.
From S2P Require Import ServerState Handler Session SessionFacts SessionProps Replies.
From S2P Require Import Client Verbs ClientFacts EndToEnd Registration Service Credits Link.

(** ** Gathering local bytes *)
Definition sg_ranged (g : ScatterGatherEntry) : Prop :=
  ScatterGatherEntry_typed g ∧ sg_offset g + sg_length g < 2 ^ 64.

Lemma gather_length local sg d :
  Forall sg_ranged sg → gather local sg = inr d → zlen d = foldr (λ g n, sg_length g + n) 0 sg.
Proof.
  intros Hsg. revert d. induction Hsg as [|g sg [(_ & [Ho _] & [Hl _]) _] _ IH]; intros d; cbn; [by intros [= <-]|].
  destruct (local !! sg_lkey g) as [buf|]; [|done].
  destruct (Z.ltb_spec (zlen buf) (sg_offset g + sg_length g)); [done|].
  destruct (gather local sg) as [code|d']; [done|]. intros [= <-]. rewrite zlen_app, (IH d') by done.
  unfold zlen in *. rewrite length_take, length_drop. lia.
Qed.

Section gather.
Context `{BytesCrate, Profile} {P : Type} `{!Peer P}.
Implicit Types c : Client P.

Lemma gather_loop_eq c sg acc :
  Forall sg_ranged sg →
  gather_loop sg acc c =
    match gather (local_view (local_mrs (conn c))) sg with
    | inl code => Err (Failed (Protocol code)) c
    | inr d => Ok (acc ++ d) c
    end.
Proof using Type.
  intros Hsg. revert acc. induction Hsg as [|g sg [(_ & [Ho _] & [Hl _]) Hb] _ IH]; intros acc; cbn [gather_loop gather].
  { by rewrite app_nil_r. }
  rewrite self_bind, local_view_lookup. destruct (local_mrs (conn c) !! sg_lkey g) as [mr|]; [|done].
  cbn [fmap option_fmap option_map]. rewrite ok_or_bind. unfold add_ovf. rewrite ovf_bind by (unfold uN, room_of in *; lia).
  destruct (Z.ltb_spec (zlen (mh_local_buf mr)) (sg_offset g + sg_length g)); [done|].
  rewrite slice_Some, or_panic_bind, IH, Z.add_simpl_l by lia.
  destruct (gather _ sg) as [code|d]; [done|]. by rewrite (assoc_L (++)).
Qed.
Lemma gather_eq c sg :
  Forall sg_ranged sg →
  gather_sg_data sg c =
    match gather (local_view (local_mrs (conn c))) sg with
    | inl code => Err (Failed (Protocol code)) c
    | inr d => Ok d c
    end.
Proof using Type. intros Hsg. unfold gather_sg_data. by rewrite gather_loop_eq. Qed.
End gather.

Section pairs.
Context `{BytesCrateLaws, Profile, !OsRng, !OsRngLaws, WsSinkEnv, Clock}.
Context (Hsink : ∀ log, ws_send_error log = None).
Context (mx : Z) (Hmx : 64 ≤ mx).
Implicit Types (c : Client Server) (n : nat).

(** Two messages sent one after the other, before anything is received. *)
Lemma pair_sent {B} c op1 op2 wrid (mk1 mk2 : RdowsHeader → RdowsMessage) w1 w2 f1 f2
    (k : M (Client Server) Stop B) :
  linked c →
  peer_react (RdowsMessage_encode (mk1 (next_hdr op1 wrid (conn c)))) (mkServer (server c) true) =
    mkReaction None (WsBinary <$> f1) false (mkServer w1 true) →
  peer_react (RdowsMessage_encode (mk2 (next_hdr op2 wrid (bump (conn c))))) (mkServer w1 true) =
    mkReaction None (WsBinary <$> f2) false (mkServer w2 true) →
  (h ← next_header op1 wrid; _ ← on_wire (send_message (mk1 h));
   h2 ← next_header op2 wrid; _ ← on_wire (send_message (mk2 h2)); k) c =
  k (mkClient (bump (bump (conn c))) (mkWire (WsBinary <$> f1 ++ f2) false (mkServer w2 true))).
Proof using Type.
  intros Hl Hre1 Hre2. destruct (sent_reacts [] _ _ _ _ Hre1) as [Hse1 Hsn1].
  destruct (sent_reacts (WsBinary <$> f1) _ _ _ _ Hre2) as [Hse2 Hsn2].
  rewrite next_header_bind, send_bind. cbn [conn wire]. rewrite (linked_wire c Hl), Hse1, Hsn1.
  cbn [app]. rewrite next_header_bind, send_bind. cbn [conn wire]. rewrite Hse2, Hsn2.
  by rewrite fmap_app.
Qed.

(** The second message of a pair, as the server sees it. *)
Lemma second_msg_ok c wrid op m w1 d :
  settled mx 1 c → u64 wrid → RdowsMessage_header m = next_hdr op wrid (bump (conn c)) →
  opcode_of m = op → payload_typed m → fits_counts m → RdowsMessage_encode_payload m = d →
  zlen d ≤ room_of mx → max_msg_size (session w1) = mx →
  sendable m ∧ accepted w1 (wrapping_add 32 (c_next_seq (conn c)) 1) (sized_msg m).
Proof using Type*.
  intros [Hl _ Hm _ _ _ _] Hw Hh Hop Ht Hf He Hd Hm1.
  unfold room_of in Hd. split.
  - split_and!; [|done|unfold one_frame; rewrite He; lia]. unfold RdowsMessage_wf. rewrite Hh, Hop.
    split_and!; try done. split_and!; try done; [|by apply wrapping_add_range].
    cbn. rewrite (lk_sid _ Hl). apply (lk_ok _ Hl).
  - unfold accepted, sized_msg. rewrite Hh, He, Hm1. destruct m; cbn in *; split; done || lia.
Qed.

(** *** SEND *)
Definition send_msg sg (h : RdowsHeader) : RdowsMessage := RdowsMessage.Send h (mkSend sg).
Definition send_data_msg d (h : RdowsHeader) : RdowsMessage := RdowsMessage.SendData h (mkData d).

Lemma send_msg_ok c wrid sg :
  settled mx 1 c → u64 wrid → sg_ok mx sg →
  let m := send_msg sg (next_hdr Opcode.Send wrid (conn c)) in
  sendable m ∧ accepted (server c) (c_next_seq (conn c)) (sized_msg m).
Proof using Type*.
  intros [Hl _ Hm _ _ _ _] Hw (Hsg & Hfit & _ & Hn) m.
  apply (request_sendable c m Opcode.Send wrid Hl Hw); try done.
  - unfold payload_typed, m, send_msg, SendPayload_typed. eapply Forall_impl; [exact Hsg|]. by intros g [? _].
  - unfold m, send_msg. cbn [RdowsMessage_encode_payload]. rewrite SendPayload_length.
    unfold SendPayload_encoded_len, WRITE_HEADER_SIZE, SG_ENTRY_SIZE, room in *. cbn [sp_sg_list].
    rewrite Hm. lia.
Qed.
Lemma data_payload_encode h d : RdowsMessage_encode_payload (send_data_msg d h) = d.
Proof using Type*. unfold send_data_msg. cbn [RdowsMessage_encode_payload]. unfold DataPayload_encode. by put_laws. Qed.

(** The server's side of a SEND. *)
Definition recv_comp wrid (w : World) : RdowsMessage :=
  RdowsMessage.RecvComp (SessionFacts.next_hdr Opcode.RecvComp wrid w).
Definition bumped_twice (e : Z) : Z := wrapping_add 32 (wrapping_add 32 e 1) 1.

Record send_result c (w : World) (taken : Z) : Prop := {
  sr_ok : session_ok (session w);
  sr_state : session_state (session w) = Ready;
  sr_exp : expected_remote_seq (session w) = Some (bumped_twice (c_next_seq (conn c)));
  sr_seq : next_seq (session w) = next_seq (session (server c));
  sr_peer : same_peer (session (server c)) (session w);
  sr_reads : max_outstanding_reads (session w) = max_outstanding_reads (session (server c));
  sr_idle : pending_op (session w) = NoPending;
  sr_store : store w = store (server c);
  sr_recv : recv_queue_depth (session w) = recv_queue_depth (session (server c)) - taken;
  sr_sends : sends_since_last_credit (session w) = sends_since_last_credit (session (server c));
  sr_paced : mr_reg_rate_limit (session w) = mr_reg_rate_limit (session (server c)) ∧
    mr_reg_count (session w) = mr_reg_count (session (server c));
}.

(** The frames that a counted SEND adds. *)
Definition credit_msgs (w : World) : list RdowsMessage := if credit_due w then [grant_msg w] else [].
Definition credit_frames (w : World) : list (list byte) := RdowsMessage_encode <$> credit_msgs w.
Lemma counted_sink w : sink (counted w) = sink w ++ credit_frames w.
Proof using Type. unfold counted, credit_frames, credit_msgs. destruct (credit_due w); [done|by rewrite app_nil_r]. Qed.
Lemma grant_one_frame w : one_frame (grant_msg w).
Proof using Type*.
  apply small_frame. unfold grant_msg. cbn [RdowsMessage_encode_payload]. unfold CreditUpdatePayload_encode.
  put_laws. zlen_lia.
Qed.

(** The reply [rep] to the two messages, and what follows it. *)
Definition reacted (c : Client Server) (wrid : Z) (sg : list ScatterGatherEntry) (d : list byte) (taken : Z)
    (rest : World → list (list byte)) (next : World → World) : Prop :=
  ∃ w1 w rep f1 f2,
    peer_react (RdowsMessage_encode (send_msg sg (next_hdr Opcode.Send wrid (conn c))))
      (mkServer (server c) true) = mkReaction None (WsBinary <$> f1) false (mkServer w1 true) ∧
    peer_react (RdowsMessage_encode (send_data_msg d (next_hdr Opcode.SendData wrid (bump (conn c)))))
      (mkServer w1 true) = mkReaction None (WsBinary <$> f2) false (mkServer (next (emit rep w)) true) ∧
    f1 ++ f2 = RdowsMessage_encode rep :: rest (emit rep w) ∧ send_result c w taken ∧ reply_ok w rep ∧
    one_frame rep ∧
    match rep with
    | RdowsMessage.RecvComp _ => taken = 1
    | RdowsMessage.Error _ p => taken = 0 ∧ ep_error_code p = ErrRnr
    | _ => False
    end.
Definition reacts_refused c wrid sg d : Prop := reacted c wrid sg d 0 (λ _, []) id.
Definition reacts_taken c wrid sg d : Prop := reacted c wrid sg d 1 credit_frames counted.

(** The second message is accepted after the first one was. *)
Lemma send_data_ok c wrid d w1 :
  settled mx 1 c → u64 wrid → zlen d ≤ room_of mx → max_msg_size (session w1) = mx →
  let m2 := send_data_msg d (next_hdr Opcode.SendData wrid (bump (conn c))) in
  sendable m2 ∧ accepted w1 (wrapping_add 32 (c_next_seq (conn c)) 1) (sized_msg m2).
Proof using Type*.
  intros Hc Hw Hd Hw1 m2. by apply (second_msg_ok c wrid Opcode.SendData m2 w1 d); try done; [apply data_payload_encode].
Qed.

Lemma send_reacts_refused c wrid sg d :
  settled mx 1 c → u64 wrid → sg_ok mx sg → zlen d ≤ room_of mx →
  recv_queue_depth (session (server c)) = 0 → reacts_refused c wrid sg d.
Proof using Type*.
  intros Hc Hw Hsg Hd Hz. pose proof Hc as [Hl Hi Hm Hrd Hk Hcr Hpd]. pose proof (lk_ok _ Hl) as Ho.
  destruct (send_msg_ok c wrid sg Hc Hw Hsg) as [Hs1 Ha1].
  pose proof (send_data_ok c wrid d) as Hm2. set (e := c_next_seq (conn c)) in *. set (e1 := wrapping_add 32 e 1) in *.
  pose proof (checked_ok (server c) Ho e) as Hok1.
  pose proof (send_refused Hsink (server c) e (lk_ready _ Hl) (lk_exp _ Hl) _ _ Ha1 Hz) as Hh1.
  set (rep := rnr_error _ _ _) in Hh1. set (w1 := pending_is _ _) in Hh1.
  destruct (Hm2 w1 Hc Hw Hd Hm) as [Hs2 Ha2].
  pose proof (send_data_dropped w1 e1 (lk_ready _ Hl) eq_refl _ _ Ha2 eq_refl) as Hh2.
  set (w := pending_is NoPending (checked (pending_is DiscardingSendData (checked (server c) e)) e1)).
  exists w1, w, rep, [RdowsMessage_encode rep], []. split; [|split; [|split; [done|split; [|split; [|split]]]]].
  - apply (server_reacts _ _ _ [rep]); [done|exact Hh1|cbn; by rewrite (lk_ready _ Hl)|done|].
    repeat constructor. by apply error_reply_one_frame.
  - apply (server_reacts _ _ _ []); [done|exact Hh2|cbn; by rewrite (lk_ready _ Hl)|by rewrite app_nil_r|done].
  - split; try done; cbn; try lia; [|apply Hl]. destruct Hok1. split; try done. by apply wrapping_add_range.
  - apply (error_reply_ok (checked (server c) e)); try done. apply (lk_seq _ Hl).
  - by apply error_reply_one_frame.
  - done.
Qed.

Lemma send_reacts_taken c wrid sg d :
  settled mx 1 c → u64 wrid → sg_ok mx sg → zlen d ≤ room_of mx →
  recv_queue_depth (session (server c)) ≠ 0 → reacts_taken c wrid sg d.
Proof using Type*.
  intros Hc Hw Hsg Hd Hz. pose proof Hc as [Hl Hi Hm Hrd Hk Hcr Hpd]. pose proof (lk_ok _ Hl) as Ho.
  pose proof (so_recv _ Ho) as Hrecv. destruct (send_msg_ok c wrid sg Hc Hw Hsg) as [Hs1 Ha1].
  pose proof (send_data_ok c wrid d) as Hm2. set (e := c_next_seq (conn c)) in *. set (e1 := wrapping_add 32 e 1) in *.
  pose proof (checked_ok (server c) Ho e) as Hok1. unfold uN in Hrecv.
  pose proof (send_taken (server c) e (lk_ready _ Hl) (lk_exp _ Hl) _ _ Ha1 ltac:(lia) Hrecv) as Hh1.
  set (w1 := pending_is _ _) in Hh1. destruct (Hm2 w1 Hc Hw Hd Hm) as [Hs2 Ha2].
  pose proof (so_credit _ Ho) as Hcred. rewrite (so_icc _ Ho) in Hcred.
  pose proof (send_data_completes Hsink w1 e1 (lk_ready _ Hl) eq_refl _ _ wrid Ha2 eq_refl (so_icc _ Ho) Hcred) as Hh2.
  cbn zeta in Hh2. set (w := pending_is NoPending (checked w1 e1)) in Hh2.
  assert (session_ok (session w)) as Hokw.
  { destruct Hok1. split; try done; cbn; [unfold uN; lia|by apply wrapping_add_range]. }
  exists w1, w, (recv_comp wrid w), [], (RdowsMessage_encode (recv_comp wrid w) :: credit_frames (emit (recv_comp wrid w) w)).
  split; [|split; [|split; [done|split; [|split; [|split]]]]].
  - apply (server_reacts _ _ _ []); [done|exact Hh1|cbn; by rewrite (lk_ready _ Hl)|by rewrite app_nil_r|done].
  - apply (server_reacts _ _ _ (recv_comp wrid w :: credit_msgs (emit (recv_comp wrid w) w))); [done|exact Hh2| | |].
    + unfold counted. destruct (credit_due _); cbn; by rewrite (lk_ready _ Hl).
    + rewrite counted_sink. cbn [sink emit w pending_is on_session]. by rewrite <-(assoc_L (++)).
    + constructor; [done|]. unfold credit_msgs. destruct (credit_due _); [|done].
      constructor; [apply grant_one_frame|done].
  - split; try done; cbn; try lia. apply Hl.
  - by apply (reply_ok_of w _ Opcode.RecvComp wrid).
  - done.
  - done.
Qed.

Lemma sg_ok_data sg c d :
  sg_ok mx sg → gather (local_view (local_mrs (conn c))) sg = inr d → zlen d ≤ room_of mx.
Proof using Type. intros (Hsg & _ & Hsum & _) Hg. by rewrite (gather_length _ _ _ Hsg Hg). Qed.

(** The client's side, after its two messages were answered. *)
Definition send_tail (wrid : Z) (d : list byte) (resp : RdowsMessage) : M (Client Server) Stop unit :=
  match resp with
  | RdowsMessage.RecvComp _ =>
      credits ← self send_credits; credits' ← sub_ovf 32 credits 1;
      _ ← upd (set_credits credits'); sid ← self c_session_id;
      cq_push (mkCqe wrid 0 Opcode.Send 0 (wrap 32 (zlen d)) sid)
  | RdowsMessage.Error _ err =>
      sid ← self c_session_id;
      _ ← cq_push (mkCqe wrid (u16_from_ErrorCode (ep_error_code err)) Opcode.Send 0 0 sid);
      fail (ep_error_code err)
  | other => unexpected (lit "RECV_COMP") other
  end.
Lemma send_exchanged n c wrid sg d taken rest next :
  settled mx (S n) c → sg_ok mx sg → CompletionQueue_is_full (cq (conn c)) = false →
  gather (local_view (local_mrs (conn c))) sg = inr d → reacted c wrid sg d taken rest next →
  ∃ w rep, send_result c w taken ∧
    match rep with
    | RdowsMessage.RecvComp _ => taken = 1
    | RdowsMessage.Error _ p => taken = 0 ∧ ep_error_code p = ErrRnr
    | _ => False
    end ∧
    post_send wrid sg c = send_tail wrid d (sized_msg rep)
      (mkClient (set_c_expected (Some (next_seq (session (emit rep w)))) (bump (bump (conn c))))
         (mkWire (WsBinary <$> rest (emit rep w)) false (mkServer (next (emit rep w)) true))).
Proof using Type*.
  intros Hc Hsg Hfull Hg (w1 & w & rep & f1 & f2 & Hre1 & Hre2 & Hf & Hres & Hr & Hu & Hrep).
  pose proof (settled_credits _ _ _ Hc) as Hcr. pose proof (st_linked _ _ _ Hc) as Hl.
  exists w, rep. split_and!; try done. unfold post_send.
  rewrite self_bind, Hfull, self_bind, (proj2 (Z.eqb_neq _ _)) by lia.
  rewrite (bind_Ok _ _ _ d c) by (rewrite gather_eq, Hg by apply Hsg; done).
  etransitivity; [apply (pair_sent c Opcode.Send Opcode.SendData wrid (send_msg sg) (send_data_msg d)
    _ _ _ _ _ Hl Hre1 Hre2)|]. rewrite Hf. cbn [fmap list_fmap]. pose proof (reply_sendable w rep Hr Hu) as Hs.
  destruct Hr as (_ & _ & Hseq & _).
  erewrite bind_Ok; [|apply (client_receives _ rep); [done|by destruct rep|done|]].
  2:{ rewrite Hseq, (sr_seq _ _ _ Hres). apply (lk_client_exp _ Hl). }
  cbn [conn wire ended wire_peer]. rewrite Hseq. by destruct (sized_msg rep).
Qed.

(** A SEND that was counted: either nothing is pending, or the CREDIT_UPDATE is. *)
Lemma counted_established n c w rep cn :
  settled mx (S n) c → send_result c w 1 → c_next_seq cn = bumped_twice (c_next_seq (conn c)) →
  c_session_id cn = c_session_id (conn c) → c_pd cn = c_pd (conn c) →
  send_credits cn = send_credits (conn c) - 1 →
  let w' := emit rep w in
  established mx n (mkClient (set_c_expected (Some (next_seq (session w'))) cn)
    (mkWire (WsBinary <$> credit_frames w') false (mkServer (counted w') true))).
Proof using Type*.
  intros Hc [Ho1 Hst1 He1 Hq1 Hp1 Hrd1 Hi1 Hs1 Hrc1 Hsn1 _] Hn Hid Hpd Hcr w'.
  pose proof (st_linked _ _ _ Hc) as Hl. pose proof (st_credits _ _ _ Hc) as Hb.
  pose proof (so_credit _ Ho1) as Hso. rewrite (so_icc _ Ho1) in Hso.
  change (DEFAULT_ICC / 4) with 16383 in *. set (k := sends_since_last_credit (session w)) in *.
  assert (∀ cn' w0 sends m, w0 = w ∨ w0 = w' → c_next_seq cn' = c_next_seq cn →
    c_session_id cn' = c_session_id cn → c_pd cn' = c_pd cn → 0 ≤ sends < 16383 →
    send_credits cn' + sends = send_credits (conn c) + k →
    settled mx n (after cn' (emit m (on_session (set_sends_since_last_credit sends) w0)))) as Hset.
  { intros cn' w0 sends m Hw0 Hn' Hid' Hpd' Hs' Hcr'. pose proof (emit_ok rep w Ho1) as Ho2.
    apply (settled_after mx n c); destruct Hw0 as [-> | ->]; try done; try (by etransitivity); cbn;
      try (by apply set_sends_ok); try (by rewrite Hn', Hn); try (by rewrite Hcr', Hsn1); try (rewrite Hs1; lia).
    all: rewrite Hn', Hn; by apply wrapping_add_range. }
  unfold credit_frames, credit_msgs, counted. change (sends_since_last_credit (session w')) with k.
  unfold credit_due. change (sends_since_last_credit (session w')) with k. change (DEFAULT_ICC / 4) with 16383.
  destruct (Z.leb_spec 16383 (k + 1)) as [Hdue|Hnot].
  2:{ apply settled_established. apply (Hset cn w (k + 1) rep); try done; [by left|lia..]. }
  assert (k = 16382) as Hk by lia. set (m := grant_msg w').
  assert (sendable m) as Hm.
  { apply (reply_sendable w'); [|apply grant_one_frame].
    apply (reply_ok_of w' m Opcode.CreditUpdate 0); try done; [by apply emit_ok|].
    unfold payload_typed, m, grant_msg, CreditUpdatePayload_typed, uN. cbn. fold k. lia. }
  pose proof (decode_encode m (proj1 Hm) (proj1 (proj2 Hm)) (one_frame_u32 _ (proj2 (proj2 Hm)))) as Hdec.
  eexists. split; [eapply rtc_once, absorbs_intro; [exact Hdec|done|..]|].
  - cbn. lia.
  - cbn. fold k. lia.
  - cbn. fold k. lia.
  - apply (Hset (set_credits (send_credits cn + (k + 1)) cn) w' 0 m); try done; [by right|cbn; lia].
Qed.

(** A refused SEND, and one that took a receive. *)
Lemma send_refused_simulated n c wrid sg d :
  settled mx (S n) c → u64 wrid → sg_ok mx sg → CompletionQueue_is_full (cq (conn c)) = false →
  gather (local_view (local_mrs (conn c))) sg = inr d → recv_queue_depth (session (server c)) = 0 →
  simulated mx n c (PostSend wrid sg).
Proof using Type*.
  intros Hc Hw Hsg Hfull Hg Hz. pose proof (full_spec c) as Hnf. rewrite Hfull in Hnf.
  destruct (send_exchanged n c wrid sg d 0 (λ _, []) id) as (w & rep & Hres & Hrep & Hrun); try done.
  { apply send_reacts_refused; try done; [by eapply settled_one|by eapply sg_ok_data]. }
  destruct rep; try done; cbn [sized_msg set_header send_tail] in Hrun.
  destruct Hrep as [_ Hcode]. rewrite Hcode, self_bind, cq_push_bind in Hrun by done.
  pose proof Hres as [Ho1 Hst1 He1 Hq1 Hp1 Hrd1 Hi1 Hs1 Hrc1 Hsn1 [Hli1 Hcn1]].
  eapply simulated_Err; [cbn [call]; by rewrite (bind_Err _ _ _ _ _ Hrun)| |done|
    intros _; apply resumed_completed; split; [|split; [done|cbn; lia]]].
  - rewrite (service_completed c). match goal with |- context [service_of ?c1] =>
      assert (service_of c1 = service_of c) as -> by (unfold service_of; cbn; by rewrite Hrc1, Hs1, Z.sub_0_r) end.
    by eapply serve_send_rnr.
  - apply (settled_after mx n c); try done; [by apply wrapping_add_range|rewrite Hs1; lia|cbn; by rewrite Hsn1].
Qed.
Lemma counted_recv w : recv_queue_depth (session (counted w)) = recv_queue_depth (session w) ∧
  store (counted w) = store w ∧ mr_reg_rate_limit (session (counted w)) = mr_reg_rate_limit (session w) ∧
  mr_reg_count (session (counted w)) = mr_reg_count (session w).
Proof using Type. unfold counted. by destruct (credit_due w). Qed.
Lemma send_taken_simulated n c wrid sg d :
  settled mx (S n) c → u64 wrid → sg_ok mx sg → CompletionQueue_is_full (cq (conn c)) = false →
  gather (local_view (local_mrs (conn c))) sg = inr d → recv_queue_depth (session (server c)) ≠ 0 →
  simulated mx n c (PostSend wrid sg).
Proof using Type*.
  intros Hc Hw Hsg Hfull Hg Hz. pose proof (full_spec c) as Hnf. rewrite Hfull in Hnf.
  pose proof (so_recv _ (lk_ok _ (st_linked _ _ _ Hc))) as [Hrv _]. pose proof (sg_ok_data sg c d Hsg Hg) as Hd.
  pose proof (so_max _ (lk_ok _ (st_linked _ _ _ Hc))) as Hmax. unfold DEFAULT_MAX_MSG_SIZE in Hmax.
  rewrite (st_max _ _ _ Hc) in Hmax. pose proof (zlen_nonneg d). pose proof (settled_credits _ _ _ Hc) as Hcr.
  destruct (send_exchanged n c wrid sg d 1 credit_frames counted) as (w & rep & Hres & Hrep & Hrun); try done.
  { apply send_reacts_taken; try done. by eapply settled_one. }
  destruct rep; try done; [|by destruct Hrep]. cbn [sized_msg set_header send_tail] in Hrun.
  rewrite self_bind in Hrun. unfold sub_ovf in Hrun. cbn [conn set_c_expected send_credits bump set_c_next_seq] in Hrun.
  rewrite ovf_bind, upd_bind, self_bind, cq_push_eq, (wrap_id 32) in Hrun by (try done; unfold uN, room_of in *; lia).
  set (w' := emit _ w) in *. destruct (counted_recv w') as (Hc1 & Hc2 & Hc3 & Hc4).
  pose proof Hres as [_ _ _ _ _ _ _ Hs1 Hrc1 _ [Hli1 Hcn1]].
  eexists (inr VUnit), _. split; [unfold answer; cbn [call]; by rewrite (bind_Ok _ _ _ _ _ Hrun)|].
  split; [|split; [done|intros _; split]].
  - rewrite (service_completed c). match goal with |- context [service_of ?c1] =>
      assert (service_of c1 = take_receive (service_of c)) as ->
        by (unfold service_of, take_receive; cbn; rewrite Hc1, Hc2; cbn; by rewrite Hrc1, Hs1) end.
    apply (serve_send (endpoint_of c) (service_of c)); try done. cbn. lia.
  - by apply (counted_established n c w _ (set_cq (pushed (mkCqe wrid 0 Opcode.Send 0 (zlen d) (c_session_id (conn c)))
      (cq (conn c))) (set_credits (send_credits (conn c) - 1) (bump (bump (conn c)))))).
  - unfold paced. cbn. rewrite Hc3, Hc4. cbn. lia.
Qed.

Lemma send_simulated n c wrid sg :
  settled mx (S n) c → request_ok mx (PostSend wrid sg) → simulated mx n c (PostSend wrid sg).
Proof using Type*.
  intros Hc [Hw Hsg]. destruct (CompletionQueue_is_full (cq (conn c))) eqn:Hfull.
  { apply full_simulated; try done. cbn [call]. unfold post_send. by rewrite bind_assoc, self_bind, Hfull. }
  pose proof (full_spec c) as Hnf. rewrite Hfull in Hnf. pose proof (settled_credits _ _ _ Hc) as Hcr.
  destruct (gather (local_view (local_mrs (conn c))) sg) as [code|d] eqn:Hg.
  { eapply simulated_Err; [|by eapply serve_send_gather|done|intros _; by apply resumed_idle].
    cbn [call]. unfold post_send. rewrite bind_assoc, self_bind, Hfull, bind_assoc, self_bind.
    rewrite (proj2 (Z.eqb_neq _ _)) by lia.
    by rewrite bind_assoc, (bind_Err _ _ _ (Failed (Protocol code)) c) by (rewrite gather_eq, Hg by apply Hsg; done). }
  destruct (decide (recv_queue_depth (session (server c)) = 0)).
  - by eapply send_refused_simulated.
  - by eapply send_taken_simulated.
Qed.

(** *** RDMA Write *)
Lemma sg_ok_fits c sg d :
  max_msg_size (session (server c)) = mx → sg_ok mx sg → zlen d ≤ room_of mx → write_fits c sg d.
Proof using Type.
  intros Hm (Hsg & Hfit & _) Hd. unfold write_fits, room. rewrite Hm. split_and!; try done.
  eapply Forall_impl; [exact Hsg|]. by intros g [? _].
Qed.

(** The rest of [rdma_write] once its messages are sent. *)
Definition write_tail (wrid : Z) (d : list byte) : M (Client Server) Stop unit :=
  resp ← recv_app_message;
  match resp with
  | RdowsMessage.WriteComp _ =>
      sid ← self c_session_id;
      cq_push (mkCqe wrid 0 Opcode.Write 0 (wrap 32 (zlen d)) sid)
  | RdowsMessage.Error _ err =>
      sid ← self c_session_id;
      _ ← cq_push (mkCqe wrid (u16_from_ErrorCode (ep_error_code err)) Opcode.Write 0 0 sid);
      fail (ep_error_code err)
  | other => unexpected (lit "WRITE_COMP") other
  end.
Lemma write_sends c wrid rkey va sg d w1 w2 f1 f2 :
  linked c → CompletionQueue_is_full (cq (conn c)) = false → gather_sg_data sg c = Ok d c →
  peer_react (RdowsMessage_encode (write_msg c wrid rkey va d sg)) (mkServer (server c) true) =
    mkReaction None (WsBinary <$> f1) false (mkServer w1 true) →
  peer_react (RdowsMessage_encode (write_data_msg c wrid d)) (mkServer w1 true) =
    mkReaction None (WsBinary <$> f2) false (mkServer w2 true) →
  rdma_write wrid rkey va sg c =
    write_tail wrid d (mkClient (bump (bump (conn c))) (mkWire (WsBinary <$> f1 ++ f2) false (mkServer w2 true))).
Proof using Type.
  intros Hl Hfull Hg Hre1 Hre2. unfold rdma_write. rewrite self_bind, Hfull, (bind_Ok _ _ _ _ _ Hg).
  apply (pair_sent c Opcode.Write Opcode.WriteData wrid
    (λ h, RdowsMessage.Write h (mkWrite rkey va (zlen d) sg)) (λ h, RdowsMessage.WriteData h (mkData d))
    _ _ _ _ _ Hl Hre1 Hre2).
Qed.

(** A write whose key passes: the store decides, and nothing is left in flight. *)
Definition write_rep (res : ErrorCode + unit) (wrid : Z) (w : World) : RdowsMessage :=
  match res with
  | inr _ => RdowsMessage.WriteComp (SessionFacts.next_hdr Opcode.WriteComp wrid w)
  | inl code => error_reply w code 0 []
  end.
Lemma admitted_reactions n c wrid rkey va sg d g :
  settled mx (S n) c → u64 wrid → u32 rkey → u64 va → sg_ok mx sg → zlen d ≤ room_of mx →
  access (abs (store (server c))) rkey REMOTE_WRITE = inr g →
  ∃ res w1 w2, let rep := write_rep res wrid w2 in
    peer_react (RdowsMessage_encode (write_msg c wrid rkey va d sg)) (mkServer (server c) true) =
      mkReaction None (WsBinary <$> []) false (mkServer w1 true) ∧
    peer_react (RdowsMessage_encode (write_data_msg c wrid d)) (mkServer w1 true) =
      mkReaction None (WsBinary <$> [RdowsMessage_encode rep]) false (mkServer (emit rep w2) true) ∧
    reply_ok w2 rep ∧ session_ok (session w2) ∧ next_seq (session w2) = next_seq (session (server c)) ∧
    recv_queue_depth (session w2) = recv_queue_depth (session (server c)) ∧
    resumed mx n 0 c (after (bump (bump (conn c))) (emit rep w2)) ∧
    spec_step (abs (store (server c))) (OpWrite rkey va d) (res_map (λ _, RDone) res) (abs (store w2)).
Proof using Type*.
  intros Hc Hw Hr Hva Hsg Hd Hacc. pose proof Hc as [Hl Hi Hm Hrd Hk Hcr Hpd].
  pose proof (lk_ok _ Hl) as Ho. pose proof (so_max _ Ho) as Hmax. unfold DEFAULT_MAX_MSG_SIZE in Hmax.
  pose proof (zlen_nonneg d). pose proof (sg_ok_fits c sg d Hm Hsg Hd) as Hfit.
  destruct (write_msg_ok c wrid rkey va d sg) as [Hs1 Ha1]; try done.
  destruct (write_data_msg_ok c wrid d) as (Hs2 & Hq2 & Hp2); try done; [apply Hfit|].
  set (e := c_next_seq (conn c)) in *. set (e1 := wrapping_add 32 e 1).
  pose proof (write_checked Hsink (server c) e (lk_ready _ Hl) (lk_exp _ Hl) _ _ (so_store _ Ho) Ha1) as Hh1.
  cbn [wp_rkey] in Hh1. rewrite Hacc in Hh1. set (w1 := pending_is _ _) in Hh1.
  assert (session_ok (session w1)) as Ho1.
  { pose proof (checked_ok (server c) Ho e) as []. split; try done. cbn. split_and!; try done; unfold uN, room_of in *; lia. }
  assert (accepted w1 e1 (sized_msg (write_data_msg c wrid d))) as Ha2.
  { split; [done|]. rewrite Hp2. change (max_msg_size (session w1)) with (max_msg_size (session (server c))).
    rewrite Hm. unfold room_of in Hd. lia. }
  destruct (write_data_replied Hsink w1 e1 (lk_ready _ Hl) eq_refl _ _ wrid rkey va (zlen d) Ho1
    ltac:(cbn; lia) Ha2 eq_refl) as (res & w2 & Hh2 & Hr2 & Hsd). fold (write_rep res wrid w2) in Hh2, Hr2.
  destruct (served_steps (server c) (pending_is NoPending (checked w1 e1)) w2 _ Ho eq_refl eq_refl
    ltac:(lia) Hsd) as [Hst Hk2]. apply spec_steps_one in Hst. cbn [dp_data] in Hst.
  pose proof Hsd as [[Ho2 Hsink2 Hseq2 Hp2' Hsc2 _ _ _] Hst2 Hrd2 Hrc2 Hpe2 He2 Hli2 Hcn2].
  cbn in Hsink2, Hseq2, Hsc2, Hst2, Hrd2, Hrc2, Hpe2, He2. rewrite (lk_ready _ Hl) in Hst2.
  destruct Hp2' as [Hpeer _]; [cbn; by rewrite (lk_ready _ Hl)|].
  exists res, w1, w2. cbn zeta. set (rep := write_rep res wrid w2) in *.
  split; [|split; [|split; [done|]]].
  - apply (server_reacts _ _ _ []); [done|exact Hh1|cbn; by rewrite (lk_ready _ Hl)|by rewrite app_nil_r|done].
  - apply (server_reacts _ _ _ [rep]); [done|exact Hh2|cbn; by rewrite Hst2|cbn; by rewrite Hsink2|].
    repeat constructor. unfold rep, write_rep. destruct res; [by apply error_reply_one_frame|done].
  - split; [done|split; [done|split; [done|split; [split; [|by split]|done]]]].
    apply (settled_after mx n c); try done; [by apply wrapping_add_range|cbn; by rewrite Hsc2].
Qed.

Lemma write_admitted n c wrid rkey va sg d g :
  settled mx (S n) c → u64 wrid → u32 rkey → u64 va → sg_ok mx sg →
  CompletionQueue_is_full (cq (conn c)) = false →
  gather (local_view (local_mrs (conn c))) sg = inr d →
  access (abs (store (server c))) rkey REMOTE_WRITE = inr g →
  simulated mx n c (RdmaWrite wrid rkey va sg).
Proof using Type*.
  intros Hc Hw Hr Hva Hsg Hfull Hg Hacc. pose proof Hc as [Hl Hi Hm Hrd Hk Hcr Hpd].
  pose proof (lk_ok _ Hl) as Ho. pose proof (sg_ok_data sg c d Hsg Hg) as Hd.
  pose proof (full_spec c) as Hnf. rewrite Hfull in Hnf. pose proof (zlen_nonneg d).
  pose proof (so_max _ Ho) as Hmax. unfold DEFAULT_MAX_MSG_SIZE in Hmax.
  destruct (admitted_reactions n c wrid rkey va sg d g) as
    (res & w1 & w2 & Hre1 & Hre2 & Hr2 & Ho2 & Hseq & Hrc & Hc1 & Hst); try done.
  set (rep := write_rep res wrid w2) in *.
  assert (gather_sg_data sg c = Ok d c) as Hgc by (by rewrite gather_eq, Hg by apply Hsg).
  pose proof (write_sends c wrid rkey va sg d _ _ _ _ Hl Hfull Hgc Hre1 Hre2) as Hrun.
  unfold write_tail in Hrun. cbn [app fmap list_fmap] in Hrun.
  rewrite reply_received in Hrun; try done; [|destruct res; [by apply error_reply_one_frame|done]|by destruct res|].
  2:{ rewrite Hseq. apply (lk_client_exp _ Hl). }
  set (c1 := after _ _) in *.
  assert (service_of c1 = set_mem (abs (store w2)) (service_of c)) as Hsv
    by (unfold service_of, set_mem; cbn; by rewrite Hrc).
  destruct res as [code|u]; cbn [rep write_rep error_reply sized_msg set_header ep_error_code res_map] in *.
  - rewrite self_bind, cq_push_bind in Hrun by done.
    eapply simulated_Err; [cbn [call]; by rewrite (bind_Err _ _ _ _ _ Hrun)| |done|
      intros _; by apply resumed_completed].
    rewrite (service_completed c), Hsv. pose proof (data_error_unchanged _ _ _ _ Hst) as Hsame.
    rewrite Hsame in Hst |- *. by eapply serve_write_err.
  - rewrite self_bind, cq_push_eq, (wrap_id 32) in Hrun by (try done; unfold uN, room_of in *; lia).
    eapply simulated_Ok; [cbn [call]; by rewrite (bind_Ok _ _ _ _ _ Hrun)| |done|by apply resumed_completed].
    rewrite (service_completed c), Hsv. by eapply serve_write.
Qed.

(** A write whose key is refused: two ERRORs, of which the client reads one. *)
Lemma write_rejected n c wrid rkey va sg d code :
  settled mx (S n) c → u64 wrid → u32 rkey → u64 va → sg_ok mx sg →
  CompletionQueue_is_full (cq (conn c)) = false →
  gather (local_view (local_mrs (conn c))) sg = inr d →
  access (abs (store (server c))) rkey REMOTE_WRITE = inl code →
  simulated mx n c (RdmaWrite wrid rkey va sg).
Proof using Type*.
  intros Hc Hw Hr Hva Hsg Hfull Hg Hacc. pose proof Hc as [Hl Hi Hm Hrd Hk Hcr Hpd].
  pose proof (lk_ok _ Hl) as Ho. pose proof (sg_ok_data sg c d Hsg Hg) as Hd.
  pose proof (full_spec c) as Hnf. rewrite Hfull in Hnf.
  pose proof (sg_ok_fits c sg d Hm Hsg Hd) as Hfit.
  destruct (write_msg_ok c wrid rkey va d sg) as [Hs1 Ha1]; try done.
  destruct (write_data_msg_ok c wrid d) as (Hs2 & Hq2 & Hp2); try done; [apply Hfit|].
  set (e := c_next_seq (conn c)) in *. set (e1 := wrapping_add 32 e 1).
  pose proof (write_checked Hsink (server c) e (lk_ready _ Hl) (lk_exp _ Hl) _ _ (so_store _ Ho) Ha1) as Hh1.
  cbn [wp_rkey] in Hh1. rewrite Hacc in Hh1. set (rep := error_reply _ _ _ _) in Hh1.
  set (w1 := emit rep _) in Hh1.
  assert (accepted w1 e1 (sized_msg (write_data_msg c wrid d))) as Ha2.
  { split; [done|]. rewrite Hp2. change (max_msg_size (session w1)) with (max_msg_size (session (server c))).
    rewrite Hm. unfold room_of in Hd. lia. }
  pose proof (write_data_unexpected Hsink w1 e1 (lk_ready _ Hl) eq_refl _ _ Ha2 Hi) as Hh2.
  set (w2 := emit _ _) in Hh2.
  assert (gather_sg_data sg c = Ok d c) as Hgc by (by rewrite gather_eq, Hg by apply Hsg).
  assert (sendable rep) as Hsr.
  { apply (reply_sendable (checked (server c) e)); [|by apply error_reply_one_frame].
    apply error_reply_ok; try done; [by apply checked_ok|apply (lk_seq _ Hl)]. }
  assert (rdma_write wrid rkey va sg c = write_tail wrid d (mkClient (bump (bump (conn c)))
    (mkWire [WsBinary (RdowsMessage_encode rep); WsBinary (RdowsMessage_encode (orphan_reply w1 e1))] false
       (mkServer w2 true)))) as Hrun.
  { apply (write_sends c wrid rkey va sg d w1 w2 [RdowsMessage_encode rep]
      [RdowsMessage_encode (orphan_reply w1 e1)] Hl Hfull Hgc);
      [apply (server_reacts _ _ _ [rep])|apply (server_reacts _ _ _ [orphan_reply w1 e1])];
      try done; try (cbn; by rewrite (lk_ready _ Hl)); repeat constructor; by apply error_reply_one_frame. }
  unfold write_tail in Hrun. erewrite bind_Ok in Hrun;
    [|apply (client_receives _ rep); [done|done|done|apply (lk_client_exp _ Hl)]].
  cbn [sized_msg set_header rep error_reply ep_error_code] in Hrun.
  rewrite self_bind, cq_push_bind in Hrun by done.
  eapply simulated_Err; [cbn [call]; by rewrite (bind_Err _ _ _ _ _ Hrun)| |done|].
  - rewrite (service_completed c).
    eapply (serve_write_err (endpoint_of c) (service_of c)); [done|done|].
    apply spec_do_write. unfold spec_write. cbn [sv_mem service_of]. by rewrite Hacc.
  - unfold access in Hacc. repeat case_match; by simplify_eq.
Qed.

Lemma write_simulated n c wrid rkey va sg :
  settled mx (S n) c → request_ok mx (RdmaWrite wrid rkey va sg) →
  simulated mx n c (RdmaWrite wrid rkey va sg).
Proof using Type*.
  intros Hc (Hw & Hr & Hva & Hsg). destruct (CompletionQueue_is_full (cq (conn c))) eqn:Hfull.
  { apply full_simulated; try done. cbn [call]. unfold rdma_write. by rewrite bind_assoc, self_bind, Hfull. }
  pose proof (full_spec c) as Hnf. rewrite Hfull in Hnf.
  destruct (gather (local_view (local_mrs (conn c))) sg) as [code|d] eqn:Hg.
  { eapply simulated_Err; [|by eapply serve_write_gather|done|intros _; by apply resumed_idle].
    cbn [call]. unfold rdma_write. rewrite bind_assoc, self_bind, Hfull.
    by rewrite bind_assoc, (bind_Err _ _ _ (Failed (Protocol code)) c) by (rewrite gather_eq, Hg by apply Hsg; done). }
  destruct (access (abs (store (server c))) rkey REMOTE_WRITE) as [code|g] eqn:Hacc.
  - by eapply write_rejected.
  - by eapply write_admitted.
Qed.
End pairs.
