(* ===== verification/LinkProps.v ===== *)
(** * Theorems about applications

    Whole runs of an application over a connection, from the calls of [Link.v] and
    [LinkPairs.v]: every run is a run of the service, and every call returns. *)

From S2P Require Import Prelude Externals Utf8 Core Frame Payloads Message MemoryStore StoreSpec.
From S2P Require Import ServerState Handler Session SessionFacts SessionProps SessionWitness Replies.
From S2P Require Import Client Verbs ClientFacts EndToEnd EndToEndWitness Registration Service Credits Link LinkPairs.

(** A trace that [app] chose. *)
Definition chosen_by (app : Application) (tr : list (Request * Answer)) : Prop :=
  ∀ tr0 r a tr1, tr = tr0 ++ (r, a) :: tr1 → app tr0 = Some r.
(** Why a run of at most [n] calls stops. *)
Definition finished (app : Application) (n : nat) (tr : list (Request * Answer)) : Prop :=
  length tr = n ∨ app tr = None ∨
  ∃ tr0 r a, tr = tr0 ++ [(r, a)] ∧ write_refused r a = true.
(** An application whose calls all satisfy [request_ok]: they are well typed, fit the
    message size and a WebSocket frame, and name address ranges below 2^64. *)
Definition well_behaved (mx : Z) (app : Application) : Prop :=
  ∀ tr r, app tr = Some r → request_ok mx r.

Section runs.
Context `{BytesCrateLaws, Profile, !OsRng, !OsRngLaws, WsSinkEnv, Clock}.
Context (Hsink : ∀ log, ws_send_error log = None) (Hrng : ∀ i, os_rng_fill i ≠ None).
Context (mx : Z) (Hmx : 64 ≤ mx).
Implicit Types (c : Client Server) (n : nat) (app : Application).

Lemma call_simulated n c r : established mx (S n) c → request_ok mx r → simulated mx n c r.
Proof using Type*.
  intros (c0 & Habs & Hc) Hr. apply (simulated_absorbed mx n c c0 r Habs). clear Habs. destruct r.
  - by apply reg_simulated.
  - by apply dereg_simulated.
  - by apply send_simulated.
  - by apply write_simulated.
  - by apply read_simulated.
  - destruct Hr as (? & ? & ? & ? & ?). apply (atomic_simulated Hsink mx Hmx n c0 _ wrid rkey remote_va
      ATOMIC_TYPE_CAS compare swap); try done.
  - destruct Hr as (? & ? & ? & ?). apply (atomic_simulated Hsink mx Hmx n c0 _ wrid rkey remote_va
      ATOMIC_TYPE_FAA addend 0); try done.
  - by apply write_local_simulated.
  - by apply read_local_simulated.
  - by apply poll_simulated.
Qed.

Lemma chosen_by_snoc app tr r a : chosen_by app tr → app tr = Some r → chosen_by app (tr ++ [(r, a)]).
Proof using Type.
  intros Hc Hr tr0 r' a' tr1 Heq. destruct tr1 as [|x tr2 _] using rev_ind.
  - apply app_inj_tail in Heq as [<- [= <- <-]]. done.
  - change (tr ++ [(r, a)] = tr0 ++ ((r', a') :: tr2) ++ [x]) in Heq. rewrite (assoc_L (++)) in Heq.
    apply app_inj_tail in Heq as [-> _]. by eapply Hc.
Qed.

Lemma run_app_simulated n app tr c ep s0 :
  established mx n c → endpoint_of c = ep → well_behaved mx app → chosen_by app tr →
  serves ep s0 tr (service_of c) →
  ∃ tr' c', run_app n app tr c = Ok tr' c' ∧ serves ep s0 tr' (service_of c') ∧
    chosen_by app tr' ∧ finished app (length tr + n) tr'.
Proof using Type*.
  intros Hc He Hwb. revert tr c Hc He. induction n as [|n IH]; intros tr c Hc He Hch Hs; cbn [run_app].
  { exists tr, c. split_and!; try done. left. lia. }
  destruct (app tr) as [r|] eqn:Hr; [|exists tr, c; split_and!; try done; by right; left].
  destruct (call_simulated n c r Hc (Hwb _ _ Hr)) as (a & c1 & Hrun & Hserve & He1 & Hc1).
  rewrite (bind_Ok _ _ _ _ _ Hrun). rewrite He in Hserve.
  pose proof (chosen_by_snoc app tr r a Hch Hr) as Hch1.
  pose proof (serves_snoc ep s0 tr (service_of c) r a (service_of c1) Hs Hserve) as Hs1.
  destruct (write_refused r a) eqn:Href.
  - exists (tr ++ [(r, a)]), c1. split_and!; try done. right. right. by exists tr, r, a.
  - destruct (IH (tr ++ [(r, a)]) c1 (proj1 (Hc1 eq_refl))) as (tr' & c' & ? & ? & ? & Hfin); try done;
      [by rewrite He1|]. exists tr', c'. split_and!; try done.
    rewrite length_app in Hfin. cbn in Hfin. by replace (length tr + S n)%nat with (length tr + 1 + n)%nat by lia.
Qed.

(** C1: client and server together implement the service.  An application makes up
    to [n] calls over an established connection that does not break, with a working
    random source and a negotiated size of at least 64 bytes, each call chosen from the
    results so far, with arguments as [request_ok] asks: of the types of the code, address ranges below
    2^64, registrations up to [isize::MAX], messages and read answers within the
    negotiated size and one WebSocket frame.  Then the run of the code, up to and
    including the first write that is refused for its key, is a run of the
    specification: each call returns what [serve] allows in the abstract state before
    it, remote memory behaves as the abstract store, and the local regions, the
    completion queue and the receives change as specified, errors included.
    CREDIT_UPDATEs may wait to be read at any time, and with the credits that the
    handshake gave (an application that does not call [set_send_credits]) no send is
    refused for want of them. *)
Theorem app_refines_service n app c :
  established mx n c → well_behaved mx app →
  ∃ tr c', run_app n app [] c = Ok tr c' ∧
    serves (endpoint_of c) (service_of c) tr (service_of c') ∧ chosen_by app tr.
Proof using Type*.
  intros Hc Hwb. destruct (run_app_simulated n app [] c (endpoint_of c) (service_of c))
    as (tr & c' & Hrun & Hs & Hch & _); try done; [by intros [] ? ? ?|constructor|]. by exists tr, c'.
Qed.
End runs.

Section liveness.
Context `{BytesCrateLaws, Profile, !OsRng, !OsRngLaws, WsSinkEnv, Clock}.
Context (Hsink : ∀ log, ws_send_error log = None) (Hrng : ∀ i, os_rng_fill i ≠ None).

Lemma connect_settled cfg k b cap n :
  config_ok cfg → 0 < cfg_max_outstanding_reads cfg →
  os_rng_fill k = Some b → 0 ≤ cap ≤ 2 ^ 32 → Z.of_nat n < 2 ^ 32 - 1 →
  ∃ cn wr, connect_with_config k cap (fresh_server cfg) = Ok cn wr ∧
    settled DEFAULT_MAX_MSG_SIZE n (mkClient cn wr).
Proof using Type*.
  intros Hcfg Hrd Hb Hcap Hn. destruct (connect_linked Hsink cfg k b cap Hcfg Hb Hcap)
    as (cn & wr & Hrun & Hl & _ & Hcr & _ & _ & _ & Hpd & Hmax & (Hmr & _ & _ & Hrq & Hsn & Hpe) & Hst).
  exists cn, wr. split; [done|]. split; cbn [conn wire]; rewrite ?Hpe, ?Hmr; try done.
  - rewrite Hst. cbn. lia.
  - by rewrite Hcr, Hsn.
  - by rewrite Hpd.
Qed.

(** C7: liveness of a connection, from the handshake on: an application that
    connects to a fresh server (which allows a read in flight), over a connection that
    does not break and with a working random source, and makes [n] calls, fewer than 2^32 - 1, with arguments
    as [request_ok] asks (for others see [client_panic_cause]) gets an answer to every
    one of them.  No call waits for a reply that never comes and none panics: the run
    ends because the application is done, because the [n] calls are used up, or after
    a write that was refused for its key, from which on client and server are out of
    step ([refused_write_desynchronises]). *)
Theorem app_calls_return cfg k b cap n app :
  config_ok cfg → 0 < cfg_max_outstanding_reads cfg →
  os_rng_fill k = Some b → 0 ≤ cap ≤ 2 ^ 32 → Z.of_nat n < 2 ^ 32 - 1 →
  well_behaved DEFAULT_MAX_MSG_SIZE app →
  ∃ cn wr tr c', connect_with_config k cap (fresh_server cfg) = Ok cn wr ∧
    run_app n app [] (mkClient cn wr) = Ok tr c' ∧ chosen_by app tr ∧ finished app n tr.
Proof using Type*.
  intros Hcfg Hrd Hb Hcap Hn Hwb.
  destruct (connect_settled cfg k b cap n) as (cn & wr & Hrun & Hc); try done.
  destruct (run_app_simulated Hsink Hrng DEFAULT_MAX_MSG_SIZE ltac:(done) n app [] (mkClient cn wr)
    (endpoint_of (mkClient cn wr)) (service_of (mkClient cn wr)))
    as (tr & c' & Happ & _ & Hch & Hfin); try done; [by apply settled_established|by intros [] ? ? ?|constructor|].
  by exists cn, wr, tr, c'.
Qed.
End liveness.

Module LinkWitness.
Import Concrete EndToEndWitness.

(** An application that sends four bytes, writes them, reads them back, adds to a
    counter, presents a dead key to a read, sends again and polls its completions. *)
Definition program : list Request :=
  [PostSend 4 sg; ReadLocal 1 0 2; RdmaWrite 5 1 4 sg; RdmaRead 6 1 4 4 1 8; ReadLocal 1 8 4; AtomicFaa 7 1 8 1;
   RdmaRead 8 99 0 4 1 0; PostSend 9 sg; PollCq 10].
Definition app : Application := λ tr, program !! length tr.

Lemma app_well_behaved mx : 64 ≤ mx → well_behaved mx app.
Proof.
  intros Hmx tr r Hr. apply list_elem_of_lookup_2 in Hr. unfold program in Hr.
  assert (sg_ok mx sg) as Hsg
    by (unfold sg_ok, room_of, MAX_FRAME_PAYLOAD, WS_MAX_FRAME_SIZE, HEADER_SIZE, WRITE_HEADER_SIZE, SG_ENTRY_SIZE, zlen;
        split_and!; [by repeat constructor|cbn; lia|cbn; lia|done]).
  repeat (apply elem_of_cons in Hr as [->|Hr]; [first [done|by split_and!]|]). by apply not_elem_of_nil in Hr.
Qed.

(** A client with two credits left, on a connection whose next SEND makes the server
    grant new ones. *)
Definition low : Client Server :=
  mkClient (set_credits 2 (set_cq (mkCq [] 8) (conn client)))
    (mkWire [] false (mkServer (on_session (set_sends_since_last_credit 16382) (SessionWitness.ready 2 1)) true)).
Lemma low_settled : settled 1000 9 low.
Proof.
  split; try done. split; try done. apply (set_sends_ok 16382); [by apply SessionWitness.ready_ok|done].
Qed.

Lemma rng_works i : os_rng_fill i ≠ None.
Proof. done. Qed.

Lemma app_refines_service_witness :
  ∃ tr c', run_app 9 app [] low = Ok tr c' ∧
    serves (endpoint_of low) (service_of low) tr (service_of c') ∧
    tr.*2 = [inr VUnit; inr (VBytes [x01; x02]); inr VUnit; inr VUnit; inr (VBytes [x01; x02; x03; x04]);
             inr (VWord 0); inl (Protocol ErrInvalidMkey); inr VUnit;
             inr (VCqes [mkCqe 4 0 Opcode.Send 0 4 0xABCD; mkCqe 5 0 Opcode.Write 0 4 0xABCD;
                         mkCqe 6 0 Opcode.ReadReq 0 4 0xABCD; mkCqe 7 0 Opcode.AtomicReq 0 8 0xABCD;
                         mkCqe 8 5 Opcode.ReadReq 0 0 0xABCD; mkCqe 9 0 Opcode.Send 0 4 0xABCD])].
Proof.
  destruct (app_refines_service (λ _, eq_refl) rng_works 1000 ltac:(done) 9 app low)
    as (tr & c' & Hrun & Hs & _); [apply settled_established, low_settled|by apply app_well_behaved|].
  exists tr, c'. split; [done|]. split; [done|]. vm_compute in Hrun. by injection Hrun as <- _.
Defined.
(** The grant does arrive, and waits for the next call that receives. *)
Lemma low_granted :
  ∃ c1 c2 c3, post_send 4 sg low = Ok tt c1 ∧ send_credits (conn c1) = 1 ∧ length (inbox (wire c1)) = 1%nat ∧
    read_local_mr 1 0 2 c1 = Ok [x01; x02] c2 ∧ length (inbox (wire c2)) = 1%nat ∧
    atomic_faa 7 1 8 1 c2 = Ok 0 c3 ∧ send_credits (conn c3) = 16384 ∧ inbox (wire c3) = [].
Proof. do 3 eexists. do 7 (split; [vm_compute; reflexivity|]). reflexivity. Qed.

Lemma app_calls_return_witness :
  ∃ cn wr tr c', connect_with_config 0 8 (fresh_server SessionWitness.cfg) = Ok cn wr ∧
    run_app 9 app [] (mkClient cn wr) = Ok tr c' ∧ finished app 9 tr.
Proof.
  destruct (app_calls_return (λ _, eq_refl) rng_works SessionWitness.cfg 0 [x00; x00; x00; x01] 8 9 app)
    as (cn & wr & tr & c' & Hrun & Happ & _ & Hfin);
    [apply SessionWitness.cfg_ok|done|done|done|done|by apply app_well_behaved|].
  by exists cn, wr, tr, c'.
Defined.
End LinkWitness.
