(* ===== verification/Programs.v ===== *)
(** * The demonstration programs of the client

    [rdows-client/src/main.rs] and [rdows-client/examples/]: what each program does
    with its connection, without the console output.  [?] on an [RdowsError] is
    [lift], a failing [assert_eq!], [unwrap] or index is a panic, and
    [std::process::exit] is the error [Exit]. *)

From S2P Require Import Prelude Externals Utf8 Core Frame Payloads Message Client Verbs Cli.

(** ** Errors of a program ([Box<dyn std::error::Error>]) *)
Inductive AppError : Type :=
| Stopped (s : Stop)
| Utf8Error
| Exit (code : Z).

Section programs.
Context `{BytesCrate, Profile} {P : Type} `{!Peer P}.

Definition lift {A} (m : M (Client P) Stop A) : M (Client P) AppError A := λ c,
  match m c with
  | Ok a c' => Ok a c'
  | Err s c' => Err (Stopped s) c'
  | Panic => Panic
  end.
Definition from_utf8 (l : list byte) : M (Client P) AppError unit :=
  if decide (valid_utf8 l) then mret tt else throw Utf8Error.
Definition from_utf8_unwrap (l : list byte) : M (Client P) AppError unit :=
  if decide (valid_utf8 l) then mret tt else panic.
Definition assert_that (b : bool) : M (Client P) AppError unit := if b then mret tt else panic.
(** [ScatterGatherEntry { lkey, offset: 0, length: bytes.len() as u32 }] *)
Definition whole (lkey : LKey) (bytes : list byte) : list ScatterGatherEntry :=
  [mkSge lkey 0 (wrap 32 (zlen bytes))].

(** ** [main.rs] *)
Definition payload : list byte := lit "RDMA over WebSockets: because InfiniBand was too easy.".

Definition demo_write : M (Client P) AppError unit :=
  remote_mr ← lift (reg_mr (AccessFlags_bitor REMOTE_WRITE REMOTE_READ) 4096);
  local_mr ← lift (reg_mr LOCAL_WRITE 4096);
  _ ← lift (write_local_mr (mh_lkey local_mr) 0 payload);
  _ ← lift (rdma_write 1 (mh_rkey remote_mr) 0 (whole (mh_lkey local_mr) payload));
  _ ← lift (poll_cq 10);
  read_mr ← lift (reg_mr LOCAL_WRITE 4096);
  _ ← lift (rdma_read 2 (mh_rkey remote_mr) 0 (zlen payload) (mh_lkey read_mr) 0);
  _ ← lift (poll_cq 10);
  read_back ← lift (read_local_mr (mh_lkey read_mr) 0 (zlen payload));
  _ ← from_utf8 read_back;
  assert_that (bool_decide (read_back = payload)).

Definition records : list (list byte) :=
  [lit "record_0: alpha"; lit "record_1: bravo"; lit "record_2: charlie"; lit "record_3: delta"].

(** [for (i, record) in records.iter().enumerate()] *)
Fixpoint populate (write_lkey : LKey) (rkey : RKey) (i : Z) (rs : list (list byte))
    : M (Client P) AppError unit :=
  match rs with
  | [] => mret tt
  | record :: rest =>
      let offset := i * 64 in
      _ ← lift (write_local_mr write_lkey 0 record);
      _ ← lift (rdma_write i rkey offset (whole write_lkey record));
      populate write_lkey rkey (i + 1) rest
  end.
(** [for i in (0..records.len()).rev()], over the indices that are left;
    [check] is what the program does with an invalid string. *)
Fixpoint read_back_records (check : list byte → M (Client P) AppError unit) (rkey : RKey)
    (read_lkey : LKey) (idxs : list nat) : M (Client P) AppError unit :=
  match idxs with
  | [] => mret tt
  | i :: rest =>
      let offset := Z.of_nat i * 64 in
      record ← or_panic (records !! i);
      let len := zlen record in
      _ ← lift (rdma_read (100 + Z.of_nat i) rkey offset len read_lkey 0);
      data ← lift (read_local_mr read_lkey 0 len);
      _ ← check data;
      read_back_records check rkey read_lkey rest
  end.

Definition demo_read : M (Client P) AppError unit :=
  remote_mr ← lift (reg_mr (AccessFlags_bitor REMOTE_WRITE REMOTE_READ) 256);
  write_mr ← lift (reg_mr LOCAL_WRITE 256);
  _ ← populate (mh_lkey write_mr) (mh_rkey remote_mr) 0 records;
  _ ← lift (poll_cq 10);
  read_mr ← lift (reg_mr LOCAL_WRITE 256);
  _ ← read_back_records from_utf8 (mh_rkey remote_mr) (mh_lkey read_mr) (rev (seq 0 (length records)));
  _ ← lift (poll_cq 10);
  mret tt.

Definition message : list byte := lit "Hello, RDoWS! The CPU never saw this coming.".

Definition demo_echo : M (Client P) AppError unit :=
  mr ← lift (reg_mr LOCAL_WRITE 256);
  _ ← lift (write_local_mr (mh_lkey mr) 0 message);
  _ ← lift (post_send 1 (whole (mh_lkey mr) message));
  _ ← lift (poll_cq 10);
  mret tt.

(** [for i in 1..=5u64], with [n] turns left *)
Fixpoint faa_loop (rkey : RKey) (i : Z) (n : nat) : M (Client P) AppError unit :=
  match n with
  | O => mret tt
  | S n' =>
      _ ← lift (atomic_faa i rkey 0 1);
      _ ← lift (poll_cq 10);
      faa_loop rkey (i + 1) n'
  end.
(** [u64::from_be_bytes(bytes.try_into().unwrap())] *)
Definition u64_from_be_bytes (l : list byte) : M (Client P) AppError Z :=
  if zlen l =? 8 then mret (be_value l) else panic.

Definition demo_atomic : M (Client P) AppError unit :=
  remote_mr ← lift (reg_mr (AccessFlags_bitor (AccessFlags_bitor REMOTE_ATOMIC REMOTE_READ) REMOTE_WRITE) 64);
  local_mr ← lift (reg_mr LOCAL_WRITE 64);
  _ ← lift (write_local_mr (mh_lkey local_mr) 0 (be_bytes 8 0));
  _ ← lift (rdma_write 0 (mh_rkey remote_mr) 0 [mkSge (mh_lkey local_mr) 0 8]);
  _ ← lift (poll_cq 10);
  _ ← faa_loop (mh_rkey remote_mr) 1 5;
  read_mr ← lift (reg_mr LOCAL_WRITE 64);
  _ ← lift (rdma_read 100 (mh_rkey remote_mr) 0 8 (mh_lkey read_mr) 0);
  _ ← lift (poll_cq 10);
  final_bytes ← lift (read_local_mr (mh_lkey read_mr) 0 8);
  final_value ← u64_from_be_bytes final_bytes;
  assert_that (final_value =? 5).

Definition hello : list byte := lit "Hello from SEND".

(** [for i in 1..=sends], with [n] turns left; the value is [succeeded]. *)
Fixpoint send_loop (sg : list ScatterGatherEntry) (succeeded i : Z) (n : nat)
    : M (Client P) AppError Z :=
  match n with
  | O => mret succeeded
  | S n' =>
      res ← attempt (post_send i sg);
      match res with
      | inr _ =>
          cqes ← lift (poll_cq 10);
          _ ← or_panic (cqes !! 0%nat);
          succeeded' ← add_ovf 64 succeeded 1;
          send_loop sg succeeded' (i + 1) n'
      | inl (Failed (Protocol ErrRnr)) =>
          cqes ← lift (poll_cq 10);
          _ ← or_panic (cqes !! 0%nat);
          send_loop sg succeeded (i + 1) n'
      | inl e => throw (Stopped e)
      end
  end.

(** The write that shows that the connection is still alive. *)
Definition still_alive (lkey : LKey) : M (Client P) AppError unit :=
  remote_mr ← lift (reg_mr REMOTE_WRITE 64);
  _ ← lift (write_local_mr lkey 0 (lit "still alive"));
  _ ← lift (rdma_write 100 (mh_rkey remote_mr) 0 [mkSge lkey 0 11]);
  cqes ← lift (poll_cq 10);
  _ ← or_panic (cqes !! 0%nat);
  mret tt.

(** The value is the number the last line of the program prints. *)
Definition demo_err_rnr (sends : Z) : M (Client P) AppError Z :=
  mr ← lift (reg_mr LOCAL_WRITE 256);
  _ ← lift (write_local_mr (mh_lkey mr) 0 hello);
  let sg := whole (mh_lkey mr) hello in
  succeeded ← send_loop sg 0 1 (Z.to_nat sends);
  _ ← still_alive (mh_lkey mr);
  mret succeeded.

(** The [match] on the mode. *)
Definition run_mode (mode : list byte) (sends : Z) : M (Client P) AppError unit :=
  if bool_decide (mode = lit "write") then demo_write
  else if bool_decide (mode = lit "read") then demo_read
  else if bool_decide (mode = lit "echo") then demo_echo
  else if bool_decide (mode = lit "atomic") then demo_atomic
  else if bool_decide (mode = lit "err_rnr") then _ ← demo_err_rnr sends; mret tt
  else throw (Exit 1).

(** [main] from the established connection on; the TLS configuration and the URL
    are used up by then. *)
Definition client_main (args : list (list byte)) : M (Client P) AppError unit :=
  let mode := default (lit "write") (get_arg args (lit "--mode")) in
  sends ← (match get_arg args (lit "--sends") with
           | Some s => or_panic (parse_unsigned 64 s)
           | None => mret 4
           end);
  _ ← run_mode mode sends;
  lift disconnect.

(** ** [examples/] *)

(** [one_sided_write.rs] *)
Definition one_sided_write : M (Client P) AppError unit :=
  remote_mr ← lift (reg_mr (AccessFlags_bitor REMOTE_WRITE REMOTE_READ) 4096);
  local_mr ← lift (reg_mr LOCAL_WRITE 4096);
  _ ← lift (write_local_mr (mh_lkey local_mr) 0 payload);
  _ ← lift (rdma_write 100 (mh_rkey remote_mr) 0 (whole (mh_lkey local_mr) payload));
  _ ← lift (poll_cq 10);
  read_mr ← lift (reg_mr LOCAL_WRITE 4096);
  _ ← lift (rdma_read 200 (mh_rkey remote_mr) 0 (zlen payload) (mh_lkey read_mr) 0);
  _ ← lift (poll_cq 10);
  read_back ← lift (read_local_mr (mh_lkey read_mr) 0 (zlen payload));
  _ ← from_utf8_unwrap read_back;
  _ ← assert_that (bool_decide (read_back = payload));
  lift disconnect.

(** [one_sided_read.rs] *)
Definition one_sided_read : M (Client P) AppError unit :=
  remote_mr ← lift (reg_mr (AccessFlags_bitor REMOTE_WRITE REMOTE_READ) 256);
  write_mr ← lift (reg_mr LOCAL_WRITE 256);
  _ ← populate (mh_lkey write_mr) (mh_rkey remote_mr) 0 records;
  _ ← lift (poll_cq 10);
  read_mr ← lift (reg_mr LOCAL_WRITE 256);
  _ ← read_back_records from_utf8_unwrap (mh_rkey remote_mr) (mh_lkey read_mr)
        (rev (seq 0 (length records)));
  _ ← lift (poll_cq 10);
  lift disconnect.

(** [echo_send_recv.rs] *)
Definition echo_send_recv : M (Client P) AppError unit :=
  mr ← lift (reg_mr LOCAL_WRITE 256);
  _ ← lift (write_local_mr (mh_lkey mr) 0 message);
  _ ← lift (post_send 1 (whole (mh_lkey mr) message));
  _ ← lift (poll_cq 10);
  lift disconnect.

(** [atomic_counter.rs] *)
Definition atomic_counter : M (Client P) AppError unit :=
  remote_mr ← lift (reg_mr (AccessFlags_bitor (AccessFlags_bitor REMOTE_ATOMIC REMOTE_READ) REMOTE_WRITE) 64);
  local_mr ← lift (reg_mr LOCAL_WRITE 64);
  _ ← lift (write_local_mr (mh_lkey local_mr) 0 (be_bytes 8 0));
  _ ← lift (rdma_write 0 (mh_rkey remote_mr) 0 [mkSge (mh_lkey local_mr) 0 8]);
  _ ← lift (poll_cq 10);
  _ ← faa_loop (mh_rkey remote_mr) 1 5;
  read_mr ← lift (reg_mr LOCAL_WRITE 64);
  _ ← lift (rdma_read 100 (mh_rkey remote_mr) 0 8 (mh_lkey read_mr) 0);
  _ ← lift (poll_cq 10);
  final_bytes ← lift (read_local_mr (mh_lkey read_mr) 0 8);
  final_value ← u64_from_be_bytes final_bytes;
  _ ← assert_that (final_value =? 5);
  lift disconnect.

(** [err_rnr_demo.rs]: [for i in 1..=4u64] with [n] turns left, and the program *)
Fixpoint example_send_loop (sg : list ScatterGatherEntry) (i : Z) (n : nat)
    : M (Client P) AppError unit :=
  match n with
  | O => mret tt
  | S n' =>
      res ← attempt (post_send i sg);
      match res with
      | inr _ =>
          cqes ← lift (poll_cq 10);
          _ ← or_panic (cqes !! 0%nat);
          example_send_loop sg (i + 1) n'
      | inl (Failed (Protocol ErrRnr)) =>
          cqes ← lift (poll_cq 10);
          _ ← or_panic (cqes !! 0%nat);
          example_send_loop sg (i + 1) n'
      | inl e => throw (Stopped e)
      end
  end.
Definition err_rnr_example : M (Client P) AppError unit :=
  mr ← lift (reg_mr LOCAL_WRITE 256);
  _ ← lift (write_local_mr (mh_lkey mr) 0 hello);
  let sg := whole (mh_lkey mr) hello in
  _ ← example_send_loop sg 1 4;
  _ ← still_alive (mh_lkey mr);
  lift disconnect.
End programs.
