(* ===== verification/ProgramFacts.v ===== *)
(** * Running programs over a connection

    Triples for the calls of a program against the server: [running] is a
    connection in a known state of the service, a call that must succeed steps it
    to the next state, and [owned] facts about regions are carried along. *)

From S2P Require Import Prelude Externals Utf8 Core Frame Payloads Message MemoryStore StoreSpec.
From S2P Require Import ServerState Handler Session SessionFacts SessionProps Replies.
From S2P Require Import Client Verbs ClientFacts EndToEnd Registration Service Credits ServiceFacts Link LinkPairs.
From S2P Require Import LinkProps Programs.

Abbreviation MX := DEFAULT_MAX_MSG_SIZE.

(** The connection is in state [s] of the service, with [n] calls and [k]
    registrations of at most 4096 bytes left. *)
Record running `{BytesCrate, Profile} (ep : Endpoint) (n k : nat) (s : Service) (c : Client Server) : Prop := {
  ru_established : established MX n c;
  ru_endpoint : endpoint_of c = ep;
  ru_service : service_of c = s;
  ru_rate : mr_reg_count (session (server c)) + Z.of_nat k ≤ mr_reg_rate_limit (session (server c));
  ru_count : count (sv_mem s) + Z.of_nat k ≤ count_max (sv_mem s);
  ru_bytes : bytes (sv_mem s) + 4096 * Z.of_nat k ≤ bytes_max (sv_mem s);
  ru_issued : (size (issued (sv_mem s)) + k < 900)%nat;
}.

Lemma running_le `{BytesCrate, Profile} ep n m k s c : running ep n k s c → (m ≤ n)%nat → running ep m k s c.
Proof.
  intros [(c0 & Habs & []) ? ? ? ? ? ?] Hle. split; try done. exists c0. split; [done|]. split; try done. lia.
Qed.

(** The resource accounts of the store, which only registrations change. *)
Definition accounts (s : Service) : Z * Z * Z * Z * gset Z :=
  (count (sv_mem s), count_max (sv_mem s), bytes (sv_mem s), bytes_max (sv_mem s), issued (sv_mem s)).

(** The random source never fails and does not get stuck on used keys. *)
Definition good_source `{OsRng} : Prop :=
  ∀ (used : gset Z) i, (size used < 900)%nat → can_draw used i.

Lemma zlen_splice {A} (l d : list A) (n : nat) :
  Z.of_nat n + zlen d ≤ zlen l → zlen (splice l n d) = zlen l.
Proof. unfold zlen. intros Hb. rewrite length_splice; [done|lia]. Qed.
Lemma take_splice_0 {A} (l d : list A) :
  zlen d ≤ zlen l → take (Z.to_nat (zlen d)) (splice l 0 d) = d.
Proof.
  intros Hb. unfold zlen in *. rewrite Nat2Z.id. pose proof (take_drop_splice l 0 d ltac:(lia)) as Ht.
  by rewrite drop_0 in Ht.
Qed.

Section steps.
Context `{BytesCrateLaws, Profile, !OsRng, !OsRngLaws, WsSinkEnv, Clock}.
Context (Hsink : ∀ log, ws_send_error log = None) (Hdraw : good_source) (ep : Endpoint).
Implicit Types (c : Client Server) (n k : nat) (s : Service).

Lemma source_works i : os_rng_fill i ≠ None.
Proof using Hdraw. pose proof (Hdraw ∅ i ltac:(rewrite size_empty; lia)) as [Hne _]. by rewrite <-(Nat.add_0_r i). Qed.

(** A call whose outcome the specification determines. *)
Lemma call_step n k s c r v s' :
  running ep (S n) k s c → yields ep s r v s' → request_ok MX r → regs_of r = 0 →
  accounts s' = accounts s → ∃ c', call r c = Ok v c' ∧ running ep n k s' c'.
Proof using All.
  intros [Hc He Hs Hrate Hcnt Hby His] Hy Hr Hregs [= Ha1 Ha2 Ha3 Ha4 Ha5].
  destruct (call_simulated Hsink source_works MX ltac:(done) n c r Hc Hr) as (a & c' & Hrun & Hsv & He' & Hc').
  rewrite He, Hs in Hsv. destruct (Hy _ _ Hsv) as [-> Hs'].
  assert (write_refused r (inr v) = false) as Hnr by (by destruct r).
  destruct (Hc' Hnr) as [Hc1 [Hlim Hcount]]. rewrite Hregs in Hcount. exists c'. split.
  - unfold answer in Hrun. destruct (call r c) as [v' c1|[e|] c1|]; by simplify_eq.
  - split; try done; rewrite ?Hlim, <-?Hs', ?Hs', ?Ha1, ?Ha2, ?Ha3, ?Ha4, ?Ha5; try done; [congruence|lia].
Qed.

(** A call that may be answered in several ways. *)
Lemma answer_step n k s c r :
  running ep (S n) k s c → request_ok MX r → regs_of r = 0 →
  ∃ a c', answer r c = Ok a c' ∧ serve ep s r a (service_of c') ∧
    (write_refused r a = false → accounts (service_of c') = accounts s →
     running ep n k (service_of c') c').
Proof using All.
  intros [Hc He Hs Hrate Hcnt Hby His] Hr Hregs.
  destruct (call_simulated Hsink source_works MX ltac:(done) n c r Hc Hr) as (a & c' & Hrun & Hsv & He' & Hc').
  rewrite He, Hs in Hsv. exists a, c'. split_and!; try done. intros Hnr [= Ha1 Ha2 Ha3 Ha4 Ha5].
  destruct (Hc' Hnr) as [Hc1 [Hlim Hcount]]. rewrite Hregs in Hcount.
  split; try done; rewrite ?Hlim; cbn; rewrite ?Ha1, ?Ha2, ?Ha3, ?Ha4, ?Ha5; try done; [congruence|lia].
Qed.

(** Registration: the server grants it. *)
Lemma running_grantable n k s c len :
  running ep (S n) (S k) s c → 0 ≤ len ≤ 4096 → grantable (server c) len.
Proof using All.
  intros [(c0 & Habs & []) _ Hs Hrate Hcnt Hby His] Hlen. destruct (absorbed_view _ _ Habs) as (_ & _ & Hsv).
  subst s. cbn in Hcnt, Hby, His. rewrite Hsv in *. split; try lia. apply Hdraw. lia.
Qed.

Lemma live_issued st r g : store_ok st → live (abs st) !! r = Some g → r ∈ issued (abs st).
Proof using Type.
  intros Hok Hr. rewrite abs_live in Hr. unfold region_of in Hr.
  destruct (rkey_to_lkey st !! r) as [l|] eqn:Hl; [|done]. by apply (ok_used _ Hok r l).
Qed.

Lemma reg_step n k s c fl len :
  running ep (S n) (S k) s c → u32 fl → 0 ≤ len ≤ 4096 →
  ∃ h c' s', reg_mr fl len c = Ok h c' ∧ running ep n k s' c' ∧
    owned ep s' h fl (replicate (Z.to_nat len) x00) (replicate (Z.to_nat len) x00) ∧
    (∀ h' fl' d' b', owned ep s h' fl' d' b' → owned ep s' h' fl' d' b' ∧ apart h h') ∧
    sv_cq s' = sv_cq s ∧ sv_receives s' = sv_receives s.
Proof using All.
  intros Hrun Hfl Hlen. pose proof (running_grantable n k s c len Hrun Hlen) as Hgr.
  destruct Hrun as [Hc He Hs Hrate Hcnt Hby His]. pose proof Hc as (c0 & Habs & [Hl _ Hm _ Hk _ Hpd]).
  destruct (absorbed_view _ _ Habs) as (_ & _ & Hsrv).
  assert (request_ok MX (RegMr fl len)) as Hok by (split; [done|unfold isize_max; lia]).
  destruct (reg_mr_linked Hsink c0 fl len) as (r & c0' & Hreg0 & _ & Hr & Hnew & _ & _ & Hlim & Hcount & _);
    try done; [unfold isize_max; lia|by rewrite Hm|by rewrite <-Hsrv|].
  destruct (absorbed_call _ _ _ _ _ (reg_mr_absorbing fl len) Habs Hreg0) as (c' & Hreg & Habs').
  destruct (absorbed_view _ _ Habs') as (_ & _ & Hsrv'). rewrite <-?Hsrv, <-?Hsrv' in *.
  set (l := next_lkey (store (server c))) in *. set (h := mkHandle l r len _) in *.
  destruct (call_simulated Hsink source_works MX ltac:(done) n c _ Hc Hok) as (a & c1 & Hans & Hsv & He' & Hc').
  unfold answer in Hans. cbn [call] in Hans. rewrite (bind_Ok _ _ _ _ _ Hreg) in Hans.
  injection Hans as <- <-. destruct (Hc' eq_refl) as [Hc1 _]. rewrite He, Hs in Hsv.
  destruct (reg_outcome _ _ _ _ _ _ _ Hsv) as (Hs' & Hri & Hlk).
  pose proof (lk_ok _ Hl) as Ho. rewrite <-Hsrv in Ho. pose proof (ok_next _ (so_store _ Ho)) as Hnext. fold l in Hnext.
  exists h, c', (service_of c'). split; [done|]. split_and!; rewrite Hs'; try done.
  - split; try done; rewrite ?Hs'; cbn.
    + congruence.
    + rewrite Hlim. lia.
    + lia.
    + lia.
    + rewrite size_union, size_singleton by (by apply disjoint_singleton_l). lia.
  - split; cbn; try (unfold uN; lia); apply lookup_insert_eq.
  - intros h' fl' d' b' [Hr' Hl' ? ?].
    assert (r ≠ mh_rkey h') as Hner.
    { intros ->. apply Hri. rewrite <-Hs. eapply live_issued; [apply Ho|]. cbn. rewrite <-Hs in Hr'. exact Hr'. }
    assert (l ≠ mh_lkey h') as Hnel by (intros ->; by apply (Hlk _ _ Hr')).
    split; [|done]. split; cbn; try done; by rewrite lookup_insert_ne.
Qed.

(** *** The verbs *)
Definition has_room (s : Service) : Prop := zlen (sv_cq s) < ep_capacity ep.
Lemma room_not_full s : has_room s → ¬ full ep s.
Proof using Type. unfold has_room, full. lia. Qed.

(** The value of a call, from the value of its verb. *)
Ltac of_call H := cbn [call] in H; apply bind_Ok_inv in H as (? & ? & ? & [=]); subst.

Lemma write_local_step n k s c h fl d buf off bytes :
  running ep (S n) k s c → owned ep s h fl d buf → 0 ≤ off → off + zlen bytes ≤ zlen buf < 2 ^ 64 →
  ∃ c', write_local_mr (mh_lkey h) off bytes c = Ok tt c' ∧
    running ep n k (put_copy h (splice buf (Z.to_nat off) bytes) s) c'.
Proof using All.
  intros Hr Ho Hoff Hb.
  destruct (call_step n k s c _ _ _ Hr (write_local_yields ep s h fl d buf off bytes Ho ltac:(lia)))
    as (c' & Hc & Hr'); [by split; try lia|done|done|]. of_call Hc. destruct x. eauto.
Qed.
Lemma read_local_step n k s c h fl d buf off len :
  running ep (S n) k s c → owned ep s h fl d buf → 0 ≤ off → 0 ≤ len → off + len ≤ zlen buf < 2 ^ 64 →
  ∃ c', read_local_mr (mh_lkey h) off len c =
      Ok (take (Z.to_nat len) (drop (Z.to_nat off) buf)) c' ∧ running ep n k s c'.
Proof using All.
  intros Hr Ho Hoff Hlen Hb.
  destruct (call_step n k s c _ _ _ Hr (read_local_yields ep s h fl d buf off len Ho ltac:(lia)))
    as (c' & Hc & Hr'); [by split_and!; try lia|done|done|]. of_call Hc. eauto.
Qed.
Lemma poll_step n k s c max :
  running ep (S n) k s c → 0 ≤ max → zlen (sv_cq s) ≤ max →
  ∃ c', poll_cq max c = Ok (sv_cq s) c' ∧ running ep n k (set_queue [] s) c'.
Proof using All.
  intros Hr Hm Hq. destruct (call_step n k s c _ _ _ Hr (poll_yields ep s max Hq))
    as (c' & Hc & Hr'); try done. of_call Hc. eauto.
Qed.

(** The whole of a buffer's first bytes, as one scatter/gather entry. *)
Lemma prefix_sg_ok s hs fls ds bs len :
  owned ep s hs fls ds bs → 0 ≤ len ≤ 4096 → sg_ok MX [mkSge (mh_lkey hs) 0 len].
Proof using Type.
  intros [_ _ Hl _] Hlen. split_and!; cbn; try done;
    [|unfold room_of, MAX_FRAME_PAYLOAD, WS_MAX_FRAME_SIZE, HEADER_SIZE, DEFAULT_MAX_MSG_SIZE; lia].
  repeat constructor; cbn; unfold uN in *; lia.
Qed.

Lemma write_step n k s c h fl d b hs fls ds bs wrid va len :
  running ep (S n) k s c → owned ep s h fl d b → owned ep s hs fls ds bs →
  AccessFlags_contains fl REMOTE_WRITE = true → has_room s → u64 wrid → u64 va →
  0 ≤ len ≤ 4096 → len ≤ zlen bs → va + len ≤ zlen d →
  let bytes := take (Z.to_nat len) bs in
  ∃ c', rdma_write wrid (mh_rkey h) va [mkSge (mh_lkey hs) 0 len] c = Ok tt c' ∧
    running ep n k (complete_ok ep wrid Opcode.Write len
                      (put_remote ep h fl (splice d (Z.to_nat va) bytes) s)) c'.
Proof using All.
  intros Hr Ho Hos Hf Hroom Hw Hva Hlen Hbs Hb data.
  pose proof (gather_owned ep s hs fls ds bs 0 len Hos ltac:(lia)) as Hg. change (drop (Z.to_nat 0) bs) with bs in Hg.
  assert (zlen (take (Z.to_nat len) bs) = len) as Hz by (unfold zlen in *; rewrite length_take; lia).
  pose proof (write_yields ep s h fl d b wrid va _ _ Ho Hf (room_not_full s Hroom) Hg) as Hy.
  rewrite Hz in Hy. specialize (Hy Hb).
  destruct (call_step n k s c _ _ _ Hr Hy) as (c' & Hc & Hr'); try done.
  { split_and!; try done; [apply Ho|]. by eapply prefix_sg_ok. }
  of_call Hc. destruct x. eauto.
Qed.

Lemma read_step n k s c h fl d b hd fld dd bd wrid va len :
  running ep (S n) k s c → owned ep s h fl d b → owned ep s hd fld dd bd →
  AccessFlags_contains fl REMOTE_READ = true → has_room s → u64 wrid → u64 va → 0 ≤ len ≤ 4096 →
  va + len ≤ zlen d → len ≤ zlen bd →
  let bytes := take (Z.to_nat len) (drop (Z.to_nat va) d) in
  ∃ c', rdma_read wrid (mh_rkey h) va len (mh_lkey hd) 0 c = Ok tt c' ∧
    running ep n k (complete_ok ep wrid Opcode.ReadReq len (put_copy hd (splice bd 0 bytes) s)) c'.
Proof using All.
  intros Hr Ho Hod Hf Hroom Hw Hva Hlen Hb Hbd data.
  pose proof (read_yields ep s h hd fl fld d dd b bd wrid va len 0 Ho Hod Hf (room_not_full s Hroom)
    (proj1 Hva) (proj1 Hlen) Hb ltac:(lia)) as Hy. cbn zeta in Hy.
  destruct (call_step n k s c _ _ _ Hr Hy) as (c' & Hc & Hr'); try done.
  { split; [done|]. split; [|unfold MAX_FRAME_PAYLOAD, WS_MAX_FRAME_SIZE, HEADER_SIZE; lia]. destruct Ho, Hod. unfold uN in *. split_and!; cbn; unfold uN; lia. }
  of_call Hc. destruct x. eauto.
Qed.

Lemma faa_step n k s c h fl d b wrid va addend :
  running ep (S n) k s c → owned ep s h fl d b → AccessFlags_contains fl REMOTE_ATOMIC = true →
  has_room s → u64 wrid → u64 va → u64 addend → va mod 8 = 0 → va + 8 ≤ zlen d →
  ∃ c', atomic_faa wrid (mh_rkey h) va addend c = Ok (word_at d va) c' ∧
    running ep n k (complete_ok ep wrid Opcode.AtomicReq 8 (put_remote ep h fl
      (splice d (Z.to_nat va) (be_bytes 8 (wrapping_add 64 (word_at d va) addend))) s)) c'.
Proof using All.
  intros Hr Ho Hf Hroom Hw Hva Hadd Hal Hb.
  pose proof (faa_yields ep s h fl d b wrid va addend Ho Hf (room_not_full s Hroom) Hal Hb) as Hy.
  destruct (call_step n k s c _ _ _ Hr Hy) as (c' & Hc & Hr'); try done.
  { split_and!; try done. apply Ho. }
  of_call Hc. eauto.
Qed.

Lemma send_step n k s c hs fls ds bs wrid len :
  running ep (S n) k s c → owned ep s hs fls ds bs → has_room s → u64 wrid → 0 ≤ len ≤ 4096 →
  len ≤ zlen bs → 0 ≤ sv_receives s →
  ∃ c', (0 < sv_receives s ∧ post_send wrid [mkSge (mh_lkey hs) 0 len] c = Ok tt c' ∧
         running ep n k (complete_ok ep wrid Opcode.Send len (take_receive s)) c') ∨
        (sv_receives s = 0 ∧
         post_send wrid [mkSge (mh_lkey hs) 0 len] c = Err (Failed (Protocol ErrRnr)) c' ∧
         running ep n k (complete_err ep wrid Opcode.Send ErrRnr s) c').
Proof using All.
  intros Hr Hos Hroom Hw Hlen Hbs Hrv.
  pose proof (gather_owned ep s hs fls ds bs 0 len Hos ltac:(lia)) as Hg. change (drop (Z.to_nat 0) bs) with bs in Hg.
  assert (zlen (take (Z.to_nat len) bs) = len) as Hz by (unfold zlen in *; rewrite length_take; lia).
  destruct (answer_step n k s c (PostSend wrid [mkSge (mh_lkey hs) 0 len]) Hr) as (a & c' & Hans & Hsv & Hnext);
    [split; [done|by eapply prefix_sg_ok]|done|]. exists c'.
  destruct (send_outcome ep s _ _ _ _ _ Hsv (room_not_full s Hroom) Hg Hrv) as [(Hp & -> & Hs')|(Hz0 & -> & Hs')];
    rewrite Hs' in Hnext; unfold answer in Hans; cbn [call] in Hans; unfold mbind, M_bind, mret, M_ret in Hans.
  - left. rewrite Hz in Hnext. split_and!; [done| |by apply Hnext].
    destruct (post_send _ _ c) as [[] c1|[e|] c1|]; cbn in Hans; by simplify_eq.
  - right. split_and!; [done| |by apply Hnext].
    destruct (post_send _ _ c) as [[] c1|[e|] c1|]; cbn in Hans; by simplify_eq.
Qed.
End steps.
