(* ===== verification/ProgramProps.v ===== *)
(** * The demonstration programs succeed

    Each program of [Programs.v], run against a fresh server from the handshake on,
    returns without an error: the assertions it makes hold. *)

From S2P Require Import Prelude Externals Utf8 Core Frame Payloads Message MemoryStore StoreSpec.
From S2P Require Import ServerState Handler Session SessionFacts SessionProps Replies.
From S2P Require Import Client Verbs ClientFacts EndToEnd Registration Service Credits ServiceFacts Link LinkPairs.
From S2P Require Import LinkProps Cli Programs ProgramFacts.

Lemma apart_sym h h' : apart h h' → apart h' h.
Proof. by intros [? ?]. Qed.
#[export] Hint Resolve apart_sym : rdows_owned.

Section programs.
Context `{BytesCrateLaws, Profile, !OsRng, !OsRngLaws, WsSinkEnv, Clock}.
Context (Hsink : ∀ log, ws_send_error log = None) (Hdraw : good_source) (ep : Endpoint).
Context (Hcap : 16 ≤ ep_capacity ep).
Implicit Types (c : Client Server) (n k : nat) (s : Service).

Lemma lift_bind {A B} (m : M (Client Server) Stop A) (f : A → M (Client Server) AppError B) c a c' :
  m c = Ok a c' → (lift m ≫= f) c = f a c'.
Proof using Type. intros Hm. unfold mbind, M_bind, lift. by rewrite Hm. Qed.

(** *** Common steps *)

(** A remote region and a local one. *)
Lemma two_regions n k s c fl size :
  running ep (2 + n) (2 + k) s c → u32 fl → 0 ≤ size ≤ 4096 →
  let zs := replicate (Z.to_nat size) x00 in
  ∃ h1 h2 c' s', (∀ A (f : MemoryRegionHandle → MemoryRegionHandle → M (Client Server) AppError A),
      (mr1 ← lift (reg_mr fl size); mr2 ← lift (reg_mr LOCAL_WRITE size); f mr1 mr2) c = f h1 h2 c') ∧
    running ep n k s' c' ∧ owned ep s' h1 fl zs zs ∧ owned ep s' h2 LOCAL_WRITE zs zs ∧ apart h1 h2 ∧
    sv_cq s' = sv_cq s.
Proof using All.
  intros Hr Hfl Hsz zs.
  destruct (reg_step Hsink Hdraw ep _ _ s c fl size Hr) as (h1 & c1 & s1 & Hc1 & Hr1 & Ho1 & _ & Hq1 & _); [done|done|].
  destruct (reg_step Hsink Hdraw ep _ _ s1 c1 LOCAL_WRITE size Hr1)
    as (h2 & c2 & s2 & Hc2 & Hr2 & Ho2 & Hk2 & Hq2 & _); [done|done|].
  destruct (Hk2 _ _ _ _ Ho1) as [Ho1' Hap]. exists h1, h2, c2, s2.
  split; [intros A f; by rewrite (lift_bind _ _ _ _ _ Hc1), (lift_bind _ _ _ _ _ Hc2)|].
  split_and!; try done; [by apply apart_sym|congruence].
Qed.

(** Bytes put into the local region and written to the start of the remote one. *)
Lemma store_bytes n k s c h1 fl d b h2 fl2 ds buf wrid p :
  running ep (3 + n) k s c → owned ep s h1 fl d b → owned ep s h2 fl2 ds buf → apart h1 h2 →
  AccessFlags_contains fl REMOTE_WRITE = true → sv_cq s = [] → u64 wrid →
  zlen p ≤ 4096 → zlen p ≤ zlen d → zlen p ≤ zlen buf → zlen buf ≤ 4096 →
  ∃ c' s', (∀ A (f : M (Client Server) AppError A),
      (_ ← lift (write_local_mr (mh_lkey h2) 0 p);
       _ ← lift (rdma_write wrid (mh_rkey h1) 0 [mkSge (mh_lkey h2) 0 (zlen p)]);
       _ ← lift (poll_cq 10); f) c = f c') ∧
    running ep n k s' c' ∧ owned ep s' h1 fl (splice d 0 p) b ∧ sv_cq s' = [].
Proof using All.
  intros Hr Ho1 Ho2 Hap Hf Hq Hw Hp Hd Hb Hb'. pose proof (zlen_nonneg p).
  destruct (write_local_step Hsink Hdraw ep _ _ s c h2 _ _ _ 0 p Hr Ho2) as (c1 & Hc1 & Hr1); [done|lia|].
  change (Z.to_nat 0) with O in Hr1. set (s1 := put_copy _ _ _) in Hr1.
  assert (owned ep s1 h2 fl2 ds (splice buf 0 p)) as Ho2' by (unfold s1; eauto with rdows_owned).
  assert (owned ep s1 h1 fl d b) as Ho1' by (unfold s1; eauto with rdows_owned).
  assert (zlen (splice buf 0 p) = zlen buf) as Hsp by (rewrite zlen_splice; lia).
  destruct (write_step Hsink Hdraw ep _ _ s1 c1 h1 _ _ _ h2 _ _ _ wrid 0 (zlen p) Hr1 Ho1' Ho2')
    as (c2 & Hc2 & Hr2); try done; try lia.
  { unfold has_room, s1. cbn [sv_cq put_copy set_local]. rewrite Hq, zlen_nil. lia. }
  rewrite take_splice_0 in Hr2 by lia. change (Z.to_nat 0) with O in Hr2.
  set (s2 := complete_ok _ _ _ _ _) in Hr2.
  destruct (poll_step Hsink Hdraw ep _ _ s2 c2 10 Hr2) as (c3 & Hc3 & Hr3);
    [done|unfold s2, s1; cbn; by rewrite Hq|].
  eexists c3, _. split;
    [intros A f; by rewrite (lift_bind _ _ _ _ _ Hc1), (lift_bind _ _ _ _ _ Hc2), (lift_bind _ _ _ _ _ Hc3)|]. split; [exact Hr3|]. split; [|done]. unfold s2, complete_ok. eauto with rdows_owned.
Qed.

(** The start of a remote region, read into a new local region. *)
Lemma fetch_bytes n k s c h fl d b size wrid len :
  running ep (4 + n) (1 + k) s c → owned ep s h fl d b → AccessFlags_contains fl REMOTE_READ = true →
  sv_cq s = [] → u64 wrid → 0 ≤ len ≤ size → size ≤ 4096 → len ≤ zlen d →
  ∃ c' s', (∀ A (f : list byte → M (Client Server) AppError A),
      (read_mr ← lift (reg_mr LOCAL_WRITE size);
       _ ← lift (rdma_read wrid (mh_rkey h) 0 len (mh_lkey read_mr) 0);
       _ ← lift (poll_cq 10);
       l ← lift (read_local_mr (mh_lkey read_mr) 0 len); f l) c = f (take (Z.to_nat len) d) c') ∧
    running ep n k s' c'.
Proof using All.
  intros Hr Ho Hf Hq Hw Hlen Hsz Hd.
  destruct (reg_step Hsink Hdraw ep _ _ s c LOCAL_WRITE size Hr)
    as (h1 & c1 & s1 & Hc1 & Hr1 & Ho1 & Hk1 & Hq1 & _); [done|lia|].
  destruct (Hk1 _ _ _ _ Ho) as [Ho' _].
  set (zs := replicate (Z.to_nat size) x00) in *. assert (zlen zs = size) as Hzs by (unfold zs; rewrite zlen_replicate; lia).
  destruct (read_step Hsink Hdraw ep _ _ s1 c1 h _ _ _ h1 _ _ _ wrid 0 len Hr1 Ho' Ho1) as (c2 & Hc2 & Hr2);
    try done; try lia. { unfold has_room. rewrite Hq1, Hq, zlen_nil. lia. }
  change (drop (Z.to_nat 0) d) with d in Hr2.
  set (l := take (Z.to_nat len) d) in *.
  assert (zlen l = len) as Hl by (unfold l, zlen in *; rewrite length_take; lia).
  set (s2 := complete_ok _ _ _ _ _) in Hr2.
  assert (owned ep s2 h1 LOCAL_WRITE zs (splice zs 0 l)) as Ho2 by (unfold s2, complete_ok; eauto with rdows_owned).
  destruct (poll_step Hsink Hdraw ep _ _ s2 c2 10 Hr2) as (c3 & Hc3 & Hr3);
    [done|unfold s2; cbn; by rewrite Hq1, Hq|].
  assert (zlen (splice zs 0 l) = size) as Hsp by (rewrite zlen_splice; lia).
  destruct (read_local_step Hsink Hdraw ep _ _ _ c3 h1 _ _ _ 0 len Hr3 (owned_queue ep s2 _ _ _ _ [] Ho2))
    as (c4 & Hc4 & Hr4); try done; try lia.
  change (drop (Z.to_nat 0) (splice zs 0 l)) with (splice zs 0 l) in Hc4.
  replace (Z.to_nat len) with (Z.to_nat (zlen l)) in Hc4 by (by rewrite Hl).
  rewrite take_splice_0 in Hc4 by lia. eexists c4, _. split; [|exact Hr4]. intros A f.
  by rewrite (lift_bind _ _ _ _ _ Hc1), (lift_bind _ _ _ _ _ Hc2), (lift_bind _ _ _ _ _ Hc3), (lift_bind _ _ _ _ _ Hc4).
Qed.

(** *** Write and read back *)

(** The common body of [demo_write] and [one_sided_write]. *)
Definition write_then_read (size wrid1 wrid2 : Z) (p : list byte)
    (f : list byte → M (Client Server) AppError unit) : M (Client Server) AppError unit :=
  remote_mr ← lift (reg_mr (AccessFlags_bitor REMOTE_WRITE REMOTE_READ) size);
  local_mr ← lift (reg_mr LOCAL_WRITE size);
  _ ← lift (write_local_mr (mh_lkey local_mr) 0 p);
  _ ← lift (rdma_write wrid1 (mh_rkey remote_mr) 0 (whole (mh_lkey local_mr) p));
  _ ← lift (poll_cq 10);
  read_mr ← lift (reg_mr LOCAL_WRITE size);
  _ ← lift (rdma_read wrid2 (mh_rkey remote_mr) 0 (zlen p) (mh_lkey read_mr) 0);
  _ ← lift (poll_cq 10);
  read_back ← lift (read_local_mr (mh_lkey read_mr) 0 (zlen p));
  f read_back.

Lemma write_then_read_ok n k s c size wrid1 wrid2 p f :
  running ep (9 + n) (3 + k) s c → sv_cq s = [] → 0 ≤ size ≤ 4096 → zlen p ≤ size →
  u64 wrid1 → u64 wrid2 →
  ∃ c' s', write_then_read size wrid1 wrid2 p f c = f p c' ∧ running ep n k s' c'.
Proof using All.
  intros Hr Hq Hsz Hp Hw1 Hw2. unfold write_then_read, whole. pose proof (zlen_nonneg p).
  rewrite (wrap_id 32) by (unfold uN; lia).
  destruct (two_regions (7 + n) (1 + k) s c (AccessFlags_bitor REMOTE_WRITE REMOTE_READ) size)
    as (h1 & h2 & c1 & s1 & Hc1 & Hr1 & Ho1 & Ho2 & Hap & Hq1); [exact Hr|done|done|].
  rewrite Hc1. clear Hc1. set (zs := replicate (Z.to_nat size) x00) in *.
  assert (zlen zs = size) as Hzs by (unfold zs; rewrite zlen_replicate; lia).
  destruct (store_bytes (4 + n) (1 + k) s1 c1 h1 (AccessFlags_bitor REMOTE_WRITE REMOTE_READ) zs zs h2 LOCAL_WRITE zs zs wrid1 p)
    as (c2 & s2 & Hc2 & Hr2 & Ho1' & Hq2); [exact Hr1|done|done|done|done|congruence|done|lia..|].
  rewrite Hc2. clear Hc2.
  destruct (fetch_bytes n k s2 c2 h1 (AccessFlags_bitor REMOTE_WRITE REMOTE_READ) (splice zs 0 p) zs size wrid2 (zlen p))
    as (c3 & s3 & Hc3 & Hr3); [exact Hr2|done|done|done|done|lia|lia|rewrite zlen_splice; lia|].
  rewrite Hc3, take_splice_0 by lia. eauto.
Qed.

(** *** Records at multiples of 64 *)
Definition record_at (d : list byte) (i : Z) (r : list byte) : Prop :=
  take (length r) (drop (Z.to_nat (i * 64)) d) = r.

Lemma record_at_here d i r : 0 ≤ i → i * 64 + zlen r ≤ zlen d → record_at (splice d (Z.to_nat (i * 64)) r) i r.
Proof using Type. intros Hi Hb. unfold record_at, zlen in *. apply take_drop_splice. lia. Qed.
Lemma record_at_later d i j r r' :
  0 ≤ j < i → zlen r ≤ 64 → i * 64 + zlen r' ≤ zlen d → record_at d j r →
  record_at (splice d (Z.to_nat (i * 64)) r') j r.
Proof using Type.
  intros Hj Hr Hb Hd. unfold record_at in *. rewrite <-Hd at 2. unfold zlen in *. apply list_eq. intros x.
  destruct (decide (x < length r)%nat).
  - rewrite !lookup_take_lt, !lookup_drop by lia. apply lookup_splice_out; lia.
  - by rewrite !lookup_take_ge by lia.
Qed.

(** The records [rs], the first of them with index [i]. *)
Definition records_at (d : list byte) (i : nat) (rs : list (list byte)) : Prop :=
  ∀ j r, rs !! j = Some r → record_at d (Z.of_nat (i + j)) r.
Definition short_records (rs : list (list byte)) : Prop := Forall (λ r, zlen r ≤ 64) rs.

(** What the loops hold on to: the region and one scratch buffer. *)
Definition scratch (s : Service) (h hs : MemoryRegionHandle) (fl : AccessFlags) (d buf : list byte) : Prop :=
  (∃ b, owned ep s h fl d b) ∧ (∃ fls ds, owned ep s hs fls ds buf) ∧ apart h hs.

Lemma populate_ok n k h hs fl rs : ∀ (i : nat) old s c d buf,
  running ep (2 * length rs + n) k s c → scratch s h hs fl d buf →
  AccessFlags_contains fl REMOTE_WRITE = true → short_records rs → short_records old →
  length old = i → records_at d 0 old →
  zlen d = 256 → zlen buf = 256 → (i + length rs ≤ 4)%nat →
  zlen (sv_cq s) = Z.of_nat i →
  ∃ c' s' d' buf', populate (mh_lkey hs) (mh_rkey h) (Z.of_nat i) rs c = Ok tt c' ∧
    running ep n k s' c' ∧ scratch s' h hs fl d' buf' ∧ records_at d' 0 (old ++ rs) ∧
    zlen d' = 256 ∧ zlen (sv_cq s') = Z.of_nat i + zlen rs.
Proof using All.
  induction rs as [|r rs IH]; intros i old s c d buf Hr Hsc Hf Hrs Hdn Hi Hrec Hd Hbuf Hle Hq.
  { exists c, s, d, buf. rewrite app_nil_r, zlen_nil, Z.add_0_r. by split_and!. }
  cbn [length] in Hr, Hle. inversion Hrs as [|? ? Hrl Hrs']; subst. pose proof (zlen_nonneg r).
  destruct Hsc as ((b & Ho) & (fls & ds & Hos) & Hap). cbn [populate].
  replace (2 * S (length rs) + n)%nat with (S (S (2 * length rs + n))) in Hr by lia.
  destruct (write_local_step Hsink Hdraw ep _ _ s c hs _ _ _ 0 r Hr Hos) as (c1 & Hc1 & Hr1); [done|lia|].
  rewrite (lift_bind _ _ _ _ _ Hc1). change (Z.to_nat 0) with O in Hr1. set (s1 := put_copy _ _ _) in Hr1.
  assert (owned ep s1 hs fls ds (splice buf 0 r)) as Hos1 by (unfold s1; eauto with rdows_owned).
  assert (owned ep s1 h fl d b) as Ho1 by (unfold s1; eauto with rdows_owned).
  assert (zlen (splice buf 0 r) = 256) as Hb1 by (rewrite zlen_splice; lia).
  unfold whole. rewrite (wrap_id 32) by (unfold uN; lia). set (i := length old) in *.
  destruct (write_step Hsink Hdraw ep _ _ s1 c1 h _ _ _ hs _ _ _ (Z.of_nat i) (Z.of_nat i * 64) (zlen r) Hr1 Ho1 Hos1)
    as (c2 & Hc2 & Hr2); try done; try (unfold uN; lia).
  { unfold has_room, s1. cbn [sv_cq put_copy set_local]. lia. }
  rewrite (lift_bind _ _ _ _ _ Hc2). rewrite take_splice_0 in Hr2 by lia. set (s2 := complete_ok _ _ _ _ _) in Hr2.
  set (d2 := splice d (Z.to_nat (Z.of_nat i * 64)) r) in *.
  assert (zlen d2 = 256) as Hd2 by (unfold d2; rewrite zlen_splice; lia).
  replace (Z.of_nat i + 1) with (Z.of_nat (S i)) by lia.
  destruct (IH (S i) (old ++ [r]) s2 c2 d2 (splice buf 0 r) Hr2) as (c' & s' & d' & buf' & Hrun & Hr' & Hsc' & Hrec' & Hd' & Hq');
    try done; try lia.
  - split; [|split; [|done]].
    + exists b. unfold s2, complete_ok, d2; eauto with rdows_owned.
    + exists fls, ds. unfold s2, complete_ok; eauto with rdows_owned.
  - by apply Forall_app_2; [|constructor].
  - rewrite length_app. cbn. lia.
  - intros j r' Hj. rewrite Nat.add_0_l. apply lookup_app_Some in Hj as [Hj|[Hj Hj']].
    + apply record_at_later; try lia.
      * apply lookup_lt_Some in Hj. fold i in Hj. lia.
      * by eapply (Forall_lookup_1 _ _ _ _ Hdn).
      * by apply (Hrec j).
    + apply list_lookup_singleton_Some in Hj' as [Hj0 <-]. replace j with i by (unfold i; lia).
      apply record_at_here; lia.
  - unfold s2. cbn. rewrite zlen_app. unfold zlen in *. cbn. lia.
  - exists c', s', d', buf'. rewrite <-(assoc_L (++)) in Hrec'. split_and!; try done.
    rewrite Hq'. unfold zlen. cbn [length]. lia.
Qed.

(** Reading records back gives each of them, in any order, and passes [check] on
    its bytes. *)
Lemma read_back_ok check n k h hs fl d idxs : ∀ s c buf,
  (∀ r c, r ∈ records → check r c = Ok tt c) →
  running ep (2 * length idxs + n) k s c → scratch s h hs fl d buf →
  AccessFlags_contains fl REMOTE_READ = true → records_at d 0 records →
  zlen d = 256 → zlen buf = 256 → Forall (λ i, (i < 4)%nat) idxs →
  zlen (sv_cq s) + zlen idxs ≤ 16 →
  ∃ c' s', read_back_records check (mh_rkey h) (mh_lkey hs) idxs c = Ok tt c' ∧
    running ep n k s' c' ∧ zlen (sv_cq s') = zlen (sv_cq s) + zlen idxs.
Proof using All.
  induction idxs as [|i idxs IH]; intros s c buf Hck Hr Hsc Hf Hrec Hd Hbuf Hix Hq.
  { exists c, s. rewrite zlen_nil, Z.add_0_r. by split_and!. }
  inversion Hix as [|? ? Hi Hix']; subst. rewrite zlen_cons in Hq |- *. pose proof (zlen_nonneg idxs).
  destruct Hsc as ((b & Ho) & (fls & ds & Hos) & Hap). cbn [read_back_records length] in *.
  destruct (records !! i) as [r|] eqn:Hri; [|by apply lookup_ge_None in Hri; cbn in Hri; lia].
  assert (zlen r ≤ 64) as Hrl by (apply (Forall_lookup_1 (λ r, zlen r ≤ 64) records i); [by repeat constructor|done]).
  cbn [or_panic]. rewrite ret_bind. pose proof (zlen_nonneg r).
  replace (2 * S (length idxs) + n)%nat with (S (S (2 * length idxs + n))) in Hr by lia.
  destruct (read_step Hsink Hdraw ep _ _ s c h _ _ _ hs _ _ _ (100 + Z.of_nat i) (Z.of_nat i * 64) (zlen r) Hr Ho Hos)
    as (c1 & Hc1 & Hr1); try done; try (unfold uN; lia). { unfold has_room. lia. }
  rewrite (lift_bind _ _ _ _ _ Hc1).
  assert (take (Z.to_nat (zlen r)) (drop (Z.to_nat (Z.of_nat i * 64)) d) = r) as Hdr.
  { unfold zlen. rewrite Nat2Z.id. apply (Hrec i r Hri). }
  rewrite Hdr in Hr1. set (s1 := complete_ok _ _ _ _ _) in Hr1.
  assert (owned ep s1 hs fls ds (splice buf 0 r)) as Hos1 by (unfold s1, complete_ok; eauto with rdows_owned).
  assert (owned ep s1 h fl d b) as Ho1 by (unfold s1, complete_ok; eauto with rdows_owned).
  assert (zlen (splice buf 0 r) = 256) as Hb1 by (rewrite zlen_splice; lia).
  destruct (read_local_step Hsink Hdraw ep _ _ s1 c1 hs _ _ _ 0 (zlen r) Hr1 Hos1) as (c2 & Hc2 & Hr2); try done; try lia.
  rewrite (lift_bind _ _ _ _ _ Hc2). change (Z.to_nat 0) with O. rewrite drop_0, take_splice_0 by lia.
  rewrite (bind_Ok _ _ _ _ _ (Hck r c2 (list_elem_of_lookup_2 _ _ _ Hri))).
  assert (zlen (sv_cq s1) = zlen (sv_cq s) + 1) as Hq1 by (unfold s1; cbn; rewrite zlen_app; done).
  destruct (IH s1 c2 (splice buf 0 r) Hck Hr2) as (c' & s' & Hrun & Hr' & Hq'); try done; try lia.
  { split; [by exists b|split; [by exists fls, ds|done]]. }
  exists c', s'. split_and!; try done. lia.
Qed.

(** The body of [demo_read] and [one_sided_read]. *)
Lemma populate_and_read check n k s c (f : M (Client Server) AppError unit) :
  (∀ r c, r ∈ records → check r c = Ok tt c) →
  running ep (21 + n) (3 + k) s c → sv_cq s = [] →
  ∃ c' s', (remote_mr ← lift (reg_mr (AccessFlags_bitor REMOTE_WRITE REMOTE_READ) 256);
            write_mr ← lift (reg_mr LOCAL_WRITE 256);
            _ ← populate (mh_lkey write_mr) (mh_rkey remote_mr) 0 records;
            _ ← lift (poll_cq 10);
            read_mr ← lift (reg_mr LOCAL_WRITE 256);
            _ ← read_back_records check (mh_rkey remote_mr) (mh_lkey read_mr) (rev (seq 0 (length records)));
            _ ← lift (poll_cq 10); f) c = f c' ∧ running ep n k s' c'.
Proof using All.
  intros Hck Hr Hq.
  destruct (two_regions (19 + n) (1 + k) s c (AccessFlags_bitor REMOTE_WRITE REMOTE_READ) 256)
    as (h1 & h2 & c2 & s2 & Hc2 & Hr2 & Ho1' & Ho2 & Hap & Hq2); [exact Hr|done|done|].
  rewrite Hc2. clear Hc2. set (zs := replicate (Z.to_nat 256) x00) in *. assert (zlen zs = 256) as Hzs by done.
  destruct (populate_ok (11 + n) (1 + k) h1 h2 (AccessFlags_bitor REMOTE_WRITE REMOTE_READ) records 0 [] s2 c2 zs zs)
    as (c3 & s3 & d3 & b3 & Hc3 & Hr3 & ((b & Ho1'') & _ & _) & Hrec & Hd3 & Hq3); try done.
  { split; [by exists zs|]. split; [by exists LOCAL_WRITE, zs|done]. }
  { by repeat constructor. }
  { constructor. }
  { by rewrite Hq2, Hq. }
  rewrite (bind_Ok _ _ _ _ _ Hc3).
  destruct (poll_step Hsink Hdraw ep _ _ s3 c3 10 Hr3) as (c4 & Hc4 & Hr4); [done|by rewrite Hq3|].
  rewrite (lift_bind _ _ _ _ _ Hc4).
  destruct (reg_step Hsink Hdraw ep _ _ _ c4 LOCAL_WRITE 256 Hr4)
    as (h3 & c5 & s5 & Hc5 & Hr5 & Ho3 & Hk5 & Hq5 & _); [done|done|].
  rewrite (lift_bind _ _ _ _ _ Hc5). fold zs in Ho3.
  destruct (Hk5 _ _ _ _ (owned_queue ep s3 _ _ _ _ [] Ho1'')) as [Ho1r Hap3].
  destruct (read_back_ok check (1 + n) k h1 h3 (AccessFlags_bitor REMOTE_WRITE REMOTE_READ) d3
    (rev (seq 0 (length records))) s5 c5 zs) as (c6 & s6 & Hc6 & Hr6 & Hq6); try done.
  { split; [by exists b|]. split; [by exists LOCAL_WRITE, zs|by apply apart_sym]. }
  { repeat constructor; lia. }
  { by rewrite Hq5. }
  rewrite (bind_Ok _ _ _ _ _ Hc6).
  destruct (poll_step Hsink Hdraw ep _ _ s6 c6 10 Hr6) as (c7 & Hc7 & Hr7); [done|by rewrite Hq6, Hq5|].
  rewrite (lift_bind _ _ _ _ _ Hc7). eauto.
Qed.

(** *** One buffer to send from *)
(** The buffer [p] staged for sending, in the state of a loop of sends. *)
Record sending (s : Service) (h : MemoryRegionHandle) (p : list byte) (m : Z) : Prop := {
  sg_owned : ∃ buf, owned ep s h LOCAL_WRITE buf (splice buf 0 p) ∧ zlen buf = 256;
  sg_queue : sv_cq s = [];
  sg_receives : sv_receives s = m;
  sg_nonneg : 0 ≤ m;
}.

Lemma stage_ok {A} n k s c p (f : MemoryRegionHandle → M (Client Server) AppError A) :
  running ep (2 + n) (1 + k) s c → sv_cq s = [] → zlen p ≤ 256 →
  0 ≤ sv_receives s →
  ∃ h c' s', (mr ← lift (reg_mr LOCAL_WRITE 256); _ ← lift (write_local_mr (mh_lkey mr) 0 p); f mr) c = f h c' ∧
    running ep n k s' c' ∧ sending s' h p (sv_receives s).
Proof using All.
  intros Hr Hq Hp Hrv.
  set (zs := replicate (Z.to_nat 256) x00). assert (zlen zs = 256) as Hzs by done.
  destruct (reg_step Hsink Hdraw ep _ _ s c LOCAL_WRITE 256 Hr)
    as (h & c1 & s1 & Hc1 & Hr1 & Ho1 & _ & Hq1 & Hrv1); [done|done|].
  rewrite (lift_bind _ _ _ _ _ Hc1). fold zs in Ho1.
  destruct (write_local_step Hsink Hdraw ep _ _ s1 c1 h _ _ _ 0 p Hr1 Ho1) as (c2 & Hc2 & Hr2); [done|lia|].
  rewrite (lift_bind _ _ _ _ _ Hc2). eexists h, c2, _. split; [done|]. split; [exact Hr2|].
  split; cbn; rewrite ?Hq1, ?Hrv1; try done; try lia.
  exists zs. split; [|done]. eauto with rdows_owned.
Qed.

(** One send of the staged buffer and the poll after it. *)
Lemma send_turn n k s c h p m wrid :
  running ep (2 + n) k s c → sending s h p m → zlen p ≤ 256 → u64 wrid →
  ∃ c1 c' s' cqe, poll_cq 10 c1 = Ok [cqe] c' ∧ running ep n k s' c' ∧
   ((0 < m ∧ post_send wrid (whole (mh_lkey h) p) c = Ok tt c1 ∧ sending s' h p (m - 1)) ∨
    (m = 0 ∧ post_send wrid (whole (mh_lkey h) p) c = Err (Failed (Protocol ErrRnr)) c1 ∧ sending s' h p 0)).
Proof using All.
  intros Hr [(buf & Ho & Hb) Hq Hrv Hm] Hp Hw. pose proof (zlen_nonneg p). unfold whole. rewrite (wrap_id 32) by (unfold uN; lia).
  assert (zlen (splice buf 0 p) = 256) as Hb1 by (rewrite zlen_splice; lia).
  assert (has_room ep s) as Hroom by (unfold has_room; rewrite Hq, zlen_nil; lia).
  destruct (send_step Hsink Hdraw ep _ _ s c h _ _ _ wrid (zlen p) Hr Ho) as (c1 & Hc); try done; try lia.
  exists c1. destruct Hc as [(Hpos & Hc & Hr1)|(Hz & Hc & Hr1)].
  - set (s1 := complete_ok _ _ _ _ _) in Hr1.
    assert (sv_cq s1 = [mkCqe wrid 0 Opcode.Send 0 (zlen p) (ep_sid ep)]) as Hq1 by (cbn; by rewrite Hq).
    destruct (poll_step Hsink Hdraw ep _ _ s1 c1 10 Hr1) as (c2 & Hc2 & Hr2); [done|by rewrite Hq1|].
    rewrite Hq1 in Hc2. eexists c2, _, _. split; [done|]. split; [exact Hr2|]. left. split; [lia|]. split; [done|].
    split; cbn; try done; try lia. exists buf. split; [|done]. unfold s1, complete_ok. eauto 10 with rdows_owned.
  - set (s1 := complete_err _ _ _ _ _) in Hr1.
    assert (sv_cq s1 = [mkCqe wrid (u16_from_ErrorCode ErrRnr) Opcode.Send 0 0 (ep_sid ep)]) as Hq1 by (cbn; by rewrite Hq).
    destruct (poll_step Hsink Hdraw ep _ _ s1 c1 10 Hr1) as (c2 & Hc2 & Hr2); [done|by rewrite Hq1|].
    rewrite Hq1 in Hc2. eexists c2, _, _. split; [done|]. split; [exact Hr2|]. right. split; [lia|]. split; [done|].
    split; cbn; try done; try lia. exists buf. split; [|done]. unfold s1, complete_err. eauto 10 with rdows_owned.
Qed.

(** The loop of [demo_err_rnr]: as many sends succeed as the server has receives. *)
Lemma send_loop_ok n k h p t : ∀ s c m succeeded i,
  running ep (2 * t + n) k s c → sending s h p m → zlen p ≤ 256 → 0 ≤ i →
  i + Z.of_nat t < 2 ^ 64 → 0 ≤ succeeded → succeeded + Z.of_nat t < 2 ^ 64 →
  ∃ c' s', send_loop (whole (mh_lkey h) p) succeeded i t c = Ok (succeeded + Z.min (Z.of_nat t) m) c' ∧
    running ep n k s' c' ∧ sending s' h p (m - Z.min (Z.of_nat t) m).
Proof using All.
  induction t as [|t IH]; intros s c m succeeded i Hr Hs Hp Hi Hit Hsu Hst.
  { exists c, s. pose proof (sg_nonneg _ _ _ _ Hs). rewrite Z.min_l, Z.add_0_r, Z.sub_0_r by lia. done. }
  replace (2 * S t + n)%nat with (2 + (2 * t + n))%nat in Hr by lia. cbn [send_loop].
  destruct (send_turn _ _ s c h p m i Hr Hs Hp) as (c1 & c2 & s2 & cqe & Hpoll & Hr2 & Hcase); [unfold uN; lia|].
  rewrite attempt_bind.
  destruct Hcase as [(Hm & Hc & Hs2)|(-> & Hc & Hs2)]; rewrite Hc; cbn beta iota.
  - rewrite (lift_bind _ _ _ _ _ Hpoll). cbn [lookup list_lookup or_panic]. rewrite ret_bind.
    unfold add_ovf. rewrite ovf_bind by (unfold uN; lia).
    destruct (IH s2 c2 (m - 1) (succeeded + 1) (i + 1) Hr2 Hs2) as (c' & s' & Hrun & Hr' & Hs'); try done; try lia.
    exists c', s'. rewrite Hrun.
    replace (succeeded + 1 + Z.min (Z.of_nat t) (m - 1)) with (succeeded + Z.min (Z.of_nat (S t)) m) by lia.
    replace (m - 1 - Z.min (Z.of_nat t) (m - 1)) with (m - Z.min (Z.of_nat (S t)) m) in Hs' by lia. done.
  - rewrite (lift_bind _ _ _ _ _ Hpoll). cbn [lookup list_lookup or_panic]. rewrite ret_bind.
    destruct (IH s2 c2 0 succeeded (i + 1) Hr2 Hs2) as (c' & s' & Hrun & Hr' & Hs'); try done; try lia.
    exists c', s'. rewrite Hrun. rewrite !Z.min_r in * by lia. done.
Qed.

(** The same loop without the counter, in [err_rnr_demo.rs]. *)
Lemma example_send_loop_ok n k h p t : ∀ s c m i,
  running ep (2 * t + n) k s c → sending s h p m → zlen p ≤ 256 → 0 ≤ i → i + Z.of_nat t < 2 ^ 64 →
  ∃ c' s' m', example_send_loop (whole (mh_lkey h) p) i t c = Ok tt c' ∧
    running ep n k s' c' ∧ sending s' h p m'.
Proof using All.
  induction t as [|t IH]; intros s c m i Hr Hs Hp Hi Hit. { by exists c, s, m. }
  replace (2 * S t + n)%nat with (2 + (2 * t + n))%nat in Hr by lia. cbn [example_send_loop].
  destruct (send_turn _ _ s c h p m i Hr Hs Hp) as (c1 & c2 & s2 & cqe & Hpoll & Hr2 & Hcase); [unfold uN; lia|].
  rewrite attempt_bind.
  destruct Hcase as [(Hm & Hc & Hs2)|(-> & Hc & Hs2)]; rewrite Hc; cbn beta iota;
    rewrite (lift_bind _ _ _ _ _ Hpoll); cbn [lookup list_lookup or_panic]; rewrite ret_bind;
    eapply IH; try done; lia.
Qed.

(** The last write of the ERR_RNR programs goes through. *)
Lemma still_alive_ok n k s c h m :
  running ep (4 + n) (1 + k) s c → sending s h hello m →
  ∃ c' s', still_alive (mh_lkey h) c = Ok tt c' ∧ running ep n k s' c'.
Proof using All.
  intros Hr [(buf & Ho & Hb) Hq _ _]. unfold still_alive.
  destruct (reg_step Hsink Hdraw ep _ _ s c REMOTE_WRITE 64 Hr)
    as (h1 & c1 & s1 & Hc1 & Hr1 & Ho1 & Hk1 & Hq1 & _); [done|done|].
  rewrite (lift_bind _ _ _ _ _ Hc1). destruct (Hk1 _ _ _ _ Ho) as [Ho' Hap].
  set (zs := replicate (Z.to_nat 64) x00) in *. assert (zlen zs = 64) as Hzs by done.
  assert (zlen (splice buf 0 hello) = 256) as Hb1
    by (rewrite zlen_splice; [done|rewrite Hb; done]).
  set (b1 := splice buf 0 hello) in *.
  destruct (write_local_step Hsink Hdraw ep _ _ s1 c1 h _ _ _ 0 (lit "still alive") Hr1 Ho') as (c2 & Hc2 & Hr2);
    [done|by rewrite Hb1|].
  rewrite (lift_bind _ _ _ _ _ Hc2). set (s2 := put_copy _ _ _) in Hr2.
  assert (owned ep s2 h LOCAL_WRITE buf (splice b1 (Z.to_nat 0) (lit "still alive"))) as Ho2 by (unfold s2; eauto with rdows_owned).
  assert (owned ep s2 h1 REMOTE_WRITE zs zs) as Ho12 by (unfold s2; eauto with rdows_owned).
  destruct (write_step Hsink Hdraw ep _ _ s2 c2 h1 _ _ _ h _ _ _ 100 0 11 Hr2 Ho12 Ho2)
    as (c3 & Hc3 & Hr3); try done.
  { unfold has_room, s2. cbn [sv_cq put_copy set_local]. rewrite Hq1, Hq, zlen_nil. lia. }
  { rewrite zlen_splice; rewrite Hb1; done. }
  rewrite (lift_bind _ _ _ _ _ Hc3). set (s3 := complete_ok _ _ _ _ _) in Hr3.
  assert (sv_cq s3 = [mkCqe 100 0 Opcode.Write 0 11 (ep_sid ep)]) as Hq3 by (unfold s3, s2; cbn; by rewrite Hq1, Hq).
  destruct (poll_step Hsink Hdraw ep _ _ s3 c3 10 Hr3) as (c4 & Hc4 & Hr4); [done|by rewrite Hq3|].
  rewrite (lift_bind _ _ _ _ _ Hc4), Hq3. eauto.
Qed.

(** *** The counter *)
Abbreviation counter_flags := (AccessFlags_bitor (AccessFlags_bitor REMOTE_ATOMIC REMOTE_READ) REMOTE_WRITE).

(** [t] increments add [t] to the counter. *)
Lemma faa_loop_ok n k h t : ∀ s c d b i v,
  running ep (2 * t + n) k s c → owned ep s h counter_flags d b → zlen d = 64 → sv_cq s = [] →
  word_at d 0 = v → 0 ≤ i → i + Z.of_nat t < 2 ^ 64 → 0 ≤ v → v + Z.of_nat t < 2 ^ 64 →
  ∃ c' s' d', faa_loop (mh_rkey h) i t c = Ok tt c' ∧ running ep n k s' c' ∧
    owned ep s' h counter_flags d' b ∧ zlen d' = 64 ∧ sv_cq s' = [] ∧ word_at d' 0 = v + Z.of_nat t.
Proof using All.
  induction t as [|t IH]; intros s c d b i v Hr Ho Hd Hq Hw Hi Hit Hv Hvt.
  { exists c, s, d. rewrite Z.add_0_r. by split_and!. }
  replace (2 * S t + n)%nat with (S (S (2 * t + n))) in Hr by lia. cbn [faa_loop].
  destruct (faa_step Hsink Hdraw ep _ _ s c h _ _ _ i 0 1 Hr Ho) as (c1 & Hc1 & Hr1); try done; try (unfold uN; lia).
  { unfold has_room. rewrite Hq, zlen_nil. lia. }
  rewrite (lift_bind _ _ _ _ _ Hc1). rewrite Hw in Hr1. unfold wrapping_add in Hr1.
  rewrite (wrap_id 64 (v + 1)) in Hr1 by (unfold uN; lia).
  set (d1 := splice d (Z.to_nat 0) (be_bytes 8 (v + 1))) in *. set (s1 := complete_ok _ _ _ _ _) in Hr1.
  assert (sv_cq s1 = [mkCqe i 0 Opcode.AtomicReq 0 8 (ep_sid ep)]) as Hq1 by (unfold s1; cbn; by rewrite Hq).
  assert (owned ep s1 h counter_flags d1 b) as Ho1 by (unfold s1, complete_ok; eauto with rdows_owned).
  destruct (poll_step Hsink Hdraw ep _ _ s1 c1 10 Hr1) as (c2 & Hc2 & Hr2); [done|by rewrite Hq1|].
  rewrite (lift_bind _ _ _ _ _ Hc2).
  assert (zlen (be_bytes 8 (v + 1)) = 8) as Hb8 by (unfold zlen; by rewrite length_be_bytes).
  destruct (IH (set_queue [] s1) c2 d1 b (i + 1) (v + 1) Hr2) as (c' & s' & d' & Hrun & Hr' & Ho' & Hd' & Hq' & Hw');
    try done; try lia.
  - by apply owned_queue.
  - unfold d1. rewrite zlen_splice; lia.
  - unfold d1. rewrite word_at_splice by lia. apply wrap_id. unfold uN. lia.
  - exists c', s', d'. split_and!; try done. lia.
Qed.

(** The body of [demo_atomic] and [atomic_counter]. *)
Lemma count_to_five n k s c (f : Z → M (Client Server) AppError unit) :
  running ep (19 + n) (3 + k) s c → sv_cq s = [] →
  ∃ c' s', (remote_mr ← lift (reg_mr counter_flags 64);
            local_mr ← lift (reg_mr LOCAL_WRITE 64);
            _ ← lift (write_local_mr (mh_lkey local_mr) 0 (be_bytes 8 0));
            _ ← lift (rdma_write 0 (mh_rkey remote_mr) 0 [mkSge (mh_lkey local_mr) 0 8]);
            _ ← lift (poll_cq 10);
            _ ← faa_loop (mh_rkey remote_mr) 1 5;
            read_mr ← lift (reg_mr LOCAL_WRITE 64);
            _ ← lift (rdma_read 100 (mh_rkey remote_mr) 0 8 (mh_lkey read_mr) 0);
            _ ← lift (poll_cq 10);
            final_bytes ← lift (read_local_mr (mh_lkey read_mr) 0 8);
            final_value ← u64_from_be_bytes final_bytes;
            f final_value) c = f 5 c' ∧ running ep n k s' c'.
Proof using All.
  intros Hr Hq.
  destruct (two_regions (17 + n) (1 + k) s c counter_flags 64)
    as (h1 & h2 & c1 & s1 & Hc1 & Hr1 & Ho1 & Ho2 & Hap & Hq1); [exact Hr|done|done|].
  rewrite Hc1. clear Hc1. set (zs := replicate (Z.to_nat 64) x00) in *.
  destruct (store_bytes (14 + n) (1 + k) s1 c1 h1 counter_flags zs zs h2 LOCAL_WRITE zs zs 0 (be_bytes 8 0))
    as (c2 & s2 & Hc2 & Hr2 & Ho1' & Hq2); [exact Hr1|done|done|done|done|congruence|done..|].
  change (zlen (be_bytes 8 0)) with 8 in Hc2. rewrite Hc2. clear Hc2.
  destruct (faa_loop_ok (4 + n) (1 + k) h1 5 s2 c2 (splice zs 0 (be_bytes 8 0)) zs 1 0 Hr2 Ho1')
    as (c3 & s3 & d3 & Hc3 & Hr3 & Ho3 & Hd3 & Hq3 & Hw3); try done.
  rewrite (bind_Ok _ _ _ _ _ Hc3).
  destruct (fetch_bytes n k s3 c3 h1 counter_flags d3 zs 64 100 8)
    as (c4 & s4 & Hc4 & Hr4); [exact Hr3|done|done|done|done|done|done|lia|].
  rewrite Hc4. clear Hc4. unfold u64_from_be_bytes.
  assert (zlen (take (Z.to_nat 8) d3) = 8) as -> by (unfold zlen in *; rewrite length_take; lia).
  change (8 =? 8) with true. cbv iota. rewrite ret_bind.
  change (be_value (take (Z.to_nat 8) d3)) with (word_at d3 0). rewrite Hw3. eauto.
Qed.

(** *** Closing the connection *)
Definition hung_up (c : Client Server) : Prop :=
  session_state (session (server c)) = Closed ∧ srv_alive (wire_peer (wire c)) = false ∧ ended (wire c) = true.

Lemma settled_disconnect n c : settled MX n c → ∃ c', disconnect c = Ok tt c' ∧ hung_up c'.
Proof using All.
  intros Hc. pose proof (st_linked _ _ _ Hc) as Hl. pose proof Hl as [_ _ Hrd He _ _ _ _ _].
  pose proof (st_max _ _ _ Hc) as Hmax. set (m := RdowsMessage.Disconnect (next_hdr Opcode.Disconnect 0 (conn c))).
  destruct (request_sendable c m Opcode.Disconnect 0 Hl) as [(Hwf & Hf & Hu) Hacc]; try done.
  { unfold room. rewrite Hmax. done. }
  pose proof (handle_message_accepted _ _ Hrd He _ Hacc) as Hh.
  unfold disconnect. rewrite next_header_bind. cbn [conn wire]. fold m.
  unfold on_wire, zoom, send_message. cbn [wire conn]. rewrite (linked_wire c Hl). cbn [wire_peer inbox ended].
  unfold peer_react, server_peer. cbn [srv_world srv_alive]. rewrite (over_ws_message m Hu). cbn [session_item].
  rewrite (decode_encode m Hwf Hf (one_frame_u32 m Hu)), attempt_bind. unfold sized_msg in Hh. rewrite Hh.
  change (handle_ready (set_header ?h m)) with (assign (E := RdowsError) (set_session_state Closed)).
  eexists. split; [reflexivity|]. done.
Qed.
Lemma disconnect_step n k s c :
  running ep n k s c → ∃ c', lift disconnect c = Ok tt c' ∧ hung_up c'.
Proof using All.
  intros [(c0 & Habs & Hc) _ _ _ _ _ _]. destruct (settled_disconnect n c0 Hc) as (c0' & Hrun & Hh).
  destruct (absorbed_call _ _ _ _ _ (lazy_absorbing _ lazy_disconnect) Habs Hrun) as (c' & Hrun' & Habs').
  exists c'. split; [unfold lift; by rewrite Hrun'|].
  unfold hung_up. rewrite (absorbed_same (λ c, wire_peer (wire c)) c' c0'), (absorbed_same (λ c, ended (wire c)) c' c0');
    try done; intros c1 c2 Hs; by destruct Hs.
Qed.
End programs.

(** ** From the handshake *)

(** A server with room for three regions of 4096 bytes, and a queue for the
    completions of a program. *)
Record roomy (cfg : ServerConfig) : Prop := {
  rm_ok : config_ok cfg;
  rm_reads : 0 < cfg_max_outstanding_reads cfg;
  rm_regions : 3 ≤ cfg_max_regions_per_session cfg;
  rm_bytes : 3 * 4096 ≤ cfg_max_total_bytes_per_session cfg;
  rm_rate : 3 ≤ cfg_mr_reg_rate_limit cfg;
}.
Lemma ServerConfig_default_roomy : roomy ServerConfig_default.
Proof. by split; [apply ServerConfig_default_ok|..]. Qed.

Section start.
Context `{BytesCrateLaws, Profile, !OsRng, !OsRngLaws, WsSinkEnv, Clock}.
Context (Hsink : ∀ log, ws_send_error log = None) (Hdraw : good_source).
Implicit Types (c : Client Server) (n k : nat).

Lemma connect_running cfg d cap n :
  roomy cfg → 16 ≤ cap ≤ 2 ^ 32 → Z.of_nat n < 2 ^ 32 - 1 →
  ∃ ep cn wr s, connect_with_config d cap (fresh_server cfg) = Ok cn wr ∧
    running ep n 3 s (mkClient cn wr) ∧ ep_capacity ep = cap ∧ sv_cq s = [] ∧
    sv_receives s = cfg_recv_queue_depth cfg ∧ 0 ≤ sv_receives s.
Proof using All.
  intros [Hcfg Hreads Hregs Hby Hrate] Hcap Hn.
  destruct (os_rng_fill d) as [b|] eqn:Hb; [|by destruct (source_works Hdraw d)].
  destruct (connect_linked Hsink cfg d b cap Hcfg Hb ltac:(lia))
    as (cn & wr & Hrun & _ & _ & _ & _ & Hq & Hmr & _ & _ & (_ & Hlim & Hcnt & Hrq & _) & Hst).
  destruct (connect_settled Hsink (source_works Hdraw) cfg d b cap n Hcfg Hreads Hb ltac:(lia) Hn)
    as (cn' & wr' & Hrun' & Hset). rewrite Hrun in Hrun'. injection Hrun' as <- <-.
  pose proof (co_recv _ Hcfg) as Hu. unfold uN in Hu. apply settled_established in Hset.
  exists (endpoint_of (mkClient cn wr)), cn, wr, (service_of (mkClient cn wr)). split; [done|].
  cbn [endpoint_of ep_capacity conn cq service_of sv_cq sv_receives wire]. rewrite Hq, Hrq.
  split; [|cbn; split_and!; try done; lia].
  split; try done; cbn [conn wire service_of sv_mem]; rewrite ?Hst, ?Hlim, ?Hcnt; cbn;
    rewrite ?map_size_empty, ?size_empty; lia.
Qed.

Lemma records_utf8 r : r ∈ records → valid_utf8 r.
Proof using Type.
  intros Hr. apply (Forall_forall (λ r, valid_utf8 r) records); [|done].
  repeat constructor; apply (bool_decide_unpack _); vm_compute; exact I.
Qed.
Lemma payload_utf8 : valid_utf8 payload.
Proof using Type. apply (bool_decide_unpack _). vm_compute. exact I. Qed.
Lemma from_utf8_ok l c : valid_utf8 l → from_utf8 l c = Ok tt c.
Proof using Type. intros Hl. unfold from_utf8. by destruct (decide (valid_utf8 l)). Qed.
Lemma from_utf8_unwrap_ok l c : valid_utf8 l → from_utf8_unwrap l c = Ok tt c.
Proof using Type. intros Hl. unfold from_utf8_unwrap. by destruct (decide (valid_utf8 l)). Qed.

(** *** The demonstrations, on an established connection *)
Section demos.
Context (ep : Endpoint) (Hcap : 16 ≤ ep_capacity ep) (s : Service) (c : Client Server).
Context (Hq : sv_cq s = []) (Hrv : 0 ≤ sv_receives s).

Lemma demo_write_ok n : running ep (9 + n) 3 s c →
  ∃ c' s', demo_write c = Ok tt c' ∧ running ep n 0 s' c'.
Proof using All.
  intros Hr. destruct (write_then_read_ok Hsink Hdraw ep Hcap n 0 s c 4096 1 2 payload
    (λ l, from_utf8 l ≫= λ _, assert_that (bool_decide (l = payload))) Hr Hq) as (c' & s' & Hrun & Hr'); try done.
  exists c', s'. split; [|done]. etransitivity; [exact Hrun|].
  rewrite (bind_Ok _ _ _ _ _ (from_utf8_ok payload c' payload_utf8)). by rewrite (bool_decide_eq_true_2 _).
Qed.
Lemma demo_read_ok n : running ep (21 + n) 3 s c →
  ∃ c' s', demo_read c = Ok tt c' ∧ running ep n 0 s' c'.
Proof using All.
  intros Hr. exact (populate_and_read Hsink Hdraw ep Hcap from_utf8 n 0 s c (mret tt)
    (λ r c0 Hrec, from_utf8_ok r c0 (records_utf8 r Hrec)) Hr Hq).
Qed.
Lemma demo_atomic_ok n : running ep (19 + n) 3 s c →
  ∃ c' s', demo_atomic c = Ok tt c' ∧ running ep n 0 s' c'.
Proof using All.
  intros Hr. exact (count_to_five Hsink Hdraw ep Hcap n 0 s c (λ v, assert_that (v =? 5)) Hr Hq).
Qed.
Lemma demo_echo_ok n : 0 < sv_receives s → running ep (4 + n) 3 s c →
  ∃ c' s', demo_echo c = Ok tt c' ∧ running ep n 2 s' c'.
Proof using All.
  intros Hpos Hr.
  destruct (stage_ok Hsink Hdraw ep Hcap (2 + n) 2 s c message (λ mr, _ ← lift (post_send 1 (whole (mh_lkey mr) message));
    _ ← lift (poll_cq 10); mret tt) Hr Hq) as (h & c1 & s1 & Hrun & Hr1 & Hs1); try done.
  unfold demo_echo. rewrite Hrun. clear Hrun.
  destruct (send_turn Hsink Hdraw ep Hcap n 2 s1 c1 h message _ 1 Hr1 Hs1)
    as (c2 & c3 & s3 & cqe & Hpoll & Hr3 & [(_ & Hc & _)|(Hz & _)]); try done; [|lia].
  rewrite (lift_bind _ _ _ _ _ Hc), (lift_bind _ _ _ _ _ Hpoll). eauto.
Qed.
Lemma demo_err_rnr_ok n sends : 0 ≤ sends < 2 ^ 30 → running ep (2 + (2 * Z.to_nat sends + (4 + n))) 3 s c →
  ∃ c' s', demo_err_rnr sends c = Ok (Z.min sends (sv_receives s)) c' ∧ running ep n 1 s' c'.
Proof using All.
  intros Hsends Hr.
  destruct (stage_ok Hsink Hdraw ep Hcap _ 2 s c hello (λ mr, succeeded ← send_loop (whole (mh_lkey mr) hello) 0 1 (Z.to_nat sends);
    _ ← still_alive (mh_lkey mr); mret succeeded) Hr Hq) as (h & c1 & s1 & Hrun & Hr1 & Hs1); try done.
  unfold demo_err_rnr. rewrite Hrun. clear Hrun.
  destruct (send_loop_ok Hsink Hdraw ep Hcap _ _ h hello (Z.to_nat sends) s1 c1 _ 0 1 Hr1 Hs1)
    as (c2 & s2 & Hc2 & Hr2 & Hs2); try done; try lia.
  rewrite (bind_Ok _ _ _ _ _ Hc2).
  destruct (still_alive_ok Hsink Hdraw ep Hcap n 1 s2 c2 h _ Hr2 Hs2) as (c3 & s3 & Hc3 & Hr3).
  rewrite (bind_Ok _ _ _ _ _ Hc3). exists c3, s3. by rewrite Z2Nat.id by lia.
Qed.
End demos.

(** *** The examples, on an established connection *)
Section examples.
Context (ep : Endpoint) (Hcap : 16 ≤ ep_capacity ep) (s : Service) (c : Client Server).
Context (Hq : sv_cq s = []) (Hrv : 0 < sv_receives s).
Context (Hrun : running ep 21 3 s c).

Lemma one_sided_write_ok : ∃ c', one_sided_write c = Ok tt c' ∧ hung_up c'.
Proof using All.
  destruct (write_then_read_ok Hsink Hdraw ep Hcap 12 0 s c 4096 100 200 payload
    (λ l, from_utf8_unwrap l ≫= λ _, assert_that (bool_decide (l = payload)) ≫= λ _, lift disconnect) Hrun Hq)
    as (c1 & s1 & Hc & Hr1); try done.
  destruct (disconnect_step Hsink Hdraw ep Hcap _ _ s1 c1 Hr1) as (c' & Hd & Hh).
  exists c'. split; [|done]. etransitivity; [exact Hc|].
  rewrite (bind_Ok _ _ _ _ _ (from_utf8_unwrap_ok payload c1 payload_utf8)).
  by rewrite (bool_decide_eq_true_2 _).
Qed.
Lemma one_sided_read_ok : ∃ c', one_sided_read c = Ok tt c' ∧ hung_up c'.
Proof using All.
  destruct (populate_and_read Hsink Hdraw ep Hcap from_utf8_unwrap 0 0 s c (lift disconnect)
    (λ r c0 Hrec, from_utf8_unwrap_ok r c0 (records_utf8 r Hrec)) Hrun Hq) as (c1 & s1 & Hc & Hr1).
  destruct (disconnect_step Hsink Hdraw ep Hcap _ _ s1 c1 Hr1) as (c' & Hd & Hh).
  exists c'. split; [|done]. etransitivity; [exact Hc|done].
Qed.
Lemma atomic_counter_ok : ∃ c', atomic_counter c = Ok tt c' ∧ hung_up c'.
Proof using All.
  destruct (count_to_five Hsink Hdraw ep Hcap 2 0 s c (λ v, assert_that (v =? 5) ≫= λ _, lift disconnect) Hrun Hq)
    as (c1 & s1 & Hc & Hr1).
  destruct (disconnect_step Hsink Hdraw ep Hcap _ _ s1 c1 Hr1) as (c' & Hd & Hh).
  exists c'. split; [|done]. etransitivity; [exact Hc|done].
Qed.
Lemma echo_send_recv_ok : ∃ c', echo_send_recv c = Ok tt c' ∧ hung_up c'.
Proof using All.
  destruct (stage_ok Hsink Hdraw ep Hcap 19 2 s c message (λ mr, _ ← lift (post_send 1 (whole (mh_lkey mr) message));
    _ ← lift (poll_cq 10); lift disconnect) Hrun Hq) as (h & c1 & s1 & Hc1 & Hr1 & Hs1); [done|lia|].
  unfold echo_send_recv. rewrite Hc1. clear Hc1.
  destruct (send_turn Hsink Hdraw ep Hcap 17 2 s1 c1 h message _ 1 Hr1 Hs1)
    as (c2 & c3 & s3 & cqe & Hpoll & Hr3 & [(_ & Hc & _)|(Hz & _)]); try done; [|lia].
  rewrite (lift_bind _ _ _ _ _ Hc), (lift_bind _ _ _ _ _ Hpoll). by eapply disconnect_step.
Qed.
Lemma err_rnr_example_ok : ∃ c', err_rnr_example c = Ok tt c' ∧ hung_up c'.
Proof using All.
  destruct (stage_ok Hsink Hdraw ep Hcap 19 2 s c hello (λ mr, _ ← example_send_loop (whole (mh_lkey mr) hello) 1 4;
    _ ← still_alive (mh_lkey mr); lift disconnect) Hrun Hq) as (h & c1 & s1 & Hc1 & Hr1 & Hs1); [done|lia|].
  unfold err_rnr_example. rewrite Hc1. clear Hc1.
  destruct (example_send_loop_ok Hsink Hdraw ep Hcap 11 2 h hello 4 s1 c1 _ 1 Hr1 Hs1)
    as (c2 & s2 & m & Hc2 & Hr2 & Hs2); try done; try lia.
  rewrite (bind_Ok _ _ _ _ _ Hc2).
  destruct (still_alive_ok Hsink Hdraw ep Hcap 7 1 s2 c2 h _ Hr2 Hs2) as (c3 & s3 & Hc3 & Hr3).
  rewrite (bind_Ok _ _ _ _ _ Hc3). by eapply disconnect_step.
Qed.
End examples.

(** The modes of the command line, and the number of sends it asks for. *)
Definition modes : list (list byte) := [lit "write"; lit "read"; lit "echo"; lit "atomic"; lit "err_rnr"].
Definition mode_of (args : list (list byte)) : list byte := default (lit "write") (get_arg args (lit "--mode")).
Definition sends_of (args : list (list byte)) : option Z :=
  match get_arg args (lit "--sends") with Some s => parse_unsigned 64 s | None => Some 4 end.


Lemma client_main_eq args sends c :
  sends_of args = Some sends →
  client_main args c = (run_mode (mode_of args) sends ≫= λ _, lift disconnect) c.
Proof using Type.
  unfold sends_of, client_main. intros Hs.
  destruct (get_arg args (lit "--sends")) as [a|]; [by rewrite Hs|by injection Hs as <-].
Qed.

Lemma run_mode_ok ep s c mode sends :
  16 ≤ ep_capacity ep → sv_cq s = [] → 0 < sv_receives s →
  mode ∈ modes → 0 ≤ sends < 2 ^ 30 → running ep (2 + (2 * Z.to_nat sends + (4 + 15))) 3 s c →
  ∃ c' s' k, run_mode mode sends c = Ok tt c' ∧ running ep 0 k s' c'.
Proof using All.
  intros Hcap Hq Hrv Hmode Hs Hr. assert (0 ≤ sv_receives s) as Hrv' by lia. unfold modes in Hmode.
  repeat (apply elem_of_cons in Hmode as [->|Hmode]); [..|by apply not_elem_of_nil in Hmode].
  - destruct (demo_write_ok ep Hcap s c Hq Hrv' 0) as (c' & s' & ? & ?); [|by exists c', s', 0%nat].
    apply (running_le _ _ _ _ _ _ Hr). lia.
  - destruct (demo_read_ok ep Hcap s c Hq Hrv' 0) as (c' & s' & ? & ?); [|by exists c', s', 0%nat].
    apply (running_le _ _ _ _ _ _ Hr). lia.
  - destruct (demo_echo_ok ep Hcap s c Hq Hrv' 0) as (c' & s' & ? & ?); [lia| |by exists c', s', 2%nat].
    apply (running_le _ _ _ _ _ _ Hr). lia.
  - destruct (demo_atomic_ok ep Hcap s c Hq Hrv' 0) as (c' & s' & ? & ?); [|by exists c', s', 0%nat].
    apply (running_le _ _ _ _ _ _ Hr). lia.
  - destruct (demo_err_rnr_ok ep Hcap s c Hq Hrv' 0 sends Hs) as (c' & s' & Hrun & ?);
      [apply (running_le _ _ _ _ _ _ Hr); lia|]. exists c', s', 1%nat. split; [|done].
    change (run_mode (lit "err_rnr") sends) with (demo_err_rnr (P := Server) sends ≫= λ _, mret tt).
    by rewrite (bind_Ok _ _ _ _ _ Hrun).
Qed.

(** The demonstration client works.  For every command line whose mode is one
    of the five and whose number of sends parses (below 2^30), [main] connects to a
    fresh server with room for three regions and at least one receive, runs its
    demonstration and returns [Ok]: every verb succeeds, the assertions
    ([read_back == payload], [final_value == 5]) hold, and the final DISCONNECT
    leaves the server's session closed. *)
Theorem client_main_succeeds cfg d cap args sends :
  roomy cfg → 0 < cfg_recv_queue_depth cfg → 16 ≤ cap ≤ 2 ^ 32 →
  mode_of args ∈ modes → sends_of args = Some sends → 0 ≤ sends < 2 ^ 30 →
  ∃ cn wr c', connect_with_config d cap (fresh_server cfg) = Ok cn wr ∧
    client_main args (mkClient cn wr) = Ok tt c' ∧ hung_up c'.
Proof using All.
  intros Hcfg Hpos Hcap Hmode Hsends Hs.
  destruct (connect_running cfg d cap (2 + (2 * Z.to_nat sends + (4 + 15))) Hcfg Hcap ltac:(lia))
    as (ep & cn & wr & s & Hc & Hrun & Hep & Hq & Hrv & Hcr).
  destruct (run_mode_ok ep s (mkClient cn wr) (mode_of args) sends) as (c1 & s1 & k & Hm & Hr1); try done; try lia.
  destruct (disconnect_step Hsink Hdraw ep ltac:(lia) _ _ s1 c1 Hr1) as (c' & Hd & Hh).
  exists cn, wr, c'. rewrite (client_main_eq args sends _ Hsends), (bind_Ok _ _ _ _ _ Hm). by split_and!.
Qed.

(** The example programs of the client ([one_sided_write], [one_sided_read],
    [echo_send_recv], [atomic_counter] and [err_rnr_demo]) connect to such a server,
    run to completion without an error and end with the session closed. *)
Theorem examples_succeed cfg d cap prog :
  roomy cfg → 0 < cfg_recv_queue_depth cfg → 16 ≤ cap ≤ 2 ^ 32 →
  In prog [one_sided_write; one_sided_read; echo_send_recv; atomic_counter; err_rnr_example] →
  ∃ cn wr c', connect_with_config d cap (fresh_server cfg) = Ok cn wr ∧
    prog (mkClient cn wr) = Ok tt c' ∧ hung_up c'.
Proof using All.
  intros Hcfg Hpos Hcap Hprog. destruct (connect_running cfg d cap 21 Hcfg Hcap ltac:(done))
    as (ep & cn & wr & s & Hc & Hrun & Hep & Hq & Hrv & Hcr).
  exists cn, wr. assert (16 ≤ ep_capacity ep) as Hcap' by lia.
  assert (0 < sv_receives s) as Hcr' by lia.
  assert (∃ c', prog (mkClient cn wr) = Ok tt c' ∧ hung_up c') as (c' & ? & ?); [|by exists c'].
  repeat (destruct Hprog as [<-|Hprog]); [..|done].
  - by eapply one_sided_write_ok.
  - by eapply one_sided_read_ok.
  - by eapply echo_send_recv_ok.
  - by eapply atomic_counter_ok.
  - by eapply err_rnr_example_ok.
Qed.

(** C26: receiver not ready is reported and survived.  Against a server with [depth]
    receives, the ERR_RNR demonstration reports exactly [min(sends, depth)]
    successful sends (every further one ends in ERR_RNR), its last RDMA Write
    shows that the connection still works, and the two sides are in step at the end.
    The credits do not limit the sends, however large [depth] is. *)
Theorem err_rnr_counts cfg d cap sends :
  roomy cfg → 16 ≤ cap ≤ 2 ^ 32 → 0 ≤ sends < 2 ^ 30 →
  ∃ cn wr c', connect_with_config d cap (fresh_server cfg) = Ok cn wr ∧
    demo_err_rnr sends (mkClient cn wr) = Ok (Z.min sends (cfg_recv_queue_depth cfg)) c' ∧
    established MX 0 c'.
Proof using All.
  intros Hcfg Hcap Hs.
  destruct (connect_running cfg d cap (2 + (2 * Z.to_nat sends + (4 + 0))) Hcfg Hcap ltac:(lia))
    as (ep & cn & wr & s & Hc & Hrun & Hep & Hq & Hrv & Hcr). rewrite <-Hrv.
  destruct (demo_err_rnr_ok ep ltac:(lia) s _ Hq Hcr 0 sends Hs Hrun) as (c' & s' & Hd & Hr').
  exists cn, wr, c'. split_and!; try done. apply Hr'.
Qed.
End start.
