(* ===== verification/ProgramWitness.v ===== *)
(** * The programs, on concrete instances

    The programs of [Programs.v] against the default configuration of the server,
    with the counting random source. *)

From S2P Require Import Prelude Externals Utf8 Core Frame Payloads Message MemoryStore StoreSpec.
From S2P Require Import ServerState Handler Session SessionFacts SessionProps.
From S2P Require Import Client Verbs EndToEnd Registration Service Link Programs ProgramFacts ProgramProps.

Module ProgramWitness.
Import Concrete.

(** [N] successive draws are distinct, so they do not all fall into a smaller set. *)
Lemma counting_fresh (used : gset Z) (i N : nat) :
  (size used + 1 < N ≤ 1000)%nat →
  ∃ j, (j < N)%nat ∧ (Z.of_nat (i + j) + 1) mod 2 ^ 32 ∉ ({[0]} ∪ used : gset Z).
Proof.
  intros [Hsz Hn]. set (v (j : nat) := (Z.of_nat (i + j) + 1) mod 2 ^ 32).
  destruct (decide (Exists (λ j, v j ∉ {[0]} ∪ used) (seq 0 N))) as [He|Hne].
  { apply Exists_exists in He as (j & Hj%elem_of_seq & Hv). exists j. split; [lia|done]. }
  exfalso. assert (NoDup (v <$> seq 0 N)) as Hnd.
  { apply NoDup_fmap_2_strong; [|apply NoDup_seq]. intros x y Hx%elem_of_seq Hy%elem_of_seq. unfold v.
    intros Heq. Z.to_euclidean_division_equations. lia. }
  pose proof (size_list_to_set (C := gset Z) _ Hnd) as Hs. rewrite length_fmap, length_seq in Hs.
  assert (list_to_set (v <$> seq 0 N) ⊆ ({[0]} ∪ used : gset Z)) as Hsub.
  { intros x Hx%elem_of_list_to_set. apply list_elem_of_fmap in Hx as (j & -> & Hj).
    destruct (decide (v j ∈ {[0]} ∪ used)); [done|]. destruct Hne. apply Exists_exists. by exists j. }
  apply subseteq_size in Hsub. rewrite Hs in Hsub.
  pose proof (size_union_alt ({[0]} : gset Z) used) as Hu. rewrite size_singleton in Hu.
  pose proof (subseteq_size (used ∖ {[0]}) used ltac:(set_solver)). lia.
Qed.
Lemma counting_source : good_source.
Proof.
  intros used i Hsz. split; [done|]. destruct (counting_fresh used i 1000) as (j & Hj & Hv); [lia|].
  rewrite elem_of_union, elem_of_singleton in Hv. exists j, (be_bytes 4 (Z.of_nat (i + j) + 1)).
  rewrite be_value_be_bytes. change (wrap _ (Z.of_nat (i + j) + 1)) with ((Z.of_nat (i + j) + 1) mod 2 ^ 32).
  split_and!; [lia|done|tauto|tauto].
Qed.
Lemma always_sends : ∀ log, ws_send_error log = None.
Proof. done. Qed.

(** [client --url wss://... --mode atomic] *)
Lemma client_main_succeeds_witness :
  ∃ cn wr c', connect_with_config 0 65536 (fresh_server ServerConfig_default) = Ok cn wr ∧
    client_main [lit "client"; lit "--mode"; lit "atomic"] (mkClient cn wr) = Ok tt c' ∧ hung_up c'.
Proof.
  apply (client_main_succeeds always_sends counting_source ServerConfig_default 0 65536
    [lit "client"; lit "--mode"; lit "atomic"] 4); try done.
  apply (bool_decide_unpack _). vm_compute. exact I.
Defined.

Lemma examples_succeed_witness :
  ∃ cn wr c', connect_with_config 0 65536 (fresh_server ServerConfig_default) = Ok cn wr ∧
    echo_send_recv (mkClient cn wr) = Ok tt c' ∧ hung_up c'.
Proof.
  apply (examples_succeed always_sends counting_source ServerConfig_default 0 65536 echo_send_recv);
    try done. right. right. by left.
Defined.

(** A server with two receives, as the demonstration's instructions start it. *)
Definition two_receives : ServerConfig := mkConfig 2 4096 (32 * 1024 * 1024 * 1024) 128 256 1000.
Lemma err_rnr_counts_witness :
  ∃ cn wr c', connect_with_config 0 65536 (fresh_server two_receives) = Ok cn wr ∧
    demo_err_rnr 4 (mkClient cn wr) = Ok 2 c' ∧ established MX 0 c'.
Proof.
  apply (err_rnr_counts always_sends counting_source two_receives 0 65536 4); done.
Defined.
End ProgramWitness.
