(* ===== verification/Kv.v ===== *)
(** * The key-value store ([rdows-kv/src/kv.rs])

    A hash table of 64 slots of 1024 bytes kept in one remote memory region; every
    access to a slot is an RDMA Read or Write of the client of [Verbs.v].  A [&str]
    is the list of its bytes.  A pure function that may panic returns an [option],
    [None] being the panic. *)

From S2P Require Import Prelude Externals Utf8 Core Frame Payloads Message Client Verbs.

Definition SLOT_COUNT : nat := 64.
Definition SLOT_SIZE : Z := 1024.
Definition MR_SIZE : Z := Z.of_nat SLOT_COUNT * SLOT_SIZE.
Definition MAX_KEY_LEN : Z := 255.
Definition MAX_VALUE_LEN : Z := 764.

Definition OFF_STATUS : nat := 0.
Definition OFF_KEY_LEN : Z := 1.
Definition OFF_VAL_LEN : Z := 3.
Definition OFF_KEY : Z := 5.
Definition OFF_VALUE : Z := 260.

Inductive KvError : Type :=
| Rdma (e : RdowsError)
| TableFull
| KeyTooLong
| ValueTooLong.

(** Why a call on the store does not return a value ([Stop] of the client). *)
Inductive KvStop : Type :=
| KvFailed (e : KvError)
| KvWaiting.

Record PutResult := mkPutResult {
  pr_operation : list byte; pr_slot : Z; pr_offset : list byte; pr_bytes : Z;
  pr_key : list byte; pr_value : list byte; pr_probes : Z; pr_update : bool;
}.
Record GetResult := mkGetResult {
  gr_operation : list byte; gr_slot : Z; gr_offset : list byte; gr_bytes : Z;
  gr_key : list byte; gr_value : list byte; gr_probes : Z; gr_raw_hex : list (list byte);
}.
Record DeleteResult := mkDeleteResult {
  dr_operation : list byte; dr_slot : Z; dr_offset : list byte; dr_bytes : Z;
  dr_key : list byte; dr_probes : Z; dr_found : bool;
}.
Record SlotInfo := mkSlotInfo {
  si_index : Z; si_offset : list byte; si_occupied : bool;
  si_key : option (list byte); si_value : option (list byte);
}.

(** ** Hashing and the slot format *)

(** 32-bit FNV-1a, reduced to a slot number. *)
Definition hash_step (hash : Z) (b : byte) : Z :=
  wrapping_mul 32 (Z.lxor hash (Z_of_byte b)) 16777619.
Definition hash_key (key : list byte) : Z :=
  fold_left hash_step key 2166136261 mod Z.of_nat SLOT_COUNT.

Definition zero_slot : list byte := replicate (Z.to_nat SLOT_SIZE) x00.

Definition encode_slot (key value : list byte) : option (list byte) :=
  let slot := <[OFF_STATUS := x01]> zero_slot in
  slot ← slice_copy slot OFF_KEY_LEN (OFF_KEY_LEN + 2) (be_bytes 2 (wrap 16 (zlen key)));
  slot ← slice_copy slot OFF_VAL_LEN (OFF_VAL_LEN + 2) (be_bytes 2 (wrap 16 (zlen value)));
  slot ← slice_copy slot OFF_KEY (OFF_KEY + zlen key) key;
  slice_copy slot OFF_VALUE (OFF_VALUE + zlen value) value.

(** [u16::from_be_bytes([data[off], data[off + 1]])] *)
Definition be_u16_at (data : list byte) (off : Z) : option Z :=
  a ← data !! Z.to_nat off;
  b ← data !! Z.to_nat (off + 1);
  Some (be_value [a; b]).

Definition decode_slot (data : list byte) : option (option (list byte * list byte)) :=
  status ← data !! OFF_STATUS;
  if Z_of_byte status =? 0 then Some None else
  key_len ← be_u16_at data OFF_KEY_LEN;
  val_len ← be_u16_at data OFF_VAL_LEN;
  k ← slice data OFF_KEY (OFF_KEY + key_len);
  let key := from_utf8_lossy k in
  v ← slice data OFF_VALUE (OFF_VALUE + val_len);
  let value := from_utf8_lossy v in
  Some (Some (key, value)).

(** ** Hexadecimal dumps *)

(** [{:<w}] of an ASCII string *)
Definition pad_right (w : nat) (s : list byte) : list byte := s ++ replicate (w - length s) x20.
(** [format!("0x{:04X}", idx * SLOT_SIZE)] *)
Definition slot_offset (idx : Z) : list byte := lit "0x" ++ fmt_hex 4 (idx * SLOT_SIZE).

(** [data.chunks(n)] *)
Fixpoint chunks_fuel {A} (fuel n : nat) (l : list A) : list (list A) :=
  match fuel, l with
  | S fuel', _ :: _ => take n l :: chunks_fuel fuel' n (drop n l)
  | _, _ => []
  end.
Definition chunks {A} (n : nat) (l : list A) : list (list A) := chunks_fuel (length l) n l.

(** [v.join(" ")] *)
Fixpoint join_spaces (v : list (list byte)) : list byte :=
  match v with
  | [] => []
  | [x] => x
  | x :: v' => x ++ [x20] ++ join_spaces v'
  end.
Definition hex_line (base_offset : Z) (i : nat) (chunk : list byte) : list byte :=
  let hex := (λ b, fmt_hex 2 (Z_of_byte b)) <$> chunk in
  let ascii := (λ b, if in_range 0x20 0x7E (Z_of_byte b) then b else x2e) <$> chunk in
  fmt_hex 4 (base_offset + Z.of_nat i * 16) ++ lit "  " ++ pad_right 48 (join_spaces hex)
    ++ lit "  " ++ ascii.
Definition hex_dump_region (data : list byte) (base_offset : Z) (max_lines : Z)
    : list (list byte) :=
  imap (hex_line base_offset) (take (Z.to_nat max_lines) (chunks 16 data)).

Definition div_ceil (a b : Z) : Z := (a + b - 1) / b.
Definition slot_hex_lines (data : list byte) : option (list (list byte)) :=
  header ← slice data 0 OFF_KEY;
  key_len ← be_u16_at data OFF_KEY_LEN;
  let key_show := div_ceil key_len 16 + 1 in
  key_data ← slice data OFF_KEY (OFF_KEY + Z.min key_show 16 * 16);
  val_len ← be_u16_at data OFF_VAL_LEN;
  let val_show := div_ceil val_len 16 + 1 in
  let val_end := Z.min (OFF_VALUE + val_show * 16) SLOT_SIZE in
  val_data ← slice data OFF_VALUE val_end;
  Some ([lit "--- header (status, key_len, val_len) ---"]
    ++ hex_dump_region header 0 1
    ++ [lit "--- key data (" ++ dec_display key_len ++ lit " bytes) ---"]
    ++ hex_dump_region key_data OFF_KEY (Z.min key_show 16)
    ++ [lit "--- value data (" ++ dec_display val_len ++ lit " bytes) ---"]
    ++ hex_dump_region val_data OFF_VALUE (Z.min val_show 48)).

(** ** The store *)

Record KvStore (P : Type) := mkKv {
  kv_conn : Client P;
  remote_rkey : RKey;
  local_lkey : LKey;
  kv_session_id : Z;
  remote_rkey_value : Z;
  kv_next_wrid : Z;
}.
Arguments mkKv {P} _ _ _ _ _ _.
Arguments kv_conn {P} _.
Arguments remote_rkey {P} _.
Arguments local_lkey {P} _.
Arguments kv_session_id {P} _.
Arguments remote_rkey_value {P} _.
Arguments kv_next_wrid {P} _.

Definition KvStore_new {P} (conn : Client P) (session_id : Z) (rkey : RKey) (lkey : LKey)
    : KvStore P :=
  mkKv conn rkey lkey session_id rkey 1.
Definition set_kv_conn {P} (c : Client P) (k : KvStore P) : KvStore P :=
  mkKv c (remote_rkey k) (local_lkey k) (kv_session_id k) (remote_rkey_value k) (kv_next_wrid k).
Definition set_next_wrid {P} (n : Z) (k : KvStore P) : KvStore P :=
  mkKv (kv_conn k) (remote_rkey k) (local_lkey k) (kv_session_id k) (remote_rkey_value k) n.

Section kv.
Context `{BytesCrate, Profile} {P : Type} `{!Peer P}.

(** A call on [self.conn], its error converted by [?]. *)
Definition on_conn {A} (m : M (Client P) Stop A) : M (KvStore P) KvStop A := λ k,
  match m (kv_conn k) with
  | Ok a c => Ok a (set_kv_conn c k)
  | Err (Failed e) c => Err (KvFailed (Rdma e)) (set_kv_conn c k)
  | Err Waiting c => Err KvWaiting (set_kv_conn c k)
  | Panic => Panic
  end.
Definition kv_field {A} (f : KvStore P → A) : M (KvStore P) KvStop A := k ← getS; mret (f k).

Definition next_wrid : M (KvStore P) KvStop Z :=
  id ← kv_field kv_next_wrid;
  next ← add_ovf 64 id 1;
  _ ← modifyS (set_next_wrid next);
  mret id.

Definition read_slot (slot_index : Z) : M (KvStore P) KvStop (list byte) :=
  remote_va ← ovf 64 (slot_index * SLOT_SIZE);
  wrid ← next_wrid;
  rkey ← kv_field remote_rkey;
  lkey ← kv_field local_lkey;
  _ ← on_conn (rdma_read wrid rkey remote_va SLOT_SIZE lkey 0);
  _ ← on_conn (poll_cq 1);
  data ← on_conn (read_local_mr lkey 0 SLOT_SIZE);
  or_panic (slice_copy zero_slot 0 SLOT_SIZE data).

Definition write_slot (slot_index : Z) (slot_data : list byte) : M (KvStore P) KvStop unit :=
  remote_va ← ovf 64 (slot_index * SLOT_SIZE);
  lkey ← kv_field local_lkey;
  _ ← on_conn (write_local_mr lkey 0 slot_data);
  wrid ← next_wrid;
  rkey ← kv_field remote_rkey;
  _ ← on_conn (rdma_write wrid rkey remote_va [mkSge lkey 0 SLOT_SIZE]);
  _ ← on_conn (poll_cq 1);
  mret tt.

(** [(start + i) % SLOT_COUNT] *)
Definition probe_index (start : Z) (i : Z) : Z := (start + i) mod Z.of_nat SLOT_COUNT.

(** The loops [for i in 0..SLOT_COUNT], with [n] turns left. *)
Fixpoint put_loop (key value : list byte) (n : nat) (i : Z) : M (KvStore P) KvStop PutResult :=
  match n with
  | O => throw (KvFailed TableFull)
  | S n' =>
      let idx := probe_index (hash_key key) i in
      slot ← read_slot idx;
      entry ← or_panic (decode_slot slot);
      match entry with
      | None =>
          new_slot ← or_panic (encode_slot key value);
          _ ← write_slot idx new_slot;
          mret (mkPutResult (lit "RDMA_WRITE") idx (slot_offset idx) SLOT_SIZE key value (i + 1) false)
      | Some (existing_key, _) =>
          if bool_decide (existing_key = key) then
            new_slot ← or_panic (encode_slot key value);
            _ ← write_slot idx new_slot;
            mret (mkPutResult (lit "RDMA_WRITE") idx (slot_offset idx) SLOT_SIZE key value (i + 1) true)
          else put_loop key value n' (i + 1)
      end
  end.
Definition put (key value : list byte) : M (KvStore P) KvStop PutResult :=
  if MAX_KEY_LEN <? zlen key then throw (KvFailed KeyTooLong) else
  if MAX_VALUE_LEN <? zlen value then throw (KvFailed ValueTooLong) else
  put_loop key value SLOT_COUNT 0.

Fixpoint get_loop (key : list byte) (n : nat) (i : Z) : M (KvStore P) KvStop (option GetResult) :=
  match n with
  | O => mret None
  | S n' =>
      let idx := probe_index (hash_key key) i in
      slot ← read_slot idx;
      entry ← or_panic (decode_slot slot);
      match entry with
      | None => mret None
      | Some (existing_key, value) =>
          if bool_decide (existing_key = key) then
            raw_hex ← or_panic (slot_hex_lines slot);
            mret (Some (mkGetResult (lit "RDMA_READ") idx (slot_offset idx) SLOT_SIZE key value
                          (i + 1) raw_hex))
          else get_loop key n' (i + 1)
      end
  end.
Definition get (key : list byte) : M (KvStore P) KvStop (option GetResult) :=
  get_loop key SLOT_COUNT 0.

Fixpoint delete_loop (key : list byte) (n : nat) (i : Z) : M (KvStore P) KvStop DeleteResult :=
  match n with
  | O =>
      let start := hash_key key in
      mret (mkDeleteResult (lit "RDMA_READ") start (slot_offset start) SLOT_SIZE key
              (Z.of_nat SLOT_COUNT) false)
  | S n' =>
      let idx := probe_index (hash_key key) i in
      slot ← read_slot idx;
      entry ← or_panic (decode_slot slot);
      match entry with
      | None =>
          mret (mkDeleteResult (lit "RDMA_WRITE") idx (slot_offset idx) SLOT_SIZE key (i + 1) false)
      | Some (existing_key, _) =>
          if bool_decide (existing_key = key) then
            _ ← write_slot idx zero_slot;
            mret (mkDeleteResult (lit "RDMA_WRITE") idx (slot_offset idx) SLOT_SIZE key (i + 1) true)
          else delete_loop key n' (i + 1)
      end
  end.
Definition kv_delete (key : list byte) : M (KvStore P) KvStop DeleteResult :=
  delete_loop key SLOT_COUNT 0.

Fixpoint dump_loop (n : nat) (idx : Z) (slots : list SlotInfo) : M (KvStore P) KvStop (list SlotInfo) :=
  match n with
  | O => mret slots
  | S n' =>
      slot ← read_slot idx;
      entry ← or_panic (decode_slot slot);
      let '(occupied, key, value) :=
        match entry with
        | Some (k, v) => (true, Some k, Some v)
        | None => (false, None, None)
        end in
      dump_loop n' (idx + 1) (slots ++ [mkSlotInfo idx (slot_offset idx) occupied key value])
  end.
Definition dump_slots : M (KvStore P) KvStop (list SlotInfo) := dump_loop SLOT_COUNT 0 [].

(** The set-up of [main]: the table and the staging buffer are registered and the
    store is built around the connection. *)
Definition kv_setup : M (Client P) Stop (KvStore P) :=
  session_id ← self c_session_id;
  remote_mr ← reg_mr (AccessFlags_bitor REMOTE_WRITE REMOTE_READ) MR_SIZE;
  local_mr ← reg_mr LOCAL_WRITE SLOT_SIZE;
  c ← getS;
  mret (KvStore_new c session_id (mh_rkey remote_mr) (mh_lkey local_mr)).
End kv.
