(* ===== verification/KvTable.v ===== *)
(** * The table behind the key-value store

    The slot format of [Kv.v] and its inverse, the table of decoded slots, and its
    operations by linear probing.  [SlotMemory] is what the store needs of the
    remote memory; against it [get], [put] and [kv_delete] are proved to do what
    the table operations do. *)

From S2P Require Import Prelude Externals Utf8 Core Frame Payloads Message Client Verbs Kv.

(** ** The slot format *)

Definition slot_bytes (key value : list byte) : list byte :=
  [x01] ++ be_bytes 2 (zlen key) ++ be_bytes 2 (zlen value)
    ++ key ++ replicate (255 - length key) x00 ++ value ++ replicate (764 - length value) x00.

Lemma splice_app {A} (a b c d : list A) :
  length b = length d → splice (a ++ b ++ c) (length a) d = a ++ d ++ c.
Proof.
  intros Hd. unfold splice. rewrite take_app_length, <-Hd, drop_app_add.
  by rewrite drop_app_length.
Qed.
Lemma slice_copy_app {A} (a b c d : list A) start stop :
  start = zlen a → stop = start + zlen d → length b = length d →
  slice_copy (a ++ b ++ c) start stop d = Some (a ++ d ++ c).
Proof.
  intros -> -> Hb. unfold zlen. rewrite slice_copy_Some; unfold zlen; rewrite ?length_app; [|lia..].
  by rewrite Nat2Z.id, splice_app.
Qed.
Lemma slice_app {A} (a b c : list A) start stop :
  start = zlen a → stop = start + zlen b → slice (a ++ b ++ c) start stop = Some b.
Proof.
  intros -> ->. unfold zlen. rewrite slice_Some; unfold zlen; rewrite ?length_app; [|lia..].
  rewrite Nat2Z.id, drop_app_length, Z.add_simpl_l, Nat2Z.id. by rewrite take_app_length.
Qed.

Lemma wrap16 n : 0 ≤ n < 2 ^ 16 → wrap 16 n = n.
Proof. intros. by apply wrap_id. Qed.

(** [encode_slot] does not panic within the limits and lays the slot out. *)
Lemma encode_slot_eq key value :
  zlen key ≤ MAX_KEY_LEN → zlen value ≤ MAX_VALUE_LEN →
  encode_slot key value = Some (slot_bytes key value).
Proof.
  intros Hk Hv. unfold MAX_KEY_LEN, MAX_VALUE_LEN in *. unfold encode_slot, slot_bytes.
  pose proof (zlen_nonneg key). pose proof (zlen_nonneg value).
  rewrite !wrap16 by lia. set (kl := be_bytes 2 (zlen key)). set (vl := be_bytes 2 (zlen value)).
  assert (<[OFF_STATUS := x01]> zero_slot = [x01] ++ replicate 2 x00 ++ replicate 1021 x00) as ->
    by reflexivity.
  rewrite (slice_copy_app [x01]) by (unfold kl; done). cbn [option_bind mbind].
  assert ([x01] ++ kl ++ replicate 1021 x00 = ([x01] ++ kl) ++ replicate 2 x00 ++ replicate 1019 x00) as ->
    by reflexivity.
  rewrite (slice_copy_app ([x01] ++ kl)) by (unfold kl, vl; done). cbn [option_bind mbind].
  unfold zlen in *.
  replace (replicate 1019 x00) with (replicate (length key) x00 ++
    replicate (255 - length key) x00 ++ replicate (length value) x00 ++ replicate (764 - length value) x00)
    by (rewrite <-!replicate_add; f_equal; lia).
  rewrite (app_assoc ([x01] ++ kl)).
  rewrite (slice_copy_app (([x01] ++ kl) ++ vl)) by (rewrite ?length_replicate; done).
  cbn [option_bind mbind].
  rewrite (app_assoc key), (app_assoc (([x01] ++ kl) ++ vl)).
  rewrite (slice_copy_app ((([x01] ++ kl) ++ vl) ++ key ++ _)).
  - by rewrite <-!(assoc_L (++)).
  - unfold zlen, kl, vl. rewrite !length_app, length_replicate, !length_be_bytes. cbn [length].
    unfold OFF_VALUE. lia.
  - done.
  - by rewrite length_replicate.
Qed.

Lemma length_slot_bytes key value :
  zlen key ≤ MAX_KEY_LEN → zlen value ≤ MAX_VALUE_LEN → zlen (slot_bytes key value) = SLOT_SIZE.
Proof.
  unfold MAX_KEY_LEN, MAX_VALUE_LEN, SLOT_SIZE, zlen, slot_bytes. intros.
  rewrite !length_app, !length_replicate, !length_be_bytes. cbn [length]. lia.
Qed.

(** The two length fields of a slot. *)
Lemma be_u16_at_eq a n r off :
  off = zlen a → 0 ≤ n < 2 ^ 16 → be_u16_at (a ++ be_bytes 2 n ++ r) off = Some n.
Proof.
  intros -> Hn. unfold be_u16_at, zlen. rewrite Z.add_1_r, <-Nat2Z.inj_succ, !Nat2Z.id.
  rewrite !(lookup_app_r a), Nat.sub_diag by lia. replace (S (length a) - length a)%nat with 1%nat by lia.
  assert (be_value (be_bytes 2 n) = n) as Hv by (rewrite be_value_be_bytes; apply Z.mod_small; lia).
  cbn [be_bytes app lookup list_lookup mbind option_bind]. by f_equal.
Qed.

(** What a slot holds: nothing, or a key and a value. *)
Abbreviation Entry := (list byte * list byte)%type.
Definition entry_ok (e : Entry) : Prop :=
  valid_utf8 e.1 ∧ valid_utf8 e.2 ∧ zlen e.1 ≤ MAX_KEY_LEN ∧ zlen e.2 ≤ MAX_VALUE_LEN.
Definition slot_of (o : option Entry) : list byte :=
  match o with None => zero_slot | Some (k, v) => slot_bytes k v end.
Definition slot_ok (o : option Entry) : Prop := from_option entry_ok True o.

Lemma zlen_slot_of o : slot_ok o → zlen (slot_of o) = SLOT_SIZE.
Proof. destruct o as [[k v]|]; [|done]. intros (_ & _ & ? & ?). by apply length_slot_bytes. Qed.

Lemma decode_slot_of o : slot_ok o → decode_slot (slot_of o) = Some o.
Proof.
  destruct o as [[k v]|]; [|done]. intros (Hvk & Hvv & Hk & Hv). cbn [fst snd] in *.
  unfold MAX_KEY_LEN, MAX_VALUE_LEN in *. pose proof (zlen_nonneg k). pose proof (zlen_nonneg v).
  cbn [slot_of]. unfold decode_slot.
  assert (slot_bytes k v !! OFF_STATUS = Some x01) as -> by reflexivity. cbn [mbind option_bind].
  change (Z_of_byte x01 =? 0) with false. cbn iota.
  assert (be_u16_at (slot_bytes k v) OFF_KEY_LEN = Some (zlen k)) as ->
    by (apply (be_u16_at_eq [x01]); [done|lia]).
  assert (be_u16_at (slot_bytes k v) OFF_VAL_LEN = Some (zlen v)) as ->
    by (apply (be_u16_at_eq ([x01] ++ be_bytes 2 (zlen k))); [done|lia]).
  cbn [mbind option_bind].
  set (len := [x01] ++ be_bytes 2 (zlen k) ++ be_bytes 2 (zlen v)).
  assert (slice (slot_bytes k v) OFF_KEY (OFF_KEY + zlen k) = Some k) as ->
    by (apply (slice_app len k); done).
  assert (slice (slot_bytes k v) OFF_VALUE (OFF_VALUE + zlen v) = Some v) as ->.
  { replace (slot_bytes k v) with ((len ++ k ++ replicate (255 - length k) x00) ++ v ++
      replicate (764 - length v) x00) by (unfold slot_bytes, len; by rewrite <-!(assoc_L (++))).
    apply slice_app; [|done]. unfold len, zlen in *. rewrite !length_app, length_replicate, !length_be_bytes.
    cbn [length]. unfold OFF_VALUE. lia. }
  cbn [mbind option_bind]. by rewrite !from_utf8_lossy_valid.
Qed.

(** The dump of a slot never reads outside of it. *)
Lemma slot_hex_lines_total data : zlen data = SLOT_SIZE → is_Some (slot_hex_lines data).
Proof.
  intros Hd. assert (∀ off, 0 ≤ off ≤ 1022 → ∃ n, be_u16_at data off = Some n ∧ 0 ≤ n) as Hu.
  { intros off Hoff. unfold be_u16_at, zlen, SLOT_SIZE in *.
    destruct (lookup_lt_is_Some_2 data (Z.to_nat off)) as [a ->]; [lia|].
    destruct (lookup_lt_is_Some_2 data (Z.to_nat (off + 1))) as [b ->]; [lia|].
    cbn [mbind option_bind]. eexists. split; [done|]. apply be_value_range. }
  unfold slot_hex_lines, OFF_KEY, OFF_VALUE, OFF_KEY_LEN, OFF_VAL_LEN, SLOT_SIZE, div_ceil in *.
  rewrite slice_Some by lia. cbn [mbind option_bind].
  destruct (Hu 1) as (kl & -> & Hkl); [lia|]. cbn [mbind option_bind].
  destruct (Hu 3) as (vl & -> & Hvl); [lia|].
  assert (0 ≤ (kl + 16 - 1) / 16) by (apply Z.div_pos; lia).
  assert (0 ≤ (vl + 16 - 1) / 16) by (apply Z.div_pos; lia).
  rewrite slice_Some by lia. cbn [mbind option_bind]. rewrite slice_Some by lia. by eexists.
Qed.

(** ** The table *)

Abbreviation Table := (list (option Entry)).
Record table_ok (tbl : Table) : Prop := {
  tbl_length : length tbl = SLOT_COUNT;
  tbl_slots : Forall slot_ok tbl;
}.

(** The [i]-th slot probed for a key. *)
Definition path (key : list byte) (i : nat) : nat :=
  Z.to_nat (probe_index (hash_key key) (Z.of_nat i)).
(** Probing stops at an empty slot and at the slot of the key. *)
Definition stops (tbl : Table) (key : list byte) (idx : nat) : bool :=
  match tbl !! idx with Some (Some (k, _)) => bool_decide (k = key) | _ => true end.
Fixpoint probe (tbl : Table) (key : list byte) (n i : nat) : option nat :=
  match n with
  | O => None
  | S n' => if stops tbl key (path key i) then Some i else probe tbl key n' (S i)
  end.
Definition find (tbl : Table) (key : list byte) : option nat := path key <$> probe tbl key SLOT_COUNT 0.
(** What [get] answers. *)
Definition table_get (tbl : Table) (key : list byte) : option (list byte) :=
  idx ← find tbl key; o ← tbl !! idx; e ← o; Some e.2.

Lemma probe_index_range s i : 0 ≤ probe_index s i < Z.of_nat SLOT_COUNT.
Proof. apply Z.mod_pos_bound. done. Qed.
Lemma path_lt key i : (path key i < SLOT_COUNT)%nat.
Proof. unfold path. pose proof (probe_index_range (hash_key key) (Z.of_nat i)). lia. Qed.
Lemma path_Z key i : Z.of_nat (path key i) = probe_index (hash_key key) (Z.of_nat i).
Proof. unfold path. pose proof (probe_index_range (hash_key key) (Z.of_nat i)). lia. Qed.
(** The probes of a key visit every slot. *)
Lemma path_surj key idx : (idx < SLOT_COUNT)%nat → ∃ i, (i < SLOT_COUNT)%nat ∧ path key i = idx.
Proof.
  intros Hi. unfold SLOT_COUNT in *. exists (Z.to_nat ((Z.of_nat idx - hash_key key) mod 64)).
  pose proof (Z.mod_pos_bound (Z.of_nat idx - hash_key key) 64 ltac:(lia)). split; [lia|].
  unfold path, probe_index, SLOT_COUNT. rewrite Z2Nat.id by lia. change (Z.of_nat 64) with 64.
  rewrite Z.add_mod_idemp_r by lia. replace (hash_key key + (Z.of_nat idx - hash_key key)) with (Z.of_nat idx) by lia.
  rewrite Z.mod_small by lia. lia.
Qed.

Lemma path_inj key i j :
  (i < SLOT_COUNT)%nat → (j < SLOT_COUNT)%nat → path key i = path key j → i = j.
Proof.
  unfold SLOT_COUNT. intros Hi Hj Hp%(f_equal Z.of_nat). rewrite !path_Z in Hp.
  unfold probe_index, SLOT_COUNT in Hp. change (Z.of_nat 64) with 64 in Hp.
  Z.to_euclidean_division_equations. lia.
Qed.

Section probing.
Implicit Types (tbl : Table) (key : list byte).

Lemma probe_Some tbl key n i j :
  probe tbl key n i = Some j ↔
  (i ≤ j < i + n)%nat ∧ stops tbl key (path key j) = true ∧
  ∀ m, (i ≤ m < j)%nat → stops tbl key (path key m) = false.
Proof.
  revert i. induction n as [|n IH]; intros i; cbn [probe]; [split; [done|lia]|].
  destruct (stops tbl key (path key i)) eqn:Hs.
  - split; [intros [= <-]; split_and!; [lia|lia|done|intros m ?; lia]|].
    intros (Hj & _ & Hm). f_equal. destruct (decide (i = j)); [done|].
    rewrite (Hm i) in Hs; [done|lia].
  - rewrite IH. split.
    + intros (Hj & Hst & Hm). split_and!; [lia|lia|done|]. intros m Hi.
      destruct (decide (m = i)) as [->|]; [done|apply Hm; lia].
    + intros (Hj & Hst & Hm). assert (i ≠ j) by congruence.
      split_and!; [lia|lia|done|]. intros m Hi. apply Hm. lia.
Qed.
Lemma probe_None tbl key n i :
  probe tbl key n i = None ↔ ∀ m, (i ≤ m < i + n)%nat → stops tbl key (path key m) = false.
Proof.
  revert i. induction n as [|n IH]; intros i; cbn [probe]; [split; [intros _ m ?; lia|done]|].
  destruct (stops tbl key (path key i)) eqn:Hs.
  - split; [done|]. intros Hm. rewrite (Hm i) in Hs; [done|lia].
  - rewrite IH. split; intros Hm m Hi; [|apply Hm; lia].
    destruct (decide (m = i)) as [->|]; [done|apply Hm; lia].
Qed.

(** [find] is the first probe that stops. *)
Lemma find_Some tbl key idx :
  find tbl key = Some idx ↔
  ∃ j, (j < SLOT_COUNT)%nat ∧ path key j = idx ∧ stops tbl key idx = true ∧
    ∀ m, (m < j)%nat → stops tbl key (path key m) = false.
Proof.
  unfold find. rewrite fmap_Some. split.
  - intros (j & Hp & ->). apply probe_Some in Hp as (? & ? & Hm). exists j.
    split_and!; try done; [lia|]. intros m ?. apply Hm. lia.
  - intros (j & ? & <- & ? & Hm). exists j. split; [|done]. apply probe_Some.
    split_and!; [lia|lia|done|]. intros m ?. apply Hm. lia.
Qed.
Lemma find_None tbl key :
  length tbl = SLOT_COUNT →
  find tbl key = None ↔ ∀ idx, (idx < SLOT_COUNT)%nat → stops tbl key idx = false.
Proof.
  intros Hl. unfold find. rewrite fmap_None, probe_None. split.
  - intros Hm idx Hi. destruct (path_surj key idx Hi) as (i & ? & <-). apply Hm. lia.
  - intros Hm m _. apply Hm, path_lt.
Qed.
Lemma find_lt tbl key idx : find tbl key = Some idx → (idx < SLOT_COUNT)%nat.
Proof. intros (j & _ & <- & _)%find_Some. apply path_lt. Qed.

Lemma stops_empty tbl key idx : tbl !! idx = Some None → stops tbl key idx = true.
Proof. unfold stops. by intros ->. Qed.
Lemma stops_entry tbl key idx k v :
  tbl !! idx = Some (Some (k, v)) → stops tbl key idx = bool_decide (k = key).
Proof. unfold stops. by intros ->. Qed.
Lemma stops_insert_other tbl key idx idx' o :
  idx ≠ idx' → stops (<[idx := o]> tbl) key idx' = stops tbl key idx'.
Proof. intros. unfold stops. by rewrite list_lookup_insert_ne. Qed.
Lemma stops_insert tbl key idx o :
  (idx < length tbl)%nat → stops (<[idx := o]> tbl) key idx = from_option (λ e, bool_decide (e.1 = key)) true o.
Proof. intros. unfold stops. rewrite list_lookup_insert_eq by done. by destruct o as [[k v]|]. Qed.
End probing.

(** Every stored key is where probing for it ends. *)
Definition chained (tbl : Table) : Prop :=
  ∀ idx k v, tbl !! idx = Some (Some (k, v)) → find tbl k = Some idx.

(** The slots probed for a key before the one where probing ends. *)
Definition probed_through (tbl : Table) (key : list byte) (idx : nat) : bool :=
  match probe tbl key SLOT_COUNT 0 with
  | Some j => existsb (λ m, bool_decide (path key m = idx)) (seq 0 j)
  | None => false
  end.

Section map.
Implicit Types (tbl : Table) (key : list byte).

Lemma table_get_Some tbl key v :
  chained tbl → table_get tbl key = Some v ↔ ∃ idx, tbl !! idx = Some (Some (key, v)).
Proof.
  intros Hc. unfold table_get. split.
  - intros (idx & Hf & (o & Ho & ([k v'] & -> & [= <-])%bind_Some)%bind_Some)%bind_Some.
    apply find_Some in Hf as (j & _ & _ & Hs & _). rewrite (stops_entry _ _ _ _ _ Ho) in Hs.
    apply bool_decide_eq_true in Hs as ->. by exists idx.
  - intros (idx & Hi). rewrite (Hc _ _ _ Hi). cbn [mbind option_bind]. by rewrite Hi.
Qed.

Lemma find_insert tbl key p v :
  length tbl = SLOT_COUNT → find tbl key = Some p →
  find (<[p := Some (key, v)]> tbl) key = Some p.
Proof.
  intros Hl Hf. pose proof (find_lt _ _ _ Hf). apply find_Some in Hf as (j & Hj & Hp & Hs & Hm).
  apply find_Some. exists j. split_and!; [done|done|..].
  - rewrite stops_insert by lia. by apply bool_decide_eq_true.
  - intros m Hmj. rewrite stops_insert_other; [by apply Hm|]. intros ->. by rewrite Hm in Hs.
Qed.
Lemma find_insert_other tbl key k p q v :
  length tbl = SLOT_COUNT → (p < SLOT_COUNT)%nat → k ≠ key → find tbl k = Some q → p ≠ q →
  find (<[p := Some (key, v)]> tbl) k = Some q.
Proof.
  intros Hl Hp Hk (j & Hj & Hq & Hs & Hm)%find_Some Hpq. apply find_Some. exists j.
  split_and!; [done|done|by rewrite stops_insert_other|]. intros m Hmj.
  destruct (decide (p = path k m)) as [->|]; [|rewrite stops_insert_other by done; by apply Hm].
  rewrite stops_insert by lia. by apply bool_decide_eq_false.
Qed.

(** Storing where probing ends keeps the table chained ... *)
Lemma insert_chained tbl key p v :
  length tbl = SLOT_COUNT → chained tbl → find tbl key = Some p →
  chained (<[p := Some (key, v)]> tbl).
Proof.
  intros Hl Hc Hf idx k v' Hi. pose proof (find_lt _ _ _ Hf) as Hp.
  destruct (decide (p = idx)) as [<-|Hne].
  - rewrite list_lookup_insert_eq in Hi by lia. injection Hi as <- <-. by apply find_insert.
  - rewrite list_lookup_insert_ne in Hi by done. pose proof (Hc _ _ _ Hi) as Hfk.
    apply find_insert_other; try done. intros ->. congruence.
Qed.
(** ... and is an update of the map it stands for. *)
Lemma table_get_insert tbl key p v k :
  length tbl = SLOT_COUNT → chained tbl → find tbl key = Some p →
  table_get (<[p := Some (key, v)]> tbl) k = if decide (k = key) then Some v else table_get tbl k.
Proof.
  intros Hl Hc Hf. pose proof (find_lt _ _ _ Hf) as Hp.
  pose proof (insert_chained tbl key p v Hl Hc Hf) as Hc'. case_decide as Hk.
  { subst k. apply table_get_Some; [done|]. exists p. by apply list_lookup_insert_eq; lia. }
  apply option_eq. intros u. rewrite !table_get_Some by done. split; intros (idx & Hi).
  - destruct (decide (p = idx)) as [<-|]; [rewrite list_lookup_insert_eq in Hi by lia; congruence|].
    rewrite list_lookup_insert_ne in Hi by done. by exists idx.
  - exists idx. rewrite list_lookup_insert_ne; [done|]. intros <-.
    apply find_Some in Hf as (_ & _ & _ & Hs & _). rewrite (stops_entry _ _ _ _ _ Hi) in Hs.
    by apply bool_decide_eq_true in Hs.
Qed.

Lemma table_get_empty_slot tbl key idx :
  find tbl key = Some idx → tbl !! idx = Some None → table_get tbl key = None.
Proof. intros Hf Hi. unfold table_get. rewrite Hf. cbn [mbind option_bind]. by rewrite Hi. Qed.

(** Clearing the slot of a key: the key is gone, and so are the keys probed
    through that slot. *)
Lemma find_clear tbl key p :
  length tbl = SLOT_COUNT → (p < SLOT_COUNT)%nat →
  find tbl key = Some p ∨ probed_through tbl key p = true ∨ find tbl key = None →
  find (<[p := None]> tbl) key = Some p.
Proof.
  intros Hl Hp Hcase. destruct (path_surj key p Hp) as (i & Hi & Hip).
  assert (∀ m, (m < i)%nat → stops tbl key (path key m) = false) as Hm.
  { intros m Hmi. destruct Hcase as [(j & ? & Hjp & _ & Hm)%find_Some|[Ht|Hn]].
    - apply Hm. rewrite <-(path_inj key i j); congruence.
    - unfold probed_through in Ht. destruct (probe tbl key SLOT_COUNT 0) as [j|] eqn:Hpr; [|done].
      apply probe_Some in Hpr as (? & _ & Hm). apply existsb_exists in Ht as (n & [? ?]%in_seq & Hpn).
      apply bool_decide_eq_true in Hpn. apply Hm.
      assert (i = n) by (apply (path_inj key); [done|lia|congruence]). lia.
    - apply (find_None _ _ Hl) with (idx := path key m) in Hn; [done|apply path_lt]. }
  apply find_Some. exists i. split_and!; [done|done|by rewrite stops_insert by lia|].
  intros m Hmi. rewrite stops_insert_other; [by apply Hm|]. intros Hpm.
  assert (i = m) by (apply (path_inj key); [done|lia|congruence]). lia.
Qed.
Lemma table_get_clear tbl key p :
  length tbl = SLOT_COUNT → (p < SLOT_COUNT)%nat →
  table_get (<[p := None]> tbl) key =
    if probed_through tbl key p then None
    else if decide (find tbl key = Some p) then None else table_get tbl key.
Proof.
  intros Hl Hp. assert (∀ key', find (<[p := None]> tbl) key' = Some p →
    table_get (<[p := None]> tbl) key' = None) as Hnone.
  { intros key' Hf. eapply table_get_empty_slot; [done|]. by apply list_lookup_insert_eq; lia. }
  destruct (probed_through tbl key p) eqn:Ht; [apply Hnone, find_clear; auto|].
  case_decide as Hf; [apply Hnone, find_clear; auto|].
  destruct (find tbl key) as [q|] eqn:Hq.
  2:{ unfold table_get at 2. rewrite Hq. apply Hnone, find_clear; auto. }
  assert (p ≠ q) as Hpq by congruence.
  unfold table_get. assert (find (<[p := None]> tbl) key = Some q) as ->.
  { pose proof Hq as (j & Hj & Hjq & Hs & Hm)%find_Some. apply find_Some. exists j.
    split_and!; [done|done|by rewrite stops_insert_other|]. intros m Hmj.
    rewrite stops_insert_other; [by apply Hm|]. intros ->. revert Ht. unfold probed_through.
    assert (probe tbl key SLOT_COUNT 0 = Some j) as ->.
    { apply probe_Some. split_and!; [lia|lia|by subst|]. intros. apply Hm. lia. }
    apply eq_true_false_abs, existsb_exists. exists m. split; [apply in_seq; lia|].
    by apply bool_decide_eq_true. }
  rewrite Hq. cbn [mbind option_bind]. by rewrite list_lookup_insert_ne.
Qed.
End map.
