(* ===== verification/KvProps.v ===== *)
(** * Correctness of the key-value store

    [get], [put], [kv_delete] and [dump_slots] of [Kv.v] against the table of
    [KvTable.v], for any memory of slots that honours [SlotMemory]. *)

From S2P Require Import Prelude Externals Utf8 Core Frame Payloads Message Client Verbs Kv KvTable.

(** What the store needs of the remote memory: while [n] work requests are left, a
    slot reads as it was last written, and a write changes just that slot. *)
Class SlotMemory `{BytesCrate, Profile} {P : Type} `{!Peer P}
    (rep : nat → list (list byte) → KvStore P → Prop) : Prop := {
  sm_read n t k i s :
    rep (S n) t k → t !! i = Some s →
    ∃ k', read_slot (Z.of_nat i) k = Ok s k' ∧ rep n t k';
  sm_write n t k i s :
    rep (S n) t k → (i < length t)%nat → zlen s = SLOT_SIZE →
    ∃ k', write_slot (Z.of_nat i) s k = Ok tt k' ∧ rep n (<[i := s]> t) k';
  sm_weaken n m t k : rep n t k → (m ≤ n)%nat → rep m t k;
}.

Section store.
Context `{BytesCrate, Profile} {P : Type} `{!Peer P}.
Context (rep : nat → list (list byte) → KvStore P → Prop) `{!SlotMemory rep}.
Implicit Types (tbl : Table) (k : KvStore P) (key value : list byte).

(** The store [k] represents the table, with [n] work requests left. *)
Definition holds (n : nat) tbl k : Prop := table_ok tbl ∧ rep n (slot_of <$> tbl) k.

Lemma holds_weaken n m tbl k : holds n tbl k → (m ≤ n)%nat → holds m tbl k.
Proof using Type*. intros [? ?] ?. split; [done|by eapply sm_weaken]. Qed.

Lemma slot_at tbl idx :
  table_ok tbl → (idx < SLOT_COUNT)%nat → ∃ o, tbl !! idx = Some o ∧ slot_ok o.
Proof using Type.
  intros [Hl Hs] Hi. destruct (lookup_lt_is_Some_2 tbl idx) as [o Ho]; [lia|].
  exists o. split; [done|]. by eapply Forall_lookup_1.
Qed.

(** Reading the [i]-th slot probed for a key. *)
Lemma read_probe n tbl k key i o :
  holds (S n) tbl k → tbl !! path key i = Some o →
  ∃ k', read_slot (probe_index (hash_key key) (Z.of_nat i)) k = Ok (slot_of o) k' ∧ holds n tbl k'.
Proof using Type*.
  intros [Hok Hr] Ho. rewrite <-path_Z.
  destruct (sm_read n (slot_of <$> tbl) k (path key i) (slot_of o)) as (k' & Hrd & Hr'); [done| |].
  { by rewrite list_lookup_fmap, Ho. }
  exists k'. split; [done|by split].
Qed.
Lemma write_probe n tbl k key i o :
  holds (S n) tbl k → slot_ok o →
  ∃ k', write_slot (probe_index (hash_key key) (Z.of_nat i)) (slot_of o) k = Ok tt k' ∧
    holds n (<[path key i := o]> tbl) k'.
Proof using Type*.
  intros [[Hl Hs] Hr] Ho. rewrite <-path_Z.
  destruct (sm_write n (slot_of <$> tbl) k (path key i) (slot_of o)) as (k' & Hw & Hr'); [done| |by apply zlen_slot_of|].
  { rewrite length_fmap, Hl. apply path_lt. }
  exists k'. split; [done|]. split; [|by rewrite list_fmap_insert].
  split; [by rewrite length_insert|by apply Forall_insert].
Qed.

(** ** The loops *)

(** One turn: the slot is read and decoded. *)
Lemma turn n tbl k key i o :
  holds (S n) tbl k → tbl !! path key i = Some o →
  ∃ k', holds n tbl k' ∧
    ∀ A (f : list byte → option Entry → M (KvStore P) KvStop A),
      (slot ← read_slot (probe_index (hash_key key) (Z.of_nat i));
       entry ← or_panic (decode_slot slot); f slot entry) k = f (slot_of o) o k'.
Proof using Type*.
  intros Hh Ho. destruct (read_probe n tbl k key i o Hh Ho) as (k' & Hr & Hh').
  exists k'. split; [done|]. intros A f. rewrite (bind_Ok _ _ _ _ _ Hr), decode_slot_of; [done|].
  destruct Hh as [[_ Hs] _]. by eapply Forall_lookup_1.
Qed.

Definition occupied (o : option (option Entry)) : bool :=
  match o with Some (Some _) => true | _ => false end.

Lemma stops_cases tbl key i :
  table_ok tbl →
  (tbl !! path key i = Some None ∧ stops tbl key (path key i) = true) ∨
  (∃ v, tbl !! path key i = Some (Some (key, v)) ∧ entry_ok (key, v) ∧ stops tbl key (path key i) = true) ∨
  (∃ (other : list byte) v, tbl !! path key i = Some (Some (other, v)) ∧ other ≠ key ∧ stops tbl key (path key i) = false).
Proof using Type.
  intros Hok. destruct (slot_at tbl (path key i) Hok (path_lt _ _)) as ([[k v]|] & Ho & He).
  - rewrite (stops_entry _ _ _ _ _ Ho). right.
    destruct (decide (k = key)) as [->|]; [left; exists v|right; exists k, v];
      (split_and!; [done|done|]); [by apply bool_decide_eq_true|by apply bool_decide_eq_false].
  - left. split; [done|by apply stops_empty].
Qed.

Definition get_answer tbl key (o : option nat) (r : option GetResult) : Prop :=
  match r with
  | None => match o with Some j => tbl !! path key j = Some None | None => True end
  | Some g => ∃ j v raw_hex, o = Some j ∧ tbl !! path key j = Some (Some (key, v)) ∧
      slot_hex_lines (slot_bytes key v) = Some raw_hex ∧
      let idx := Z.of_nat (path key j) in
      g = mkGetResult (lit "RDMA_READ") idx (slot_offset idx) SLOT_SIZE key v (Z.of_nat j + 1) raw_hex
  end.
Lemma get_loop_spec key tbl n i b k :
  holds (n + b) tbl k →
  ∃ r k', get_loop key n (Z.of_nat i) k = Ok r k' ∧ holds b tbl k' ∧
    get_answer tbl key (probe tbl key n i) r.
Proof using Type*.
  revert i k. induction n as [|n IH]; intros i k Hh; cbn [get_loop probe]; [by exists None, k|].
  assert (table_ok tbl) as Hok by apply Hh.
  destruct (stops_cases tbl key i Hok) as [[Ho ->]|[(v & Ho & He & ->)|(k0 & v & Ho & Hne & ->)]].
  - destruct (turn (n + b) tbl k key i _ Hh Ho) as (k' & Hh' & Ht). rewrite Ht.
    exists None, k'. split_and!; [done|eapply holds_weaken; [done|lia]|done].
  - destruct (turn (n + b) tbl k key i _ Hh Ho) as (k' & Hh' & Ht). rewrite Ht.
    rewrite bool_decide_eq_true_2 by done. cbn [slot_of].
    destruct (slot_hex_lines_total (slot_bytes key v)) as [raw Hraw]; [by apply length_slot_bytes; apply He|].
    rewrite Hraw, or_panic_bind. eexists _, k'. split_and!; [reflexivity|eapply holds_weaken; [done|lia]|].
    exists i, v, raw. rewrite path_Z. by split_and!.
  - destruct (turn (n + b) tbl k key i _ Hh Ho) as (k' & Hh' & Ht). rewrite Ht.
    rewrite bool_decide_eq_false_2 by done. rewrite Z.add_1_r, <-Nat2Z.inj_succ. by apply IH.
Qed.

Lemma put_loop_spec key value tbl n i b k :
  entry_ok (key, value) → holds (S n + b) tbl k →
  match probe tbl key n i with
  | Some j => ∃ k', let idx := Z.of_nat (path key j) in
      put_loop key value n (Z.of_nat i) k =
        Ok (mkPutResult (lit "RDMA_WRITE") idx (slot_offset idx) SLOT_SIZE key value (Z.of_nat j + 1)
              (occupied (tbl !! path key j))) k' ∧
      holds b (<[path key j := Some (key, value)]> tbl) k'
  | None => ∃ k', put_loop key value n (Z.of_nat i) k = Err (KvFailed TableFull) k' ∧ holds b tbl k'
  end.
Proof using Type*.
  intros He. revert i k. induction n as [|n IH]; intros i k Hh; cbn [put_loop probe].
  { exists k. split; [done|]. eapply holds_weaken; [done|lia]. }
  assert (table_ok tbl) as Hok by apply Hh.
  assert (encode_slot key value = Some (slot_of (Some (key, value)))) as Hen
    by (apply encode_slot_eq; apply He).
  assert (∀ k1 upd, holds (S (n + b)) tbl k1 → ∃ k', (new_slot ← or_panic (encode_slot key value);
      _ ← write_slot (probe_index (hash_key key) (Z.of_nat i)) new_slot;
      mret (mkPutResult (lit "RDMA_WRITE") (probe_index (hash_key key) (Z.of_nat i))
        (slot_offset (probe_index (hash_key key) (Z.of_nat i))) SLOT_SIZE key value (Z.of_nat i + 1) upd)) k1 =
      Ok (mkPutResult (lit "RDMA_WRITE") (Z.of_nat (path key i)) (slot_offset (Z.of_nat (path key i)))
        SLOT_SIZE key value (Z.of_nat i + 1) upd) k' ∧
      holds b (<[path key i := Some (key, value)]> tbl) k') as Hwrite.
  { intros k1 upd Hh1. destruct (write_probe _ _ _ key i (Some (key, value)) Hh1 He) as (k2 & Hw & Hh2).
    exists k2. rewrite Hen, or_panic_bind, (bind_Ok _ _ _ _ _ Hw), path_Z.
    split; [done|]. eapply holds_weaken; [done|lia]. }
  destruct (stops_cases tbl key i Hok) as [[Ho ->]|[(v & Ho & _ & ->)|(k0 & v & Ho & Hne & ->)]].
  - destruct (turn (S n + b) tbl k key i _ Hh Ho) as (k' & Hh' & Ht). rewrite Ht.
    rewrite Ho. by apply Hwrite.
  - destruct (turn (S n + b) tbl k key i _ Hh Ho) as (k' & Hh' & Ht). rewrite Ht.
    rewrite bool_decide_eq_true_2, Ho by done. by apply Hwrite.
  - destruct (turn (S n + b) tbl k key i _ Hh Ho) as (k' & Hh' & Ht). rewrite Ht.
    rewrite bool_decide_eq_false_2 by done. rewrite Z.add_1_r, <-Nat2Z.inj_succ. by apply IH.
Qed.

Lemma delete_loop_spec key tbl n i b k :
  holds (S n + b) tbl k →
  ∃ r k', delete_loop key n (Z.of_nat i) k = Ok r k' ∧
    match probe tbl key n i with
    | Some j => dr_found r = occupied (tbl !! path key j) ∧ dr_slot r = Z.of_nat (path key j) ∧
        holds b (if occupied (tbl !! path key j) then <[path key j := None]> tbl else tbl) k'
    | None => dr_found r = false ∧ holds b tbl k'
    end.
Proof using Type*.
  revert i k. induction n as [|n IH]; intros i k Hh; cbn [delete_loop probe].
  { eexists _, k. split_and!; [reflexivity|done|]. eapply holds_weaken; [done|lia]. }
  assert (table_ok tbl) as Hok by apply Hh.
  destruct (stops_cases tbl key i Hok) as [[Ho ->]|[(v & Ho & _ & ->)|(k0 & v & Ho & Hne & ->)]].
  - destruct (turn (S n + b) tbl k key i _ Hh Ho) as (k' & Hh' & Ht). rewrite Ht.
    eexists _, k'. split; [reflexivity|]. rewrite Ho, path_Z. split_and!; try done.
    eapply holds_weaken; [done|lia].
  - destruct (turn (S n + b) tbl k key i _ Hh Ho) as (k' & Hh' & Ht). rewrite Ht.
    rewrite bool_decide_eq_true_2, Ho by done.
    destruct (write_probe (n + b) _ _ key i None Hh' I) as (k2 & Hw & Hh2). cbn [slot_of] in Hw.
    rewrite (bind_Ok _ _ _ _ _ Hw). eexists _, k2. split; [reflexivity|]. rewrite path_Z.
    split_and!; try done. eapply holds_weaken; [done|lia].
  - destruct (turn (S n + b) tbl k key i _ Hh Ho) as (k' & Hh' & Ht). rewrite Ht.
    rewrite bool_decide_eq_false_2 by done. rewrite Z.add_1_r, <-Nat2Z.inj_succ. by apply IH.
Qed.

(** Budgets: a call makes at most 64 reads and one write. *)
Lemma get_spec key tbl b k :
  holds (SLOT_COUNT + b) tbl k →
  ∃ r k', get key k = Ok r k' ∧ holds b tbl k' ∧ gr_value <$> r = table_get tbl key.
Proof using Type*.
  intros Hh. destruct (get_loop_spec key tbl SLOT_COUNT 0 b k Hh) as (r & k' & Hg & Hh' & Ha).
  exists r, k'. split_and!; [done|done|]. unfold table_get, find.
  destruct r as [g|]; cbn [get_answer] in Ha.
  - destruct Ha as (j & v & raw & -> & Ho & _ & ->). cbn [fmap option_fmap option_map mbind option_bind].
    by rewrite Ho.
  - destruct (probe _ _ _ _); [|done]. cbn [fmap option_fmap option_map mbind option_bind]. by rewrite Ha.
Qed.
Lemma put_spec key value tbl b k :
  entry_ok (key, value) → holds (S SLOT_COUNT + b) tbl k →
  match find tbl key with
  | Some idx => ∃ r k', put key value k = Ok r k' ∧ pr_slot r = Z.of_nat idx ∧
      pr_update r = occupied (tbl !! idx) ∧ holds b (<[idx := Some (key, value)]> tbl) k'
  | None => ∃ k', put key value k = Err (KvFailed TableFull) k' ∧ holds b tbl k'
  end.
Proof using Type*.
  intros He Hh. pose proof He as (_ & _ & Hk & Hv). cbn [fst snd] in *.
  unfold put. rewrite !(proj2 (Z.ltb_ge _ _)) by done.
  pose proof (put_loop_spec key value tbl SLOT_COUNT 0 b k He Hh) as Hp. unfold find.
  destruct (probe tbl key SLOT_COUNT 0) as [j|]; [|done].
  destruct Hp as (k' & Hp & Hh'). cbn [fmap option_fmap option_map]. by eexists _, k'.
Qed.
Lemma delete_spec key tbl b k :
  holds (S SLOT_COUNT + b) tbl k →
  ∃ r k', kv_delete key k = Ok r k' ∧
    match find tbl key with
    | Some idx => dr_found r = occupied (tbl !! idx) ∧
        holds b (if occupied (tbl !! idx) then <[idx := None]> tbl else tbl) k'
    | None => dr_found r = false ∧ holds b tbl k'
    end.
Proof using Type*.
  intros Hh. destruct (delete_loop_spec key tbl SLOT_COUNT 0 b k Hh) as (r & k' & Hd & Hp).
  exists r, k'. split; [done|]. unfold find. destruct (probe tbl key SLOT_COUNT 0) as [j|]; [|done].
  cbn [fmap option_fmap option_map]. destruct Hp as (? & _ & ?). by split.
Qed.

Lemma occupied_get tbl key idx :
  find tbl key = Some idx → occupied (tbl !! idx) = bool_decide (is_Some (table_get tbl key)).
Proof using Type.
  intros Hf. unfold table_get. rewrite Hf. cbn [mbind option_bind].
  by destruct (tbl !! idx) as [[[k0 v]|]|].
Qed.

(** C13: the store implements the table: [get] finds what linear probing finds,
    [put] stores where probing ends, refuses keys and values over the limits before
    it touches the network, and reports a full table exactly when probing finds
    neither the key nor an empty slot; [delete] reports whether the key was there
    and clears its slot.  None of them panics or fails otherwise. *)
Theorem kv_refines_table key value tbl b k :
  valid_utf8 key → valid_utf8 value → holds (S SLOT_COUNT + b) tbl k →
  (∃ r k', get key k = Ok r k' ∧ holds b tbl k' ∧ gr_value <$> r = table_get tbl key) ∧
  (if decide (zlen key ≤ MAX_KEY_LEN ∧ zlen value ≤ MAX_VALUE_LEN) then
     match find tbl key with
     | Some idx => ∃ r k', put key value k = Ok r k' ∧ pr_slot r = Z.of_nat idx ∧
         pr_update r = bool_decide (is_Some (table_get tbl key)) ∧
         holds b (<[idx := Some (key, value)]> tbl) k'
     | None => ∃ k', put key value k = Err (KvFailed TableFull) k' ∧ holds b tbl k'
     end
   else put key value k = Err (KvFailed KeyTooLong) k ∨ put key value k = Err (KvFailed ValueTooLong) k) ∧
  (∃ r k', kv_delete key k = Ok r k' ∧ dr_found r = bool_decide (is_Some (table_get tbl key)) ∧
     holds b (match find tbl key with
              | Some idx => if dr_found r then <[idx := None]> tbl else tbl
              | None => tbl end) k').
Proof using Type*.
  intros Hvk Hvv Hh. split_and!.
  - apply get_spec. eapply holds_weaken; [done|lia].
  - case_decide as Hd.
    + destruct Hd as [Hk Hv]. assert (entry_ok (key, value)) as He by done.
      pose proof (put_spec key value tbl b k He Hh) as Hp. destruct (find tbl key) as [idx|] eqn:Hf; [|done].
      by rewrite <-(occupied_get _ _ _ Hf).
    + unfold put. destruct (Z.ltb_spec MAX_KEY_LEN (zlen key)); [by left|].
      destruct (Z.ltb_spec MAX_VALUE_LEN (zlen value)); [by right|lia].
  - destruct (delete_spec key tbl b k Hh) as (r & k' & Hd & Hp). exists r, k'. split; [done|].
    destruct (find tbl key) as [idx|] eqn:Hf.
    + destruct Hp as [-> Hp]. by rewrite <-(occupied_get _ _ _ Hf).
    + destruct Hp as [-> Hp]. split; [|done]. symmetry. apply bool_decide_eq_false.
      unfold table_get. rewrite Hf. by intros [].
Qed.

(** As long as nothing was deleted the store is a map: a [put] that succeeds
    keeps every stored key reachable, a later [get] of the same key returns the new
    value, and a [get] of any other key returns what it returned before. *)
Theorem put_get key value tbl b k r k' :
  chained tbl → valid_utf8 key → valid_utf8 value →
  holds (S SLOT_COUNT + SLOT_COUNT + b) tbl k → put key value k = Ok r k' →
  ∃ tbl', chained tbl' ∧ holds (SLOT_COUNT + b) tbl' k' ∧
    ∀ key', ∃ before k1 after k2, get key' k = Ok before k1 ∧ get key' k' = Ok after k2 ∧
      gr_value <$> after = if decide (key' = key) then Some value else gr_value <$> before.
Proof using Type*.
  intros Hc Hvk Hvv Hh Hput. assert (entry_ok (key, value)) as He.
  { unfold put in Hput. destruct (Z.ltb_spec MAX_KEY_LEN (zlen key)); [done|].
    by destruct (Z.ltb_spec MAX_VALUE_LEN (zlen value)). }
  pose proof (put_spec key value tbl (SLOT_COUNT + b) k He Hh) as Hp.
  assert (length tbl = SLOT_COUNT) as Hl by apply Hh.
  destruct (find tbl key) as [idx|] eqn:Hf; [|destruct Hp as (? & Hp & _); congruence].
  destruct Hp as (r' & k1' & Hp & _ & _ & Hh'). rewrite Hput in Hp. injection Hp as <- <-.
  exists (<[idx := Some (key, value)]> tbl). split_and!; [by apply insert_chained|done|].
  intros key'. destruct (get_spec key' tbl b k) as (r0 & k1 & Hg0 & _ & Hv0).
  { eapply holds_weaken; [done|lia]. }
  destruct (get_spec key' _ b k' Hh') as (r1 & k2 & Hg1 & _ & Hv1).
  exists r0, k1, r1, k2. split_and!; [done|done|]. by rewrite Hv1, Hv0, table_get_insert.
Qed.

(** [put] answers [TableFull] exactly when all 64 slots hold other keys. *)
Theorem put_full_iff key value tbl b k :
  entry_ok (key, value) → holds (S SLOT_COUNT + b) tbl k →
  (∃ k', put key value k = Err (KvFailed TableFull) k') ↔
  ∀ idx, (idx < SLOT_COUNT)%nat → ∃ (other : list byte) v, tbl !! idx = Some (Some (other, v)) ∧ other ≠ key.
Proof using Type*.
  intros He Hh. pose proof (put_spec key value tbl b k He Hh) as Hp.
  assert (table_ok tbl) as Hok by apply Hh. pose proof (tbl_length _ Hok) as Hl.
  assert (find tbl key = None ↔ ∀ idx, (idx < SLOT_COUNT)%nat →
    ∃ (other : list byte) v, tbl !! idx = Some (Some (other, v)) ∧ other ≠ key) as Hn.
  { rewrite (find_None _ _ Hl). split; intros Hs idx Hi.
    - specialize (Hs idx Hi). unfold stops in Hs. destruct (tbl !! idx) as [[[k0 v]|]|]; try done.
      apply bool_decide_eq_false in Hs. by exists k0, v.
    - destruct (Hs idx Hi) as (k0 & v & Ho & Hne). rewrite (stops_entry _ _ _ _ _ Ho).
      by apply bool_decide_eq_false. }
  rewrite <-Hn. destruct (find tbl key); split; try done.
  - intros [k' Hk]. destruct Hp as (? & ? & Hp & _). congruence.
  - intros _. destruct Hp as (k' & Hp & _). by exists k'.
Qed.

(** [delete] empties the slot of its key, and with it cuts the probe chains
    that run through the slot: afterwards the key is gone, every other key whose
    probing passed that slot is unreachable as well, and all the rest are kept. *)
Theorem delete_cuts_chains key tbl b k idx :
  find tbl key = Some idx → is_Some (table_get tbl key) →
  holds (S SLOT_COUNT + SLOT_COUNT + b) tbl k →
  ∃ r k', kv_delete key k = Ok r k' ∧ dr_found r = true ∧
    ∀ key', ∃ r' k2, get key' k' = Ok r' k2 ∧
      gr_value <$> r' = if decide (key' = key) then None
        else if probed_through tbl key' idx then None else table_get tbl key'.
Proof using Type*.
  intros Hf Hin Hh. assert (length tbl = SLOT_COUNT) as Hl by apply Hh.
  destruct (delete_spec key tbl (SLOT_COUNT + b) k Hh) as (r & k' & Hd & Hp).
  rewrite Hf, (occupied_get _ _ _ Hf), bool_decide_eq_true_2 in Hp by done. destruct Hp as [Hr Hh'].
  exists r, k'. split_and!; [done|done|]. intros key'.
  destruct (get_spec key' _ b k' Hh') as (r' & k2 & Hg & _ & Hv). exists r', k2. split; [done|].
  rewrite Hv, table_get_clear by (done || by eapply find_lt).
  destruct (decide (key' = key)) as [->|Hk].
  - rewrite decide_True by done. by destruct (probed_through tbl key idx).
  - destruct (probed_through tbl key' idx); [done|]. case_decide as Hf'; [|done].
    unfold table_get in Hin |- *. rewrite Hf in Hin. rewrite Hf'. cbn [mbind option_bind] in *.
    destruct Hin as [v Hv']. apply bind_Some in Hv' as (o & Ho & (e & -> & _)%bind_Some).
    apply find_Some in Hf as (_ & _ & _ & Hs & _). apply find_Some in Hf' as (_ & _ & _ & Hs' & _).
    destruct e as [k0 v0]. rewrite (stops_entry _ _ _ _ _ Ho) in Hs.
    rewrite (stops_entry _ _ _ _ _ Ho) in Hs'.
    apply bool_decide_eq_true in Hs, Hs'. congruence.
Qed.

(** *** Two colliding keys *)
Lemma find_first tbl key : stops tbl key (path key 0) = true → find tbl key = Some (path key 0).
Proof using Type. intros Hs. apply find_Some. exists 0%nat. split_and!; [by compute; lia|done|done|lia]. Qed.
Lemma path_same_hash key key' i : hash_key key = hash_key key' → path key i = path key' i.
Proof using Type. unfold path. by intros ->. Qed.

Section colliding.
Context (key1 key2 v1 v2 : list byte) (Hne : key1 ≠ key2) (Hh : hash_key key1 = hash_key key2).

(** The table after both were put, and after the first was deleted. *)
Definition both : Table :=
  <[path key2 1 := Some (key2, v2)]> (<[path key1 0 := Some (key1, v1)]> (replicate SLOT_COUNT None)).
Definition cut : Table := <[path key1 0 := None]> both.

Lemma colliding_paths : path key2 0 = path key1 0 ∧ path key1 0 ≠ path key2 1.
Proof using Hh.
  rewrite (path_same_hash key1 key2 0 Hh). split; [done|].
  intros Heq%path_inj; [lia|compute; lia..].
Qed.
Lemma find_empty key : find (replicate SLOT_COUNT None) key = Some (path key 0).
Proof using Type. apply find_first, stops_empty, lookup_replicate_2, path_lt. Qed.
Lemma find_second :
  find (<[path key1 0 := Some (key1, v1)]> (replicate SLOT_COUNT None)) key2 = Some (path key2 1).
Proof using Hne Hh.
  destruct colliding_paths as [H20 H01]. apply find_Some. exists 1%nat.
  split_and!; [compute; lia|done| |].
  - apply stops_empty. rewrite list_lookup_insert_ne by done. apply lookup_replicate_2, path_lt.
  - intros m Hm. replace m with 0%nat by lia. rewrite H20, stops_insert.
    + by apply bool_decide_eq_false.
    + rewrite length_replicate. apply path_lt.
Qed.
Lemma both_length : length both = SLOT_COUNT.
Proof using Type. unfold both. by rewrite !length_insert, length_replicate. Qed.
Lemma both_first : both !! path key1 0 = Some (Some (key1, v1)).
Proof using Hh.
  unfold both. rewrite list_lookup_insert_ne by (by apply not_eq_sym, colliding_paths).
  apply list_lookup_insert_eq. rewrite length_replicate. apply path_lt.
Qed.
Lemma find_both : find both key1 = Some (path key1 0).
Proof using Hh. apply find_first. rewrite (stops_entry _ _ _ _ _ both_first). by apply bool_decide_eq_true. Qed.
Lemma cut_first : cut !! path key1 0 = Some None.
Proof using Type. apply list_lookup_insert_eq. rewrite both_length. apply path_lt. Qed.
Lemma cut_second : cut !! path key2 1 = Some (Some (key2, v2)) ∧ table_get cut key2 = None.
Proof using Hh.
  destruct colliding_paths as [H20 H01]. split.
  - unfold cut. rewrite list_lookup_insert_ne by done. unfold both.
    apply list_lookup_insert_eq. rewrite length_insert, length_replicate. apply path_lt.
  - apply table_get_empty_slot with (path key1 0); [|apply cut_first].
    rewrite <-H20. apply find_first, stops_empty. rewrite H20. apply cut_first.
Qed.
End colliding.

(** C37: deleting a key loses another one: of two keys with the same hash put into
    an empty table, deleting the first makes the second unreachable although its
    slot still holds it. *)
Theorem delete_loses_other_key key1 key2 v1 v2 b k :
  key1 ≠ key2 → hash_key key1 = hash_key key2 → entry_ok (key1, v1) → entry_ok (key2, v2) →
  holds (S SLOT_COUNT + (S SLOT_COUNT + (S SLOT_COUNT + (SLOT_COUNT + b)))) (replicate SLOT_COUNT None) k →
  ∃ tbl k', (_ ← put key1 v1; _ ← put key2 v2; _ ← kv_delete key1; get key2) k = Ok None k' ∧
    holds b tbl k' ∧ tbl !! path key2 1 = Some (Some (key2, v2)).
Proof using Type*.
  intros Hne Hh He1 He2 Hk.
  pose proof (put_spec key1 v1 _ _ k He1 Hk) as Hp. rewrite find_empty in Hp.
  destruct Hp as (r1 & k1 & Hput1 & _ & _ & Hk1). rewrite (bind_Ok _ _ _ _ _ Hput1).
  pose proof (put_spec key2 v2 _ _ k1 He2 Hk1) as Hp. rewrite find_second in Hp by done.
  destruct Hp as (r2 & k2 & Hput2 & _ & _ & Hk2). rewrite (bind_Ok _ _ _ _ _ Hput2).
  destruct (delete_spec key1 _ _ k2 Hk2) as (r3 & k3 & Hdel & Hp).
  fold (both key1 key2 v1 v2) in Hp. rewrite find_both, both_first in Hp by done.
  destruct Hp as [_ Hk3]. cbn [occupied] in Hk3. rewrite (bind_Ok _ _ _ _ _ Hdel).
  destruct (get_spec key2 _ b k3 Hk3) as (r4 & k4 & Hget & Hk4 & Hv).
  destruct (cut_second key1 key2 v1 v2 Hh) as [Hs Hg]. unfold cut in Hs, Hg. rewrite Hg in Hv.
  destruct r4; [done|]. by eexists _, k4.
Qed.

(** ** [dump_slots] *)
Definition slot_info (i : nat) (o : option Entry) : SlotInfo :=
  mkSlotInfo (Z.of_nat i) (slot_offset (Z.of_nat i)) (occupied (Some o)) (fst <$> o) (snd <$> o).
Lemma dump_loop_spec tbl n i acc b k :
  (i + n = SLOT_COUNT)%nat → holds (n + b) tbl k →
  ∃ k', dump_loop n (Z.of_nat i) acc k =
      Ok (acc ++ imap (λ j, slot_info (i + j)) (drop i tbl)) k' ∧ holds b tbl k'.
Proof using Type*.
  revert i acc k. induction n as [|n IH]; intros i acc k Hi Hh; cbn [dump_loop].
  { exists k. assert (table_ok tbl) as [Hl _] by apply Hh. rewrite drop_ge by lia.
    cbn [imap]. by rewrite app_nil_r. }
  destruct Hh as [Hok Hr]. destruct (slot_at tbl i Hok) as (o & Ho & Hs); [lia|].
  destruct (sm_read (n + b) (slot_of <$> tbl) k i (slot_of o)) as (k1 & Hrd & Hr1); [done|by rewrite list_lookup_fmap, Ho|].
  rewrite (bind_Ok _ _ _ _ _ Hrd), decode_slot_of, or_panic_bind by done.
  destruct (IH (S i) (acc ++ [slot_info i o]) k1) as (k2 & Hd & Hh2); [lia|by split|].
  exists k2. split; [|done]. rewrite (drop_S tbl o i Ho), imap_cons, Nat.add_0_r.
  replace (imap ((λ j, slot_info (i + j)) ∘ S) (drop (S i) tbl)) with
    (imap (λ j, slot_info (S i + j)) (drop (S i) tbl)) by (apply imap_ext; intros; cbn; f_equal; lia).
  rewrite cons_middle, (assoc_L (++)), <-Hd, Nat2Z.inj_succ, <-Z.add_1_r. by destruct o as [[]|].
Qed.

(** [dump_slots] lists the table, one entry per slot and in order. *)
Lemma dump_slots_spec tbl b k :
  holds (SLOT_COUNT + b) tbl k →
  ∃ k', dump_slots k = Ok (imap slot_info tbl) k' ∧ holds b tbl k'.
Proof using Type*. intros Hh. by apply (dump_loop_spec tbl SLOT_COUNT 0 [] b k). Qed.
End store.

(** A slot holds its key and value: within the limits [encode_slot] does not
    panic, fills the slot exactly, and [decode_slot] recovers both strings. *)
Theorem slot_roundtrip key value :
  valid_utf8 key → valid_utf8 value → zlen key ≤ MAX_KEY_LEN → zlen value ≤ MAX_VALUE_LEN →
  ∃ slot, encode_slot key value = Some slot ∧ zlen slot = SLOT_SIZE ∧
    decode_slot slot = Some (Some (key, value)).
Proof.
  intros. exists (slot_bytes key value). split_and!; [by apply encode_slot_eq|by apply length_slot_bytes|].
  by apply (decode_slot_of (Some (key, value))).
Qed.
