(* ===== verification/KvLink.v ===== *)
(** * The key-value store over a connection to the server

    The slots of the store live in a region of the server's memory store; the link
    of [EndToEnd.v] makes that region a [SlotMemory]. *)

From S2P Require Import Prelude Externals Utf8 Core Frame Payloads Message MemoryStore StoreSpec.
From S2P Require Import ServerState Handler Session SessionFacts SessionProps.
From S2P Require Import Client Verbs ClientFacts EndToEnd Registration Kv KvTable KvProps.

(** ** A region as an array of slots *)
Definition slots_ok (t : list (list byte)) : Prop :=
  length t = SLOT_COUNT ∧ Forall (λ s, zlen s = SLOT_SIZE) t.

Lemma length_concat_slots (t : list (list byte)) :
  Forall (λ s, zlen s = SLOT_SIZE) t → zlen (concat t) = zlen t * SLOT_SIZE.
Proof.
  induction 1 as [|s t Hs Ht IH]; [done|]. cbn [concat]. rewrite zlen_app, Hs, IH.
  unfold zlen. cbn [length]. lia.
Qed.
Lemma concat_split (t : list (list byte)) i s :
  Forall (λ s, zlen s = SLOT_SIZE) t → t !! i = Some s →
  ∃ a c, concat t = a ++ s ++ c ∧ length a = Z.to_nat (Z.of_nat i * SLOT_SIZE) ∧
    ∀ s', concat (<[i := s']> t) = a ++ s' ++ c.
Proof.
  intros Ht Hi. exists (concat (take i t)), (concat (drop (S i) t)).
  pose proof (lookup_lt_Some _ _ _ Hi). split_and!.
  - rewrite <-(take_drop_middle t i s Hi) at 1. by rewrite concat_app.
  - pose proof (length_concat_slots (take i t) (Forall_take _ _ _ Ht)) as Hl. unfold zlen in Hl.
    rewrite length_take in Hl. lia.
  - intros s'. rewrite insert_take_drop by done. by rewrite concat_app.
Qed.
Lemma read_slots t i s :
  slots_ok t → t !! i = Some s →
  take (Z.to_nat SLOT_SIZE) (drop (Z.to_nat (Z.of_nat i * SLOT_SIZE)) (concat t)) = s.
Proof.
  intros [_ Ht] Hi. destruct (concat_split t i s Ht Hi) as (a & c & -> & <- & _).
  rewrite drop_app_length. assert (length s = Z.to_nat SLOT_SIZE) as <-.
  { pose proof (Forall_lookup_1 _ _ _ _ Ht Hi) as Hs. cbn in Hs. unfold zlen in Hs. lia. }
  by rewrite take_app_length.
Qed.
Lemma write_slots t i s :
  slots_ok t → (i < length t)%nat → zlen s = SLOT_SIZE →
  splice (concat t) (Z.to_nat (Z.of_nat i * SLOT_SIZE)) s = concat (<[i := s]> t).
Proof.
  intros [_ Ht] Hi Hs. destruct (lookup_lt_is_Some_2 t i Hi) as [s0 H0].
  destruct (concat_split t i s0 Ht H0) as (a & c & -> & <- & Hins). rewrite Hins.
  apply splice_app. pose proof (Forall_lookup_1 _ _ _ _ Ht H0) as Hs0. cbn in Hs0. unfold zlen in *. lia.
Qed.
Lemma slots_insert_ok t i s : slots_ok t → zlen s = SLOT_SIZE → slots_ok (<[i := s]> t).
Proof. intros [Hl Ht] Hs. split; [by rewrite length_insert|by apply Forall_insert]. Qed.

(** ** The store's region on the server *)
Record kv_rep (n : nat) (t : list (list byte)) (k : KvStore Server) : Prop := {
  kr_linked : linked (kv_conn k);
  kr_wrid : 0 ≤ kv_next_wrid k ∧ kv_next_wrid k + Z.of_nat n < 2 ^ 64;
  kr_cq : entries (cq (conn (kv_conn k))) = [] ∧ 1 ≤ capacity (cq (conn (kv_conn k)));
  kr_keys : u32 (remote_rkey k) ∧ u32 (local_lkey k);
  kr_size : SLOT_SIZE ≤ max_msg_size (session (server (kv_conn k)));
  kr_reads : 0 < max_outstanding_reads (session (server (kv_conn k)));
  kr_slots : slots_ok t;
  kr_region : ∃ en, region_of (store (server (kv_conn k))) (remote_rkey k) = Some en ∧
    AccessFlags_contains (e_access_flags en) REMOTE_WRITE = true ∧
    AccessFlags_contains (e_access_flags en) REMOTE_READ = true ∧ e_data en = concat t;
  kr_local : ∃ mr, local_mrs (conn (kv_conn k)) !! local_lkey k = Some mr ∧
    zlen (mh_local_buf mr) = SLOT_SIZE;
}.

Lemma on_conn_Ok {P A} (m : M (Client P) Stop A) k a c :
  m (kv_conn k) = Ok a c → on_conn m k = Ok a (set_kv_conn c k).
Proof. intros Hm. unfold on_conn. by rewrite Hm. Qed.

Section link.
Context `{BytesCrateLaws, Profile, !OsRng, !OsRngLaws, WsSinkEnv, Clock}.
Context (Hsink : ∀ log, ws_send_error log = None).
Implicit Types k : KvStore Server.

Lemma next_wrid_eq n t k :
  kv_rep (S n) t k →
  ∃ k', next_wrid k = Ok (kv_next_wrid k) k' ∧ k' = set_next_wrid (kv_next_wrid k + 1) k ∧
    u64 (kv_next_wrid k).
Proof using Type.
  intros Hk. destruct (kr_wrid _ _ _ Hk). eexists. split; [|split; [reflexivity|unfold uN; lia]].
  unfold next_wrid, kv_field. rewrite bind_assoc, (bind_Ok getS _ _ _ _ eq_refl), ret_bind.
  unfold add_ovf. rewrite ovf_bind by (unfold uN; lia). by rewrite (bind_Ok (modifyS _) _ _ _ _ eq_refl).
Qed.

(** Polling takes the one completion a verb has queued. *)
Lemma poll_pushed cqe (c : Client Server) q :
  cq (conn c) = pushed cqe q → entries q = [] →
  poll_cq 1 c = Ok [cqe] (mkClient (set_cq q (conn c)) (wire c)).
Proof using Type.
  intros Hq He. unfold poll_cq. rewrite self_bind, Hq. unfold pushed. rewrite He.
  cbn. by destruct q as [en cap]; cbn in He; subst.
Qed.
Lemma linked_set_cq (c : Client Server) q :
  linked c → linked (mkClient (set_cq q (conn c)) (wire c)).
Proof using Type. by intros []; split. Qed.

Lemma kv_field_bind {A B} (f : KvStore Server → A) (g : A → M (KvStore Server) KvStop B) k :
  (kv_field f ≫= g) k = g (f k) k.
Proof using Type. done. Qed.

Lemma splice_whole {A} (l d : list A) : length l = length d → splice l 0 d = d.
Proof using Type. intros Hl. unfold splice. rewrite drop_ge by lia. cbn. apply app_nil_r. Qed.

Lemma slot_va i : (i < SLOT_COUNT)%nat → 0 ≤ Z.of_nat i * SLOT_SIZE ∧ Z.of_nat i * SLOT_SIZE + SLOT_SIZE ≤ MR_SIZE.
Proof using Type. unfold MR_SIZE, SLOT_SIZE, SLOT_COUNT. change (Z.of_nat 64) with 64. lia. Qed.
Lemma slots_length t : slots_ok t → zlen (concat t) = MR_SIZE.
Proof using Type. intros [Hl Ht]. rewrite length_concat_slots by done. unfold zlen. by rewrite Hl. Qed.

(** The state after a slot operation: the connection [c] with its completion taken. *)
Definition polled (q : CompletionQueue) (c : Client Server) k : KvStore Server :=
  set_kv_conn (mkClient (set_cq q (conn c)) (wire c)) (set_next_wrid (kv_next_wrid k + 1) k).

Lemma kv_rep_polled n t t' k c en buf :
  kv_rep (S n) t k → linked c → slots_ok t' → same_server (server (kv_conn k)) (server c) →
  region_of (store (server c)) (remote_rkey k) = Some en →
  AccessFlags_contains (e_access_flags en) REMOTE_WRITE = true →
  AccessFlags_contains (e_access_flags en) REMOTE_READ = true → e_data en = concat t' →
  local_mrs (conn c) !! local_lkey k = Some buf → zlen (mh_local_buf buf) = SLOT_SIZE →
  kv_rep n t' (polled (cq (conn (kv_conn k))) c k).
Proof using Type.
  intros [Hl Hw Hq Hkeys Hsz Hrd Hs _ _] Hlc Hs' (Hm & Hmr & _) Hreg Hfw Hfr Hd Hmrs Hb.
  split; cbn; try done.
  - by apply linked_set_cq.
  - lia.
  - by rewrite Hm.
  - by rewrite Hmr.
  - by exists en.
  - by exists buf.
Qed.

Lemma read_slot_rep n t k i s :
  kv_rep (S n) t k → t !! i = Some s →
  ∃ k', read_slot (Z.of_nat i) k = Ok s k' ∧ kv_rep n t k'.
Proof using Type*.
  intros Hk Hi. pose proof Hk as [Hl Hw Hq [Hrk Hlk] Hsz Hrd Hs (en & Hreg & Hfw & Hfr & Hd) (mr & Hmr & Hmb)].
  destruct (next_wrid_eq n t k Hk) as (k1 & Hnw & -> & Hu).
  assert (i < SLOT_COUNT)%nat as Hi64 by (rewrite <-(proj1 Hs); by eapply lookup_lt_Some).
  pose proof (slot_va i Hi64) as Hva. change MR_SIZE with 65536 in Hva.
  pose proof (Forall_lookup_1 _ _ _ _ (proj2 Hs) Hi) as Hsl. cbn in Hsl.
  set (va := Z.of_nat i * SLOT_SIZE) in *.
  destruct (rdma_read_linked Hsink (kv_conn k) (kv_next_wrid k) (remote_rkey k) va SLOT_SIZE
    (local_lkey k) 0 en mr) as (c & Hrun & Hlc & Hst & Hsame & Hcq & Hloc); try done.
  { apply Z.leb_gt. rewrite (proj1 Hq). unfold zlen. cbn. lia. }
  { split_and!; try done; unfold SLOT_SIZE, uN in *; cbn [rq_remote_va]; lia. }
  { unfold SLOT_SIZE, READ_REQ_SIZE in *. lia. }
  { rewrite Hd, slots_length by done. apply (slot_va i Hi64). }
  { rewrite Hmb. unfold SLOT_SIZE. lia. }
  rewrite Hd in Hloc. unfold va in Hloc. rewrite (read_slots t i s Hs Hi) in Hloc.
  change (Z.to_nat 0) with 0%nat in Hloc. rewrite splice_whole in Hloc by (unfold zlen in *; lia).
  set (mr' := mkHandle _ _ _ s) in Hloc.
  assert (local_mrs (conn c) !! local_lkey k = Some mr') as Hmr' by (rewrite Hloc; apply lookup_insert_eq).
  exists (polled (cq (conn (kv_conn k))) c k). split.
  2:{ apply kv_rep_polled with t en mr'; try done. by rewrite Hst. }
  unfold read_slot. rewrite ovf_bind by (unfold uN; unfold SLOT_SIZE in *; lia).
  rewrite (bind_Ok _ _ _ _ _ Hnw), !kv_field_bind.
  rewrite (bind_Ok _ _ _ _ _ (on_conn_Ok _ (set_next_wrid _ k) _ _ Hrun)).
  rewrite (bind_Ok _ _ _ _ _ (on_conn_Ok _ (set_kv_conn c _) _ _ (poll_pushed _ c _ Hcq (proj1 Hq)))).
  erewrite bind_Ok; [|apply on_conn_Ok, (read_local_mr_eq _ _ 0 SLOT_SIZE mr'); [exact Hmr'|done|done|]].
  2:{ cbn. rewrite Hsl. unfold SLOT_SIZE. lia. }
  cbn [mh_local_buf mr']. change (Z.to_nat 0) with 0%nat. rewrite drop_0, take_ge by (unfold zlen in *; lia).
  rewrite slice_copy_Some by done. change (Z.to_nat 0) with 0%nat.
  rewrite splice_whole; [done|]. unfold zlen in Hsl. unfold zero_slot. rewrite length_replicate. lia.
Qed.

(** The staging buffer: filled, and gathered as a whole. *)
Definition staged (lk : LKey) (mr : MemoryRegionHandle) (s : list byte) (c : Client Server) : Client Server :=
  mkClient (set_local_mrs (<[lk := mkHandle (mh_lkey mr) (mh_rkey mr) (mh_len mr) s]>
    (local_mrs (conn c))) (conn c)) (wire c).
Lemma stage_slot c lk mr s :
  local_mrs (conn c) !! lk = Some mr → zlen (mh_local_buf mr) = SLOT_SIZE → zlen s = SLOT_SIZE →
  write_local_mr lk 0 s c = Ok tt (staged lk mr s c).
Proof using Type.
  intros Hmr Hb Hs. unfold write_local_mr. rewrite self_bind, Hmr, ok_or_bind.
  unfold add_ovf. rewrite ovf_bind by (unfold uN, SLOT_SIZE in *; lia).
  rewrite (proj2 (Z.ltb_ge _ _)) by lia. rewrite slice_copy_Some, or_panic_bind by lia.
  change (Z.to_nat 0) with 0%nat. rewrite splice_whole by (unfold zlen in *; lia). done.
Qed.
Lemma gather_staged c lk mr s :
  zlen s = SLOT_SIZE →
  gather_sg_data [mkSge lk 0 SLOT_SIZE] (staged lk mr s c) = Ok s (staged lk mr s c).
Proof using Type.
  intros Hs. unfold gather_sg_data. cbn [gather_loop sg_lkey sg_offset sg_length].
  rewrite self_bind. cbn [staged conn local_mrs set_local_mrs]. rewrite lookup_insert_eq, ok_or_bind.
  unfold add_ovf. rewrite ovf_bind by (unfold uN, SLOT_SIZE in *; lia). cbn [mh_local_buf].
  rewrite (proj2 (Z.ltb_ge _ _)) by lia. rewrite slice_Some by (done || lia).
  rewrite or_panic_bind. change (Z.to_nat 0) with 0%nat. rewrite drop_0, take_ge by (unfold zlen in *; lia).
  done.
Qed.

Lemma write_slot_rep n t k i s :
  kv_rep (S n) t k → (i < length t)%nat → zlen s = SLOT_SIZE →
  ∃ k', write_slot (Z.of_nat i) s k = Ok tt k' ∧ kv_rep n (<[i := s]> t) k'.
Proof using Type*.
  intros Hk Hi Hsl. pose proof Hk as [Hl Hw Hq [Hrk Hlk] Hsz Hrd Hs (en & Hreg & Hfw & Hfr & Hd) (mr & Hmr & Hmb)].
  assert (i < SLOT_COUNT)%nat as Hi64 by (by rewrite <-(proj1 Hs)).
  pose proof (slot_va i Hi64) as Hva. change MR_SIZE with 65536 in Hva.
  set (c1 := staged (local_lkey k) mr s (kv_conn k)).
  set (k1 := set_kv_conn c1 k).
  assert (kv_rep (S n) t k1) as Hk1.
  { split; try done; [by destruct Hl; split|by exists en|]. eexists. split; [apply lookup_insert_eq|done]. }
  destruct (next_wrid_eq n t k1 Hk1) as (k2 & Hnw & -> & Hu). cbn [k1 kv_next_wrid set_kv_conn] in *.
  destruct (rdma_write_linked Hsink c1 (kv_next_wrid k) (remote_rkey k) (Z.of_nat i * SLOT_SIZE)
    [mkSge (local_lkey k) 0 SLOT_SIZE] s en) as (c & Hrun & Hlc & Hst & Hsame & Hloc & Hcq); try done.
  { apply Hk1. }
  { apply Z.leb_gt. cbn. rewrite (proj1 Hq). unfold zlen. cbn. lia. }
  { by apply gather_staged. }
  { unfold uN. unfold SLOT_SIZE in *. lia. }
  { split_and!; [by apply Forall_singleton|apply small_room|rewrite Hsl; by apply small_room];
      unfold zlen, WRITE_HEADER_SIZE, SG_ENTRY_SIZE, SLOT_SIZE in *; cbn in *; lia. }
  { rewrite Hd, slots_length, Hsl by done. apply (slot_va i Hi64). }
  exists (polled (cq (conn c1)) c k1). split.
  2:{ apply (kv_rep_polled n t _ k1 c (set_data (splice (e_data en) (Z.to_nat (Z.of_nat i * SLOT_SIZE)) s) en)
        (mkHandle (mh_lkey mr) (mh_rkey mr) (mh_len mr) s)); try done.
      - by apply slots_insert_ok.
      - rewrite Hst, (region_of_put _ _ _ _ _ (so_store _ (lk_ok _ Hl)) Hreg). by rewrite decide_True.
      - cbn. rewrite Hd. by apply write_slots.
      - rewrite Hloc. apply lookup_insert_eq. }
  unfold write_slot. rewrite ovf_bind by (unfold uN; unfold SLOT_SIZE in *; lia).
  rewrite kv_field_bind, (bind_Ok _ _ _ _ _ (on_conn_Ok _ k _ _ (stage_slot _ _ _ _ Hmr Hmb Hsl))).
  fold c1 k1. rewrite (bind_Ok _ _ _ _ _ Hnw), kv_field_bind.
  rewrite (bind_Ok _ _ _ _ _ (on_conn_Ok _ (set_next_wrid _ k1) _ _ Hrun)).
  by rewrite (bind_Ok _ _ _ _ _ (on_conn_Ok _ (set_kv_conn c _) _ _ (poll_pushed _ c _ Hcq (proj1 Hq)))).
Qed.

#[export] Instance kv_rep_slots : SlotMemory kv_rep.
Proof using Type*.
  split; [apply read_slot_rep|apply write_slot_rep|].
  intros n m t k [] ?. split; try done. lia.
Qed.

(** ** Set-up *)
Lemma concat_replicate {A} n m (x : A) : concat (replicate n (replicate m x)) = replicate (n * m) x.
Proof using Type. induction n as [|n IH]; cbn; [done|]. by rewrite IH, <-replicate_add. Qed.
Lemma empty_table_ok : table_ok (replicate SLOT_COUNT None).
Proof using Type. split; [done|]. by apply Forall_replicate. Qed.
Lemma empty_slots :
  slots_ok (slot_of <$> replicate SLOT_COUNT None) ∧
  concat (slot_of <$> replicate SLOT_COUNT None) = replicate (Z.to_nat MR_SIZE) x00.
Proof using Type.
  rewrite fmap_replicate. cbn [slot_of]. split.
  - split; [by rewrite length_replicate|]. by apply Forall_replicate.
  - unfold zero_slot. rewrite concat_replicate. f_equal.
Qed.

Lemma grantable_after w w' pd fl len r len' :
  grantable w len → store_ok (store w) → (∀ m, can_draw ({[r]} ∪ used_rkeys (store w)) m) →
  store w' = registered (store w) pd fl len r → r ∉ used_rkeys (store w) →
  mr_reg_rate_limit (session w') = mr_reg_rate_limit (session w) →
  mr_reg_count (session w') ≤ mr_reg_count (session w) + 1 →
  mr_reg_count (session w) + 1 < mr_reg_rate_limit (session w) →
  next_lkey (store w) + 2 < 2 ^ 32 → Z.of_nat (size (regions (store w))) + 1 < max_regions (store w) →
  total_registered_bytes (store w) + len + len' ≤ max_total_bytes (store w) → grantable w' len'.
Proof using Type.
  intros _ Hok Hdraw Hst Hr Hlim Hcnt Hrate Hl Hsz Htot.
  split; rewrite ?Hst; cbn; [lia|lia| |lia|apply Hdraw].
  rewrite map_size_insert_None by (by apply fresh_lkey). lia.
Qed.

(** What [main] builds on a connection with room for its two regions. *)
Lemma kv_setup_linked c n :
  linked c → u32 (c_pd (conn c)) → SLOT_SIZE ≤ max_msg_size (session (server c)) →
  0 < max_outstanding_reads (session (server c)) →
  entries (cq (conn c)) = [] → 1 ≤ capacity (cq (conn c)) →
  grantable (server c) MR_SIZE → (∀ r m, can_draw ({[r]} ∪ used_rkeys (store (server c))) m) →
  mr_reg_count (session (server c)) + 1 < mr_reg_rate_limit (session (server c)) →
  next_lkey (store (server c)) + 2 < 2 ^ 32 →
  Z.of_nat (size (regions (store (server c)))) + 1 < max_regions (store (server c)) →
  total_registered_bytes (store (server c)) + MR_SIZE + SLOT_SIZE ≤ max_total_bytes (store (server c)) →
  1 + Z.of_nat n < 2 ^ 64 →
  ∃ k c', kv_setup c = Ok k c' ∧ holds kv_rep n (replicate SLOT_COUNT None) k.
Proof using Type*.
  intros Hl Hpd Hsz Hrd Hq Hcap Hg Hdraw Hrate Hlk Hreg Htot Hn.
  pose proof (so_store _ (lk_ok _ Hl)) as Hso. pose proof (ok_next _ Hso) as Hnext.
  destruct (reg_mr_linked Hsink c (AccessFlags_bitor REMOTE_WRITE REMOTE_READ) MR_SIZE) as
    (r1 & c1 & Hrun1 & Hl1 & Hr1 & Hu1 & Hst1 & (Hm1 & Hrd1 & _) & Hlim1 & Hcnt1 & Hmr1 & Hq1 & Hpd1 & Hid1);
    try done; [unfold SLOT_SIZE in Hsz; lia|].
  pose proof (so_store _ (lk_ok _ Hl1)) as Hso1.
  destruct (reg_mr_linked Hsink c1 LOCAL_WRITE SLOT_SIZE) as
    (r2 & c2 & Hrun2 & Hl2 & Hr2 & Hu2 & Hst2 & (Hm2 & Hrd2 & _) & _ & _ & Hmr2 & Hq2 & _ & _);
    try done; [by rewrite Hpd1|rewrite Hm1; unfold SLOT_SIZE in Hsz; lia|by eapply grantable_after|].
  eexists _, c2. split.
  { unfold kv_setup. rewrite self_bind, (bind_Ok _ _ _ _ _ Hrun1), (bind_Ok _ _ _ _ _ Hrun2). reflexivity. }
  split; [apply empty_table_ok|]. split; cbn [KvStore_new kv_conn remote_rkey local_lkey kv_next_wrid mh_rkey mh_lkey].
  - done.
  - lia.
  - by rewrite Hq2, Hq1.
  - rewrite Hst1. cbn [registered next_lkey]. unfold uN. lia.
  - by rewrite Hm2, Hm1.
  - by rewrite Hrd2, Hrd1.
  - apply empty_slots.
  - eexists. rewrite Hst2, region_of_registered by done. rewrite decide_False.
    + rewrite Hst1, region_of_registered by done. rewrite decide_True by done.
      split; [reflexivity|]. cbn [e_access_flags e_data]. rewrite (proj2 empty_slots).
      split; [done|split; [done|reflexivity]].
    + intros Heq. apply Hu2. rewrite Hst1, Heq. cbn [registered used_rkeys]. apply elem_of_union_l, elem_of_singleton. reflexivity.
  - eexists. rewrite Hmr2, lookup_insert_eq. split; [done|]. cbn [mh_local_buf].
    unfold zlen. by rewrite length_replicate.
Qed.

(** A server with room for the table and the staging buffer. *)
Record hosts_table (cfg : ServerConfig) : Prop := {
  ht_ok : config_ok cfg;
  ht_reads : 0 < cfg_max_outstanding_reads cfg;
  ht_regions : 2 ≤ cfg_max_regions_per_session cfg;
  ht_bytes : MR_SIZE + SLOT_SIZE ≤ cfg_max_total_bytes_per_session cfg;
  ht_rate : 2 ≤ cfg_mr_reg_rate_limit cfg;
}.
Lemma ServerConfig_default_hosts : hosts_table ServerConfig_default.
Proof using Type. by split; [apply ServerConfig_default_ok|..]. Qed.

(** The whole stack, from the handshake to the empty table. *)
Lemma kv_boot cfg n b m :
  hosts_table cfg → (∀ r i, can_draw {[r]} i) → os_rng_fill n = Some b → 1 + Z.of_nat m < 2 ^ 64 →
  ∃ cn wr k c', connect_with_config n DEFAULT_CQ_CAPACITY (fresh_server cfg) = Ok cn wr ∧
    kv_setup (mkClient cn wr) = Ok k c' ∧ holds kv_rep m (replicate SLOT_COUNT None) k.
Proof using Type*.
  intros [Hok Hreads Hregs Hbytes Hrate] Hdraw Hb Hm. destruct Hok as [? ? ? ? ?].
  destruct (connect_linked Hsink cfg n b DEFAULT_CQ_CAPACITY) as
    (cn & wr & Hrun & Hl & _ & _ & _ & Hq & _ & Hpd & Hmax & (Hrd & Hlim & Hcnt & _) & Hst); [by split|done|done|].
  assert (∀ r i, can_draw ({[r]} ∪ ∅) i) as Hdraw' by (intros r i; rewrite (right_id_L ∅ (∪)); apply Hdraw).
  assert (0 < MR_SIZE ∧ 0 < SLOT_SIZE) as [Hmr Hss] by done.
  destruct (kv_setup_linked (mkClient cn wr) m) as (k & c' & Hk & Hh); cbn [conn wire];
    rewrite ?Hq, ?Hpd, ?Hmax, ?Hrd, ?Hlim, ?Hcnt, ?Hst; try done; cbn; rewrite ?map_size_empty; try lia.
  - split; cbn [conn wire]; rewrite ?Hlim, ?Hcnt, ?Hst; cbn; rewrite ?map_size_empty; try lia.
    destruct (Hdraw 0 (rng_draws (srv_world (wire_peer wr)))) as [Hne (i & b' & ? & ? & ? & ?)].
    split; [done|]. exists i, b'. split_and!; try done.
  - by exists cn, wr, k, c'.
Qed.

(** The whole stack starts: a client that connects to a fresh server with the
    default configuration and registers the table and the staging buffer, as the
    program does, holds the empty table, whenever the random source works (it does
    not fail and repeats no key for a thousand draws). *)
Theorem kv_starts n b m :
  (∀ r i, can_draw {[r]} i) → os_rng_fill n = Some b → 1 + Z.of_nat m < 2 ^ 64 →
  ∃ cn wr k c', connect_with_config n DEFAULT_CQ_CAPACITY (fresh_server ServerConfig_default) = Ok cn wr ∧
    kv_setup (mkClient cn wr) = Ok k c' ∧ holds kv_rep m (replicate SLOT_COUNT None) k.
Proof using Type*. intros. eapply kv_boot; [apply ServerConfig_default_hosts|done..]. Qed.
End link.
