(* ===== verification/KvWitness.v ===== *)
(** * The key-value store, on concrete instances

    The store that [main] builds on the concrete random source, sink and clock. *)

From S2P Require Import Prelude Externals Utf8 Core Frame Payloads Message MemoryStore StoreSpec.
From S2P Require Import ServerState Handler Session SessionFacts SessionProps.
From S2P Require Import Client Verbs ClientFacts EndToEnd Registration Kv KvTable KvProps KvLink.

Module KvWitness.
Import Concrete.

Lemma reliable : ∀ log, ws_send_error log = None.
Proof. done. Qed.
#[local] Instance slots : SlotMemory kv_rep := kv_rep_slots reliable.

Lemma counting_draw i : be_value (be_bytes 4 (Z.of_nat i + 1)) = (Z.of_nat i + 1) mod 2 ^ 32.
Proof. apply be_value_be_bytes. Qed.
Lemma counting_draws r n : can_draw {[r]} n.
Proof.
  split; [done|]. assert (∃ i, (i < 1000)%nat ∧ (Z.of_nat (n + i) + 1) mod 2 ^ 32 ≠ 0 ∧
    (Z.of_nat (n + i) + 1) mod 2 ^ 32 ≠ r) as (i & Hi & Hz & Hr).
  { set (a := Z.of_nat n). assert (∀ i, (i ≤ 2)%nat → Z.of_nat (n + i) + 1 = a + Z.of_nat i + 1) as He by lia.
    destruct (decide ((a + 1) mod 2 ^ 32 ≠ 0 ∧ (a + 1) mod 2 ^ 32 ≠ r)) as [[]|H0];
      [exists 0%nat; rewrite He by lia; split_and!; [lia|by rewrite Z.add_0_r..]|].
    destruct (decide ((a + 2) mod 2 ^ 32 ≠ 0 ∧ (a + 2) mod 2 ^ 32 ≠ r)) as [[]|H1];
      [exists 1%nat; rewrite He by lia; replace (a + Z.of_nat 1 + 1) with (a + 2) by lia; split_and!; [lia|done..]|].
    exists 2%nat. rewrite He by lia. replace (a + Z.of_nat 2 + 1) with (a + 3) by lia.
    Z.to_euclidean_division_equations. lia. }
  exists i, (be_bytes 4 (Z.of_nat (n + i) + 1)). split_and!; [done|done|by rewrite counting_draw|].
  rewrite counting_draw. by rewrite elem_of_singleton.
Qed.

(** A store with the empty table and a budget of a thousand work requests. *)
Lemma empty_store : ∃ k, holds kv_rep 1000 (replicate SLOT_COUNT None) k.
Proof.
  destruct (kv_boot reliable ServerConfig_default 0 [x00; x00; x00; x01] 1000) as (cn & wr & k & c' & _ & _ & Hk);
    [apply ServerConfig_default_hosts|intros; apply counting_draws|done|done|]. by exists k.
Qed.
(** Two keys with the same hash. *)
Definition key1 := lit "k6".
Definition key2 := lit "bob".
Lemma collide : hash_key key1 = hash_key key2 ∧ key1 ≠ key2.
Proof. by vm_compute. Qed.

Lemma kv_starts_witness :
  ∃ k, holds kv_rep 1000 (replicate SLOT_COUNT None) k.
Proof.
  destruct (kv_starts reliable 0 [x00; x00; x00; x01] 1000) as (cn & wr & k & c' & _ & _ & Hk);
    [intros; apply counting_draws|done|done|]. by exists k.
Defined.

Lemma budget m n tbl k : (m ≤ n)%nat → holds kv_rep n tbl k → holds kv_rep m tbl k.
Proof. intros ? Hk. by apply (holds_weaken kv_rep n). Qed.

Lemma kv_refines_table_witness :
  ∃ k r k', put key1 (lit "v") k = Ok r k' ∧ pr_slot r = 20 ∧ pr_update r = false.
Proof.
  destruct empty_store as [k Hk]. exists k.
  destruct (kv_refines_table kv_rep key1 (lit "v") (replicate SLOT_COUNT None) 900 k) as (_ & Hput & _);
    [done|done|by apply (budget _ 1000); [compute; lia|]|].
  destruct (decide _) as [_|Hn]; [|by destruct Hn]. rewrite find_empty in Hput.
  destruct Hput as (r & k' & Hput & Hs & Hu & _). exists r, k'. rewrite Hs, Hu.
  split; [exact Hput|]. vm_compute. by split.
Defined.

Lemma empty_chained : chained (replicate SLOT_COUNT None).
Proof. intros idx k v (Hn & _)%lookup_replicate. done. Qed.
Lemma entry1 : entry_ok (key1, lit "v").
Proof. done. Qed.

Lemma put_get_witness :
  ∃ k r k', put key1 (lit "v") k = Ok r k' ∧ ∃ g k2, get key1 k' = Ok g k2 ∧ gr_value <$> g = Some (lit "v").
Proof.
  destruct empty_store as [k Hk]. exists k.
  pose proof (put_spec kv_rep key1 (lit "v") _ 900 k entry1 (budget (S SLOT_COUNT + 900) 1000 _ k ltac:(compute; lia) Hk)) as Hp.
  rewrite find_empty in Hp. destruct Hp as (r & k' & Hput & _). exists r, k'. split; [done|].
  destruct (put_get kv_rep key1 (lit "v") (replicate SLOT_COUNT None) 800 k r k') as (tbl & _ & _ & Hget);
    [apply empty_chained|done|done|by apply (budget _ 1000); [compute; lia|]|done|].
  destruct (Hget key1) as (b & k1 & a & k2 & _ & Ha & Hv). exists a, k2. split; [done|].
  by rewrite decide_True in Hv.
Defined.

Lemma put_full_iff_witness : ∃ k, ¬ ∃ k', put key1 (lit "v") k = Err (KvFailed TableFull) k'.
Proof.
  destruct empty_store as [k Hk]. exists k. intros Hfull.
  pose proof (proj1 (put_full_iff kv_rep key1 (lit "v") (replicate SLOT_COUNT None) 900 k entry1
    (budget (S SLOT_COUNT + 900) 1000 _ k ltac:(compute; lia) Hk)) Hfull) as Hall.
  destruct (Hall 0%nat) as (other & v & Ho & _); [compute; lia|done].
Defined.

(** The table after a [put] of the first key. *)
Definition one : Table := <[20%nat := Some (key1, lit "v")]> (replicate SLOT_COUNT None).
Lemma one_store : ∃ k, holds kv_rep 900 one k.
Proof.
  destruct empty_store as [k Hk].
  pose proof (put_spec kv_rep key1 (lit "v") _ 900 k entry1 (budget (S SLOT_COUNT + 900) 1000 _ k ltac:(compute; lia) Hk)) as Hp.
  rewrite find_empty in Hp. destruct Hp as (r & k' & _ & _ & _ & Hk'). by exists k'.
Qed.

Lemma delete_cuts_chains_witness :
  ∃ k r k', kv_delete key1 k = Ok r k' ∧ dr_found r = true ∧
    ∃ g k2, get key1 k' = Ok g k2 ∧ gr_value <$> g = None.
Proof.
  destruct one_store as [k Hk]. exists k.
  destruct (delete_cuts_chains kv_rep key1 one 700 k 20) as (r & k' & Hdel & Hf & Hget);
    [by vm_compute|by exists (lit "v"); vm_compute|by apply (budget _ 900); [compute; lia|]|].
  exists r, k'. split_and!; [done|done|]. destruct (Hget key1) as (g & k2 & Hg & Hv).
  exists g, k2. by rewrite decide_True in Hv.
Defined.

Lemma delete_loses_other_key_witness :
  ∃ k k', (_ ← put key1 (lit "v"); _ ← put key2 (lit "w"); _ ← kv_delete key1; get key2) k = Ok None k'.
Proof.
  destruct empty_store as [k Hk]. exists k.
  destruct (delete_loses_other_key kv_rep key1 key2 (lit "v") (lit "w") 700 k) as (tbl & k' & Hrun & _);
    [apply collide|apply collide|done|done|by apply (budget _ 1000); [compute; lia|]|].
  by exists k'.
Defined.

Lemma dump_slots_spec_witness : ∃ k k', dump_slots k = Ok (imap slot_info one) k'.
Proof.
  destruct one_store as [k Hk]. exists k.
  destruct (dump_slots_spec kv_rep one 800 k) as (k' & Hd & _);
    [by apply (budget _ 900); [compute; lia|]|]. by exists k'.
Defined.

Lemma slot_roundtrip_witness :
  ∃ slot, encode_slot key1 (lit "v") = Some slot ∧ decode_slot slot = Some (Some (key1, lit "v")).
Proof.
  destruct (slot_roundtrip key1 (lit "v")) as (slot & He & _ & Hd); [done..|]. by exists slot.
Defined.
End KvWitness.
