(* ===== verification/Cancel.v ===== *)
(** * Requests dropped in the middle of a read

    When the client of an HTTP request goes away, the framework drops the task of the
    request at the await where it is suspended; the guard of the store's lock goes
    with it.  Here the await is the one of [rdma_read] for its READ_RESP: the request
    is on the wire and nobody takes the reply.  The file shows what becomes of the
    store ([rdows-kv/src/kv.rs]) and of its connection ([rdows-client/src/verbs.rs]). *)

From S2P Require Import Prelude Externals Utf8 Core Frame Payloads Message MemoryStore StoreSpec.
From S2P Require Import ServerState Handler Session SessionFacts SessionProps.
From S2P Require Import Client Verbs ClientFacts EndToEnd Registration Kv KvTable KvProps KvLink KvWitness.

(** ** Up to the await *)
Section request.
Context `{BytesCrate, Profile} {P : Type} `{!Peer P}.

(** [rdma_read] before [self.recv_app_message().await], and the rest. *)
Definition rdma_read_request (wrid : Z) (rkey : RKey) (remote_va read_len : Z) (local_lkey : LKey)
    (local_va : Z) : M (Client P) Stop unit :=
  q ← self cq;
  if CompletionQueue_is_full q then fail ErrCqOverflow else
  header ← next_header Opcode.ReadReq wrid;
  let payload := mkReadReq rkey remote_va read_len local_lkey local_va in
  on_wire (send_message (RdowsMessage.ReadReq header payload)).
Definition rdma_read_reply (wrid : Z) (local_lkey : LKey) (local_va : Z) : M (Client P) Stop unit :=
  resp ← recv_app_message;
  match resp with
  | RdowsMessage.ReadResp _ resp_payload =>
      mrs ← self local_mrs;
      mr ← ok_or (mrs !! local_lkey) (Failed (Protocol ErrInvalidLkey));
      let start := local_va in
      stop ← add_ovf 64 start (zlen (rr_data resp_payload));
      if zlen (mh_local_buf mr) <? stop then fail ErrBounds else
      buf ← or_panic (slice_copy (mh_local_buf mr) start stop (rr_data resp_payload));
      _ ← upd (set_local_mrs
                 (<[local_lkey := mkHandle (mh_lkey mr) (mh_rkey mr) (mh_len mr) buf]> mrs));
      sid ← self c_session_id;
      cq_push (mkCqe wrid 0 Opcode.ReadReq 0 (wrap 32 (zlen (rr_data resp_payload))) sid)
  | RdowsMessage.Error _ err =>
      sid ← self c_session_id;
      _ ← cq_push (mkCqe wrid (u16_from_ErrorCode (ep_error_code err)) Opcode.ReadReq 0 0 sid);
      fail (ep_error_code err)
  | other => unexpected (lit "READ_RESP") other
  end.
Lemma rdma_read_split wrid rkey va len lk lva c :
  rdma_read wrid rkey va len lk lva c =
  (_ ← rdma_read_request wrid rkey va len lk lva; rdma_read_reply wrid lk lva) c.
Proof using Type.
  unfold rdma_read, rdma_read_request. rewrite bind_assoc, !self_bind.
  destruct (CompletionQueue_is_full _); [done|]. by rewrite bind_assoc, !next_header_bind.
Qed.

(** [read_slot] up to the same point: what has happened when its task is dropped
    there. *)
Definition read_slot_request (slot_index : Z) : M (KvStore P) KvStop unit :=
  remote_va ← ovf 64 (slot_index * SLOT_SIZE);
  wrid ← next_wrid;
  rkey ← kv_field remote_rkey;
  lkey ← kv_field local_lkey;
  on_conn (rdma_read_request wrid rkey remote_va SLOT_SIZE lkey 0).
(** [get] dropped in its first turn *)
Definition get_dropped (key : list byte) : M (KvStore P) KvStop unit :=
  read_slot_request (probe_index (hash_key key) 0).
End request.

(** ** The connection with a reply that nobody took *)
Section behind.
Context `{BytesCrateLaws, Profile, !OsRng, !OsRngLaws, WsSinkEnv, Clock}.
Context (Hsink : ∀ log, ws_send_error log = None).
Implicit Types (c : Client Server) (k : KvStore Server).

(** The connection as it would be had the waiting replies been taken. *)
Definition caught_up c : Client Server :=
  mkClient (set_c_expected (Some (next_seq (session (server c)))) (conn c))
    (mkWire [] (ended (wire c)) (wire_peer (wire c))).
Lemma caught_up_linked c : linked c → caught_up c = c.
Proof using Type.
  intros Hl. pose proof (lk_client_exp _ Hl) as He. pose proof (linked_wire c Hl) as Hw. unfold caught_up.
  destruct c as [[] wr]. cbn in *. rewrite Hw in *. cbn in *. by subst.
Qed.

(** One READ_RESP with [old] waits. *)
Record behind c (old : list byte) : Prop := {
  bh_linked : linked (caught_up c);
  bh_inbox : ∃ h, let m := RdowsMessage.ReadResp h (mkReadResp 0 old) in
    inbox (wire c) = [WsBinary (RdowsMessage_encode m)] ∧ sendable m ∧
    c_expected_remote_seq (conn c) = Some (h_sequence h) ∧
    next_seq (session (server c)) = wrapping_add 32 (h_sequence h) 1;
}.

(** The request of a read on a live key: the server answers with the region's bytes,
    after whatever waits already. *)
Lemma read_request_sent c wrid rkey va len lk lva en :
  linked (caught_up c) → CompletionQueue_is_full (cq (conn c)) = false →
  u64 wrid → ReadReqPayload_typed (mkReadReq rkey va len lk lva) →
  READ_REQ_SIZE ≤ max_msg_size (session (server c)) → 0 < max_outstanding_reads (session (server c)) →
  region_of (store (server c)) rkey = Some en → AccessFlags_contains (e_access_flags en) REMOTE_READ = true →
  va + len ≤ zlen (e_data en) → 8 + len ≤ MAX_FRAME_PAYLOAD →
  let data := take (Z.to_nat len) (drop (Z.to_nat va) (e_data en)) in
  let rep := read_resp c wrid data in
  ∃ w1, rdma_read_request wrid rkey va len lk lva c =
      Ok tt (mkClient (bump (conn c)) (mkWire (inbox (wire c) ++ [WsBinary (RdowsMessage_encode rep)]) false
        (mkServer w1 true))) ∧
    sendable rep ∧ same_server (server c) w1 ∧ store w1 = store (server c) ∧
    linked (caught_up (mkClient (bump (conn c)) (mkWire [] false (mkServer w1 true)))) ∧
    next_seq (session w1) = wrapping_add 32 (next_seq (session (server c))) 1.
Proof using Type*.
  intros Hl Hfull Hw Ht Hsz Hrd Hreg Hf Hb Hlen data rep.
  destruct (read_reactions Hsink (caught_up c) wrid (mkReadReq rkey va len lk lva) en)
    as (w1 & Hre & Ho1 & Hr1 & Hsame & He1 & Hq1 & Hst1); try done.
  change (read_msg (caught_up c) wrid) with (read_msg c wrid) in Hre.
  change (server (caught_up c)) with (server c) in *.
  exists w1. destruct Ht as (_ & [Hva _] & [Hl0 _] & _). cbn [rq_remote_va rq_read_len] in *.
  assert (zlen data = len) as Hd by (unfold data, zlen in *; rewrite length_take, length_drop; lia).
  pose proof (linked_wire _ Hl) as Hwire. injection Hwire as Hended Hpeer.
  assert (wire c = mkWire (inbox (wire c)) false (mkServer (server c) true)) as Hwc
    by (destruct c as [cn [ib en' [w al]]]; cbn in *; by simplify_eq).
  destruct (sent_reacts (inbox (wire c)) _ _ _ _ Hre) as [Hse Hsn]. split_and!; try done.
  - unfold rdma_read_request. rewrite self_bind, Hfull, next_header_bind.
    rewrite <-(bind_ret_r (on_wire _)), send_bind. cbn [conn wire]. rewrite Hwc.
    fold (read_msg c wrid (mkReadReq rkey va len lk lva)). rewrite Hse, Hsn. done.
  - apply reply_sendable with (server c).
    + apply (reply_ok_of _ _ Opcode.ReadResp wrid); try done. apply (lk_ok _ Hl).
    + apply read_resp_one_frame. by rewrite Hd.
  - destruct Hsame as (_ & _ & Hid). split; try done; cbn.
    + rewrite Hid. apply (lk_sid _ Hl).
    + by apply wrapping_add_range.
Qed.

(** The state after the request, when the replies before it are known. *)
Lemma sent_behind c c0 w1 wrid data :
  linked (caught_up (mkClient (bump (conn c)) (mkWire [] false (mkServer w1 true)))) →
  sendable (read_resp c wrid data) →
  next_seq (session w1) = wrapping_add 32 (next_seq (session (server c))) 1 →
  wire c0 = mkWire [WsBinary (RdowsMessage_encode (read_resp c wrid data))] false (mkServer w1 true) →
  c_expected_remote_seq (conn c0) = Some (next_seq (session (server c))) →
  c_session_id (conn c0) = c_session_id (conn c) → c_next_seq (conn c0) = wrapping_add 32 (c_next_seq (conn c)) 1 →
  behind c0 data.
Proof using Type.
  intros [] Hs Hq Hw He Hsid Hnext. destruct c0 as [cn wr]. cbn in *. subst wr. split.
  - split; cbn in *; rewrite ?Hsid, ?Hnext; done.
  - eexists. cbn. split_and!; [reflexivity|done|by rewrite He|by rewrite Hq].
Qed.

Lemma read_dropped c wrid rkey va len lk lva en :
  linked c → CompletionQueue_is_full (cq (conn c)) = false →
  u64 wrid → ReadReqPayload_typed (mkReadReq rkey va len lk lva) →
  READ_REQ_SIZE ≤ max_msg_size (session (server c)) → 0 < max_outstanding_reads (session (server c)) →
  region_of (store (server c)) rkey = Some en → AccessFlags_contains (e_access_flags en) REMOTE_READ = true →
  va + len ≤ zlen (e_data en) → 8 + len ≤ MAX_FRAME_PAYLOAD →
  ∃ c', rdma_read_request wrid rkey va len lk lva c = Ok tt c' ∧ conn c' = bump (conn c) ∧
    behind c' (take (Z.to_nat len) (drop (Z.to_nat va) (e_data en))) ∧
    same_server (server c) (server c') ∧ store (server c') = store (server c).
Proof using Type*.
  intros Hl Hfull Hw Ht Hsz Hrd Hreg Hf Hb Hlen.
  destruct (read_request_sent c wrid rkey va len lk lva en) as (w1 & Hrun & Hs & Hsame & Hst & Hl1 & Hq1); try done.
  { by rewrite caught_up_linked. }
  rewrite (lk_inbox _ Hl) in Hrun. eexists. split; [exact Hrun|]. split_and!; try done.
  eapply sent_behind; try done. apply (lk_client_exp _ Hl).
Qed.

(** The next read takes the waiting reply for its own, and leaves its own waiting. *)
Lemma behind_read c old wrid rkey va len lk lva en mr :
  behind c old → CompletionQueue_is_full (cq (conn c)) = false →
  u64 wrid → ReadReqPayload_typed (mkReadReq rkey va len lk lva) →
  READ_REQ_SIZE ≤ max_msg_size (session (server c)) → 0 < max_outstanding_reads (session (server c)) →
  region_of (store (server c)) rkey = Some en → AccessFlags_contains (e_access_flags en) REMOTE_READ = true →
  va + len ≤ zlen (e_data en) → 8 + len ≤ MAX_FRAME_PAYLOAD →
  local_mrs (conn c) !! lk = Some mr → lva + zlen old ≤ zlen (mh_local_buf mr) < 2 ^ 64 →
  ∃ c', rdma_read wrid rkey va len lk lva c = Ok tt c' ∧
    behind c' (take (Z.to_nat len) (drop (Z.to_nat va) (e_data en))) ∧
    same_server (server c) (server c') ∧ store (server c') = store (server c) ∧
    cq (conn c') = pushed (mkCqe wrid 0 Opcode.ReadReq 0 (wrap 32 (zlen old)) (c_session_id (conn c))) (cq (conn c)) ∧
    local_mrs (conn c') = <[lk := mkHandle (mh_lkey mr) (mh_rkey mr) (mh_len mr)
      (splice (mh_local_buf mr) (Z.to_nat lva) old)]> (local_mrs (conn c)).
Proof using Type*.
  intros [Hl (h & Hi & Hso & He & Hq)] Hfull Hw Ht Hsz Hrd Hreg Hf Hb Hlen Hmr Hlb.
  destruct (read_request_sent c wrid rkey va len lk lva en) as (w1 & Hrun & Hs & Hsame & Hst & Hl1 & Hq1); try done.
  assert (0 ≤ lva) as Hlva by (destruct Ht as (_ & _ & _ & _ & [? _]); done).
  set (rep := read_resp c wrid _) in *.
  rewrite rdma_read_split, (bind_Ok _ _ _ _ _ Hrun), Hi. unfold rdma_read_reply. cbn [app].
  erewrite bind_Ok; [|apply (client_receives _ _ [WsBinary (RdowsMessage_encode rep)] Hso); [done|reflexivity|exact He]].
  cbn [sized_msg set_header rr_data]. rewrite self_bind.
  cbn [conn local_mrs set_c_expected bump set_c_next_seq]. rewrite Hmr, ok_or_bind.
  pose proof (zlen_nonneg old). unfold add_ovf. rewrite ovf_bind by (unfold uN; lia).
  rewrite (proj2 (Z.ltb_ge _ _)) by lia. rewrite slice_copy_Some, or_panic_bind, upd_bind by lia.
  rewrite self_bind. unfold cq_push. rewrite self_bind. eexists. split; [reflexivity|]. split_and!; try done.
  - eapply sent_behind; try done. cbn [c_expected_remote_seq conn set_cq set_local_mrs set_c_expected].
    by rewrite Hq.
  - cbn. unfold CompletionQueue_push. unfold CompletionQueue_is_full in Hfull. by rewrite Hfull.
Qed.

(** ** The store *)

(** The store holds the slots [t], but the next read gets [old]. *)
Definition kv_late (n : nat) (t : list (list byte)) (old : list byte) k : Prop :=
  kv_rep n t (set_kv_conn (caught_up (kv_conn k)) k) ∧ behind (kv_conn k) old ∧ zlen old = SLOT_SIZE.

(** The arguments with which the store reads a slot. *)
Lemma slot_read_args n t k i s :
  kv_rep (S n) t k → t !! i = Some s →
  ∃ en, region_of (store (server (kv_conn k))) (remote_rkey k) = Some en ∧
    AccessFlags_contains (e_access_flags en) REMOTE_WRITE = true ∧
    AccessFlags_contains (e_access_flags en) REMOTE_READ = true ∧ e_data en = concat t ∧
    take (Z.to_nat SLOT_SIZE) (drop (Z.to_nat (Z.of_nat i * SLOT_SIZE)) (e_data en)) = s ∧
    Z.of_nat i * SLOT_SIZE + SLOT_SIZE ≤ zlen (e_data en) ∧
    ReadReqPayload_typed (mkReadReq (remote_rkey k) (Z.of_nat i * SLOT_SIZE) SLOT_SIZE (local_lkey k) 0) ∧
    CompletionQueue_is_full (cq (conn (kv_conn k))) = false ∧ u64 (Z.of_nat i * SLOT_SIZE) ∧
    READ_REQ_SIZE ≤ max_msg_size (session (server (kv_conn k))) ∧ zlen s = SLOT_SIZE.
Proof using Type.
  intros [Hl Hw Hq [Hrk Hlk] Hsz Hrd Hs (en & Hreg & Hfw & Hfr & Hd) _] Hi. exists en.
  assert (i < SLOT_COUNT)%nat as Hi64 by (rewrite <-(proj1 Hs); by eapply lookup_lt_Some).
  pose proof (slot_va i Hi64) as Hva. change MR_SIZE with 65536 in Hva.
  pose proof (Forall_lookup_1 _ _ _ _ (proj2 Hs) Hi) as Hsl. cbn in Hsl. rewrite Hd, slots_length by done.
  split_and!; try done.
  all: try (unfold uN, SLOT_SIZE, READ_REQ_SIZE in *; cbn [rq_remote_va]; lia).
  - by apply read_slots.
  - apply (slot_va i Hi64).
  - split_and!; try done; unfold uN, SLOT_SIZE in *; cbn [rq_remote_va]; lia.
  - apply Z.leb_gt. rewrite (proj1 Hq). unfold zlen. cbn. lia.
Qed.

(** A read that is dropped leaves the store late. *)
Lemma read_slot_request_late n t k i s :
  kv_rep (S n) t k → t !! i = Some s →
  ∃ k', read_slot_request (Z.of_nat i) k = Ok tt k' ∧ kv_late n t s k'.
Proof using Type*.
  intros Hk Hi. destruct (next_wrid_eq n t k Hk) as (k1 & Hnw & -> & Hu).
  destruct (slot_read_args n t k i s Hk Hi) as (en & Hreg & Hfw & Hfr & Hd & Htk & Hb & Ht & Hfull & Hva & Hm & Hsl).
  destruct (read_dropped (kv_conn k) (kv_next_wrid k) (remote_rkey k) (Z.of_nat i * SLOT_SIZE) SLOT_SIZE
    (local_lkey k) 0 en) as (c' & Hrun & Hconn & Hbh & Hsame & Hst);
    try done; [apply (kr_linked _ _ _ Hk)|apply (kr_reads _ _ _ Hk)|].
  rewrite Htk in Hbh. exists (set_kv_conn c' (set_next_wrid (kv_next_wrid k + 1) k)). split.
  { unfold read_slot_request. rewrite ovf_bind by done. rewrite (bind_Ok _ _ _ _ _ Hnw), !kv_field_bind.
    by rewrite (on_conn_Ok _ (set_next_wrid _ k) _ _ Hrun). }
  split_and!; [|done|done]. pose proof Hk as [Hl Hw Hq Hkeys Hsz Hrd Hs _ Hloc]. destruct Hsame as (Hm' & Hr' & _).
  split; cbn; rewrite ?Hconn; try done; [apply Hbh|lia|by rewrite Hm'|by rewrite Hr'|exists en; by rewrite Hst].
Qed.

(** Every read of a late store gets the slot of the read before it. *)
Lemma late_read n t old k i s :
  kv_late (S n) t old k → t !! i = Some s → ∃ k', read_slot (Z.of_nat i) k = Ok old k' ∧ kv_late n t s k'.
Proof using Type*.
  intros (Hk & Hbh & Hold) Hi. set (k0 := set_kv_conn (caught_up (kv_conn k)) k) in *.
  destruct (next_wrid_eq n t k0 Hk) as (k1 & Hnw0 & -> & Hu). cbn [kv_next_wrid k0 set_kv_conn] in *.
  assert (next_wrid k = Ok (kv_next_wrid k) (set_next_wrid (kv_next_wrid k + 1) k)) as Hnw.
  { revert Hnw0. unfold next_wrid. rewrite !kv_field_bind. cbn [kv_next_wrid k0 set_kv_conn].
    unfold add_ovf. destruct (kr_wrid _ _ _ Hk). by rewrite !ovf_bind by (cbn in *; unfold uN; lia). }
  destruct (slot_read_args n t k0 i s Hk Hi) as (en & Hreg & Hfw & Hfr & Hd & Htk & Hb & Ht & Hfull & Hva & Hm & Hsl).
  destruct (kr_local _ _ _ Hk) as (mr & Hmr & Hmb).
  destruct (behind_read (kv_conn k) old (kv_next_wrid k) (remote_rkey k) (Z.of_nat i * SLOT_SIZE) SLOT_SIZE
    (local_lkey k) 0 en mr) as (c' & Hrun & Hbh' & Hsame & Hst & Hcq & Hloc);
    try done; [apply (kr_reads _ _ _ Hk)| |].
  { rewrite Hold, Hmb. unfold SLOT_SIZE. lia. }
  rewrite Htk in Hbh'. change (Z.to_nat 0) with 0%nat in Hloc. rewrite splice_whole in Hloc by (unfold zlen in *; lia).
  set (mr' := mkHandle _ _ _ old) in Hloc.
  assert (local_mrs (conn c') !! local_lkey k = Some mr') as Hmr' by (rewrite Hloc; apply lookup_insert_eq).
  exists (polled (cq (conn (kv_conn k))) c' k). split.
  - unfold read_slot. rewrite ovf_bind by done. rewrite (bind_Ok _ _ _ _ _ Hnw), !kv_field_bind.
    rewrite (bind_Ok _ _ _ _ _ (on_conn_Ok _ (set_next_wrid _ k) _ _ Hrun)).
    rewrite (bind_Ok _ _ _ _ _ (on_conn_Ok _ (set_kv_conn c' _) _ _ (poll_pushed _ c' _ Hcq (proj1 (kr_cq _ _ _ Hk))))).
    erewrite bind_Ok; [|apply on_conn_Ok, (read_local_mr_eq _ _ 0 SLOT_SIZE mr'); [exact Hmr'|done|done|]].
    2:{ cbn. rewrite Hold. unfold SLOT_SIZE. lia. }
    cbn [mh_local_buf mr']. change (Z.to_nat 0) with 0%nat. rewrite drop_0, take_ge by (unfold zlen in *; lia).
    rewrite slice_copy_Some by done. change (Z.to_nat 0) with 0%nat.
    rewrite splice_whole; [done|]. unfold zlen in Hold. unfold zero_slot. rewrite length_replicate. lia.
  - split_and!; [|by destruct Hbh' as [[] ?]; split|done].
    apply (kv_rep_polled n t t k0 (caught_up c') en mr' Hk); try done; [apply Hbh'|apply Hk|].
    change (region_of (store (server c')) (remote_rkey k) = Some en). by rewrite Hst.
Qed.

Lemma path_Z_0 key : probe_index (hash_key key) 0 = Z.of_nat (path key 0).
Proof using Type. by rewrite path_Z. Qed.
Lemma table_get_first (tbl : Table) key v : tbl !! path key 0 = Some (Some (key, v)) → table_get tbl key = Some v.
Proof using Type.
  intros Hkey. unfold table_get. rewrite find_first.
  - cbn. by rewrite Hkey.
  - rewrite (stops_entry _ _ _ _ _ Hkey). by apply bool_decide_eq_true.
Qed.

(** Reads one after the other. *)
Fixpoint read_all (slots : list nat) : M (KvStore Server) KvStop (list (list byte)) :=
  match slots with
  | [] => mret []
  | j :: rest => data ← read_slot (Z.of_nat j); datas ← read_all rest; mret (data :: datas)
  end.
Lemma late_read_all t js : ∀ n k i s,
  kv_late (length js + n) t s k → t !! i = Some s → Forall (λ j, j < length t)%nat js →
  ∃ k', read_all js k = Ok (take (length js) ((λ j, t !!! j) <$> (i :: js))) k'.
Proof using Type*.
  induction js as [|j js IH]; intros n k i s Hk Hi Hjs; [by exists k|]. inversion Hjs as [|? ? Hj Hjs']; subst.
  destruct (lookup_lt_is_Some_2 t j Hj) as [s' Hs'].
  destruct (late_read (length js + n) t s k j s' Hk Hs') as (k1 & Hr & Hk1).
  destruct (IH n k1 j s' Hk1 Hs' Hjs') as (k' & Hrs). exists k'. cbn [read_all].
  rewrite (bind_Ok _ _ _ _ _ Hr), (bind_Ok _ _ _ _ _ Hrs). cbn. by rewrite (list_lookup_total_correct _ _ _ Hi).
Qed.

(** C35: the store does not survive a request that is dropped while it reads.  Its
    READ_RESP stays on the connection and is taken for the answer to the next read:
    from then on every read of a slot returns the slot of the read before it.  So
    after a GET of an absent key was dropped, a key that is stored, in its first
    slot, is reported as not found, although without the dropped request it is found. *)
Theorem dropped_request_misleads n tbl k other key v i js :
  holds kv_rep (S (S SLOT_COUNT + n)) tbl k →
  tbl !! path other 0 = Some None → tbl !! path key 0 = Some (Some (key, v)) →
  (i < SLOT_COUNT)%nat → Forall (λ j, j < SLOT_COUNT)%nat js → (length js ≤ n)%nat →
  (∃ k', (_ ← read_slot_request (Z.of_nat i); read_all js) k =
     Ok (take (length js) ((λ j, (slot_of <$> tbl) !!! j) <$> (i :: js))) k') ∧
  (∃ k', (_ ← get_dropped other; get key) k = Ok None k') ∧
  (∃ r k', get key k = Ok (Some r) k' ∧ gr_value r = v).
Proof using Type*.
  intros [Hok Hk] Ho Hkey Hi Hjs Hn. pose proof (kv_rep_slots Hsink) as Hsm.
  assert (length (slot_of <$> tbl) = SLOT_COUNT) as Hlen by apply Hk. split_and!.
  - destruct (lookup_lt_is_Some_2 (slot_of <$> tbl) i ltac:(lia)) as [s Hs].
    destruct (read_slot_request_late (length js + (S SLOT_COUNT + n - length js)) (slot_of <$> tbl) k i s) as (k1 & Hr & Hk1);
      [by replace (length js + _)%nat with (S SLOT_COUNT + n)%nat by lia|done|].
    rewrite (bind_Ok _ _ _ _ _ Hr). eapply late_read_all; [exact Hk1|done|]. by rewrite Hlen.
  - unfold get_dropped. rewrite path_Z_0. destruct (read_slot_request_late (S SLOT_COUNT + n) (slot_of <$> tbl) k (path other 0) zero_slot)
      as (k1 & Hr & Hk1); [done|by rewrite list_lookup_fmap, Ho|]. rewrite (bind_Ok _ _ _ _ _ Hr).
    destruct (late_read (SLOT_COUNT + n) (slot_of <$> tbl) zero_slot k1 (path key 0) (slot_of (Some (key, v))))
      as (k2 & Hr2 & _); [done|by rewrite list_lookup_fmap, Hkey|].
    exists k2. unfold get. change SLOT_COUNT with (S 63). cbn [get_loop]. rewrite path_Z_0, (bind_Ok _ _ _ _ _ Hr2).
    done.
  - destruct (get_spec kv_rep key tbl 0 k) as (r & k' & Hg & _ & Hr); [split; [done|]; eapply sm_weaken; [done|lia]|].
    rewrite (table_get_first tbl key v Hkey) in Hr. destruct r as [r|]; [|done].
    exists r, k'. split; [done|]. by injection Hr.
Qed.
End behind.

Module CancelWitness.
Import Concrete KvWitness.

(** The store holds [key1]; a GET of another key is dropped, then [key1] is looked up. *)
Lemma dropped_request_misleads_witness :
  ∃ k k', (_ ← get_dropped (lit "a"); get key1) k = Ok None k' ∧
    ∃ r k'', get key1 k = Ok (Some r) k'' ∧ gr_value r = lit "v".
Proof.
  destruct one_store as [k Hk].
  destruct (dropped_request_misleads reliable 3 one k (lit "a") key1 (lit "v") 5 [6; 7; 20]%nat) as (_ & (k' & Hd) & Hg);
    [by apply (budget _ 900); [compute; lia|]|by vm_compute|by vm_compute|compute; lia
    |repeat constructor; compute; lia|done|].
  by exists k, k'.
Defined.
End CancelWitness.
