(* ===== verification/Display.v ===== *)
(** * Error messages ([rdows-core/src/error.rs], [rdows-kv/src/kv.rs])

    The [Display] implementations; those of [RdowsError] are the format strings of
    its [#\[error\]] attributes, and [{got:?}] is the name of the opcode. *)

From S2P Require Import Prelude Externals Utf8 Core Kv.

Definition InvalidErrorCode_display (value : Z) : list byte :=
  lit "invalid RDoWS error code: 0x" ++ fmt_hex 4 value.

(** [#\[derive(Debug)\]] of [Opcode] *)
Definition Opcode_debug (op : Opcode) : list byte :=
  match op with
  | Opcode.Connect => lit "Connect"
  | Opcode.ConnectAck => lit "ConnectAck"
  | Opcode.Disconnect => lit "Disconnect"
  | Opcode.MrReg => lit "MrReg"
  | Opcode.MrRegAck => lit "MrRegAck"
  | Opcode.MrDereg => lit "MrDereg"
  | Opcode.MrDeregAck => lit "MrDeregAck"
  | Opcode.Send => lit "Send"
  | Opcode.SendData => lit "SendData"
  | Opcode.RecvComp => lit "RecvComp"
  | Opcode.Write => lit "Write"
  | Opcode.WriteData => lit "WriteData"
  | Opcode.WriteComp => lit "WriteComp"
  | Opcode.ReadReq => lit "ReadReq"
  | Opcode.ReadResp => lit "ReadResp"
  | Opcode.AtomicReq => lit "AtomicReq"
  | Opcode.AtomicResp => lit "AtomicResp"
  | Opcode.Ack => lit "Ack"
  | Opcode.CreditUpdate => lit "CreditUpdate"
  | Opcode.Error => lit "Error"
  end.

Definition RdowsError_display (e : RdowsError) : list byte :=
  match e with
  | InvalidVersion v => lit "invalid protocol version: 0x" ++ fmt_hex 2 v
  | InvalidOpcode op => lit "invalid opcode: 0x" ++ fmt_hex 2 op
  | PayloadTooShort expected got =>
      lit "payload too short: expected at least " ++ dec_display expected ++ lit " bytes, got " ++ dec_display got
  | HeaderTooShort got => lit "header too short: need 24 bytes, got " ++ dec_display got
  | Protocol code => lit "protocol error: " ++ ErrorCode_display code
  | ConnectionRejected why => lit "connection rejected: " ++ why
  | SessionNotReady => lit "session not ready"
  | SessionClosed => lit "session closed"
  | SendCreditsExhausted => lit "send credits exhausted"
  | UnexpectedMessage expected got =>
      lit "unexpected message: expected " ++ expected ++ lit ", got " ++ Opcode_debug got
  | WebSocket e => lit "websocket error: " ++ e
  | Tls e => lit "tls error: " ++ e
  | Io e => lit "io error: " ++ e
  end.

Definition KvError_display (e : KvError) : list byte :=
  match e with
  | Rdma e => lit "RDMA error: " ++ RdowsError_display e
  | TableFull => lit "hash table full"
  | KeyTooLong => lit "key exceeds " ++ dec_display MAX_KEY_LEN ++ lit " bytes"
  | ValueTooLong => lit "value exceeds " ++ dec_display MAX_VALUE_LEN ++ lit " bytes"
  end.
