(* ===== verification/Api.v ===== *)
(** * The HTTP interface of the store ([rdows-kv/src/api.rs])

    The handlers behind the routes, on the arguments that the framework extracted
    from the request.  The body of a response is the value that is handed to the
    JSON serializer.  Here the requests come one after the other, in the order in which
    they get the lock of the store; [ApiTasks.v] has the tasks that compete for it. *)

From S2P Require Import Prelude Externals Utf8 Core Frame Payloads Message Client Verbs Kv Display.

Inductive StatusCode : Set :=
| OK
| NOT_FOUND
| PAYLOAD_TOO_LARGE
| INSUFFICIENT_STORAGE
| INTERNAL_SERVER_ERROR.
#[export] Instance StatusCode_eq_dec : EqDecision StatusCode.
Proof. solve_decision. Defined.

(** The value of [get_stats]. *)
Record Stats := mkStats {
  ss_session_id : list byte; ss_rkey : list byte;
  ss_mr_size : Z; ss_slot_count : Z; ss_slot_size : Z;
}.

Inductive Body : Type :=
| IndexBody
| PutBody (r : PutResult)
| GetBody (r : GetResult)
| DeleteBody (r : DeleteResult)
| SlotsBody (slots : list SlotInfo)
| StatsBody (stats : Stats)
| ErrorBody (error : list byte)
| ErrorKeyBody (error key : list byte).

Record Response := mkResponse { rs_status : StatusCode; rs_body : Body }.

(** A request that a route matched, with its arguments. *)
Inductive HttpRequest : Type :=
| GetIndex
| GetKv (key : list byte)
| PutKv (key value : list byte)
| DeleteKv (key : list byte)
| GetSlots
| GetStats.
#[export] Instance HttpRequest_eq_dec : EqDecision HttpRequest.
Proof. solve_decision. Defined.

Section api.
Context `{BytesCrate, Profile} {P : Type} `{!Peer P}.

(** [match kv.op().await] *)
Definition try_kv {A} (m : M (KvStore P) KvStop A) : M (KvStore P) KvStop (KvError + A) := λ k,
  match m k with
  | Ok a k' => Ok (inr a) k'
  | Err (KvFailed e) k' => Ok (inl e) k'
  | Err KvWaiting k' => Err KvWaiting k'
  | Panic => Panic
  end.

(** What each handler makes of the [Result] of its operation. *)
Definition put_response (res : KvError + PutResult) : Response :=
  match res with
  | inr result => mkResponse OK (PutBody result)
  | inl TableFull => mkResponse INSUFFICIENT_STORAGE (ErrorBody (lit "hash table full"))
  | inl KeyTooLong => mkResponse PAYLOAD_TOO_LARGE (ErrorBody (lit "key too long (max 255 bytes)"))
  | inl ValueTooLong => mkResponse PAYLOAD_TOO_LARGE (ErrorBody (lit "value too long (max 764 bytes)"))
  | inl e => mkResponse INTERNAL_SERVER_ERROR (ErrorBody (KvError_display e))
  end.
Definition get_response (key : list byte) (res : KvError + option GetResult) : Response :=
  match res with
  | inr (Some result) => mkResponse OK (GetBody result)
  | inr None => mkResponse NOT_FOUND (ErrorKeyBody (lit "key not found") key)
  | inl e => mkResponse INTERNAL_SERVER_ERROR (ErrorBody (KvError_display e))
  end.
Definition delete_response (key : list byte) (res : KvError + DeleteResult) : Response :=
  match res with
  | inr result =>
      let status := if dr_found result then OK else NOT_FOUND in
      if dr_found result then mkResponse OK (DeleteBody result)
      else mkResponse status (ErrorKeyBody (lit "key not found") key)
  | inl e => mkResponse INTERNAL_SERVER_ERROR (ErrorBody (KvError_display e))
  end.
Definition slots_response (res : KvError + list SlotInfo) : Response :=
  match res with
  | inr slots => mkResponse OK (SlotsBody slots)
  | inl e => mkResponse INTERNAL_SERVER_ERROR (ErrorBody (KvError_display e))
  end.

Definition put_key (key value : list byte) : M (KvStore P) KvStop Response :=
  res ← try_kv (put key value); mret (put_response res).
Definition get_key (key : list byte) : M (KvStore P) KvStop Response :=
  res ← try_kv (get key); mret (get_response key res).
Definition delete_key (key : list byte) : M (KvStore P) KvStop Response :=
  res ← try_kv (kv_delete key); mret (delete_response key res).
Definition get_slots : M (KvStore P) KvStop Response :=
  res ← try_kv dump_slots; mret (slots_response res).

(** [format!("0x{:08X}", v)] *)
Definition fmt_key (v : Z) : list byte := lit "0x" ++ fmt_hex 8 v.
Definition stats_response (session_id rkey : Z) : Response :=
  mkResponse OK (StatsBody
    (mkStats (fmt_key session_id) (fmt_key rkey) MR_SIZE (Z.of_nat SLOT_COUNT) SLOT_SIZE)).
Definition get_stats : M (KvStore P) KvStop Response :=
  session_id ← kv_field kv_session_id;
  rkey ← kv_field remote_rkey_value;
  mret (stats_response session_id rkey).

Definition index_html : M (KvStore P) KvStop Response := mret (mkResponse OK IndexBody).

Definition router (req : HttpRequest) : M (KvStore P) KvStop Response :=
  match req with
  | GetIndex => index_html
  | GetKv key => get_key key
  | PutKv key value => put_key key value
  | DeleteKv key => delete_key key
  | GetSlots => get_slots
  | GetStats => get_stats
  end.

(** The requests in the order in which they get the lock. *)
Fixpoint serve_http (reqs : list HttpRequest) : M (KvStore P) KvStop (list Response) :=
  match reqs with
  | [] => mret []
  | req :: rest =>
      resp ← router req;
      resps ← serve_http rest;
      mret (resp :: resps)
  end.
End api.
