(* ===== verification/ApiProps.v ===== *)
(** * What the HTTP interface promises

    Any sequence of requests is answered as the abstract table of [KvTable.v]
    answers it; without deletions the table is a map of at most 64 keys. *)

From S2P Require Import Prelude Externals Utf8 Core Frame Payloads Message MemoryStore StoreSpec.
From S2P Require Import ServerState Handler Session SessionFacts SessionProps.
From S2P Require Import Client Verbs ClientFacts EndToEnd Registration Kv KvTable KvProps KvLink Display Api.

#[export] Instance byte_countable : Countable byte :=
  inj_countable Byte.to_N Byte.of_N Byte.of_to_N.

(** What a client of the interface looks at. *)
Inductive Seen : Type :=
| SeenPage
| SeenStored (slot : Z) (update : bool)
| SeenValue (value : list byte)
| SeenDeleted
| SeenSlots (slots : list SlotInfo)
| SeenError.
Definition observe (r : Response) : StatusCode * Seen :=
  (rs_status r,
   match rs_body r with
   | IndexBody | StatsBody _ => SeenPage
   | PutBody r => SeenStored (pr_slot r) (pr_update r)
   | GetBody r => SeenValue (gr_value r)
   | DeleteBody _ => SeenDeleted
   | SlotsBody slots => SeenSlots slots
   | ErrorBody _ | ErrorKeyBody _ _ => SeenError
   end).

(** ** The table as a server *)
Definition table_delete (tbl : Table) (key : list byte) : Table :=
  match find tbl key with Some idx => <[idx := None]> tbl | None => tbl end.
Definition table_step (tbl : Table) (req : HttpRequest) : (StatusCode * Seen) * Table :=
  match req with
  | GetIndex | GetStats => ((OK, SeenPage), tbl)
  | GetKv key =>
      (match table_get tbl key with Some v => (OK, SeenValue v) | None => (NOT_FOUND, SeenError) end, tbl)
  | PutKv key value =>
      if decide (zlen key ≤ MAX_KEY_LEN ∧ zlen value ≤ MAX_VALUE_LEN) then
        match find tbl key with
        | Some idx => ((OK, SeenStored (Z.of_nat idx) (bool_decide (is_Some (table_get tbl key)))),
                       <[idx := Some (key, value)]> tbl)
        | None => ((INSUFFICIENT_STORAGE, SeenError), tbl)
        end
      else ((PAYLOAD_TOO_LARGE, SeenError), tbl)
  | DeleteKv key =>
      if decide (is_Some (table_get tbl key)) then ((OK, SeenDeleted), table_delete tbl key)
      else ((NOT_FOUND, SeenError), tbl)
  | GetSlots => ((OK, SeenSlots (imap slot_info tbl)), tbl)
  end.
Fixpoint table_run (tbl : Table) (reqs : list HttpRequest) : list (StatusCode * Seen) :=
  match reqs with
  | [] => []
  | req :: rest => (table_step tbl req).1 :: table_run (table_step tbl req).2 rest
  end.

(** Keys and values are strings. *)
Definition request_utf8 (req : HttpRequest) : Prop :=
  match req with
  | PutKv key value => valid_utf8 key ∧ valid_utf8 value
  | GetKv key | DeleteKv key => valid_utf8 key
  | _ => True
  end.

Section router.
Context `{BytesCrate, Profile} {P : Type} `{!Peer P}.
Context (rep : nat → list (list byte) → KvStore P → Prop) `{!SlotMemory rep}.
Implicit Types (tbl : Table) (k : KvStore P) (key value : list byte).

Lemma try_kv_Ok {A B} (m : M (KvStore P) KvStop A) (f : KvError + A → M (KvStore P) KvStop B) k a k' :
  m k = Ok a k' → (try_kv m ≫= f) k = f (inr a) k'.
Proof using Type. intros Hm. unfold mbind, M_bind, try_kv. by rewrite Hm. Qed.
Lemma try_kv_Err {A B} (m : M (KvStore P) KvStop A) (f : KvError + A → M (KvStore P) KvStop B) k e k' :
  m k = Err (KvFailed e) k' → (try_kv m ≫= f) k = f (inl e) k'.
Proof using Type. intros Hm. unfold mbind, M_bind, try_kv. by rewrite Hm. Qed.

Lemma put_key_step key value tbl b k :
  valid_utf8 key → valid_utf8 value → holds rep (S SLOT_COUNT + b) tbl k →
  ∃ resp k', put_key key value k = Ok resp k' ∧ observe resp = (table_step tbl (PutKv key value)).1 ∧
    holds rep b (table_step tbl (PutKv key value)).2 k'.
Proof using Type*.
  intros Hk Hv Hh. unfold put_key. cbn [table_step]. case_decide as Hd.
  - assert (entry_ok (key, value)) as He by (by destruct Hd).
    pose proof (put_spec rep key value tbl b k He Hh) as Hp. destruct (find tbl key) as [idx|] eqn:Hf.
    + destruct Hp as (r & k' & Hp & Hs & Hu & Hh'). rewrite (try_kv_Ok _ _ _ _ _ Hp).
      eexists _, k'. split; [reflexivity|]. split; [|done]. unfold observe; cbn.
      by rewrite Hs, Hu, (occupied_get _ _ _ Hf).
    + destruct Hp as (k' & Hp & Hh'). rewrite (try_kv_Err _ _ _ _ _ Hp). by eexists _, k'.
  - assert (∃ e, put key value k = Err (KvFailed e) k ∧ (e = KeyTooLong ∨ e = ValueTooLong)) as (e & Hp & He).
    { unfold put. destruct (Z.ltb_spec MAX_KEY_LEN (zlen key)); [by eauto|].
      destruct (Z.ltb_spec MAX_VALUE_LEN (zlen value)); [by eauto|lia]. }
    rewrite (try_kv_Err _ _ _ _ _ Hp). pose proof (holds_weaken rep _ b _ _ Hh ltac:(lia)) as Hb.
    destruct He as [-> | ->]; by eexists _, k.
Qed.

Lemma router_step req tbl b k :
  request_utf8 req → holds rep (S SLOT_COUNT + b) tbl k →
  ∃ resp k', router req k = Ok resp k' ∧ observe resp = (table_step tbl req).1 ∧
    holds rep b (table_step tbl req).2 k'.
Proof using Type*.
  intros Hu Hh. destruct req as [|key|key value|key| |]; cbn [router].
  - eexists _, k. split; [reflexivity|]. split; [done|]. eapply holds_weaken; [done|done|lia].
  - destruct (get_spec rep key tbl b k) as (r & k' & Hg & Hh' & Hr); [eapply holds_weaken; [done|done|lia]|].
    unfold get_key. rewrite (try_kv_Ok _ _ _ _ _ Hg). cbn [table_step]. rewrite <-Hr.
    destruct r as [r|]; by eexists _, k'.
  - by apply put_key_step; [apply Hu..|].
  - destruct (delete_spec rep key tbl b k Hh) as (r & k' & Hd & Hp).
    unfold delete_key, delete_response. rewrite (try_kv_Ok _ _ _ _ _ Hd). cbn [table_step]. unfold table_delete.
    destruct (find tbl key) as [idx|] eqn:Hf.
    + rewrite (occupied_get _ _ _ Hf) in Hp. destruct Hp as [Hfd Hp]. case_decide as Hi.
      * rewrite bool_decide_eq_true_2 in * by done. rewrite Hfd. by eexists _, k'.
      * rewrite bool_decide_eq_false_2 in * by done. rewrite Hfd. by eexists _, k'.
    + destruct Hp as [Hfd Hp]. rewrite decide_False; [rewrite Hfd; by eexists _, k'|].
      unfold table_get. rewrite Hf. by intros [].
  - destruct (dump_slots_spec rep tbl b k) as (k' & Hd & Hh'); [eapply holds_weaken; [done|done|lia]|].
    unfold get_slots. rewrite (try_kv_Ok _ _ _ _ _ Hd). by eexists _, k'.
  - eexists _, k. split; [reflexivity|]. split; [done|]. eapply holds_weaken; [done|done|lia].
Qed.

Lemma serve_http_table reqs : ∀ tbl b k,
  Forall request_utf8 reqs → holds rep (length reqs * S SLOT_COUNT + b) tbl k →
  ∃ resps k', serve_http reqs k = Ok resps k' ∧ observe <$> resps = table_run tbl reqs ∧
    ∃ tbl', holds rep b tbl' k'.
Proof using Type*.
  induction reqs as [|req reqs IH]; intros tbl b k Hu Hh; cbn [serve_http table_run].
  { exists [], k. split_and!; [done|done|by exists tbl]. }
  inversion Hu; subst. destruct (router_step req tbl (length reqs * S SLOT_COUNT + b) k)
    as (resp & k1 & Hr & Ho & Hh1); [done|eapply holds_weaken; [done|done|cbn [length]; lia]|].
  destruct (IH _ b k1 ltac:(done) Hh1) as (resps & k' & Hs & Hos & Hb).
  exists (resp :: resps), k'. rewrite (bind_Ok _ _ _ _ _ Hr), (bind_Ok _ _ _ _ _ Hs).
  split_and!; [done| |done]. cbn [fmap list_fmap]. by rewrite Ho, <-Hos.
Qed.
End router.

(** ** Without deletions: a map of 64 keys *)
Abbreviation KeyMap := (gmap (list byte) (list byte)).

Definition map_step (m : KeyMap) (req : HttpRequest) : (StatusCode * Seen) * KeyMap :=
  match req with
  | GetKv key => (match m !! key with Some v => (OK, SeenValue v) | None => (NOT_FOUND, SeenError) end, m)
  | PutKv key value =>
      if decide (zlen key ≤ MAX_KEY_LEN ∧ zlen value ≤ MAX_VALUE_LEN) then
        if decide (is_Some (m !! key)) then ((OK, SeenStored 0 true), <[key := value]> m)
        else if decide (size m < SLOT_COUNT)%nat then ((OK, SeenStored 0 false), <[key := value]> m)
        else ((INSUFFICIENT_STORAGE, SeenError), m)
      else ((PAYLOAD_TOO_LARGE, SeenError), m)
  | _ => ((OK, SeenPage), m)
  end.
Fixpoint map_run (m : KeyMap) (reqs : list HttpRequest) : list (StatusCode * Seen) :=
  match reqs with
  | [] => []
  | req :: rest => (map_step m req).1 :: map_run (map_step m req).2 rest
  end.
(** Lookups and insertions. *)
Definition map_request (req : HttpRequest) : Prop :=
  match req with GetKv _ | PutKv _ _ => True | _ => False end.
(** The number of the slot is the table's business. *)
Definition slotless (x : StatusCode * Seen) : StatusCode * Seen :=
  match x with (st, SeenStored _ update) => (st, SeenStored 0 update) | _ => x end.

Section map.
Implicit Types (tbl : Table) (key value : list byte).

Definition entries_of tbl : list (list byte * list byte) := omap id tbl.
Definition map_of tbl : KeyMap := list_to_map (entries_of tbl).

Lemma elem_of_entries tbl e : e ∈ entries_of tbl ↔ ∃ idx, tbl !! idx = Some (Some e).
Proof.
  unfold entries_of. rewrite list_elem_of_omap. split.
  - intros (o & Ho & Hid). cbn in Hid. subst o. by apply list_elem_of_lookup in Ho.
  - intros (idx & Hi). exists (Some e). split; [|done]. by eapply list_elem_of_lookup_2.
Qed.
Lemma entries_NoDup tbl :
  (∀ i j key v v', tbl !! i = Some (Some (key, v)) → tbl !! j = Some (Some (key, v')) → i = j) →
  NoDup (entries_of tbl).*1.
Proof.
  induction tbl as [|o tbl IH]; intros Hinj; [constructor|].
  assert (NoDup (entries_of tbl).*1) as Hnd.
  { apply IH. intros i j key v v' Hi Hj. assert (S i = S j) by (by eapply Hinj). lia. }
  destruct o as [[key v]|]; [|done]. cbn. constructor; [|done].
  intros ([key' v'] & Hk & (j & Hj)%elem_of_entries)%list_elem_of_fmap. cbn in Hk. subst key'.
  by specialize (Hinj 0%nat (S j) key v v' eq_refl Hj).
Qed.
Lemma chained_NoDup tbl : chained tbl → NoDup (entries_of tbl).*1.
Proof.
  intros Hc. apply entries_NoDup. intros i j key v v' Hi%Hc Hj%Hc. congruence.
Qed.
Lemma map_of_lookup tbl key : chained tbl → map_of tbl !! key = table_get tbl key.
Proof.
  intros Hc. apply option_eq. intros v. rewrite table_get_Some by done. unfold map_of.
  rewrite <-elem_of_list_to_map by (by apply chained_NoDup). apply elem_of_entries.
Qed.
Lemma map_of_size tbl : chained tbl → size (map_of tbl) = length (entries_of tbl).
Proof. intros Hc. apply map_size_list_to_map. by apply chained_NoDup. Qed.

Lemma entries_le tbl : (length (entries_of tbl) ≤ length tbl)%nat.
Proof. induction tbl as [|[e|] tbl IH]; cbn; unfold entries_of in *; cbn; lia. Qed.
Lemma entries_free tbl idx : tbl !! idx = Some None → (length (entries_of tbl) < length tbl)%nat.
Proof.
  intros Hi. rewrite <-(take_drop_middle tbl idx None Hi). unfold entries_of.
  rewrite omap_app. cbn. rewrite !length_app. cbn.
  pose proof (entries_le (take idx tbl)). pose proof (entries_le (drop (S idx) tbl)). unfold entries_of in *. lia.
Qed.
Lemma entries_full tbl :
  (∀ idx, (idx < length tbl)%nat → ∃ e, tbl !! idx = Some (Some e)) → length (entries_of tbl) = length tbl.
Proof.
  induction tbl as [|o tbl IH]; intros Hf; [done|].
  destruct (Hf 0%nat) as (e & [= ->]); [cbn; lia|]. cbn. f_equal. apply IH.
  intros idx Hi. apply (Hf (S idx)). cbn. lia.
Qed.

(** A slot is found for a key that is there or when the map is not full. *)
Lemma find_in_map tbl key :
  length tbl = SLOT_COUNT → chained tbl →
  match find tbl key with
  | Some _ => is_Some (map_of tbl !! key) ∨ (size (map_of tbl) < SLOT_COUNT)%nat
  | None => map_of tbl !! key = None ∧ size (map_of tbl) = SLOT_COUNT
  end.
Proof.
  intros Hl Hc. rewrite map_of_lookup, map_of_size by done. destruct (find tbl key) as [idx|] eqn:Hf.
  - unfold table_get. rewrite Hf. cbn [mbind option_bind].
    pose proof (find_lt _ _ _ Hf) as Hlt. rewrite <-Hl in Hlt. apply lookup_lt_is_Some in Hlt as [o Ho].
    rewrite Ho. destruct o as [e|]; [left; by eexists|right]. rewrite <-Hl. by eapply entries_free.
  - split; [unfold table_get; by rewrite Hf|]. rewrite (find_None _ _ Hl) in Hf. rewrite <-Hl.
    apply entries_full. rewrite Hl. intros idx Hi. specialize (Hf idx Hi). unfold stops in Hf.
    destruct (tbl !! idx) as [[e|]|]; try done. by exists e.
Qed.

Lemma map_of_insert tbl key p v :
  length tbl = SLOT_COUNT → chained tbl → find tbl key = Some p →
  map_of (<[p := Some (key, v)]> tbl) = <[key := v]> (map_of tbl).
Proof.
  intros Hl Hc Hf. apply map_eq. intros k'. pose proof (insert_chained tbl key p v Hl Hc Hf) as Hc'.
  rewrite map_of_lookup, table_get_insert by done. case_decide as Hk.
  - subst. by rewrite lookup_insert_eq.
  - by rewrite lookup_insert_ne, map_of_lookup.
Qed.

(** One request: the table answers as the map it stands for. *)
Lemma table_step_map tbl req :
  length tbl = SLOT_COUNT → chained tbl → map_request req →
  slotless (table_step tbl req).1 = (map_step (map_of tbl) req).1 ∧
  map_of (table_step tbl req).2 = (map_step (map_of tbl) req).2 ∧
  chained (table_step tbl req).2 ∧ length (table_step tbl req).2 = SLOT_COUNT.
Proof.
  intros Hl Hc Hr. destruct req as [|key|key value|key| |]; try done; cbn [table_step map_step].
  - rewrite (map_of_lookup tbl key Hc). by destruct (table_get tbl key).
  - case_decide; [|done]. pose proof (find_in_map tbl key Hl Hc) as Hf.
    destruct (find tbl key) as [idx|] eqn:Hfi; cbn [fst snd slotless].
    + rewrite <-(map_of_lookup tbl key Hc). split_and!.
      * case_decide as Hi; [by rewrite bool_decide_eq_true_2|]. rewrite bool_decide_eq_false_2 by done.
        destruct Hf as [|Hs]; [done|]. by rewrite decide_True.
      * rewrite (map_of_insert tbl key idx value Hl Hc Hfi). case_decide; [done|].
        destruct Hf as [|Hs]; [done|]. by rewrite decide_True.
      * by apply insert_chained.
      * by rewrite length_insert.
    + destruct Hf as [Hn Hs]. rewrite (decide_False (P := is_Some _)) by (rewrite Hn; by intros []).
      rewrite decide_False by lia. done.
Qed.

Lemma table_run_map reqs : ∀ tbl,
  length tbl = SLOT_COUNT → chained tbl → Forall map_request reqs →
  slotless <$> table_run tbl reqs = map_run (map_of tbl) reqs.
Proof.
  induction reqs as [|req reqs IH]; intros tbl Hl Hc Hr; [done|]. inversion Hr; subst.
  destruct (table_step_map tbl req) as (Ho & Hm & Hc' & Hl'); [done..|].
  cbn [table_run map_run fmap list_fmap]. rewrite Ho, <-Hm. f_equal. by apply IH.
Qed.
End map.

Lemma empty_table_chained : chained (replicate SLOT_COUNT None).
Proof. intros idx key v (Hn & _)%lookup_replicate. done. Qed.

(** ** The whole program *)
Section program.
Context `{BytesCrateLaws, Profile, !OsRng, !OsRngLaws, WsSinkEnv, Clock}.
Context (Hsink : ∀ log, ws_send_error log = None).

(** Up to [m] requests fit the work request counter. *)
Lemma boot_for d b (reqs : list HttpRequest) :
  (∀ r i, can_draw {[r]} i) → os_rng_fill d = Some b → zlen reqs < 2 ^ 57 →
  ∃ cn wr k c', connect_with_config d DEFAULT_CQ_CAPACITY (fresh_server ServerConfig_default) = Ok cn wr ∧
    kv_setup (mkClient cn wr) = Ok k c' ∧
    holds kv_rep (length reqs * S SLOT_COUNT + 0) (replicate SLOT_COUNT None) k.
Proof using Type*.
  intros Hdraw Hb Hn. apply (kv_boot Hsink ServerConfig_default d b); [apply ServerConfig_default_hosts|done|done|]. unfold zlen in Hn. unfold SLOT_COUNT. lia.
Qed.

(** The HTTP interface refines the table.  After the program has connected to
    a server with the default configuration and set up the store, any sequence of
    requests to its routes is answered, each by the status code and contents that
    the abstract table gives: 200 with the value, the slot and update flag, or the
    list of slots; 404 for a key that probing does not find; 413 for a key or value
    over the limits; 507 when probing finds no slot.  No request is answered 500,
    none hangs and none panics. *)
Theorem api_refines_table d b reqs :
  (∀ r i, can_draw {[r]} i) → os_rng_fill d = Some b → zlen reqs < 2 ^ 57 →
  Forall request_utf8 reqs →
  ∃ cn wr k c' resps k',
    connect_with_config d DEFAULT_CQ_CAPACITY (fresh_server ServerConfig_default) = Ok cn wr ∧
    kv_setup (mkClient cn wr) = Ok k c' ∧ serve_http reqs k = Ok resps k' ∧
    observe <$> resps = table_run (replicate SLOT_COUNT None) reqs.
Proof using Type*.
  intros Hdraw Hb Hn Hu. destruct (boot_for d b reqs) as (cn & wr & k & c' & Hc & Hk & Hh); try done.
  pose proof (kv_rep_slots Hsink) as Hsm.
  destruct (serve_http_table kv_rep reqs _ 0 k Hu Hh) as (resps & k' & Hs & Ho & _).
  by exists cn, wr, k, c', resps, k'.
Qed.

(** C4: as long as nothing is deleted, the program is equivalent to a map of at
    most 64 keys: any sequence of GET and PUT requests gets the answers of a
    finite map, where a PUT of a new key fails exactly when the map has 64 keys
    and a GET returns the value of the last successful PUT of its key. *)
Theorem api_equivalent_to_map d b reqs :
  (∀ r i, can_draw {[r]} i) → os_rng_fill d = Some b → zlen reqs < 2 ^ 57 →
  Forall request_utf8 reqs → Forall map_request reqs →
  ∃ cn wr k c' resps k',
    connect_with_config d DEFAULT_CQ_CAPACITY (fresh_server ServerConfig_default) = Ok cn wr ∧
    kv_setup (mkClient cn wr) = Ok k c' ∧ serve_http reqs k = Ok resps k' ∧
    slotless ∘ observe <$> resps = map_run ∅ reqs.
Proof using Type*.
  intros Hdraw Hb Hn Hu Hm. destruct (boot_for d b reqs) as (cn & wr & k & c' & Hc & Hk & Hh); try done.
  pose proof (kv_rep_slots Hsink) as Hsm.
  destruct (serve_http_table kv_rep reqs _ 0 k Hu Hh) as (resps & k' & Hs & Ho & _).
  exists cn, wr, k, c', resps, k'. split_and!; try done. rewrite list_fmap_compose, Ho.
  rewrite (table_run_map reqs _ (length_replicate _ _) empty_table_chained Hm). done.
Qed.
End program.
