(* ===== verification/ApiWitness.v ===== *)
(** * The HTTP interface, on concrete instances *)

From S2P Require Import Prelude Externals Utf8 Core Frame Payloads Message MemoryStore StoreSpec.
From S2P Require Import ServerState Handler Session SessionFacts SessionProps.
From S2P Require Import Client Verbs ClientFacts EndToEnd Registration Kv KvTable KvProps KvLink KvWitness.
From S2P Require Import Display Api ApiProps.

Module ApiWitness.
Import Concrete KvWitness.

(** Two keys with the same hash; deleting the first hides the second. *)
Definition requests : list HttpRequest :=
  [PutKv key1 (lit "v"); PutKv key2 (lit "w"); GetKv key2; PutKv key1 (lit "x");
   DeleteKv key1; GetKv key2; DeleteKv key1; PutKv (replicate 256 x41) (lit "v")].
Lemma api_refines_table_witness :
  ∃ k resps k', serve_http requests k = Ok resps k' ∧
    observe <$> resps =
      [(OK, SeenStored 20 false); (OK, SeenStored 21 false); (OK, SeenValue (lit "w"));
       (OK, SeenStored 20 true); (OK, SeenDeleted); (NOT_FOUND, SeenError); (NOT_FOUND, SeenError);
       (PAYLOAD_TOO_LARGE, SeenError)].
Proof.
  destruct (api_refines_table reliable 0 [x00; x00; x00; x01] requests)
    as (cn & wr & k & c' & resps & k' & _ & _ & Hs & Ho);
    [intros; apply counting_draws|done|done|by repeat constructor|].
  exists k, resps, k'. split; [done|]. rewrite Ho. vm_compute. done.
Defined.

Lemma api_equivalent_to_map_witness :
  ∃ k resps k', serve_http [GetKv key1; PutKv key1 (lit "v"); PutKv key2 (lit "w"); GetKv key1] k = Ok resps k' ∧
    slotless ∘ observe <$> resps =
      [(NOT_FOUND, SeenError); (OK, SeenStored 0 false); (OK, SeenStored 0 false); (OK, SeenValue (lit "v"))].
Proof.
  destruct (api_equivalent_to_map reliable 0 [x00; x00; x00; x01]
    [GetKv key1; PutKv key1 (lit "v"); PutKv key2 (lit "w"); GetKv key1])
    as (cn & wr & k & c' & resps & k' & _ & _ & Hs & Ho);
    [intros; apply counting_draws|done|done|by repeat constructor|by repeat constructor|].
  exists k, resps, k'. split; [done|]. rewrite Ho. vm_compute. done.
Defined.
End ApiWitness.
