(* ===== verification/ApiTasks.v ===== *)
(** * Concurrent requests ([rdows-kv/src/api.rs], [SharedKvStore])

    The framework runs every request in a task of its own; the tasks share the store
    behind [Arc<Mutex<KvStore>>].  Here a handler is a program whose steps are its
    accesses to the store, so that tasks can interleave between any two of them, and
    the lock is what keeps them apart.  [ApiTasksProps.v] proves that the programs are
    the handlers of [Api.v] and that the tasks behave as if they ran one by one. *)

From S2P Require Import Prelude Externals Utf8 Core Frame Payloads Message Client Verbs Kv Display Api.

Section tasks.
Context `{BytesCrate, Profile} {P : Type} `{!Peer P}.

(** ** Programs over the store *)

(** A task is suspended before each of these accesses; a slot access yields the
    [Result] of [read_slot] or [write_slot]. *)
Inductive Prog (A : Type) : Type :=
| Return (a : A)
| Panics
| Field (f : KvStore P → Z) (next : Z → Prog A)
| ReadSlot (slot : Z) (next : KvError + list byte → Prog A)
| WriteSlot (slot : Z) (data : list byte) (next : KvError + unit → Prog A).
#[local] Arguments Return {A} _.
#[local] Arguments Panics {A}.
#[local] Arguments Field {A} _ _.
#[local] Arguments ReadSlot {A} _ _.
#[local] Arguments WriteSlot {A} _ _ _.

Fixpoint prog_map {A B} (f : A → B) (p : Prog A) : Prog B :=
  match p with
  | Return a => Return (f a)
  | Panics => Panics
  | Field g next => Field g (λ v, prog_map f (next v))
  | ReadSlot slot next => ReadSlot slot (λ r, prog_map f (next r))
  | WriteSlot slot data next => WriteSlot slot data (λ r, prog_map f (next r))
  end.
(** [?] on the result of an access *)
Definition question {A B} (next : A → Prog (KvError + B)) (r : KvError + A) : Prog (KvError + B) :=
  match r with inl e => Return (inl e) | inr a => next a end.
Definition unwrap_or_panic {A B} (o : option A) (next : A → Prog B) : Prog B :=
  match o with Some a => next a | None => Panics end.

(** [KvStore::put], [get], [delete] and [dump_slots], access by access. *)
Definition store_slot (key value : list byte) (idx i : Z) (update : bool) : Prog (KvError + PutResult) :=
  unwrap_or_panic (encode_slot key value) (λ new_slot,
  WriteSlot idx new_slot (question (λ _,
  Return (inr (mkPutResult (lit "RDMA_WRITE") idx (slot_offset idx) SLOT_SIZE key value (i + 1) update))))).
Fixpoint put_turns (key value : list byte) (n : nat) (i : Z) : Prog (KvError + PutResult) :=
  match n with
  | O => Return (inl TableFull)
  | S n' =>
      let idx := probe_index (hash_key key) i in
      ReadSlot idx (question (λ slot,
      unwrap_or_panic (decode_slot slot) (λ entry,
      match entry with
      | None => store_slot key value idx i false
      | Some (existing_key, _) =>
          if bool_decide (existing_key = key) then store_slot key value idx i true
          else put_turns key value n' (i + 1)
      end)))
  end.
Definition put_program (key value : list byte) : Prog (KvError + PutResult) :=
  if MAX_KEY_LEN <? zlen key then Return (inl KeyTooLong) else
  if MAX_VALUE_LEN <? zlen value then Return (inl ValueTooLong) else
  put_turns key value SLOT_COUNT 0.

Fixpoint get_turns (key : list byte) (n : nat) (i : Z) : Prog (KvError + option GetResult) :=
  match n with
  | O => Return (inr None)
  | S n' =>
      let idx := probe_index (hash_key key) i in
      ReadSlot idx (question (λ slot,
      unwrap_or_panic (decode_slot slot) (λ entry,
      match entry with
      | None => Return (inr None)
      | Some (existing_key, value) =>
          if bool_decide (existing_key = key) then
            unwrap_or_panic (slot_hex_lines slot) (λ raw_hex,
            Return (inr (Some (mkGetResult (lit "RDMA_READ") idx (slot_offset idx) SLOT_SIZE key value
                                 (i + 1) raw_hex))))
          else get_turns key n' (i + 1)
      end)))
  end.

Fixpoint delete_turns (key : list byte) (n : nat) (i : Z) : Prog (KvError + DeleteResult) :=
  match n with
  | O =>
      let start := hash_key key in
      Return (inr (mkDeleteResult (lit "RDMA_READ") start (slot_offset start) SLOT_SIZE key
                     (Z.of_nat SLOT_COUNT) false))
  | S n' =>
      let idx := probe_index (hash_key key) i in
      ReadSlot idx (question (λ slot,
      unwrap_or_panic (decode_slot slot) (λ entry,
      match entry with
      | None =>
          Return (inr (mkDeleteResult (lit "RDMA_WRITE") idx (slot_offset idx) SLOT_SIZE key (i + 1) false))
      | Some (existing_key, _) =>
          if bool_decide (existing_key = key) then
            WriteSlot idx zero_slot (question (λ _,
            Return (inr (mkDeleteResult (lit "RDMA_WRITE") idx (slot_offset idx) SLOT_SIZE key (i + 1) true))))
          else delete_turns key n' (i + 1)
      end)))
  end.

Fixpoint dump_turns (n : nat) (idx : Z) (slots : list SlotInfo) : Prog (KvError + list SlotInfo) :=
  match n with
  | O => Return (inr slots)
  | S n' =>
      ReadSlot idx (question (λ slot,
      unwrap_or_panic (decode_slot slot) (λ entry,
      let '(occupied, key, value) :=
        match entry with
        | Some (k, v) => (true, Some k, Some v)
        | None => (false, None, None)
        end in
      dump_turns n' (idx + 1) (slots ++ [mkSlotInfo idx (slot_offset idx) occupied key value]))))
  end.

(** What a handler does once it has the lock. *)
Definition index_response : Response := mkResponse OK IndexBody.
Definition handler (req : HttpRequest) : Prog Response :=
  match req with
  | GetIndex => Return index_response
  | GetKv key => prog_map (get_response key) (get_turns key SLOT_COUNT 0)
  | PutKv key value => prog_map put_response (put_program key value)
  | DeleteKv key => prog_map (delete_response key) (delete_turns key SLOT_COUNT 0)
  | GetSlots => prog_map slots_response (dump_turns SLOT_COUNT 0 [])
  | GetStats => Field kv_session_id (λ session_id, Field remote_rkey_value (λ rkey,
      Return (stats_response session_id rkey)))
  end.

(** One access; [None]: the program is at its end, or the access does not return. *)
Definition advance {A} (p : Prog A) (k : KvStore P) : option (Prog A * KvStore P) :=
  match p with
  | Return _ | Panics => None
  | Field f next => Some (next (f k), k)
  | ReadSlot slot next =>
      match try_kv (read_slot slot) k with Ok r k' => Some (next r, k') | _ => None end
  | WriteSlot slot data next =>
      match try_kv (write_slot slot data) k with Ok r k' => Some (next r, k') | _ => None end
  end.

(** ** Tasks *)

(** A task waits for the lock, works under it, has answered, has panicked, or was
    dropped by the framework because its client went away: while it waited
    ([Abandoned]) or while it worked ([Dropped]). *)
Inductive Task : Type :=
| Queued (req : HttpRequest)
| Working (req : HttpRequest) (p : Prog Response)
| Finished (req : HttpRequest) (resp : Response)
| Abandoned (req : HttpRequest)
| Dropped (req : HttpRequest)
| Crashed (req : HttpRequest).

(** The store, the task that holds its lock, all tasks so far, and the requests in
    the order in which their tasks got the lock. *)
Record Http := mkHttp {
  h_store : KvStore P;
  h_lock : option nat;
  h_tasks : list Task;
  h_log : list (nat * HttpRequest);
}.
Definition Http_new (k : KvStore P) : Http := mkHttp k None [] [].

(** What the clients do: a request arrives, or a client goes away and the framework
    drops its task.  A task that waits is gone without a trace.  One that works is
    dropped at some [await] inside an access to the store: the guard goes, and the
    access is left unfinished.  What that does to the connection is for [Cancel.v];
    here the store is then any store. *)
Inductive arrive : Http → Http → Prop :=
| arrive_request req k l ts log : arrive (mkHttp k l ts log) (mkHttp k l (ts ++ [Queued req]) log)
| arrive_abandon i req k l ts log :
    ts !! i = Some (Queued req) →
    arrive (mkHttp k l ts log) (mkHttp k l (<[i := Abandoned req]> ts) log)
| arrive_drop i req p k k' l ts log :
    ts !! i = Some (Working req p) →
    arrive (mkHttp k l ts log) (mkHttp k' None (<[i := Dropped req]> ts) log).

(** Some task moves.  The page needs no lock; [lock().await] returns when nobody
    holds the lock; the guard goes when the handler returns or unwinds (the mutex
    of the runtime is not poisoned by a panic). *)
Inductive work : Http → Http → Prop :=
| work_index i k l ts log :
    ts !! i = Some (Queued GetIndex) →
    work (mkHttp k l ts log) (mkHttp k l (<[i := Finished GetIndex index_response]> ts) log)
| work_lock i req k ts log :
    ts !! i = Some (Queued req) → req ≠ GetIndex →
    work (mkHttp k None ts log)
         (mkHttp k (Some i) (<[i := Working req (handler req)]> ts) (log ++ [(i, req)]))
| work_access i req p p' k k' l ts log :
    ts !! i = Some (Working req p) → advance p k = Some (p', k') →
    work (mkHttp k l ts log) (mkHttp k' l (<[i := Working req p']> ts) log)
| work_answer i req resp k l ts log :
    ts !! i = Some (Working req (Return resp)) →
    work (mkHttp k l ts log) (mkHttp k None (<[i := Finished req resp]> ts) log)
| work_panic i req k l ts log :
    ts !! i = Some (Working req Panics) →
    work (mkHttp k l ts log) (mkHttp k None (<[i := Crashed req]> ts) log).

Definition http_step (st st' : Http) : Prop := arrive st st' ∨ work st st'.
End tasks.
Arguments Prog : clear implicits.
Arguments Return {P A} _.
Arguments Panics {P A}.
Arguments Field {P A} _ _.
Arguments ReadSlot {P A} _ _.
Arguments WriteSlot {P A} _ _ _.
Arguments Task : clear implicits.
Arguments Http : clear implicits.
