(* ===== verification/ApiTasksProps.v ===== *)
(** * Concurrent requests are served one by one

    Every interleaving of request tasks is equivalent to [serve_http] on the requests
    in the order in which they got the lock (linearizability), and no request is left
    unanswered. *)

From stdpp Require Import relations.
From S2P Require Import Prelude Externals Utf8 Core Frame Payloads Message MemoryStore StoreSpec.
From S2P Require Import ServerState Handler Session SessionFacts SessionProps.
From S2P Require Import Client Verbs ClientFacts EndToEnd Registration Kv KvTable KvProps KvLink Display Api ApiProps ApiTasks.

Section tasks.
Context `{BytesCrate, Profile} {P : Type} `{!Peer P}.
Implicit Types (k : KvStore P) (st : Http P) (ts : list (Task P)).

(** ** The programs are the handlers *)

(** A program run without interruption. *)
Fixpoint exec {A} (p : Prog P A) : M (KvStore P) KvStop A :=
  match p with
  | Return a => mret a
  | Panics => panic
  | Field f next => v ← kv_field f; exec (next v)
  | ReadSlot slot next => r ← try_kv (read_slot slot); exec (next r)
  | WriteSlot slot data next => r ← try_kv (write_slot slot data); exec (next r)
  end.

Lemma exec_map {A B} (f : A → B) (p : Prog P A) k : exec (prog_map f p) k = (a ← exec p; mret (f a)) k.
Proof using Type.
  revert k. induction p as [a| |g next IH|slot next IH|slot data next IH]; intros k; cbn [exec prog_map]; try done.
  all: rewrite bind_assoc; apply bind_cong; intros v k'; apply IH.
Qed.

(** [?] in a program is [?] in the monad. *)
Lemma question_bind {A B} (m : M (KvStore P) KvStop A) (f : A → M (KvStore P) KvStop B)
    (next : A → Prog P (KvError + B)) k :
  (∀ a k', exec (next a) k' = try_kv (f a) k') →
  (r ← try_kv m; exec (question next r)) k = try_kv (a ← m; f a) k.
Proof using Type.
  intros Hf. unfold mbind, M_bind. unfold try_kv at 1. unfold try_kv at 1.
  destruct (m k) as [a k'|[e|] k'|]; try done. apply Hf.
Qed.
Lemma unwrap_bind {A B} (o : option A) (f : A → M (KvStore P) KvStop B)
    (next : A → Prog P (KvError + B)) k :
  (∀ a, exec (next a) k = try_kv (f a) k) →
  exec (unwrap_or_panic o next) k = try_kv (a ← or_panic o; f a) k.
Proof using Type. intros Hf. destruct o as [a|]; [apply Hf|done]. Qed.

Lemma exec_store_slot key value idx i update k :
  exec (store_slot key value idx i update) k =
  try_kv (new_slot ← or_panic (encode_slot key value); _ ← write_slot idx new_slot;
    mret (mkPutResult (lit "RDMA_WRITE") idx (slot_offset idx) SLOT_SIZE key value (i + 1) update)) k.
Proof using Type. apply unwrap_bind. intros new. cbn [exec]. by apply question_bind. Qed.
Lemma exec_put key value n : ∀ i k, exec (put_turns key value n i) k = try_kv (put_loop key value n i) k.
Proof using Type.
  induction n as [|n IH]; intros i k; [done|]. cbn [put_turns put_loop exec].
  apply question_bind. intros slot k1. apply unwrap_bind. intros [[ek v]|]; [|apply exec_store_slot].
  case_bool_decide; [apply exec_store_slot|apply IH].
Qed.
Lemma exec_get key n : ∀ i k, exec (get_turns key n i) k = try_kv (get_loop key n i) k.
Proof using Type.
  induction n as [|n IH]; intros i k; [done|]. cbn [get_turns get_loop exec].
  apply question_bind. intros slot k1. apply unwrap_bind. intros [[ek v]|]; [|done].
  case_bool_decide; [by apply unwrap_bind|apply IH].
Qed.
Lemma exec_delete key n : ∀ i k, exec (delete_turns key n i) k = try_kv (delete_loop key n i) k.
Proof using Type.
  induction n as [|n IH]; intros i k; [done|]. cbn [delete_turns delete_loop exec].
  apply question_bind. intros slot k1. apply unwrap_bind. intros [[ek v]|]; [|done].
  case_bool_decide; [by apply question_bind|apply IH].
Qed.
Lemma exec_dump n : ∀ idx slots k, exec (dump_turns n idx slots) k = try_kv (dump_loop n idx slots) k.
Proof using Type.
  induction n as [|n IH]; intros i slots k; [done|]. cbn [dump_turns dump_loop exec].
  apply question_bind. intros slot k1. apply unwrap_bind. intros [[ek v]|]; apply IH.
Qed.

(** Run without interruption, a task does what the handler of its route does. *)
Lemma exec_handler req k : exec (handler req) k = router req k.
Proof using Type.
  destruct req as [|key|key value|key| |]; cbn [handler router]; try done; rewrite exec_map; apply bind_ext.
  - apply exec_get.
  - unfold put_program, put. by repeat case_match; [..|apply exec_put].
  - apply exec_delete.
  - apply exec_dump.
Qed.

(** An access is the first step of the program. *)
Lemma exec_advance {A} (p p' : Prog P A) k k' : advance p k = Some (p', k') → exec p k = exec p' k'.
Proof using Type.
  destruct p as [a| |f next|slot next|slot data next]; cbn [advance exec]; try done.
  - by intros [= <- <-].
  - unfold mbind, M_bind. destruct (try_kv _ k); [by intros [= <- <-]|done|done].
  - unfold mbind, M_bind. destruct (try_kv _ k); [by intros [= <- <-]|done|done].
Qed.
(** A program that returns can move, or has returned. *)
Lemma advance_progress {A} (p : Prog P A) k a k' :
  exec p k = Ok a k' → p = Return a ∨ ∃ p1 k1, advance p k = Some (p1, k1).
Proof using Type.
  destruct p as [b| |f next|slot next|slot data next]; cbn [advance exec].
  - intros [= -> _]. by left.
  - done.
  - right. by eexists _, _.
  - intros (r & k1 & -> & _)%bind_Ok_inv. right. by eexists _, _.
  - intros (r & k1 & -> & _)%bind_Ok_inv. right. by eexists _, _.
Qed.

(** ** Linearizability *)
Definition crash_free ts : Prop := ∀ i req, ts !! i ≠ Some (Crashed req).
(** No client went away while its task worked under the lock. *)
Definition undropped ts : Prop := ∀ i req, ts !! i ≠ Some (Dropped req).

(** The response that each logged task has given. *)
Definition answered ts : list (nat * HttpRequest) → list Response → Prop :=
  Forall2 (λ entry resp, ts !! entry.1 = Some (Finished entry.2 resp)).

Lemma serve_http_snoc reqs req k resps k1 resp k2 :
  serve_http reqs k = Ok resps k1 → router req k1 = Ok resp k2 →
  serve_http (reqs ++ [req]) k = Ok (resps ++ [resp]) k2.
Proof using Type.
  revert k resps. induction reqs as [|r reqs IH]; intros k resps; cbn [serve_http app].
  - intros [= <- <-] Hr. by rewrite (bind_Ok _ _ _ _ _ Hr).
  - intros (a & ka & Ha & (l & kb & Hl & [= <- <-])%bind_Ok_inv)%bind_Ok_inv Hr.
    by rewrite (bind_Ok _ _ _ _ _ Ha), (bind_Ok _ _ _ _ _ (IH _ _ Hl Hr)).
Qed.

(** The requests in [past] were served one by one and their tasks have answered; the
    task that holds the lock, if any, is somewhere in the middle of its handler. *)
Record linear (k0 : KvStore P) st (past : list (nat * HttpRequest)) (resps : list Response) (k1 : KvStore P)
    : Prop := {
  ln_past : serve_http past.*2 k0 = Ok resps k1;
  ln_answered : answered (h_tasks st) past resps;
  ln_finished : ∀ i req resp, h_tasks st !! i = Some (Finished req resp) →
    (i, req) ∈ past ∨ req = GetIndex ∧ resp = index_response;
  ln_working : ∀ i req p, h_tasks st !! i = Some (Working req p) → h_lock st = Some i;
  ln_now : match h_lock st with
    | None => h_log st = past ∧ h_store st = k1
    | Some i => ∃ req p, h_log st = past ++ [(i, req)] ∧ h_tasks st !! i = Some (Working req p) ∧
        exec p (h_store st) = router req k1
    end;
}.

Lemma answered_update ts past resps i t t' :
  answered ts past resps → ts !! i = Some t → (∀ req resp, t ≠ Finished req resp) →
  answered (<[i := t']> ts) past resps.
Proof using Type.
  intros Ha Hi Ht. eapply Forall2_impl; [exact Ha|]. intros [j req] resp Hj. cbn in *.
  rewrite list_lookup_insert_ne; [done|]. intros ->. apply (Ht req resp). congruence.
Qed.
Lemma update_cases ts i (t t' x : Task P) j :
  ts !! i = Some t → <[i := t']> ts !! j = Some x → (j = i ∧ x = t') ∨ (j ≠ i ∧ ts !! j = Some x).
Proof using Type.
  intros Hi. destruct (decide (j = i)) as [->|Hne].
  - rewrite list_lookup_insert_eq by (by eapply lookup_lt_Some). intros [= <-]. by left.
  - rewrite list_lookup_insert_ne by done. by right.
Qed.
Lemma update_same ts i (t t' : Task P) : ts !! i = Some t → <[i := t']> ts !! i = Some t'.
Proof using Type. intros Hi. apply list_lookup_insert_eq. by eapply lookup_lt_Some. Qed.

(** A task that waits may answer the page or go away: nobody notices. *)
Lemma linear_aside k0 k l ts log past resps k1 i req t' :
  linear k0 (mkHttp k l ts log) past resps k1 → ts !! i = Some (Queued req) →
  (t' = Abandoned req ∨ t' = Finished GetIndex index_response) →
  linear k0 (mkHttp k l (<[i := t']> ts) log) past resps k1.
Proof using Type.
  intros [Hp Ha Hf Hw Hn] Hi Ht. cbn in *. split; cbn; try done.
  - by eapply answered_update.
  - intros j r resp [[_ Heq]|[_ Hj]]%(update_cases _ _ _ _ _ _ Hi); [|by eapply Hf].
    destruct Ht as [->| ->]; [done|]. injection Heq as -> ->. by right.
  - intros j r p [[_ Heq]|[_ Hj]]%(update_cases _ _ _ _ _ _ Hi); [by destruct Ht as [->| ->]|by eapply Hw].
  - destruct l as [h|]; [|done]. destruct Hn as (r & p & Hl & Hh & He). exists r, p. split_and!; try done.
    rewrite list_lookup_insert_ne; [done|]. intros ->. congruence.
Qed.

Lemma linear_arrive k0 k l ts log past resps k1 req :
  linear k0 (mkHttp k l ts log) past resps k1 →
  linear k0 (mkHttp k l (ts ++ [Queued req]) log) past resps k1.
Proof using Type.
  intros [Hp Ha Hf Hw Hn]. cbn in *.
  assert (∀ j x, ts !! j = Some x → (ts ++ [Queued req]) !! j = Some x) as Hold
    by (intros j x; apply lookup_app_l_Some).
  assert (∀ j x, (ts ++ [Queued req]) !! j = Some x → ts !! j = Some x ∨ x = Queued req) as Hnew.
  { intros j x [Hj|(_ & Hj%list_lookup_singleton_Some)]%lookup_app_Some; [by left|right; by destruct Hj]. }
  split; cbn; try done.
  - eapply Forall2_impl; [exact Ha|]. intros [j r] resp. apply Hold.
  - intros j r resp [Hj|?]%Hnew; [by eapply Hf|done].
  - intros j r p [Hj|?]%Hnew; [by eapply Hw|done].
  - destruct l as [h|]; [|done]. destruct Hn as (r & p & Hl & Hh & He). exists r, p. by split_and!; [|apply Hold|].
Qed.

Lemma linear_work k0 st st' past resps k1 :
  linear k0 st past resps k1 → work st st' → crash_free (h_tasks st') →
  ∃ past' resps' k1', linear k0 st' past' resps' k1'.
Proof using Type.
  intros Hl Hs Hc. pose proof Hl as [Hp Ha Hf Hw Hn].
  destruct Hs as [i k l ts log Hi|i req k ts log Hi Hr|i req p p' k k' l ts log Hi Hadv
    |i req resp k l ts log Hi|i req k l ts log Hi]; cbn in *.
  - exists past, resps, k1. eapply linear_aside; [done|done|by right].
  - destruct Hn as [-> ->]. exists past, resps, k1. split; cbn; try done.
    + by eapply answered_update.
    + intros j r resp [[_ ?]|[_ Hj]]%(update_cases _ _ _ _ _ _ Hi); [done|by eapply Hf].
    + intros j r p [[-> _]|[_ Hj]]%(update_cases _ _ _ _ _ _ Hi); [done|by specialize (Hw _ _ _ Hj)].
    + exists req, (handler req). split_and!; [done|by eapply update_same|apply exec_handler].
  - assert (l = Some i) as -> by (by eapply Hw). destruct Hn as (r & q & Hlog & Hh & He).
    rewrite Hi in Hh. injection Hh as <- <-. exists past, resps, k1. split; cbn; try done.
    + by eapply answered_update.
    + intros j r resp [[_ ?]|[_ Hj]]%(update_cases _ _ _ _ _ _ Hi); [done|by eapply Hf].
    + intros j r q [[-> _]|[_ Hj]]%(update_cases _ _ _ _ _ _ Hi); [done|by eapply Hw].
    + exists req, p'. split_and!; [done|by eapply update_same|]. by rewrite <-(exec_advance _ _ _ _ Hadv).
  - assert (l = Some i) as -> by (by eapply Hw). destruct Hn as (r & q & Hlog & Hh & He).
    rewrite Hi in Hh. injection Hh as <- <-. exists (past ++ [(i, req)]), (resps ++ [resp]), k. split; cbn; try done.
    + rewrite fmap_app. by eapply serve_http_snoc.
    + apply Forall2_app; [by eapply answered_update|]. constructor; [|constructor]. by eapply update_same.
    + intros j r resp' [[-> [= -> _]]|[_ Hj]]%(update_cases _ _ _ _ _ _ Hi); [left; set_solver|].
      destruct (Hf _ _ _ Hj); [left; set_solver|by right].
    + intros j r q [[_ ?]|[Hne Hj]]%(update_cases _ _ _ _ _ _ Hi); [done|]. specialize (Hw _ _ _ Hj). congruence.
  - destruct (Hc i req). by eapply update_same.
Qed.

(** *** Along a run *)
Definition task_request (t : Task P) : HttpRequest :=
  match t with
  | Queued req | Working req _ | Finished req _ | Abandoned req | Dropped req | Crashed req => req
  end.

(** A task that did not run to its answer. *)
Definition broken (t : Task P) : bool := match t with Dropped _ | Crashed _ => true | _ => false end.
(** Tasks are only added, keep their request, and a broken one stays so; the log grows. *)
Definition extends st st' : Prop :=
  h_log st `prefix_of` h_log st' ∧ (length (h_tasks st) ≤ length (h_tasks st'))%nat ∧
  (∀ i t, h_tasks st !! i = Some t → ∃ t', h_tasks st' !! i = Some t' ∧ task_request t' = task_request t) ∧
  (∀ i t, h_tasks st !! i = Some t → broken t = true → h_tasks st' !! i = Some t).
#[local] Instance extends_preorder : PreOrder extends.
Proof using Type.
  split.
  - intros st. split_and!; [done|done|by eauto|done].
  - intros x y z (Hp & Hn & Ht & Hc) (Hp' & Hn' & Ht' & Hc'). split_and!; [by etrans|lia| |by eauto].
    intros i t (t1 & H1 & <-)%Ht. by apply Ht'.
Qed.
Lemma extends_update k k' l l' ts log log' i t t' :
  ts !! i = Some t → task_request t' = task_request t → broken t = false → log `prefix_of` log' →
  extends (mkHttp k l ts log) (mkHttp k' l' (<[i := t']> ts) log').
Proof using Type.
  intros Hi Hreq Hc Hlog. split_and!; cbn; [done|by rewrite length_insert| |].
  - intros j x Hj. destruct (decide (j = i)) as [->|Hne].
    + exists t'. rewrite (update_same _ _ _ _ Hi). split; [done|]. congruence.
    + exists x. by rewrite list_lookup_insert_ne.
  - intros j x Hj Hx. rewrite list_lookup_insert_ne; [done|]. intros ->. congruence.
Qed.
Lemma step_extends st st' : http_step st st' → extends st st'.
Proof using Type.
  intros [Ha|Hw].
  - destruct Ha as [req k l ts log| |]; [|by eapply extends_update..].
    split_and!; cbn; [done|rewrite length_app; lia| |intros i t Hi _; by apply lookup_app_l_Some].
    intros i t Hi. exists t. split; [by apply lookup_app_l_Some|done].
  - destruct Hw; eapply extends_update; try done. by apply prefix_app_r.
Qed.
Lemma run_extends st st' : rtc http_step st st' → extends st st'.
Proof using Type. induction 1 as [|x y z Hs _ IH]; [done|]. etrans; [by apply step_extends|done]. Qed.
Lemma crash_free_before st st' : extends st st' → crash_free (h_tasks st') → crash_free (h_tasks st).
Proof using Type. intros (_ & _ & _ & Hc) Hf i req Hi. by eapply Hf, Hc. Qed.
Lemma undropped_before st st' : extends st st' → undropped (h_tasks st') → undropped (h_tasks st).
Proof using Type. intros (_ & _ & _ & Hc) Hf i req Hi. by eapply Hf, Hc. Qed.

Lemma linear_new k0 : linear k0 (Http_new k0) [] [] k0.
Proof using Type. split; try done. constructor. Qed.
Lemma run_linear k0 st :
  rtc http_step (Http_new k0) st → crash_free (h_tasks st) → undropped (h_tasks st) →
  ∃ past resps k1, linear k0 st past resps k1.
Proof using Type.
  revert st. refine (rtc_ind_r _ _ _ _).
  { intros _ _. exists [], [], k0. apply linear_new. }
  intros y z _ Hs IH Hc Hu. pose proof (step_extends _ _ Hs) as Hx.
  destruct IH as (past & resps & k1 & Hl); [by eapply crash_free_before|by eapply undropped_before|].
  destruct Hs as [Ha|Hw]; [|exact (linear_work _ _ _ _ _ _ Hl Hw Hc)].
  exists past, resps, k1. destruct Ha as [| |i req p k k' l ts log Hi]; [by apply linear_arrive| |].
  - eapply linear_aside; [done|done|by left].
  - destruct (Hu i req). by eapply update_same.
Qed.

(** The log holds tasks that are there and that do not wait. *)
Lemma linear_logged k0 st past resps k1 i req :
  linear k0 st past resps k1 → (i, req) ∈ h_log st →
  ∃ t, h_tasks st !! i = Some t ∧ task_request t = req ∧ ∀ r, t ≠ Queued r.
Proof using Type.
  intros [_ Ha _ _ Hn] Hi.
  assert ((i, req) ∈ past ∨ ∃ p, h_tasks st !! i = Some (Working req p)) as [Hpast|(p & Hp)].
  { destruct (h_lock st) as [h|]; [|destruct Hn as [<- _]; by left].
    destruct Hn as (r & p & Hlog & Hh & _). rewrite Hlog, elem_of_app, list_elem_of_singleton in Hi.
    destruct Hi as [Hi|[= -> ->]]; [by left|right; by exists p]. }
  - apply list_elem_of_lookup in Hpast as [n Hn'].
    destruct (Forall2_lookup_l _ _ _ _ _ Ha Hn') as (resp & _ & Hx). by eexists.
  - by eexists.
Qed.

(** C3: requests that run concurrently are linearizable.  Whatever the interleaving
    of the tasks at their accesses to the store, when nobody holds the lock the store
    is what [serve_http] makes of the requests in the order in which their tasks got
    the lock, and every task that has answered (but for the page, which needs no lock)
    gave the answer of that sequential run.  The order respects real time: a request
    that was answered before another arrived comes before it.  The condition is that
    no handler panicked and no client went away while its task worked under the
    lock. *)
Theorem http_linearizable k0 st st' :
  rtc http_step (Http_new k0) st → rtc http_step st st' → crash_free (h_tasks st') → undropped (h_tasks st') →
  h_lock st' = None →
  (∃ resps, serve_http (h_log st').*2 k0 = Ok resps (h_store st') ∧ answered (h_tasks st') (h_log st') resps) ∧
  (∀ i req resp, h_tasks st' !! i = Some (Finished req resp) →
     (i, req) ∈ h_log st' ∨ req = GetIndex ∧ resp = index_response) ∧
  (∀ i ri resp j rj, h_tasks st !! i = Some (Finished ri resp) → ri ≠ GetIndex →
     (length (h_tasks st) ≤ j)%nat → (j, rj) ∈ h_log st' →
     ∃ a b c, h_log st' = a ++ (i, ri) :: b ++ (j, rj) :: c).
Proof using Type.
  intros Hr Hr' Hc Hu Hlock. pose proof (run_extends _ _ Hr') as Hx.
  destruct (run_linear k0 st' ltac:(by etrans) Hc Hu) as (past & resps & k1 & Hl).
  destruct (run_linear k0 st Hr (crash_free_before _ _ Hx Hc) (undropped_before _ _ Hx Hu)) as (past0 & resps0 & k2 & Hl0).
  pose proof (ln_now _ _ _ _ _ Hl) as Hn. rewrite Hlock in Hn. destruct Hn as [Hlog Hst]. split_and!.
  - exists resps. rewrite Hlog, Hst. split; [apply Hl|apply Hl].
  - rewrite Hlog. apply Hl.
  - intros i ri resp j rj Hi Hri Hj Hjlog.
    assert ((i, ri) ∈ h_log st) as (a & b & Ha)%list_elem_of_split.
    { destruct (ln_finished _ _ _ _ _ Hl0 _ _ _ Hi) as [Hin|[? _]]; [|done].
      pose proof (ln_now _ _ _ _ _ Hl0) as Hn0. destruct (h_lock st); [|destruct Hn0 as [-> _]; done].
      destruct Hn0 as (? & ? & -> & _). set_solver. }
    destruct Hx as ([c Hp] & _). rewrite Hp, elem_of_app in Hjlog. destruct Hjlog as [Hin|Hin].
    { destruct (linear_logged _ _ _ _ _ _ _ Hl0 Hin) as (t & Ht%lookup_lt_Some & _). lia. }
    apply list_elem_of_split in Hin as (c1 & c2 & ->). exists a, (b ++ c1), c2.
    rewrite Hp, Ha. by rewrite <-!(assoc_L (++)).
Qed.
End tasks.

(** ** Every request is answered *)
Section termination.
Context {P : Type}.

(** What is left of a program after its first access. *)
Definition child {A} (p' p : Prog P A) : Prop :=
  match p with
  | Return _ | Panics => False
  | Field _ next => ∃ v, p' = next v
  | ReadSlot _ next => ∃ r, p' = next r
  | WriteSlot _ _ next => ∃ r, p' = next r
  end.
Lemma child_wf {A} (p : Prog P A) : Acc child p.
Proof.
  induction p as [a| |f next IH|slot next IH|slot data next IH]; constructor; intros p' Hc;
    [destruct Hc|destruct Hc|destruct Hc as [v ->]; apply IH..].
Qed.

Definition over (t : Task P) : Prop :=
  match t with Finished _ _ | Abandoned _ | Dropped _ | Crashed _ => True | _ => False end.
Inductive task_lt : Task P → Task P → Prop :=
| lt_access req p p' : child p' p → task_lt (Working req p') (Working req p)
| lt_lock req p : task_lt (Working req p) (Queued req)
| lt_over t t' : over t' → ¬ over t → task_lt t' t.

Lemma over_acc t : over t → Acc task_lt t.
Proof. intros Ho. constructor. intros t' Ht. by destruct Ht. Qed.
Lemma working_acc req p : Acc task_lt (Working req p).
Proof.
  induction (child_wf p) as [p _ IH]. constructor. intros t' Ht.
  inversion Ht; subst; [by apply IH|by apply over_acc].
Qed.
Lemma task_acc t : Acc task_lt t.
Proof.
  destruct t as [req|req p|req resp|req|req|req]; [|apply working_acc|by apply over_acc..].
  constructor. intros t' Ht. inversion Ht; subst; [apply working_acc|by apply over_acc].
Qed.

(** One element of a list gets smaller. *)
Definition one_less {T} (R : T → T → Prop) (l' l : list T) : Prop :=
  ∃ i x x', l !! i = Some x ∧ R x' x ∧ l' = <[i := x']> l.
Lemma one_less_acc {T} (R : T → T → Prop) l : Forall (Acc R) l → Acc (one_less R) l.
Proof.
  induction 1 as [|x l Hx _ IH].
  { constructor. intros l' (i & y & y' & Hi & _). by rewrite lookup_nil in Hi. }
  revert x Hx. induction IH as [l Hl IHl]. intros x Hx. induction Hx as [x Hx IHx]. constructor.
  intros l' ([|i] & y & y' & Hi & HR & ->); cbn in *.
  - injection Hi as ->. by apply IHx.
  - apply IHl; [by exists i, y, y'|by constructor].
Qed.
End termination.

Section served.
Context `{BytesCrate, Profile} {P : Type} `{!Peer P}.
Context (rep : nat → list (list byte) → KvStore P → Prop) `{!SlotMemory rep}.
Implicit Types (k : KvStore P) (st : Http P) (ts : list (Task P)) (tbl : Table).

Lemma advance_child {A} (p p' : Prog P A) k k' : advance p k = Some (p', k') → child p' p.
Proof using Type.
  destruct p as [a| |f next|slot next|slot data next]; cbn; try done; try (destruct (try_kv _ _)); naive_solver.
Qed.
Lemma work_decreases st st' : work st st' → one_less task_lt (h_tasks st') (h_tasks st).
Proof using Type.
  intros Hw. destruct Hw; cbn; eexists _, _, _; (split; [eassumption|split; [|reflexivity]]).
  all: first [apply lt_lock|by apply lt_over; cbn; auto|idtac].
  by eapply lt_access, advance_child.
Qed.
(** The tasks that are there come to rest, whatever the order of their steps. *)
Lemma work_terminates st : sn work st.
Proof using Type.
  assert (Acc (one_less task_lt) (h_tasks st)) as Ha by (apply one_less_acc, Forall_true; intros; apply task_acc).
  remember (h_tasks st) as ts eqn:Hts. revert st Hts. induction Ha as [ts _ IH]. intros st ->.
  constructor. intros st' Hw. by eapply IH; [apply work_decreases|].
Qed.

(** At most [n] tasks, whose keys and values are strings. *)
Definition requests_ok (n : nat) st : Prop :=
  (length (h_tasks st) ≤ n)%nat ∧ ∀ i t, h_tasks st !! i = Some t → request_utf8 (task_request t).
Lemma requests_ok_before n st st' : extends st st' → requests_ok n st' → requests_ok n st.
Proof using Type.
  intros (_ & Hn & Ht & _) [Hn' Hu]. split; [lia|]. intros i t (t' & Hi%Hu & <-)%Ht. done.
Qed.

Lemma log_bound k0 st past resps k1 :
  linear k0 st past resps k1 → NoDup (h_log st).*1 → (length (h_log st) ≤ length (h_tasks st))%nat.
Proof using Type.
  intros Hl Hnd. rewrite <-(length_fmap fst (h_log st)), <-(length_seq (length (h_tasks st)) 0).
  apply submseteq_length, NoDup_submseteq; [done|]. intros i ([j req] & -> & Hj)%list_elem_of_fmap.
  destruct (linear_logged _ _ _ _ _ _ _ Hl Hj) as (t & Ht%lookup_lt_Some & _). apply elem_of_seq. cbn. lia.
Qed.
Lemma past_prefix k0 st past resps k1 : linear k0 st past resps k1 → past `prefix_of` h_log st.
Proof using Type.
  intros Hl. pose proof (ln_now _ _ _ _ _ Hl) as Hn. destruct (h_lock st); [|by destruct Hn as [-> _]].
  destruct Hn as (? & ? & -> & _). by apply prefix_app_r.
Qed.
Lemma log_utf8 n k0 st past resps k1 :
  linear k0 st past resps k1 → requests_ok n st → Forall request_utf8 (h_log st).*2.
Proof using Type.
  intros Hl [_ Hu]. apply Forall_forall. intros req ([i r] & -> & Hi)%list_elem_of_fmap.
  destruct (linear_logged _ _ _ _ _ _ _ Hl Hi) as (t & Ht & <- & _). by eapply Hu.
Qed.

(** The requests served so far got the table's answers, and the one that holds the
    lock will return. *)
Lemma linear_served n tbl k0 st past resps k1 :
  holds rep (n * S SLOT_COUNT) tbl k0 → linear k0 st past resps k1 → requests_ok n st → NoDup (h_log st).*1 →
  observe <$> resps = table_run tbl past.*2 ∧
  ∀ i, h_lock st = Some i → ∃ req p resp k2, h_tasks st !! i = Some (Working req p) ∧ exec p (h_store st) = Ok resp k2.
Proof using Type*.
  intros Hh Hl Hok Hnd. pose proof (log_bound _ _ _ _ _ Hl Hnd) as Hlen.
  pose proof (log_utf8 _ _ _ _ _ _ Hl Hok) as Hu. destruct Hok as [Hn _].
  destruct (past_prefix _ _ _ _ _ Hl) as [rest Hrest]. rewrite Hrest, fmap_app, Forall_app in Hu. destruct Hu as [Hu Hu'].
  rewrite Hrest, length_app in Hlen.
  destruct (serve_http_table rep past.*2 tbl (length rest * S SLOT_COUNT) k0) as (resps' & k' & Hs & Ho & tbl' & Hh'); [done| |].
  { eapply holds_weaken; [done|done|]. rewrite length_fmap, <-Nat.mul_add_distr_r. apply Nat.mul_le_mono_r. lia. }
  rewrite (ln_past _ _ _ _ _ Hl) in Hs. injection Hs as <- <-. split; [done|]. intros i Hi.
  pose proof (ln_now _ _ _ _ _ Hl) as Hnow. rewrite Hi in Hnow. destruct Hnow as (req & p & Hlog & Hw & He).
  rewrite Hrest in Hlog. apply app_inv_head in Hlog as ->. cbn in Hu'. inversion Hu' as [|? ? Hreq _]; subst.
  destruct (router_step rep req tbl' 0 k1 Hreq) as (resp & k2 & Hr & _); [eapply holds_weaken; [done|done|cbn [length]; lia]|].
  exists req, p, resp, k2. by rewrite He.
Qed.

(** Along a run nothing crashes. *)
Lemma run_served n tbl k0 st :
  holds rep (n * S SLOT_COUNT) tbl k0 → rtc http_step (Http_new k0) st → requests_ok n st → undropped (h_tasks st) →
  crash_free (h_tasks st) ∧ NoDup (h_log st).*1.
Proof using Type*.
  intros Hh. revert st. refine (rtc_ind_r _ _ _ _); [intros _ _; split; [by intros ? ?|constructor]|].
  intros y z Hr Hs IH Hok Hu. pose proof (step_extends _ _ Hs) as Hx.
  pose proof (requests_ok_before _ _ _ Hx Hok) as Hoky. pose proof (undropped_before _ _ Hx Hu) as Huy.
  destruct (IH Hoky Huy) as [Hc Hnd]. destruct (run_linear k0 y Hr Hc Huy) as (past & resps & k1 & Hl).
  destruct (linear_served n tbl k0 y past resps k1) as [_ Hret]; try done.
  assert (∀ ts i t t', crash_free ts → ts !! i = Some t → (∀ r, t' ≠ Crashed r) → crash_free (<[i := t']> ts)) as Hup.
  { intros ts i t t' Hts Hi Ht j r [[_ Heq]|[_ Hj]]%(update_cases _ _ _ _ _ _ Hi); [by destruct (Ht r)|by eapply Hts]. }
  destruct Hs as [Ha|Hw].
  - destruct Ha as [req k l ts log|i req k l ts log Hi|]; (split; [|done]); [|by eapply Hup..].
    intros i r [Hi|(_ & [_ Hi]%list_lookup_singleton_Some)]%lookup_app_Some; [by eapply Hc|done].
  - destruct Hw as [i k l ts log Hi|i req k ts log Hi Hreq|i req p p' k k' l ts log Hi Hadv
      |i req resp k l ts log Hi|i req k l ts log Hi]; cbn in *; try (split; [by eapply Hup|done]).
    + split; [by eapply Hup|]. rewrite fmap_app. apply NoDup_app. split_and!; [done| |apply NoDup_singleton].
      cbn. intros j Hj ->%list_elem_of_singleton. apply list_elem_of_fmap in Hj as ([j' r] & -> & Hj).
      destruct (linear_logged _ _ _ _ _ _ _ Hl Hj) as (t & Ht & _ & Hq). cbn in *. apply (Hq req). congruence.
    + destruct (Hret i) as (r & p & resp & k2 & Hp & He); [by eapply (ln_working _ _ _ _ _ Hl)|].
      cbn in *. rewrite Hi in Hp. injection Hp as <- <-. done.
Qed.

(** Every request is answered, and as the table answers it.  However requests
    arrive, wait and interleave, the tasks come to rest after finitely many steps;
    when they have, and no client went away while its task worked under the lock, each
    one has answered unless its client went away while it waited, and the answers are
    those of the table to the requests in the order in which they got the lock. *)
Theorem http_requests_served n tbl k0 st :
  holds rep (n * S SLOT_COUNT) tbl k0 → rtc http_step (Http_new k0) st → requests_ok n st →
  sn work st ∧
  (nf work st → undropped (h_tasks st) →
     (∀ i t, h_tasks st !! i = Some t → (∃ req resp, t = Finished req resp) ∨ ∃ req, t = Abandoned req) ∧
     ∃ resps, answered (h_tasks st) (h_log st) resps ∧ observe <$> resps = table_run tbl (h_log st).*2).
Proof using Type*.
  intros Hh Hr Hok. split; [apply work_terminates|]. intros Hnf Hu.
  destruct (run_served n tbl k0 st Hh Hr Hok Hu) as [Hc Hnd].
  destruct (run_linear k0 st Hr Hc Hu) as (past & resps & k1 & Hl).
  destruct (linear_served n tbl k0 st past resps k1 Hh Hl Hok Hnd) as [Ho Hret].
  destruct st as [k l ts log]. assert (l = None) as ->.
  { destruct l as [h|]; [|done]. destruct (Hret h eq_refl) as (req & p & resp & k2 & Hp & He).
    destruct Hnf. destruct (advance_progress _ _ _ _ He) as [->|(p1 & k3 & Ha)].
    - eexists. by eapply work_answer.
    - eexists. by eapply work_access. }
  pose proof (ln_now _ _ _ _ _ Hl) as [Hlog _]. cbn in Hlog. split.
  - intros i [req|req p|req resp|req|req|req] Hi;
      [| |by left; eauto|by right; eauto|by destruct (Hu i req)|by destruct (Hc i req)].
    + destruct Hnf. destruct (decide (req = GetIndex)) as [->|Hne]; eexists; [by eapply work_index|by eapply work_lock].
    + by pose proof (ln_working _ _ _ _ _ Hl _ _ _ Hi).
  - exists resps. cbn [h_log h_tasks]. rewrite Hlog. split; [apply Hl|done].
Qed.
End served.
