(* ===== verification/ApiTasksWitness.v ===== *)
(** * Concurrent requests, on a concrete store *)

From stdpp Require Import relations.
From S2P Require Import Prelude Externals Utf8 Core Frame Payloads Message MemoryStore StoreSpec.
From S2P Require Import ServerState Handler Session SessionFacts SessionProps.
From S2P Require Import Client Verbs ClientFacts EndToEnd Registration Kv KvTable KvProps KvLink KvWitness.
From S2P Require Import Display Api ApiProps ApiTasks ApiTasksProps.

Section schedules.
Context `{BytesCrate, Profile} {P : Type} `{!Peer P}.

(** A task that has the lock and whose handler returns can run to its answer. *)
Lemma run_task i req (p : Prog P Response) : ∀ k resp k' ts log,
  ts !! i = Some (Working req p) → exec p k = Ok resp k' →
  rtc http_step (mkHttp k (Some i) ts log) (mkHttp k' None (<[i := Finished req resp]> ts) log).
Proof using Type.
  induction (child_wf p) as [p _ IH]. intros k resp k' ts log Hi He.
  destruct (advance_progress _ _ _ _ He) as [->|(p1 & k1 & Ha)].
  - injection He as <-. apply rtc_once. right. by eapply work_answer.
  - eapply rtc_l; [right; by eapply work_access|]. rewrite (exec_advance _ _ _ _ Ha) in He.
    eapply transitivity; [apply (IH p1 (advance_child _ _ _ _ Ha)); [by eapply update_same|exact He]|].
    by rewrite list_insert_insert_eq.
Qed.
(** From the queue to the answer, while nobody else has the lock. *)
Lemma run_request i req k resp k' ts log :
  ts !! i = Some (Queued req) → req ≠ GetIndex → router req k = Ok resp k' →
  rtc http_step (mkHttp k None ts log) (mkHttp k' None (<[i := Finished req resp]> ts) (log ++ [(i, req)])).
Proof using Type.
  intros Hi Hne Hr. eapply rtc_l; [right; by eapply work_lock|].
  eapply transitivity; [apply (run_task i req (handler req)); [by eapply update_same|by rewrite exec_handler]|].
  by rewrite list_insert_insert_eq.
Qed.
Lemma run_arrive req (k : KvStore P) l ts log :
  rtc http_step (mkHttp k l ts log) (mkHttp k l (ts ++ [Queued req]) log).
Proof using Type. apply rtc_once. left. constructor. Qed.
End schedules.

Module ApiTasksWitness.
Import Concrete KvWitness.

Abbreviation GetK := (GetKv key1).
Abbreviation PutK := (PutKv key1 (lit "v")).

(** A GET is answered; then a PUT and a GET of the same key arrive in this order, and
    the GET overtakes the PUT on the way to the lock. *)
Lemma overtaking :
  ∃ k k1 k2 r0 r1 r2,
    holds kv_rep (3 * S SLOT_COUNT) (replicate SLOT_COUNT None) k ∧
    rtc http_step (Http_new k) (mkHttp k1 None [Finished GetK r0] [(0%nat, GetK)]) ∧
    rtc http_step (mkHttp k1 None [Finished GetK r0] [(0%nat, GetK)])
      (mkHttp k2 None [Finished GetK r0; Finished PutK r1; Finished GetK r2]
         [(0%nat, GetK); (2%nat, GetK); (1%nat, PutK)]).
Proof.
  destruct empty_store as [k Hk]. pose proof (kv_rep_slots reliable) as Hsm.
  apply (budget (3 * S SLOT_COUNT)) in Hk; [|compute; lia].
  destruct (router_step kv_rep GetK (replicate SLOT_COUNT None) (2 * S SLOT_COUNT) k) as (r0 & k1 & H0 & _ & Hk1); [done|done|].
  destruct (router_step kv_rep GetK _ (S SLOT_COUNT) k1 eq_refl Hk1) as (r2 & k2 & H2 & _ & Hk2).
  destruct (router_step kv_rep PutK _ 0 k2 ltac:(done) (budget (S SLOT_COUNT + 0) (S SLOT_COUNT) _ _ ltac:(lia) Hk2))
    as (r1 & k3 & H1 & _ & _).
  exists k, k1, k3, r0, r1, r2. split_and!; [done| |].
  - etrans; [apply (run_arrive GetK)|]. exact (run_request 0 GetK k r0 k1 [Queued GetK] [] eq_refl ltac:(done) H0).
  - etrans; [apply (run_arrive PutK)|]. etrans; [apply (run_arrive GetK)|].
    etrans; [exact (run_request 2 GetK k1 r2 k2 [Finished GetK r0; Queued PutK; Queued GetK] _ eq_refl ltac:(done) H2)|].
    exact (run_request 1 PutK k2 r1 k3 [Finished GetK r0; Queued PutK; Finished GetK r2] _ eq_refl ltac:(done) H1).
Qed.

Lemma http_linearizable_witness :
  ∃ k k1 k2 r0 r1 r2,
    rtc http_step (Http_new k) (mkHttp k1 None [Finished GetK r0] [(0%nat, GetK)]) ∧
    serve_http [GetK; GetK; PutK] k = Ok [r0; r2; r1] k2.
Proof.
  destruct overtaking as (k & k1 & k2 & r0 & r1 & r2 & _ & Hr & Hr').
  exists k, k1, k2, r0, r1, r2. split; [done|].
  assert (crash_free [Finished (P := Server) GetK r0; Finished PutK r1; Finished GetK r2]) as Hc
    by (by intros [|[|[|i]]] req).
  assert (undropped [Finished (P := Server) GetK r0; Finished PutK r1; Finished GetK r2]) as Hu
    by (by intros [|[|[|i]]] req).
  destruct (http_linearizable k _ _ Hr Hr' Hc Hu eq_refl) as ((resps & Hs & Ha) & _).
  cbn in Ha. inversion Ha as [|? ? ? ? H0 Ha1]; subst. inversion Ha1 as [|? ? ? ? H2 Ha2]; subst.
  inversion Ha2 as [|? ? ? ? H1 Ha3]; subst. inversion Ha3; subst.
  injection H0 as <-. injection H1 as <-. injection H2 as <-. exact Hs.
Defined.

Lemma http_requests_served_witness :
  ∃ k k2 r0 r1 r2,
    rtc http_step (Http_new k) (mkHttp k2 None [Finished GetK r0; Finished PutK r1; Finished GetK r2]
      [(0%nat, GetK); (2%nat, GetK); (1%nat, PutK)]) ∧
    observe <$> [r0; r2; r1] = [(NOT_FOUND, SeenError); (NOT_FOUND, SeenError); (OK, SeenStored 20 false)].
Proof.
  destruct overtaking as (k & k1 & k2 & r0 & r1 & r2 & Hk & Hr & Hr').
  pose proof (kv_rep_slots reliable) as Hsm. assert (Hall := transitivity Hr Hr').
  exists k, k2, r0, r1, r2. split; [exact Hall|].
  destruct (http_requests_served kv_rep 3 _ k _ Hk Hall) as [_ Hdone].
  { split; [done|]. by intros [|[|[|i]]] t [= <-]. }
  destruct Hdone as (_ & resps & Ha & Ho).
  { intros [st' Hw]. inversion Hw as [i ? ? ? ? Hi|i ? ? ? ? Hi|i ? ? ? ? ? ? ? ? Hi|i ? ? ? ? ? ? Hi|i ? ? ? ? ? Hi]; subst;
      by destruct i as [|[|[|i]]]. }
  { by intros [|[|[|i]]] req. }
  cbn in Ha. inversion Ha as [|? ? ? ? H0 Ha1]; subst. inversion Ha1 as [|? ? ? ? H2 Ha2]; subst.
  inversion Ha2 as [|? ? ? ? H1 Ha3]; subst. inversion Ha3; subst.
  injection H0 as <-. injection H1 as <-. injection H2 as <-. rewrite Ho. by vm_compute.
Defined.
End ApiTasksWitness.
