(* ===== verification/Mains.v ===== *)
(** * The programs as a whole

    [main] of [rdows-server], [rdows-client], [rdows-kv] and of the examples of the
    client, from the command line to the last call.  Sockets, certificates and the
    network are the parameter [Host]; the state of a run is the list of the servers
    that were started ([run_server]).  A [Box<dyn Error>] is [MainError]. *)

From S2P Require Import Prelude Externals Utf8 Core Frame Payloads Message ServerState Client Verbs.
From S2P Require Import Negotiation Cli Programs Kv Display Api ApiTasks.

Inductive MainError : Type :=
| Boxed (e : list byte)
| Failing (e : AppError).

(** A server that accepts connections: the arguments of [run_server]. *)
Record ServerTask `{TlsLib} (Listener : Type) := mkServerTask {
  task_listener : Listener;
  task_tls : TlsServerConfig;
  task_config : ServerConfig;
}.
Arguments mkServerTask {_ _} _ _ _.
Arguments task_listener {_ _} _.
Arguments task_tls {_ _} _.
Arguments task_config {_ _} _.

(** What the programs use of the machine they run on: [rcgen], [TcpListener], the
    network as a client with a TLS configuration sees it when these servers run, and
    the stream that a connection to an URL gives. *)
Class Host `{TlsLib} (HM P : Type) : Type := {
  Listener : Type;
  rcgen_self_signed : list (list byte) → list byte + Certificate * PrivateKey;
  tcp_bind : list byte → list byte + Listener;
  local_port : Listener → list byte + Z;
  network : list (ServerTask Listener) → ClientConfig → Net (HM := HM);
  wire_to : list (ServerTask Listener) → list byte → Wire P;
}.

Section mains.
Context `{BytesCrate, Profile, OsRng, TlsLib} {HM P : Type} `{!HttpHeaders HM, !Peer P, !Host HM P}.

Abbreviation Process := (list (ServerTask (Listener (HM := HM) (P := P)))).
Abbreviation Main := (M Process MainError).

(** [r?] and [r.unwrap()] *)
Definition try_io {A} (r : list byte + A) : Main A :=
  match r with inl e => throw (Boxed e) | inr a => mret a end.
Definition unwrap_io {A} (r : list byte + A) : Main A :=
  match r with inl _ => panic | inr a => mret a end.

(** [run_server] up to its loop: it prints its address, and from then on a task
    accepts connections for ever.  The loop is [Tracker.v]'s; what a connection finds
    there is a law of [Host]. *)
Definition run_server (listener : Listener) (acceptor : TlsServerConfig) (config : ServerConfig) : Main unit :=
  _ ← unwrap_io (local_port listener);
  modifyS (λ p, p ++ [mkServerTask listener acceptor config]).
(** [tokio::spawn]: a panic of the task is not one of its parent. *)
Definition tokio_spawn (m : Main unit) : Main unit := λ p,
  match m p with Ok _ p' => Ok tt p' | _ => Ok tt p end.

(** [format!("wss://localhost:{}/rdows", port)] *)
Definition local_url (port : Z) : list byte := lit "wss://localhost:" ++ dec_display port ++ lit "/rdows".

(** [RdowsConnection::connect(url, config).await?], and calls on the connection. *)
Definition connect_to (url : list byte) (config : ClientConfig) (n : nat) : Main (Client P) := λ p,
  match RdowsConnection_connect (network p config) url n (wire_to p url) with
  | Ok conn w => Ok (mkClient conn w) p
  | Err e _ => Err (Failing (Stopped e)) p
  | Panic => Panic
  end.
Definition with_conn {A} (conn : Client P) (m : M (Client P) AppError A) : Main (A * Client P) := λ p,
  match m conn with
  | Ok a conn' => Ok (a, conn') p
  | Err e _ => Err (Failing e) p
  | Panic => Panic
  end.

(** ** [rdows-server] *)
Definition server_main (args : list (list byte)) : Main unit :=
  sa ← or_panic (server_args args);
  cert_pem ← try_io (fs_read (sa_cert_path sa));
  key_pem ← try_io (fs_read (sa_key_path sa));
  tls_config ← try_io (build_server_tls_config cert_pem key_pem);
  listener ← try_io (tcp_bind (sa_bind sa));
  run_server listener tls_config (sa_config sa).

(** ** [rdows-client] *)
Definition client_url (args : list (list byte)) : list byte :=
  default (lit "wss://localhost:9443/rdows") (get_arg args (lit "--url")).
Definition client_program (args : list (list byte)) (n : nat) : Main (Client P) :=
  let url := client_url args in
  let cert_path := get_arg args (lit "--cert") in
  tls_config ← try_io (build_tls_config cert_path);
  conn ← connect_to url tls_config n;
  '(_, conn) ← with_conn conn (client_main args);
  mret conn.

(** ** The examples *)

(** [start_embedded_server], of which every example has a copy; [err_rnr_demo] runs
    its server with three receives. *)
Definition start_embedded_server (config : ServerConfig) : Main (Z * ClientConfig) :=
  cert_key ← unwrap_io (rcgen_self_signed [lit "localhost"]);
  '(server_config, client_config) ← unwrap_io (start_embedded_tls (inr cert_key));
  listener ← unwrap_io (tcp_bind (lit "127.0.0.1:0"));
  port ← unwrap_io (local_port listener);
  _ ← tokio_spawn (run_server listener server_config config);
  mret (port, client_config).
Definition example_main (config : ServerConfig) (program : M (Client P) AppError unit) (n : nat)
    : Main (Client P) :=
  '(port, client_tls) ← start_embedded_server config;
  conn ← connect_to (local_url port) client_tls n;
  '(_, conn) ← with_conn conn program;
  mret conn.
Definition three_receives : ServerConfig :=
  let d := ServerConfig_default in
  mkConfig 3 (cfg_max_regions_per_session d) (cfg_max_total_bytes_per_session d)
    (cfg_max_outstanding_reads d) (cfg_max_sessions_per_ip d) (cfg_mr_reg_rate_limit d).
Definition one_sided_write_main : nat → Main (Client P) := example_main ServerConfig_default one_sided_write.
Definition one_sided_read_main : nat → Main (Client P) := example_main ServerConfig_default one_sided_read.
Definition echo_send_recv_main : nat → Main (Client P) := example_main ServerConfig_default echo_send_recv.
Definition atomic_counter_main : nat → Main (Client P) := example_main ServerConfig_default atomic_counter.
Definition err_rnr_demo_main : nat → Main (Client P) := example_main three_receives err_rnr_example.

(** ** [rdows-kv] *)
Definition start_embedded (rdows_port : Z) (n : nat) : Main (Client P * list byte) :=
  '(server_config, client_config) ← try_io (start_embedded_tls (rcgen_self_signed [lit "localhost"]));
  rdows_listener ← try_io (tcp_bind (lit "127.0.0.1:" ++ dec_display rdows_port));
  port ← try_io (local_port rdows_listener);
  _ ← tokio_spawn (run_server rdows_listener server_config ServerConfig_default);
  let url := local_url port in
  conn ← connect_to url client_config n;
  mret (conn, url).

(** [parse_args]: exit codes and panics are those of the process. *)
Definition parsed (args : list (list byte)) : Main Args := λ p,
  match parse_args args with
  | Ok _ a => Ok a p
  | Err code _ => Err (Failing (Exit code)) p
  | Panic => Panic
  end.

(** [main] up to [axum::serve], whose tasks are those of [ApiTasks.v]. *)
Definition kv_main (argv : list (list byte)) (n : nat) : Main (Http P) :=
  args ← parsed argv;
  '(conn, rdows_url) ←
    (match remote args with
     | Some remote_url =>
         client_config ← try_io (build_remote_tls_config (cert args) (insecure args));
         conn ← connect_to remote_url client_config n;
         mret (conn, remote_url)
     | None =>
         '(conn, url) ← start_embedded (rdows_port args) n;
         mret (conn, url)
     end);
  '(store, _) ← with_conn conn (lift kv_setup);
  http_listener ← try_io (tcp_bind (lit "0.0.0.0:" ++ dec_display (http_port args)));
  mret (Http_new store).
End mains.
