(* ===== verification/MainProps.v ===== *)
(** * The programs as a whole work

    Server, client, store and examples composed: command lines, certificates, the
    network, the upgrade, the handshake and the protocol. *)

From stdpp Require Import relations.
From S2P Require Import Prelude Externals Utf8 Core Frame Payloads Message MemoryStore StoreSpec.
From S2P Require Import ServerState Handler Session SessionFacts SessionProps.
From S2P Require Import Client Verbs ClientFacts EndToEnd Registration Negotiation NegotiationProps Cli CliProps.
From S2P Require Import Service Link LinkProps Programs ProgramFacts ProgramProps.
From S2P Require Import Kv KvTable KvProps KvLink Display Api ApiProps ApiTasks ApiTasksProps Mains.

(** A listener that a client on the same machine reaches under the name localhost: one
    that was bound to the loopback address or to all addresses. *)
Definition binds_loopback (addr : list byte) : bool :=
  starts_with addr (lit "127.0.0.1:") || starts_with addr (lit "0.0.0.0:").
Definition local_listener `{TlsLib} {HM P : Type} `{!Host HM P} (l : Listener) (port : Z) : Prop :=
  ∃ addr, binds_loopback addr = true ∧ tcp_bind addr = inr l ∧ local_port l = inr port.

(** What the programs rely on when they talk to a server on the same machine: a
    generated certificate is accepted as a root and verifies itself; an URL with a
    port is parsed into host and port; such a listener can be connected to under the
    name localhost; TLS succeeds when the client verifies the server's certificate;
    the upgrade reaches [check_subprotocol]; and the first connection is served with
    the server's configuration unless that admits no session at all. *)
Class LoopbackLaws `{BytesCrate, Profile, OsRng, WsSinkEnv, Clock, TlsLib} {HM : Type} `{!HttpHeaders HM}
    `{!Host HM Server} : Prop := {
  self_signed_accepted names c key :
    rcgen_self_signed names = inr (c, key) →
    single_cert_error [c] key = None ∧ root_store_rejects c = None ∧ chain_verifies [c] c = true;
  local_port_range l port : local_port l = inr port → u16 port;
  loopback_uri p config port :
    u16 port → ∃ headers uri, into_client_request (network p config) (local_url port) = inr (headers, uri) ∧
      uri_host (network p config) uri = Some (lit "localhost") ∧ uri_port (network p config) uri = Some port;
  loopback_name p config : server_name_error (network p config) (lit "localhost") = None;
  loopback_tcp t config port :
    local_listener (task_listener t) port →
    tcp_connect (network [t] config) (lit "localhost" ++ lit ":" ++ dec_display port) = None;
  loopback_tls t config c rest :
    sc_certs (task_tls t) = c :: rest → verify_server_cert (cc_verifier config) c = true →
    tls_connect (network [t] config) (lit "localhost") = None;
  loopback_upgrade t config : upgrades (network [t] config);
  loopback_wire t port :
    local_listener (task_listener t) port → 0 < cfg_max_sessions_per_ip (task_config t) →
    wire_to [t] (local_url port) = fresh_server (task_config t);
}.

Section mains.
Context `{BytesCrateLaws, Profile, !OsRng, !OsRngLaws, WsSinkEnv, Clock, TlsLib}.
Context {HM : Type} `{!HttpHeaders HM, !HttpHeadersLaws HM, !Host HM Server, !LoopbackLaws}.
Context (Hsink : ∀ log, ws_send_error log = None) (Hdraw : good_source).

Lemma local_url_wss port : starts_with (local_url port) (lit "ws://") = false.
Proof using Type. reflexivity. Qed.

(** The certificate of a server is verified by a client with this configuration. *)
Definition trusted_by (config : ClientConfig) (t : ServerTask Listener) : Prop :=
  ∃ c rest, sc_certs (task_tls t) = c :: rest ∧ verify_server_cert (cc_verifier config) c = true.

Lemma local_bound addr l port :
  binds_loopback addr = true → tcp_bind addr = inr l → local_port l = inr port → local_listener l port.
Proof using Type. intros. by exists addr. Qed.

(** Connecting to a server of this machine is the handshake with a fresh session. *)
Lemma connect_to_local t config port n :
  local_listener (task_listener t) port → trusted_by config t → 0 < cfg_max_sessions_per_ip (task_config t) →
  connect_to (local_url port) config n [t] =
    match connect_with_config n DEFAULT_CQ_CAPACITY (fresh_server (task_config t)) with
    | Ok conn w => Ok (mkClient conn w) [t]
    | Err e _ => Err (Failing (Stopped e)) [t]
    | Panic => Panic
    end.
Proof using Type*.
  intros Hport (c & rest & Hc & Hv) Hmax. unfold connect_to. rewrite (loopback_wire t port Hport Hmax).
  rewrite negotiation_agrees; [done| |apply loopback_upgrade].
  destruct (loopback_uri [t] config port) as (headers & uri & Hreq & Hhost & Huri);
    [destruct Hport as (? & _ & _ & ?); by eapply local_port_range|].
  split; [apply local_url_wss|]. exists headers, uri, (lit "localhost"). rewrite Huri.
  split_and!; [done|done|by apply loopback_tcp|apply loopback_name|by eapply loopback_tls].
Qed.

Lemma try_io_bind {A B} (a : A) (f : A → M (list (ServerTask Listener)) MainError B) p : (try_io (inr a) ≫= f) p = f a p.
Proof using Type. done. Qed.
Lemma unwrap_io_bind {A B} (a : A) (f : A → M (list (ServerTask Listener)) MainError B) p : (unwrap_io (inr a) ≫= f) p = f a p.
Proof using Type. done. Qed.
Lemma run_server_eq l port tls config p :
  local_port l = inr port → run_server l tls config p = Ok tt (p ++ [mkServerTask l tls config]).
Proof using Type. intros Hp. unfold run_server. by rewrite Hp. Qed.
Lemma spawn_server_bind {B} l port tls config (f : unit → M (list (ServerTask Listener)) MainError B) p :
  local_port l = inr port →
  (tokio_spawn (run_server l tls config) ≫= f) p = f tt (p ++ [mkServerTask l tls config]).
Proof using Type. intros Hp. unfold mbind, M_bind, tokio_spawn. by rewrite (run_server_eq l port). Qed.
Lemma with_conn_bind {A B} c (m : M (Client Server) AppError A) a c' (f : A * Client Server → M (list (ServerTask Listener)) MainError B) p :
  m c = Ok a c' → (with_conn c m ≫= f) p = f (a, c') p.
Proof using Type. intros Hm. unfold mbind, M_bind, with_conn. by rewrite Hm. Qed.

(** The configurations of an embedded server and of its client. *)
Lemma start_embedded_tls_eq names c key :
  rcgen_self_signed names = inr (c, key) →
  start_embedded_tls (rcgen_self_signed names) =
    inr (mkTlsServerConfig [c] key true, mkClientConfig (RootCertificates [c]) true) ∧
  verify_server_cert (RootCertificates [c]) c = true.
Proof using Type*.
  intros Hg. destruct (self_signed_accepted names c key Hg) as (Hs & Hr & Hv).
  unfold start_embedded_tls. by rewrite Hg, Hs, Hr.
Qed.

(** ** The examples *)

(** C24: the examples of the client work from start to end.  When the machine gives
    them a certificate and a port, each of the five programs starts its server,
    connects to it over TLS with the certificate it generated, runs to completion
    without an error or a panic and leaves the session closed. *)
Theorem example_mains_succeed c key l port main n :
  rcgen_self_signed [lit "localhost"] = inr (c, key) →
  tcp_bind (lit "127.0.0.1:0") = inr l → local_port l = inr port →
  In main [one_sided_write_main; one_sided_read_main; echo_send_recv_main; atomic_counter_main; err_rnr_demo_main] →
  ∃ t conn, main n [] = Ok conn [t] ∧ task_listener t = l ∧ hung_up conn.
Proof using Type*.
  intros Hg Hl Hp Hmain. pose proof (local_bound (lit "127.0.0.1:0") l port eq_refl Hl Hp) as Hlocal. destruct (start_embedded_tls_eq _ c key Hg) as [Htls Hv]. rewrite Hg in Htls.
  assert (∀ config prog, roomy config → 0 < cfg_recv_queue_depth config → 0 < cfg_max_sessions_per_ip config →
    In prog [one_sided_write; one_sided_read; echo_send_recv; atomic_counter; err_rnr_example] →
    ∃ t conn, example_main config prog n [] = Ok conn [t] ∧ task_listener t = l ∧ hung_up conn) as Hrun.
  { intros config prog Hcfg Hrv Hip Hprog.
    destruct (examples_succeed Hsink Hdraw config n DEFAULT_CQ_CAPACITY prog) as (cn & wr & c' & Hc & Hrun & Hh); try done.
    exists (mkServerTask l (mkTlsServerConfig [c] key true) config), c'. split_and!; try done.
    unfold example_main, start_embedded_server. rewrite !bind_assoc, Hg, unwrap_io_bind, bind_assoc.
    rewrite Htls, unwrap_io_bind, bind_assoc, Hl, unwrap_io_bind, bind_assoc, Hp, unwrap_io_bind, bind_assoc.
    rewrite (spawn_server_bind l port) by done. rewrite ret_bind. cbn [app].
    erewrite bind_Ok; [by erewrite with_conn_bind|].
    rewrite connect_to_local; [cbn [task_config]; by rewrite Hc|done|by exists c, []|done]. }
  pose proof ServerConfig_default_roomy as Hroomy.
  assert (roomy three_receives) as Hthree by (by split; [split|..]).
  repeat (destruct Hmain as [<-|Hmain]); [..|done]; apply Hrun; try done; cbn; auto 10.
Qed.

(** ** The server and the client *)

(** A server program that started: what it listens on and presents. *)
Lemma server_main_runs sargs sa cert_pem key_pem tls l port :
  server_args sargs = Some sa → fs_read (sa_cert_path sa) = inr cert_pem → fs_read (sa_key_path sa) = inr key_pem →
  build_server_tls_config cert_pem key_pem = inr tls → tcp_bind (sa_bind sa) = inr l → local_port l = inr port →
  server_main sargs [] = Ok tt [mkServerTask l tls (sa_config sa)].
Proof using Type.
  intros Ha Hc Hk Ht Hl Hp. unfold server_main. rewrite Ha, or_panic_bind, Hc, try_io_bind, Hk, try_io_bind.
  rewrite Ht, try_io_bind, Hl, try_io_bind. by rewrite (run_server_eq l port).
Qed.
(** Its limits are the default ones, whatever the number of receives. *)
Lemma server_args_limits sargs sa :
  server_args sargs = Some sa →
  0 < cfg_max_sessions_per_ip (sa_config sa) ∧ hosts_table (sa_config sa) ∧
  roomy (sa_config sa).
Proof using Type.
  intros Hs. destruct (server_args_config sargs sa Hs) as (_ & _ & _ & Hok & _). revert Hs. unfold server_args.
  intros (cp & _ & (kp & _ & (d & Hd & [= <-])%bind_Some)%bind_Some)%bind_Some.
  split_and!; [done|by split|by split].
Qed.

(** C8: server and client work together.  A server started with a certificate, a key
    and a free address, and then the demonstration client, started with the URL of
    that server, a mode and certificates that verify the server's: the client
    connects, runs its demonstration, passes its assertions and returns, with the
    session closed and the server still listening. *)
Theorem server_client_succeed sargs sa cert_pem key_pem tls l port cargs config c rest sends n :
  server_args sargs = Some sa → fs_read (sa_cert_path sa) = inr cert_pem → fs_read (sa_key_path sa) = inr key_pem →
  build_server_tls_config cert_pem key_pem = inr tls → tcp_bind (sa_bind sa) = inr l → local_port l = inr port →
  binds_loopback (sa_bind sa) = true → 0 < cfg_recv_queue_depth (sa_config sa) →
  client_url cargs = local_url port → build_tls_config (get_arg cargs (lit "--cert")) = inr config →
  sc_certs tls = c :: rest → verify_server_cert (cc_verifier config) c = true →
  mode_of cargs ∈ modes → sends_of cargs = Some sends → 0 ≤ sends < 2 ^ 30 →
  ∃ conn, (_ ← server_main sargs; client_program cargs n) [] = Ok conn [mkServerTask l tls (sa_config sa)] ∧
    hung_up conn.
Proof using Type*.
  intros Ha Hcp Hkp Htls Hl Hp Hlb Hrv Hurl Hcfg Hc Hv Hmode Hsends Hs.
  pose proof (local_bound _ l port Hlb Hl Hp) as Hlocal.
  destruct (server_args_limits sargs sa Ha) as (Hip & _ & Hroomy).
  destruct (client_main_succeeds Hsink Hdraw (sa_config sa) n DEFAULT_CQ_CAPACITY cargs sends)
    as (cn & wr & c' & Hconn & Hrun & Hh); try done.
  exists c'. split; [|done]. erewrite bind_Ok; [|by eapply server_main_runs].
  unfold client_program. rewrite Hcfg, try_io_bind, Hurl. erewrite bind_Ok; [by erewrite with_conn_bind|].
  rewrite connect_to_local; [cbn [task_config]; by rewrite Hconn|done|by exists c, rest|done].
Qed.

(** ** The store *)

(** What the HTTP tasks of the program do from its first request on, as long as no
    client goes away while its task works under the lock. *)
Definition serves_table (m : nat) (k : KvStore Server) : Prop :=
  ∀ st, rtc http_step (Http_new k) st → requests_ok m st →
    sn work st ∧
    (nf work st → undropped (h_tasks st) →
       (∀ i t, h_tasks st !! i = Some t → (∃ req resp, t = Finished req resp) ∨ ∃ req, t = Abandoned req) ∧
       ∃ resps, answered (h_tasks st) (h_log st) resps ∧
         observe <$> resps = table_run (replicate SLOT_COUNT None) (h_log st).*2).

(** The store on a connection to a fresh session. *)
Lemma store_serves cfg n m :
  hosts_table cfg → Z.of_nat m < 2 ^ 57 →
  ∃ cn wr k c', connect_with_config n DEFAULT_CQ_CAPACITY (fresh_server cfg) = Ok cn wr ∧
    lift kv_setup (mkClient cn wr) = Ok k c' ∧ serves_table m k.
Proof using Type*.
  intros Hcfg Hm. destruct (os_rng_fill n) as [b|] eqn:Hb; [|by destruct (source_works Hdraw n)].
  destruct (kv_boot Hsink cfg n b (m * S SLOT_COUNT)) as (cn & wr & k & c' & Hc & Hk & Hh); try done.
  { intros r i. apply Hdraw. rewrite size_singleton. lia. }
  { unfold SLOT_COUNT. lia. }
  exists cn, wr, k, c'. split_and!; [done|unfold lift; by rewrite Hk|]. intros st Hr Hok.
  pose proof (kv_rep_slots Hsink) as Hsm. by apply (http_requests_served kv_rep m _ k).
Qed.

(** C2: the store works from start to end.  Started without [--remote] on a machine
    that gives it a certificate and its two ports, [rdows-kv] starts its server,
    connects, registers its regions and serves HTTP; and however up to 2^57 requests
    then arrive and interleave, the tasks come to rest, and unless a client went away
    while its task worked under the lock, no handler panics, every request is answered
    but those whose client left while they waited for the lock, and the answers are
    those of the empty table to the requests in the order in which they got the
    lock. *)
Theorem kv_main_serves argv a c key l port hl n m :
  parse_args argv = Ok tt a → remote a = None →
  rcgen_self_signed [lit "localhost"] = inr (c, key) →
  tcp_bind (lit "127.0.0.1:" ++ dec_display (rdows_port a)) = inr l → local_port l = inr port →
  tcp_bind (lit "0.0.0.0:" ++ dec_display (http_port a)) = inr hl → Z.of_nat m < 2 ^ 57 →
  ∃ k t, kv_main argv n [] = Ok (Http_new k) [t] ∧ task_config t = ServerConfig_default ∧ serves_table m k.
Proof using Type*.
  intros Ha Hrem Hg Hl Hp Hhl Hm. pose proof (local_bound (lit "127.0.0.1:" ++ _) l port eq_refl Hl Hp) as Hlocal. destruct (start_embedded_tls_eq _ c key Hg) as [Htls Hv].
  destruct (store_serves ServerConfig_default n m ServerConfig_default_hosts Hm) as (cn & wr & k & c' & Hc & Hk & Hs).
  exists k, (mkServerTask l (mkTlsServerConfig [c] key true) ServerConfig_default). split_and!; try done.
  unfold kv_main. erewrite bind_Ok; [|unfold parsed; by rewrite Ha]. rewrite Hrem.
  unfold start_embedded. rewrite Htls, !bind_assoc, try_io_bind, Hl, bind_assoc, try_io_bind, bind_assoc, Hp, try_io_bind, bind_assoc.
  rewrite (spawn_server_bind l port) by done. cbn zeta. cbn [app]. rewrite !bind_assoc.
  erewrite bind_Ok; [|rewrite connect_to_local; [cbn [task_config]; by rewrite Hc|done|by exists c, []|done]].
  rewrite !ret_bind. rewrite (with_conn_bind _ _ _ _ _ _ Hk). by rewrite Hhl.
Qed.

(** C9: the same against a server of its own process: [rdows-server] and then
    [rdows-kv] with [--remote] and the URL of that server, whose certificate the
    given roots verify (or [--insecure] waives), serve the empty table, under the same
    condition on the clients. *)
Theorem kv_remote_serves sargs sa cert_pem key_pem tls l port argv a url config c rest hl n m :
  server_args sargs = Some sa → fs_read (sa_cert_path sa) = inr cert_pem → fs_read (sa_key_path sa) = inr key_pem →
  build_server_tls_config cert_pem key_pem = inr tls → tcp_bind (sa_bind sa) = inr l → local_port l = inr port →
  binds_loopback (sa_bind sa) = true → parse_args argv = Ok tt a → remote a = Some url → url = local_url port →
  build_remote_tls_config (cert a) (insecure a) = inr config →
  sc_certs tls = c :: rest → verify_server_cert (cc_verifier config) c = true →
  tcp_bind (lit "0.0.0.0:" ++ dec_display (http_port a)) = inr hl → Z.of_nat m < 2 ^ 57 →
  ∃ k, (_ ← server_main sargs; kv_main argv n) [] = Ok (Http_new k) [mkServerTask l tls (sa_config sa)] ∧
    serves_table m k.
Proof using Type*.
  intros Hsa Hcp Hkp Htls Hl Hp Hlb Ha Hrem -> Hcfg Hc Hv Hhl Hm.
  pose proof (local_bound _ l port Hlb Hl Hp) as Hlocal.
  destruct (server_args_limits sargs sa Hsa) as (Hip & Hhosts & _).
  destruct (store_serves (sa_config sa) n m Hhosts Hm) as (cn & wr & k & c' & Hconn & Hk & Hs).
  exists k. split; [|done]. erewrite bind_Ok; [|by eapply server_main_runs].
  unfold kv_main. erewrite bind_Ok; [|unfold parsed; by rewrite Ha]. rewrite Hrem, Hcfg, !bind_assoc, try_io_bind, bind_assoc.
  erewrite bind_Ok; [|rewrite connect_to_local; [cbn [task_config]; by rewrite Hconn|done|by exists c, rest|done]].
  rewrite !ret_bind. rewrite (with_conn_bind _ _ _ _ _ _ Hk). by rewrite Hhl.
Qed.
End mains.
