(* ===== verification/MainWitness.v ===== *)
(** * The programs on a concrete machine *)

From stdpp Require Import relations.
From S2P Require Import Prelude Externals Utf8 Core Frame Payloads Message MemoryStore StoreSpec.
From S2P Require Import ServerState Handler Session SessionFacts SessionProps.
From S2P Require Import Client Verbs ClientFacts EndToEnd Registration Negotiation NegotiationProps Cli CliProps.
From S2P Require Import Service Link LinkProps Programs ProgramFacts ProgramProps ProgramWitness.
From S2P Require Import Kv KvTable KvProps KvLink Display Api ApiProps ApiTasks ApiTasksProps Mains MainProps.

Module MainWitness.
Import Concrete NegotiationWitness.
#[local] Existing Instance CliWitness.plain_tls.

Definition own_cert : Certificate := lit "self-signed".
Definition own_key : PrivateKey := lit "key".
Definition file_cert : Certificate := lit "c".
Definition file_key : PrivateKey := lit "k".

(** The port of [wss://localhost:PORT/...] *)
Definition url_port (url : list byte) : option Z :=
  parse_unsigned 16 (default [] (head (split_on x2f (drop 16 url)))).
(** A network on which exactly the one server that runs can be reached; its
    certificate is checked, and it answers the upgrade. *)
Definition one_server (p : list (ServerTask Z)) (config : ClientConfig) : Net (HM := Headers) := {|
  Uri := option Z;
  into_client_request url := inr (no_headers, url_port url);
  uri_host _ := Some (lit "localhost");
  uri_port uri := uri;
  tcp_connect _ := match p with [_] => None | _ => Some (lit "refused") end;
  server_name_error _ := None;
  tls_connect _ :=
    match p with
    | [t] => if existsb (verify_server_cert (cc_verifier config)) (take 1 (sc_certs (task_tls t)))
             then None else Some (lit "invalid certificate")
    | _ => Some (lit "refused")
    end;
  client_async request :=
    match check_subprotocol request no_headers with inl e => inl (er_body e) | inr resp => inr resp end;
|}.
(** Every bind gives port 9443. *)
#[export] Instance machine : Host Headers Server := {|
  Listener := Z;
  rcgen_self_signed _ := inr (own_cert, own_key);
  tcp_bind _ := inr 9443;
  local_port l := if (0 <=? l) && (l <? 2 ^ 16) then inr l else inl (lit "no port");
  network := one_server;
  wire_to p _ := fresh_server (match p with [t] => task_config t | _ => ServerConfig_default end);
|}.

Definition the_listener : Listener (HM := Headers) (P := Server) := 9443.

Lemma digits_no_slash n : x2f ∉ dec_display n.
Proof.
  assert (Forall is_digit (dec_display n)) as Hd by (apply dec_digits_ascii; constructor).
  intros Hin. rewrite Forall_forall in Hd. specialize (Hd _ Hin). unfold is_digit in Hd.
  assert (Z_of_byte x2f = 47) by done. lia.
Qed.
Lemma url_port_local port : u16 port → url_port (local_url port) = Some port.
Proof.
  intros Hp. unfold url_port, local_url. change 16%nat with (length (lit "wss://localhost:")).
  rewrite drop_app_length. change (lit "/rdows") with (x2f :: lit "rdows").
  rewrite split_on_app, split_on_none by apply digits_no_slash. cbn [head app default].
  unfold uN in Hp. by apply parse_dec_display.
Qed.
#[export] Instance machine_laws : LoopbackLaws (HM := Headers).
Proof.
  split; cbn; try done.
  - intros _ c key [= <- <-]. by split_and!.
  - intros l port. destruct (_ && _) eqn:Hl; [|done]. intros [= <-]. unfold uN.
    apply andb_true_iff in Hl as [?%Z.leb_le ?%Z.ltb_lt]. lia.
  - intros _ _ port Hp. eexists _, _. split_and!; [done|done|by apply url_port_local].
  - intros t config c rest -> Hv. cbn. rewrite Hv. done.
  - intros t config request. exists request, no_headers. split; [done|].
    change (client_async (one_server [t] config) request) with (match check_subprotocol request no_headers with
      inl e => inl (er_body e) | inr resp => inr resp end : list byte + Headers).
    destruct (check_subprotocol request no_headers) as [e|resp]; by eexists.
Qed.

Lemma example_mains_succeed_witness :
  ∃ t conn, err_rnr_demo_main 0 [] = Ok conn [t] ∧ hung_up conn.
Proof.
  destruct (example_mains_succeed ProgramWitness.always_sends ProgramWitness.counting_source
    own_cert own_key the_listener 9443 err_rnr_demo_main 0) as (t & conn & Hrun & _ & Hh);
    [done|done|done|cbn; auto 10|]. exists t, conn. exact (conj Hrun Hh).
Defined.

(** [rdows-server --cert c --key k] and [rdows-client --cert c --mode read] *)
Definition server_argv : list (list byte) :=
  [lit "rdows-server"; lit "--cert"; lit "c"; lit "--key"; lit "k"].
Definition server_settings : ServerArgs :=
  mkServerArgs (lit "0.0.0.0:9443") (lit "c") (lit "k") ServerConfig_default.
Definition file_tls : TlsServerConfig := mkTlsServerConfig [file_cert] file_key true.
Lemma server_client_succeed_witness :
  ∃ t conn, (_ ← server_main server_argv;
      client_program [lit "rdows-client"; lit "--cert"; lit "c"; lit "--mode"; lit "read"] 0) [] = Ok conn [t] ∧
    hung_up conn.
Proof.
  destruct (server_client_succeed ProgramWitness.always_sends ProgramWitness.counting_source
    server_argv server_settings (lit "c") (lit "k") file_tls the_listener 9443
    [lit "rdows-client"; lit "--cert"; lit "c"; lit "--mode"; lit "read"]
    (mkClientConfig (RootCertificates [file_cert]) true) file_cert [] 4 0) as (conn & Hrun & Hh);
    [done..|apply (bool_decide_unpack _); vm_compute; exact I|done|done|].
  eexists _, conn. exact (conj Hrun Hh).
Defined.

(** [rdows-kv] with the default settings *)
Lemma kv_main_serves_witness :
  ∃ k t, kv_main [lit "rdows-kv"] 0 [] = Ok (Http_new k) [t] ∧ serves_table 1000 k.
Proof.
  destruct (kv_main_serves ProgramWitness.always_sends ProgramWitness.counting_source
    [lit "rdows-kv"] args_default own_cert own_key the_listener 9443 the_listener 0 1000) as (k & t & Hrun & _ & Hs);
    [done..|]. exists k, t. exact (conj Hrun Hs).
Defined.
(** [rdows-kv --remote wss://localhost:9443/rdows --insecure] *)
Definition remote_argv : list (list byte) :=
  [lit "rdows-kv"; lit "--remote"; lit "wss://localhost:9443/rdows"; lit "--insecure"].
Lemma kv_remote_serves_witness :
  ∃ k t, (_ ← server_main server_argv; kv_main remote_argv 0) [] = Ok (Http_new k) [t] ∧ serves_table 1000 k.
Proof.
  destruct (kv_remote_serves ProgramWitness.always_sends ProgramWitness.counting_source
    server_argv server_settings (lit "c") (lit "k") file_tls the_listener 9443
    remote_argv (mkArgs 8080 9443 (Some (lit "wss://localhost:9443/rdows")) None true)
    (lit "wss://localhost:9443/rdows") (mkClientConfig InsecureVerifier false) file_cert [] the_listener 0 1000)
    as (k & Hrun & Hs); [done..|]. eexists k, _. exact (conj Hrun Hs).
Defined.
End MainWitness.
